(* ===== verification/_CoqProject ===== *)
-Q . S2P
Prelude.v
ThreadPool.v
Model.v
Rules.v
Text.v
Scan.v
Double.v
DoubleBounds.v
Motion.v
Collision.v
Arrival.v
Arbiter.v
ArbiterSteps.v
CollisionSpec.v
Lifecycle.v
Engine.v
EngineSpec.v
EngineTheorems.v
Settling.v
Overflow.v
LoneMove.v
Json.v
Redis.v
Nats.v
Matchmaking.v
MatchmakingTheorems.v
Allocator.v
Observers.v
Codecs.v
Session.v
SessionTheorems.v
ClientNet.v
Registry.v
RegistryTheorems.v
Reconnect.v
Stores.v
BoardIO.v
Server.v
Users.v
Postgres.v
ClientInput.v
WsClient.v
Desk.v
HomeView.v
Window.v
Img.v
Sprites.v
SpriteTheorems.v
Drawing.v
DrawingTheorems.v
Script.v
ServerTheorems.v
WsGateway.v
ApiGateway.v
Tokens.v
History.v
Process.v
Scenarios.v
UnitTests.v
DrawingDemos.v
Wire.v
ServiceDemos.v
ClientDemos.v
GatewayDemos.v
ClientJoin.v
WindowGame.v
DeskDemos.v
Seating.v
