(* ===== verification/Prelude.v ===== *)
(** * Kung Fu Chess: a verification library

    Kung Fu Chess is chess without turns: any piece may move at any time, a move
    takes time, and pieces meet on the way.  The server simulates the games, a
    matchmaker and an allocator bring players together, two gateways stand
    between them and the clients, and a client shows the game.  This library is
    a shallow embedding of the C++ under [src/Kung_Fu_Chess]: each file models a
    part, function by function and under the functions' own names, and proves
    what makes it correct.  Paths below are relative to [src/Kung_Fu_Chess].

    ** Conventions

    - An [int] is a [Z]; where a value comes from outside (JSON, scripts) its
      width is checked or wrapped as the code does ([getInt], [stoi],
      [int_range]), and theorems that need a value to fit say so.  (A JSON double
      outside an [int] is undefined in C++; [getInt] wraps it, as the compilers'
      code happens to, and no theorem relies on it.)  A [double] is
      the binary64 format of [SpecFloat] with the operations of the hardware
      ([Double.v]).  A [std::string] is a [string] of bytes; [c_str] cuts at NUL.
    - A function that throws returns [result]: [Ok] or [Throw] with [what()].
      Undefined behaviour is [None] or a separate outcome, never a value.
    - A loop over an [unordered_map] goes through [hash_iter], some list of the
      entries: theorems hold for every order.  Runs use [sorted_iter].
    - Objects that share state by reference (the arbiter and its resolvers, the
      gateway's links) share a state record; mutation is state passing.
    - Concurrency is a step relation whose steps are the code's atomic sections:
      a critical section, one Redis command, one handler of an event loop.
    - Code that is not in the repository is an interface with the laws its
      documentation states: [JsonText] (the JSON library's text), [Redis],
      [UserStore], [ClientSessionStore], [RoomDirectory], [OpenCV] (sizes and
      channels of images), [GamesTable] (the types and the order of a table).
      The files of runs instantiate them concretely, so no law is empty.

    ** The game core ([server/engine], [server/realtime], [server/rules], [shared/model])

    - [Model.v]: [Position], [Piece], the state machine, [Board] ([shared/model]).
    - [Rules.v]: every [*Rules.cpp], [rule_engine.cpp].  [validateMove_legal]:
      the validator decides the legal moves, stated as a predicate on
      squares, and where they go beyond the document's rules;
      [validateMove_reason]: each refusal names the rule;
      [slideOneDirection_reaches]: the slide's loop reaches exactly the squares
      up to the first obstacle, and ends.
    - [Motion.v], [Collision.v], [Arrival.v], [Arbiter.v]: [MotionPath.cpp],
      [CollisionResolver.cpp], [ArrivalResolver.cpp], [RealTimeArbiter.cpp];
      [pathCheckpoints_walk] gives the squares of a path and bounds their times.
    - [ArbiterSteps.v]: all of these are sequences of a few primitive effects
      ([astep]); what an effect keeps, every operation keeps: [tick_board_ok],
      [tick_material] (no piece lost or duplicated), [tick_reports].
    - [CollisionSpec.v]: the nested loops of the collision resolver against
      relations on motions ([applyNearMiss_spec]).
    - [Lifecycle.v]: the invariant [arbiter_ok] ties each piece's state to its
      motion or cooldown; [tick_arbiter_ok], [resolveCollisions_winner] (who
      survives when motions meet).
    - [Engine.v], [EngineSpec.v], [EngineTheorems.v]: [GameEngine.cpp]; the
      answers of [requestMove], one for each situation ([requestMove_outcome]), the invariant [engine_ok] under every command,
      [play_material] over whole games, [game_over_final], [snapshot_pieces].
      The life-cycle theorems are for the real-time mode ([simultaneousMode]);
      material and boards are kept in both modes.
    - [Settling.v]: when commands stop, every game comes to rest, in ticks of any
      lengths ([game_settles]).
    - [LoneMove.v]: a move on a quiet board from the request to the landing,
      whatever the lengths of the ticks ([free_move_lands]).
    - [Overflow.v]: the values that the engine's [int] arithmetic takes, and that
      they fit ([ints_fit]); after any commands, admissible or not, nothing that
      flies has arrived ([play_flies]).
    - [BoardIO.v]: [BoardParser.cpp], [BoardPrinter.cpp], the starting board:
      what is accepted is playable, what is printed is read back.
    - [Observers.v]: score, move log and capture notices as folds over the
      arbiter's event trace.

    ** A shard ([server/app], [server/net], [server/concurrency])

    - [ThreadPool.v]: the worker pool, one step per critical section, spurious
      and lost wake-ups included: jobs run exactly once, the destructor drains.
    - [Session.v], [SessionTheorems.v]: a room's game, with its simulation step
      and its delivery step; [notifications_exact] (what is delivered is the
      engine's trace, in order, each entry once), [result_published_once].
    - [Registry.v], [RegistryTheorems.v]: rooms, seats, reservations, disconnect
      countdowns: [registry_consistent], [seats_given_once], [countdown_expires].
    - [Reconnect.v]: one countdown followed through any other events of the shard:
      [reconnect_in_time].
    - [Server.v], [ServerTheorems.v]: handlers, dispatcher, bus, the event loop:
      [process_authorised] (only one's own pieces), [broadcasts_stay_in_room],
      [process_unreadable], [elo_zero_sum].
    - [Users.v]: the SQLite table of users ([account_kept]).
    - [Postgres.v]: [PostgresUserRepository.cpp], [PostgresGameHistoryRepository.cpp]:
      the same answers as SQLite ([postgres_users_agree]), also when statements
      fail ([postgres_login_safe]); the games as recorded, newest first
      ([history_roundtrip]).
    - [Stores.v]: the stores in Redis; [directory_mirrors_rooms], for one shard
      among other writers.

    ** Between the processes

    - [Text.v], [Scan.v], [Json.v], [Codecs.v]: streams, numbers, JSON values,
      the wire formats with their round trips.
    - [DoubleBounds.v]: bounds on rounded arithmetic, for what is drawn to scale.
    - [Nats.v]: [NatsClient.cpp]: a message is handled as sent
      ([publish_handled]), a request is a call with all its outcomes
      ([request_answered]), a malformed one is refused or ends the service
      ([request_malformed]).
    - [Redis.v], [Matchmaking.v], [MatchmakingTheorems.v]: any number of
      matchmaker replicas, interleaved at single commands: [pairs_fair],
      [tickets_kept], [request_outcome].
    - [Allocator.v]: the least loaded shard, fresh room names ([rooms_unique]).
    - [Seating.v]: matchmaker, allocator and shard composed
      ([matched_pair_seated]).
    - [WsGateway.v]: the proxy; [gateway_transparent], [routed_to_live_shard].
    - [ApiGateway.v]: the REST routes; [requests_answered_once] (up to and
      including a handler that throws),
      [login_end_to_end] (composed with the shard's own login), [token_required].
    - [Tokens.v]: [makeToken]; distinct draws give distinct tickets, so that a
      run with drawn tickets is one that answers its requests ([draws_suffice]).
    - [History.v]: the results of games through [GameHistoryService], Postgres and
      GET [/history] ([history_page]).
    - [Process.v]: every [main]: what it reads from the environment, how it ends
      ([server_starts], [apiGateway_ends]), the answers to [/metrics], and the heartbeats of the
      shards composed with the allocator and the gateways that hear them
      ([fleet_view], [dead_shard_starves]).

    ** The client ([client], [shared/input], [texttests])

    - [ClientNet.v]: the screen's state and the sounds: [client_shows_game],
      [client_follows_server] (the session's log, move by move),
      [capture_heard_once].
    - [ClientInput.v]: pixels, squares, the two-click state machine, the message
      and what the shard makes of it ([click_reaches_server]).
    - [WsClient.v]: the connection with its network thread: [sends_in_order].
    - [Desk.v], [HomeView.v], [Window.v]: the program from its start, in a monad
      whose effects are a trace and whose inputs (clicks, texts, answers) are
      supplied: the login dialog ([login_three_attempts]), the home screen
      ([one_search_at_a_time], [home_leaves_seated]), the window and its loop
      ([drag_resizes], [renderLoop_total], [game_over_heard]).
    - [ClientJoin.v]: client, REST gateway and shard composed: from the Room
      button to the seat and the window that opens on it ([client_joins_room]).
    - [WindowGame.v]: the render loop and the room composed: what the frames show
      of the moves, and what the panels write ([window_follows_room]).
    - [Img.v]: [img.cpp] over images that are shared by their handles, each with
      what was drawn on it.  [Sprites.v], [SpriteTheorems.v]: the files, their
      configurations, the caches ([getSprite_uncached]), the frame of an animation
      ([selectAnimationFrame_spec]), the sounds.  [Drawing.v],
      [DrawingTheorems.v]: [ImageView::render]: on the usual board a frame is drawn
      from what it is given alone, with exactly the pieces of the snapshot
      ([render_draws]), and never fails in a game, whatever was commanded
      ([game_drawn]).
    - [Script.v]: the integration harness; the repository's scripts pass.
    - [UnitTests.v]: the repository's 163 unit tests of the rules, the arbiter with
      its resolvers and the engine, statement by statement: they pass on the model.

    ** Runs

    [Scenarios.v], [Wire.v], [ServiceDemos.v], [ClientDemos.v], [GatewayDemos.v],
    [DeskDemos.v], [DrawingDemos.v], [Seating.v] apply the theorems to concrete
    games, rooms, tables and frames, and show defects by runs: a king whose loss
    goes unnoticed, a reused room name, a stale countdown, one that is cancelled too late, two tickets that wait
    for each other, a selected enemy piece, a panel that overflows, a wide board
    that is not drawn, a dead shard that is asked for every match.

    ** Bounds and fuel

    Loops are structural recursion over the list or count the code walks; the
    few that are not take fuel that is proved enough ([slideOneDirection_reaches]
    for the slide).  The thread pool's termination is
    by a measure on its steps.  Time stamps and clocks are unbounded
    integers; [Overflow.v] proves that the engine's arithmetic fits an [int] in a
    game of up to 24 days ([ints_fit]).

    ** Not modelled

    What OpenCV does to pixels and files, what Windows, WinHTTP, libpq, libnats,
    asio and websocketpp do: their calls are outputs of the model, their answers
    inputs.  The strokes of the home screen (its vignette, title and the two
    buttons of [HomeScreenView.cpp]), the creation of the windows of
    [RoomDialog.cpp] and the conversions to UTF-16 that they and [HttpClient.cpp]
    call.  The configuration of the log.  The forms of a number that
    [std::stod] reads and no file of the repository uses (hexadecimal,
    infinities).  The vendored libraries.  A timer of asio is its pending wait and, once the
    wait is over, its queued handler, which [cancel] no longer reaches, as asio
    documents.  A callback of the bus runs as one
    step, while the library gives each subscription a thread of its own.
    Between [computeStep] on a worker thread and a request on the event loop
    there is a data race in the code; the model runs each as one step.  The
    mutexes of [ShardRegistry] and of the client's state make their sections
    steps. *)
From stdpp Require Export base gmap sets list strings numbers option sorting.
From Stdlib Require Export ZArith Lia.

#[global] Set Default Proof Using "Type".
#[global] Open Scope Z_scope.
#[global] Generalizable All Variables.

(** ** Exceptions

    A C++ function that may throw [std::runtime_error] (or a json exception)
    returns a [result]: the value, or the text [what()] would give. *)
Inductive result (A : Type) : Type :=
  | Ok (a : A)
  | Throw (what : string).
Arguments Ok {A} a.
Arguments Throw {A} what.

#[export] Instance result_ret : MRet result := @Ok.
#[export] Instance result_bind : MBind result := λ A B f r,
  match r with Ok a => f a | Throw e => Throw e end.
#[export] Instance result_fmap : FMap result := λ A B f r,
  match r with Ok a => Ok (f a) | Throw e => Throw e end.

Definition of_option {A} (e : string) (o : option A) : result A :=
  match o with Some a => Ok a | None => Throw e end.

Fixpoint mapR {A B} (f : A → result B) (l : list A) : result (list B) :=
  match l with
  | [] => Ok []
  | x :: l => y ← f x; ys ← mapR f l; Ok (y :: ys)
  end.

Lemma result_bind_Ok {A B} (f : A → result B) a : (Ok a ≫= f) = f a.
Proof. reflexivity. Qed.

Lemma mapR_map_Ok {A B C} (f : A → B) (g : B → result C) (h : A → C) l :
  (∀ x, x ∈ l → g (f x) = Ok (h x)) → mapR g (map f l) = Ok (map h l).
Proof.
  induction l as [|x l IH]; intros Hf; simpl; [done|].
  rewrite Hf by left. rewrite result_bind_Ok, IH; [done|].
  intros y Hy. apply Hf. by right.
Qed.

Lemma mapR_length {A B} (f : A → result B) l ys :
  mapR f l = Ok ys → length ys = length l.
Proof.
  revert ys. induction l as [|x l IH]; intros ys; simpl; [by intros [= <-]|].
  destruct (f x) as [y|e]; simpl; [|done].
  destruct (mapR f l) as [zs|e]; simpl; [|done].
  intros [= <-]. simpl. f_equal. by apply IH.
Qed.

(** ** Iteration over an [std::unordered_map]

    The standard leaves the order in which a hash map is walked unspecified.
    Every loop of the code over one goes through [hash_iter]: some list of all
    its entries, each once.  The theorems hold for every such order. *)
Class HashIter := {
  hash_iter : ∀ {A : Type}, gmap Z A → list (Z * A);
  hash_iter_perm : ∀ {A : Type} (m : gmap Z A), hash_iter m ≡ₚ map_to_list m
}.

(** One possible order, used to evaluate concrete runs. *)
Definition sorted_iter : HashIter :=
  {| hash_iter := λ A m, map_to_list m; hash_iter_perm := λ A m, reflexivity _ |}.

Section HashIter.
Context `{HashIter}.

Lemma elem_of_hash_iter {A} (m : gmap Z A) k v :
  (k, v) ∈ hash_iter m ↔ m !! k = Some v.
Proof. rewrite (hash_iter_perm m). apply elem_of_map_to_list. Qed.

Lemma hash_iter_keys_NoDup {A} (m : gmap Z A) : NoDup (hash_iter m).*1.
Proof. rewrite (hash_iter_perm m). apply NoDup_fst_map_to_list. Qed.

Lemma hash_iter_empty {A} : hash_iter (∅ : gmap Z A) = [].
Proof. apply Permutation_nil. rewrite (hash_iter_perm (∅ : gmap Z A)). by rewrite map_to_list_empty. Qed.
End HashIter.

(** ** Loops *)

(** [for (i = 0; i < n; ++i) for (j = i + 1; j < n; ++j)]: the pairs of a
    vector in the order of the nested loop. *)
Fixpoint pairs {A} (l : list A) : list (A * A) :=
  match l with
  | [] => []
  | x :: l => map (pair x) l ++ pairs l
  end.

(** The elements of a vector with their index. *)
Definition indexed {A} (l : list A) : list (nat * A) := imap pair l.

Lemma elem_of_pairs {A} (l : list A) x y :
  (x, y) ∈ pairs l ↔ ∃ i j, (i < j)%nat ∧ l !! i = Some x ∧ l !! j = Some y.
Proof.
  induction l as [|z l IH]; simpl.
  - split; [by intros ?%elem_of_nil|]. intros (i & j & _ & H & _). done.
  - rewrite elem_of_app, list_elem_of_fmap, IH. split.
    + intros [(y' & [= -> ->] & Hy)|(i & j & Hij & Hi & Hj)].
      * apply list_elem_of_lookup in Hy as [j Hj]. exists 0%nat, (S j). auto with lia.
      * exists (S i), (S j). auto with lia.
    + intros ([|i] & [|j] & Hij & Hi & Hj); simplify_eq/=; try lia.
      * left. exists y. split; [done|]. by eapply list_elem_of_lookup_2.
      * right. exists i, j. auto with lia.
Qed.

Lemma elem_of_pairs_either {A} (l : list A) x y :
  x ∈ l → y ∈ l → x ≠ y → (x, y) ∈ pairs l ∨ (y, x) ∈ pairs l.
Proof.
  intros [i Hi]%list_elem_of_lookup [j Hj]%list_elem_of_lookup Hne. rewrite !elem_of_pairs.
  assert (i ≠ j) by congruence. destruct (decide (i < j)%nat).
  - left. by exists i, j.
  - right. exists j, i. split_and!; [lia|done..].
Qed.

Lemma elem_of_pairs_both {A} (l : list A) x y : (x, y) ∈ pairs l → x ∈ l ∧ y ∈ l.
Proof. intros (i & j & _ & ? & ?)%elem_of_pairs. eauto using list_elem_of_lookup_2. Qed.

Lemma elem_of_indexed {A} (l : list A) i x :
  (i, x) ∈ indexed l ↔ l !! i = Some x.
Proof.
  unfold indexed. split.
  - intros [j Hj]%list_elem_of_lookup. rewrite list_lookup_imap in Hj.
    destruct (l !! j) eqn:E; simplify_eq/=. done.
  - intros H. apply list_elem_of_lookup. exists i. by rewrite list_lookup_imap, H.
Qed.

Lemma indexed_snd {A} (l : list A) : (indexed l).*2 = l.
Proof.
  apply list_eq. intros i. unfold indexed. rewrite list_lookup_fmap, list_lookup_imap.
  by destruct (l !! i).
Qed.

Lemma filter_id {A} (P : A → Prop) `{!∀ x, Decision (P x)} (l : list A) :
  (∀ x, x ∈ l → P x) → filter P l = l.
Proof.
  induction l as [|x l IH]; intros Hl; [done|]. rewrite filter_cons, decide_True by (apply Hl; left).
  f_equal. apply IH. intros y Hy. apply Hl. by right.
Qed.

Lemma foldl_reverse {A S} (f : S → A → S) (l : list A) s :
  foldl f s (reverse l) = foldr (λ x s, f s x) s l.
Proof.
  induction l as [|x l IH]; [done|]. rewrite reverse_cons, foldl_app. simpl. by rewrite IH.
Qed.

(** An invariant carried through a [foldl]. *)
Lemma foldl_ind {A S} (P : S → Prop) (f : S → A → S) l s :
  P s → (∀ s x, x ∈ l → P s → P (f s x)) → P (foldl f s l).
Proof.
  revert s. induction l as [|x l IH]; intros s Hs Hf; simpl; [done|].
  apply IH.
  - apply Hf; [left|done].
  - intros s' y Hy. apply Hf. by right.
Qed.

(** A flag that any element may raise. *)
Lemma foldl_or {A S} (I P : S → Prop) (Q : A → Prop) (f : S → A → S) l s :
  I s → (∀ s x, I s → I (f s x)) → (∀ s x, I s → P (f s x) ↔ P s ∨ Q x) →
  P (foldl f s l) ↔ P s ∨ ∃ x, x ∈ l ∧ Q x.
Proof.
  intros HI Hf HP. revert s HI. induction l as [|x l IH]; intros s HI; simpl.
  - set_solver.
  - rewrite IH, HP by auto. set_solver.
Qed.

(** The result of a [foldl] whose steps commute does not depend on the order. *)
Lemma foldl_perm {A S} (f : S → A → S) l1 l2 s :
  (∀ s x y, x ∈ l1 → y ∈ l1 → f (f s x) y = f (f s y) x) →
  l1 ≡ₚ l2 → foldl f s l1 = foldl f s l2.
Proof.
  intros Hc Hp. revert s Hc.
  induction Hp as [|x l l' Hp IH|x y l|l l' l'' Hp1 IH1 Hp2 IH2]; intros s Hc; simpl.
  - done.
  - apply IH. intros. apply Hc; by right.
  - f_equal. apply Hc; set_solver.
  - rewrite IH1 by done. apply IH2. intros. apply Hc; by rewrite Hp1.
Qed.

(** ** 32-bit [int] *)
Definition INT_MAX : Z := 2147483647.
Definition INT_MIN : Z := -2147483648.
Definition int_range (z : Z) : Prop := INT_MIN ≤ z ≤ INT_MAX.
#[export] Instance int_range_dec z : Decision (int_range z).
Proof. unfold int_range. apply _. Defined.

(** ** Automation *)

(** The lemmas that describe the components' operations (rewriting), and the
    facts the invariants are made of (resolution). *)
Create HintDb kfc discriminated.
Create Rewrite HintDb kfc.
#[export] Hint Rewrite @result_bind_Ok : kfc.
#[export] Hint Resolve list_elem_of_lookup_2 : kfc.

Ltac deex :=
  repeat match goal with
  | H : ∃ x, _ |- _ => let y := fresh x in destruct H as [y H]
  end.

(** Turn boolean tests in hypotheses into propositions. *)
Ltac b2p :=
  repeat match goal with
  | H : _ && _ = true |- _ => apply andb_true_iff in H as [? ?]
  | H : _ || _ = false |- _ => apply orb_false_iff in H as [? ?]
  | H : negb _ = true |- _ => apply negb_true_iff in H
  | H : negb _ = false |- _ => apply negb_false_iff in H
  | H : (_ =? _) = true |- _ => apply Z.eqb_eq in H
  | H : (_ =? _) = false |- _ => apply Z.eqb_neq in H
  | H : (_ <? _) = true |- _ => apply Z.ltb_lt in H
  | H : (_ <? _) = false |- _ => apply Z.ltb_ge in H
  | H : (_ <=? _) = true |- _ => apply Z.leb_le in H
  | H : (_ <=? _) = false |- _ => apply Z.leb_gt in H
  | H : bool_decide _ = true |- _ => apply bool_decide_eq_true in H
  | H : bool_decide _ = false |- _ => apply bool_decide_eq_false in H
  end.
