(* ===== verification/ThreadPool.v ===== *)
(** * The worker pool ([server/concurrency/ThreadPool])

    A fixed number of worker threads, one queue of jobs, one mutex, one
    condition variable.  Each section of code under the mutex is one step, so a
    run of the pool is a sequence of steps of its threads in any order; a job
    is a number, and what it does is not the pool's business.  Jobs do not
    throw: an exception that leaves a worker ends the process. *)
From S2P Require Import Prelude.
From stdpp Require Import relations.

(** Where a worker is in [workerLoop]: about to test the predicate of the wait
    (the mutex free), asleep in the condition variable, running a job outside
    the mutex, returned. *)
Inductive Worker :=
  | Testing
  | Sleeping
  | Running (job : Z)
  | Exited.

#[export] Instance Worker_eq_dec : EqDecision Worker.
Proof. solve_decision. Defined.

(** [notifies] counts the submits that have pushed their job and not yet
    notified, [notifyAll] is the destructor between setting the flag and
    notifying.  [submitted], [started] and [finished] record the history. *)
Record ThreadPool := mkPool {
  workers_ : list Worker;
  jobs_ : list Z;
  stopping_ : bool;
  notifies : nat;
  notifyAll : bool;
  submitted : list Z;
  started : list Z;
  finished : list Z
}.

(** [ThreadPool::ThreadPool]: never without a worker. *)
Definition newPool (threadCount : nat) : ThreadPool :=
  mkPool (replicate (if Nat.eqb threadCount 0 then 1 else threadCount) Testing) [] false 0 false [] [] [].

(** [submit], under the mutex: the job is queued. *)
Definition submitPush (job : Z) (p : ThreadPool) : ThreadPool :=
  mkPool (workers_ p) (jobs_ p ++ [job]) (stopping_ p) (S (notifies p)) (notifyAll p)
    (submitted p ++ [job]) (started p) (finished p).

Definition setWorker (i : nat) (w : Worker) (p : ThreadPool) : ThreadPool :=
  mkPool (<[i := w]> (workers_ p)) (jobs_ p) (stopping_ p) (notifies p) (notifyAll p)
    (submitted p) (started p) (finished p).

Definition setNotifies (n : nat) (p : ThreadPool) : ThreadPool :=
  mkPool (workers_ p) (jobs_ p) (stopping_ p) n (notifyAll p) (submitted p) (started p) (finished p).

Definition isSleeping (w : Worker) : bool := match w with Sleeping => true | _ => false end.
Definition wake (w : Worker) : Worker := match w with Sleeping => Testing | w => w end.

(** [cv_.notify_one()]: it wakes the worker chosen, when there is one asleep. *)
Definition notifyOne (chosen : option nat) (p : ThreadPool) : ThreadPool :=
  match chosen with
  | Some i => setNotifies (pred (notifies p)) (setWorker i Testing p)
  | None => setNotifies (pred (notifies p)) p
  end.

(** The destructor: the flag under the mutex, then [cv_.notify_all()]. *)
Definition stop (p : ThreadPool) : ThreadPool :=
  mkPool (workers_ p) (jobs_ p) true (notifies p) true (submitted p) (started p) (finished p).
Definition notify_all (p : ThreadPool) : ThreadPool :=
  mkPool (wake <$> workers_ p) (jobs_ p) (stopping_ p) (notifies p) false (submitted p) (started p) (finished p).

(** [workerLoop]: one pass of worker [i], from where it is to where it next
    lets go of the mutex. *)
Definition workerLoop (i : nat) (p : ThreadPool) : option ThreadPool :=
  match workers_ p !! i with
  | Some Testing =>
    if negb (stopping_ p || negb (bool_decide (jobs_ p = []))) then Some (setWorker i Sleeping p)
    else if stopping_ p && bool_decide (jobs_ p = []) then Some (setWorker i Exited p)
    else match jobs_ p with
         | [] => None
         | job :: jobs =>
           Some (mkPool (<[i := Running job]> (workers_ p)) jobs (stopping_ p) (notifies p) (notifyAll p)
                   (submitted p) (started p ++ [job]) (finished p))
         end
  | Some (Running job) =>
    Some (mkPool (<[i := Testing]> (workers_ p)) (jobs_ p) (stopping_ p) (notifies p) (notifyAll p)
            (submitted p) (started p) (finished p ++ [job]))
  | _ => None
  end.

(** Nobody submits once the destructor runs. *)
Inductive pool_step : ThreadPool → ThreadPool → Prop :=
  | PoolSubmit p job : stopping_ p = false → pool_step p (submitPush job p)
  | PoolNotify p i : (0 < notifies p)%nat → workers_ p !! i = Some Sleeping → pool_step p (notifyOne (Some i) p)
  | PoolNotifyNobody p : (0 < notifies p)%nat → Sleeping ∉ workers_ p → pool_step p (notifyOne None p)
  | PoolStop p : stopping_ p = false → pool_step p (stop p)
  | PoolNotifyAll p : notifyAll p = true → pool_step p (notify_all p)
  | PoolSpurious p i : workers_ p !! i = Some Sleeping → pool_step p (setWorker i Testing p)
  | PoolWorker p i p' : workerLoop i p = Some p' → pool_step p p'.

(** The same steps as a function, to run the pool on concrete inputs. *)
Inductive PoolOp :=
  | DoSubmit (job : Z)
  | DoNotify (chosen : option nat)
  | DoStop
  | DoNotifyAll
  | DoWork (i : nat).

Definition poolOp (o : PoolOp) (p : ThreadPool) : option ThreadPool :=
  match o with
  | DoSubmit job => if stopping_ p then None else Some (submitPush job p)
  | DoNotify (Some i) =>
    if decide ((0 < notifies p)%nat ∧ workers_ p !! i = Some Sleeping) then Some (notifyOne (Some i) p) else None
  | DoNotify None =>
    if decide ((0 < notifies p)%nat ∧ Sleeping ∉ workers_ p) then Some (notifyOne None p) else None
  | DoStop => if stopping_ p then None else Some (stop p)
  | DoNotifyAll => if notifyAll p then Some (notify_all p) else None
  | DoWork i => workerLoop i p
  end.

Fixpoint poolOps (os : list PoolOp) (p : ThreadPool) : option ThreadPool :=
  match os with [] => Some p | o :: os => p ← poolOp o p; poolOps os p end.

Lemma poolOps_reach os p p' : poolOps os p = Some p' → rtc pool_step p p'.
Proof.
  revert p. induction os as [|o os IH]; intros p; simpl; [by intros [= ->]|].
  intros (q & Ho & Hq)%bind_Some. apply rtc_l with q; [|by apply IH].
  destruct o as [job|[i|]| | |i]; simpl in Ho; repeat case_decide; destruct_and?;
    try destruct (stopping_ p) eqn:?; try destruct (notifyAll p) eqn:?; simplify_eq; eauto using pool_step.
Qed.

(** ** What a run keeps *)

Definition runningJob (w : Worker) : option Z := match w with Running j => Some j | _ => None end.
Definition awake (w : Worker) : bool := match w with Testing | Running _ => true | _ => false end.

Record pool_ok (p : ThreadPool) : Prop := {
  pool_fifo : submitted p = started p ++ jobs_ p;
  pool_once : started p ≡ₚ finished p ++ omap runningJob (workers_ p);
  pool_staffed : workers_ p ≠ [];
  pool_exited : Exited ∈ workers_ p → stopping_ p = true ∧ jobs_ p = [];
  pool_awake : jobs_ p ≠ [] → (0 < notifies p)%nat ∨ ∃ w, w ∈ workers_ p ∧ awake w = true;
  pool_told : stopping_ p = true → notifyAll p = true ∨ Sleeping ∉ workers_ p
}.

Lemma insert_not_nil {A} (i : nat) (x : A) (l : list A) : l ≠ [] → <[i := x]> l ≠ [].
Proof. by destruct l, i. Qed.

(** Moving one worker: its job, if it had one, is the only one that changes. *)
Lemma omap_insert_perm i w w' l :
  l !! i = Some w →
  option_list (runningJob w) ++ omap runningJob (<[i := w']> l) ≡ₚ option_list (runningJob w') ++ omap runningJob l.
Proof.
  intros Hi. pose proof (lookup_lt_Some _ _ _ Hi) as Hlt.
  assert (∀ v k, omap runningJob (v :: k) = option_list (runningJob v) ++ omap runningJob k) as Hc.
  { intros v k. simpl. by destruct (runningJob v). }
  rewrite insert_take_drop by done. rewrite <-(take_drop_middle l i w Hi) at 3.
  rewrite !omap_app, !Hc. solve_Permutation.
Qed.

Lemma elem_of_insert_inv {A} (i : nat) (x y : A) (l : list A) : y ∈ <[i := x]> l → y = x ∨ y ∈ l.
Proof.
  intros [j Hj]%list_elem_of_lookup. destruct (decide (i = j)) as [->|Hne].
  - destruct (decide (j < length l)%nat).
    + rewrite list_lookup_insert_eq in Hj by done. left. congruence.
    + rewrite list_insert_ge in Hj by lia. right. by eapply list_elem_of_lookup_2.
  - rewrite list_lookup_insert_ne in Hj by done. right. by eapply list_elem_of_lookup_2.
Qed.

Lemma elem_of_insert_self {A} (i : nat) (x y : A) (l : list A) : l !! i = Some y → x ∈ <[i := x]> l.
Proof.
  intros Hi. eapply list_elem_of_lookup_2, list_lookup_insert_eq. by eapply lookup_lt_Some.
Qed.

Lemma newPool_ok n : pool_ok (newPool n).
Proof.
  assert (∀ k, omap runningJob (replicate k Testing) = []) as Hr by (intros k; by induction k).
  split; simpl; try done.
  - by rewrite Hr.
  - by destruct n.
  - by intros [Hx _]%elem_of_replicate.
Qed.

(** Waking a sleeper. *)
Lemma wake_one_ok p i n :
  pool_ok p → workers_ p !! i = Some Sleeping →
  pool_ok (setNotifies n (setWorker i Testing p)).
Proof.
  intros [] Hi. split; simpl; try done.
  - pose proof (omap_insert_perm i Sleeping Testing _ Hi) as E. simpl in E. by rewrite E.
  - by apply insert_not_nil.
  - intros [|]%elem_of_insert_inv; [done|auto].
  - intros _. right. exists Testing. split; [by eapply elem_of_insert_self|done].
  - intros Hs. destruct (pool_told0 Hs) as [|Hn]; [by left|]. right. intros [|]%elem_of_insert_inv; done.
Qed.

Lemma setWorker_ok p i : pool_ok p → workers_ p !! i = Some Sleeping → pool_ok (setWorker i Testing p).
Proof. intros Hp Hi. exact (wake_one_ok p i (notifies p) Hp Hi). Qed.

Lemma omap_wake (ws : list Worker) : omap runningJob (wake <$> ws) = omap runningJob ws.
Proof. induction ws as [|w ws IH]; [done|]. rewrite fmap_cons. destruct w; csimpl; by rewrite IH. Qed.

Lemma notify_all_ok p : pool_ok p → pool_ok (notify_all p).
Proof.
  intros []. split; simpl; try done.
  - by rewrite omap_wake.
  - by destruct (workers_ p).
  - intros ([] & [=] & Hw)%list_elem_of_fmap. auto.
  - intros Hj. destruct (pool_awake0 Hj) as [|(w & Hw & Ha)]; [by left|]. right. exists (wake w).
    split; [apply list_elem_of_fmap; eauto|by destruct w].
  - intros _. right. by intros ([] & [=] & _)%list_elem_of_fmap.
Qed.

(** With every worker awake or gone, a queued job has a worker awake. *)
Lemma nobody_sleeps p :
  pool_ok p → Sleeping ∉ workers_ p → jobs_ p ≠ [] → ∃ w, w ∈ workers_ p ∧ awake w = true.
Proof.
  intros [] Hs Hj. destruct (workers_ p) as [|w ws] eqn:E; [done|]. exists w. split; [left|].
  destruct w; try done; exfalso; [apply Hs; left|apply Hj, pool_exited0; left].
Qed.

Lemma workerLoop_ok p i p' : pool_ok p → workerLoop i p = Some p' → pool_ok p'.
Proof.
  intros Hp. pose proof Hp as []. unfold workerLoop.
  destruct (workers_ p !! i) as [w|] eqn:Hi; [|done]. destruct w as [| |job|]; [|done| |done].
  - destruct (stopping_ p) eqn:Hs, (jobs_ p) as [|job jobs] eqn:Hj; simpl; intros [= <-]; split; simpl;
      rewrite ?Hs, ?Hj; try done; try (by apply insert_not_nil).
    all: try (pose proof (omap_insert_perm i Testing Exited _ Hi) as E1; simpl in E1; by rewrite E1).
    all: try (pose proof (omap_insert_perm i Testing Sleeping _ Hi) as E2; simpl in E2; by rewrite E2).
    all: try (pose proof (omap_insert_perm i Testing (Running job) _ Hi) as E3; simpl in E3;
              rewrite E3, pool_once0; solve_Permutation).
    all: try (rewrite pool_fifo0, <-app_assoc; done).
    all: try (intros [|Hx]%elem_of_insert_inv; [done|]; destruct (pool_exited0 Hx); congruence).
    all: try (intros _; right; eexists; split; [by eapply elem_of_insert_self|done]).
    all: intros _; destruct (pool_told0 eq_refl); [by left|right; by intros [|]%elem_of_insert_inv].
  - intros [= <-]. split; simpl; try done; try (by apply insert_not_nil).
    + pose proof (omap_insert_perm i (Running job) Testing _ Hi) as E. simpl in E.
      rewrite pool_once0, <-E. solve_Permutation.
    + intros [|Hx]%elem_of_insert_inv; [done|auto].
    + intros _. right. exists Testing. split; [by eapply elem_of_insert_self|done].
    + intros Hs. destruct (pool_told0 Hs); [by left|]. right. by intros [|]%elem_of_insert_inv.
Qed.

Lemma pool_step_ok p p' : pool_ok p → pool_step p p' → pool_ok p'.
Proof.
  intros Hp Hst. destruct Hst as [p job Hs|p i _ Hi|p _ Hn|p Hs|p _|p i Hi|p i p' Hw].
  - destruct Hp. split; simpl; try done.
    + by rewrite pool_fifo0, app_assoc.
    + intros Hx. destruct (pool_exited0 Hx). congruence.
    + intros _. left. lia.
  - by apply wake_one_ok.
  - destruct Hp as [? ? ? ? ? ?] eqn:E. pose proof (nobody_sleeps p Hp Hn). clear E. split; simpl; auto.
  - destruct Hp. split; simpl; auto. intros Hx. destruct (pool_exited0 Hx). congruence.
  - by apply notify_all_ok.
  - by apply setWorker_ok.
  - by eapply workerLoop_ok.
Qed.

Lemma pool_reachable_ok n p : rtc pool_step (newPool n) p → pool_ok p.
Proof. intros Hr. eapply (rtc_ind_r pool_ok); eauto using newPool_ok, pool_step_ok. Qed.

(** ** The end of the pool *)

Definition workerWeight (w : Worker) : nat :=
  match w with Testing => 1 | Sleeping => 2 | Running _ => 2 | Exited => 0 end.
Definition drainMeasure (p : ThreadPool) : nat :=
  notifies p + 3 * length (jobs_ p) + sum_list_with workerWeight (workers_ p).

(** The destructor waits in [join]: it has set the flag and notified. *)
Definition joining (p : ThreadPool) : Prop :=
  stopping_ p = true ∧ notifyAll p = false ∧ Sleeping ∉ workers_ p.

Lemma weight_insert i w w' l :
  l !! i = Some w →
  (sum_list_with workerWeight (<[i := w']> l) + workerWeight w = sum_list_with workerWeight l + workerWeight w')%nat.
Proof.
  revert i. induction l as [|x l IH]; intros [|i] Hi; simpl in *; simplify_eq; [lia|].
  specialize (IH _ Hi). lia.
Qed.

Lemma joining_step p p' :
  joining p → pool_step p p' → joining p' ∧ (drainMeasure p' < drainMeasure p)%nat.
Proof.
  intros (Hst & Hna & Hsl) Hs. unfold joining, drainMeasure.
  assert (∀ i w, workers_ p !! i = Some w → w ≠ Sleeping) as Hw
    by (intros i w Hi ->; eapply Hsl, list_elem_of_lookup_2, Hi).
  assert (∀ i w, w ≠ Sleeping → Sleeping ∉ <[i := w]> (workers_ p)) as Hins
    by (intros i w ? [|]%elem_of_insert_inv; done).
  destruct Hs as [p job Hs|p i Hn Hi|p Hn _|p Hs|p Hs|p i Hi|p i p' Hl]; simpl; try congruence.
  - by destruct (Hw _ _ Hi).
  - split_and!; [done..|lia].
  - by destruct (Hw _ _ Hi).
  - unfold workerLoop in Hl. destruct (workers_ p !! i) as [w|] eqn:Hi; [|done].
    destruct w as [| |job|]; [|done| |done].
    + rewrite Hst in Hl. destruct (jobs_ p) as [|job jobs] eqn:Hj; simpl in Hl; simplify_eq; simpl;
        rewrite ?Hj; split_and!; auto; simpl.
      * pose proof (weight_insert i _ Exited _ Hi). simpl in *. lia.
      * pose proof (weight_insert i _ (Running job) _ Hi). simpl in *. lia.
    + simplify_eq. simpl. split_and!; auto. pose proof (weight_insert i _ Testing _ Hi). simpl in *. lia.
Qed.

Lemma joining_nsteps k p p' :
  joining p → nsteps pool_step k p p' → joining p' ∧ (k + drainMeasure p' ≤ drainMeasure p)%nat.
Proof.
  intros Hp Hk. revert Hp. induction Hk as [p|k p q p' Hs Hk IH]; intros Hp; [split; [done|lia]|].
  destruct (joining_step p q Hp Hs) as [Hq ?]. destruct (IH Hq). split; [done|lia].
Qed.

(** A joining pool that cannot move is finished. *)
Lemma joining_final p :
  joining p → (∀ p', ¬ pool_step p p') → (∀ w, w ∈ workers_ p → w = Exited) ∧ notifies p = 0%nat.
Proof.
  intros (Hst & Hna & Hsl) Hfin. split.
  - intros w Hw. apply list_elem_of_lookup in Hw as [i Hi].
    destruct w as [| |job|]; [exfalso| |exfalso|done].
    + destruct (workerLoop i p) as [p'|] eqn:Hl; [by eapply Hfin, PoolWorker|].
      unfold workerLoop in Hl. rewrite Hi, Hst in Hl. by destruct (jobs_ p).
    + exfalso. eapply Hsl, list_elem_of_lookup_2, Hi.
    + eapply (Hfin _), (PoolWorker p i). unfold workerLoop. by rewrite Hi.
  - destruct (notifies p) eqn:E; [done|]. exfalso. eapply Hfin, PoolNotifyNobody; [lia|done].
Qed.

Lemma pool_safe n p :
  rtc pool_step (newPool n) p →
  submitted p = started p ++ jobs_ p ∧
  started p ≡ₚ finished p ++ omap runningJob (workers_ p) ∧
  (Exited ∈ workers_ p → stopping_ p = true ∧ jobs_ p = []) ∧
  (jobs_ p ≠ [] → (0 < notifies p)%nat ∨ ∃ w, w ∈ workers_ p ∧ awake w = true).
Proof. by intros [? ? ? ? ? ?]%pool_reachable_ok. Qed.

Lemma pool_drained n p :
  rtc pool_step (newPool n) p → stopping_ p = true → notifyAll p = false →
  (∀ k p', nsteps pool_step k p p' → (k ≤ drainMeasure p)%nat) ∧
  ∀ p', rtc pool_step p p' → (∀ q, ¬ pool_step p' q) →
    (∀ w, w ∈ workers_ p' → w = Exited) ∧ finished p' ≡ₚ submitted p'.
Proof.
  intros Hr Hst Hna. assert (joining p) as Hj.
  { split_and!; [done..|]. destruct (pool_told p (pool_reachable_ok n p Hr) Hst); [congruence|done]. }
  split.
  - intros k p' Hk. destruct (joining_nsteps _ _ _ Hj Hk). lia.
  - intros p' Hp' Hfin. pose proof Hp' as [k Hk]%rtc_nsteps.
    destruct (joining_nsteps _ _ _ Hj Hk) as [Hj' _].
    destruct (joining_final p' Hj' Hfin) as [Hex _]. split; [done|].
    destruct (pool_reachable_ok n p') as []; [by etrans|].
    destruct (workers_ p') as [|w ws] eqn:Hw; [done|].
    assert (jobs_ p' = []) as Hjobs by (apply pool_exited0; rewrite (Hex w) by left; left).
    rewrite pool_fifo0, Hjobs, app_nil_r, pool_once0.
    assert (omap runningJob (w :: ws) = []) as ->; [|by rewrite app_nil_r].
    clear -Hex. induction (w :: ws) as [|x l IH]; [done|]. simpl. rewrite (Hex x) by left. simpl.
    apply IH. intros y Hy. apply Hex. by right.
Qed.

(** The queue is first in first out and loses nothing: in every reachable
    state the jobs submitted are those started, in that order, followed by those
    still queued; every started job is being run by one worker or finished; a
    worker returns only when the pool stops with an empty queue; and a queued
    job never waits for a sleeping pool: some worker is awake or about to be
    notified. *)
Theorem pool_exactly_once n p :
  rtc pool_step (newPool n) p →
  submitted p = started p ++ jobs_ p ∧
  started p ≡ₚ finished p ++ omap runningJob (workers_ p) ∧
  (Exited ∈ workers_ p → stopping_ p = true ∧ jobs_ p = []) ∧
  (jobs_ p ≠ [] → (0 < notifies p)%nat ∨ ∃ w, w ∈ workers_ p ∧ awake w = true).
Proof. exact (pool_safe n p). Qed.

(** C21 The destructor always comes back, and no job is dropped: once it has
    notified, every run is finite, bounded by the jobs and workers left, and can
    only end with every worker returned and every submitted job finished. *)
Theorem pool_drains n p :
  rtc pool_step (newPool n) p → stopping_ p = true → notifyAll p = false →
  (∀ k p', nsteps pool_step k p p' → (k ≤ drainMeasure p)%nat) ∧
  ∀ p', rtc pool_step p p' → (∀ q, ¬ pool_step p' q) →
    (∀ w, w ∈ workers_ p' → w = Exited) ∧ finished p' ≡ₚ submitted p'.
Proof. exact (pool_drained n p). Qed.

(** ** A pool at work: two workers, three jobs, a shutdown *)
Definition shutdownOps : list PoolOp :=
  [DoWork 0; DoWork 1; DoSubmit 7; DoNotify (Some 1%nat); DoWork 1; DoSubmit 8; DoSubmit 9; DoStop; DoNotifyAll].
Definition shutdownPool : ThreadPool := default (newPool 2) (poolOps shutdownOps (newPool 2)).

Lemma shutdownPool_reachable : rtc pool_step (newPool 2) shutdownPool.
Proof.
  apply (poolOps_reach shutdownOps). unfold shutdownPool.
  assert (match poolOps shutdownOps (newPool 2) with Some _ => true | None => false end = true) as Hrun by reflexivity.
  revert Hrun. generalize (poolOps shutdownOps (newPool 2)). by intros [p|].
Qed.

Lemma pool_exactly_once_witness :
  submitted shutdownPool = [7; 8; 9]%Z ∧ submitted shutdownPool = started shutdownPool ++ jobs_ shutdownPool ∧
  jobs_ shutdownPool ≠ [] ∧
  ((0 < notifies shutdownPool)%nat ∨ ∃ w, w ∈ workers_ shutdownPool ∧ awake w = true).
Proof.
  destruct (pool_exactly_once 2 shutdownPool shutdownPool_reachable) as (H1 & _ & _ & H4).
  split; [reflexivity|]. split; [exact H1|]. split; [discriminate|]. apply H4. discriminate.
Defined.

Lemma pool_drains_witness :
  (∀ k p', nsteps pool_step k shutdownPool p' → (k ≤ 11)%nat) ∧
  ∀ p', rtc pool_step shutdownPool p' → (∀ q, ¬ pool_step p' q) → finished p' ≡ₚ submitted p'.
Proof.
  destruct (pool_drains 2 shutdownPool shutdownPool_reachable eq_refl eq_refl) as [H1 H2].
  split; [exact H1|]. intros p' Hp Hq. exact (proj2 (H2 p' Hp Hq)).
Defined.
