(* ===== verification/Model.v ===== *)
(** * The board model ([shared/model])

    Positions, pieces with their life-cycle state machine
    ([PieceStateMachine.cpp]) and the flat-vector [Board].

    The C++ board holds [shared_ptr<Piece>]s.  A cell of [grid] is here the
    piece object it points to: no operation ever leaves one object in two
    cells ([movePiece] vacates the source in the same call), so writing
    through the pointer a cell holds is updating that cell. *)
From S2P Require Import Prelude.

(** ** [Position.h], [Piece.h] *)
Record Position := mkPos { row : Z; col : Z }.

Inductive Color := White | Black | NoColor.
Inductive Kind := King | Queen | Rook | Bishop | Knight | Pawn | NoKind.
Inductive State := Idle | Moving | Jump | ShortRest | LongRest | Captured.

#[export] Instance Position_eq_dec : EqDecision Position.
Proof. solve_decision. Defined.
#[export] Instance Color_eq_dec : EqDecision Color.
Proof. solve_decision. Defined.
#[export] Instance Kind_eq_dec : EqDecision Kind.
Proof. solve_decision. Defined.
#[export] Instance State_eq_dec : EqDecision State.
Proof. solve_decision. Defined.

#[export] Instance Position_countable : Countable Position.
Proof.
  refine (inj_countable' (λ p, (row p, col p)) (λ rc, mkPos rc.1 rc.2) _).
  by intros [].
Defined.

#[export] Instance Color_countable : Countable Color.
Proof.
  refine (inj_countable' (λ c, match c with White => 0%nat | Black => 1%nat | NoColor => 2%nat end)
    (λ n, match n with 0%nat => White | 1%nat => Black | _ => NoColor end) _).
  by intros [].
Defined.

(** [Position::operator==]. *)
Definition posEq (a b : Position) : bool := (row a =? row b) && (col a =? col b).
Definition posNeq (a b : Position) : bool := negb (posEq a b).

Lemma posEq_spec a b : posEq a b = true ↔ a = b.
Proof.
  unfold posEq. rewrite andb_true_iff, !Z.eqb_eq.
  destruct a, b; simpl; naive_solver.
Qed.

Lemma posEq_false a b : posEq a b = false ↔ a ≠ b.
Proof. rewrite <-posEq_spec. by destruct (posEq a b). Qed.

Lemma posEq_refl a : posEq a a = true.
Proof. by apply posEq_spec. Qed.
#[export] Hint Rewrite posEq_refl : kfc.

Definition colorEqb (a b : Color) : bool := bool_decide (a = b).
Definition kindEqb (a b : Kind) : bool := bool_decide (a = b).
Definition stateEqb (a b : State) : bool := bool_decide (a = b).

Record Piece := mkPieceRaw {
  getId : Z;
  getColor : Color;
  getKind : Kind;
  getCell : Position;
  getState : State
}.

#[export] Instance Piece_eq_dec : EqDecision Piece.
Proof. solve_decision. Defined.

(** [Piece::Piece]: a piece of kind [None] is always idle. *)
Definition mkPiece (id : Z) (color : Color) (kind : Kind) (cell : Position) (state : State) : Piece :=
  mkPieceRaw id color kind cell (if kindEqb kind NoKind then Idle else state).

(** [EmptyPiece::EmptyPiece] and [makeEmpty]. *)
Definition makeEmpty (pos : Position) : Piece := mkPiece 0 NoColor NoKind pos Idle.

(** ** [PieceStateMachine.cpp] *)
Definition kLegalTransitions : list (State * State) :=
  [ (Idle, Moving); (Idle, Jump); (Moving, LongRest); (Jump, ShortRest);
    (ShortRest, Idle); (LongRest, Idle) ].

Definition isLegalTransition (from to : State) : bool :=
  if stateEqb to Captured then true
  else existsb (λ t, stateEqb t.1 from && stateEqb t.2 to) kLegalTransitions.

Definition isBusyState (s : State) : bool := stateEqb s Moving || stateEqb s Jump.
Definition isRestingState (s : State) : bool := stateEqb s ShortRest || stateEqb s LongRest.

Definition stateFromString (name : string) : result State :=
  if String.eqb name "idle" then Ok Idle
  else if String.eqb name "move" then Ok Moving
  else if String.eqb name "jump" then Ok Jump
  else if String.eqb name "short_rest" then Ok ShortRest
  else if String.eqb name "long_rest" then Ok LongRest
  else Throw ("Unknown state name in config: " +:+ name).

Definition stateToFolderName (state : State) : result string :=
  match state with
  | Idle => Ok "idle"
  | Moving => Ok "move"
  | Jump => Ok "jump"
  | ShortRest => Ok "short_rest"
  | LongRest => Ok "long_rest"
  | Captured => Throw "No sprite folder for this state"
  end.

(** [Piece::promoteTo], [Piece::setCell]. *)
Definition promoteTo (newKind : Kind) (p : Piece) : Piece :=
  mkPieceRaw (getId p) (getColor p) newKind (getCell p) (getState p).
Definition setCell (pos : Position) (p : Piece) : Piece :=
  mkPieceRaw (getId p) (getColor p) (getKind p) pos (getState p).

(** [Piece::transitionTo]: the piece afterwards and whether it moved. *)
Definition transitionTo (newState : State) (p : Piece) : Piece * bool :=
  if isLegalTransition (getState p) newState
  then (mkPieceRaw (getId p) (getColor p) (getKind p) (getCell p) newState, true)
  else (p, false).

(** The callers that ignore the returned flag. *)
Definition transition (newState : State) (p : Piece) : Piece := (transitionTo newState p).1.

(** ** [Board] *)
Record Board := mkBoard { width : Z; height : Z; grid : list Piece }.

Definition index (b : Board) (r c : Z) : Z := r * width b + c.
Definition idx (b : Board) (pos : Position) : nat := Z.to_nat (index b (row pos) (col pos)).

Definition isWithinBounds (b : Board) (pos : Position) : bool :=
  (0 <=? row pos) && (row pos <? height b) && (0 <=? col pos) && (col pos <? width b).

(** The two nested loops of [Board::Board] fill the cells in index order. *)
Definition allCells (w h : Z) : list Position :=
  flat_map (λ r, map (mkPos r) (seqZ 0 w)) (seqZ 0 h).
Definition newBoard (w h : Z) : Board := mkBoard w h (map makeEmpty (allCells w h)).

Definition setGrid (b : Board) (pos : Position) (p : Piece) : Board :=
  mkBoard (width b) (height b) (<[idx b pos := p]> (grid b)).

Definition getPiece (b : Board) (pos : Position) : option Piece :=
  if isWithinBounds b pos then grid b !! idx b pos else None.

Definition getPieceAt (b : Board) (r c : Z) : option Piece :=
  if isWithinBounds b (mkPos r c) then grid b !! idx b (mkPos r c) else None.

Definition getPieceById (b : Board) (id : Z) : option Piece :=
  find (λ p, getId p =? id) (grid b).

Definition isCellEmpty (b : Board) (pos : Position) : bool :=
  if isWithinBounds b pos
  then match grid b !! idx b pos with Some p => kindEqb (getKind p) NoKind | None => false end
  else false.

Definition addPiece (b : Board) (p : Piece) (pos : Position) : Board :=
  if isWithinBounds b pos && isCellEmpty b pos then setGrid b pos p else b.

Definition removePiece (b : Board) (pos : Position) : Board :=
  if isWithinBounds b pos then setGrid b pos (makeEmpty pos) else b.

(** [grid[to]] and [grid[from]] are the same object when [setCell] runs; the
    source cell is overwritten right after. *)
Definition movePiece (b : Board) (from to : Position) : Board :=
  if negb (isWithinBounds b from) || negb (isWithinBounds b to) then b
  else match grid b !! idx b from with
       | Some p => setGrid (setGrid b to (setCell to p)) from (makeEmpty from)
       | None => b
       end.

(** A write through the pointer that the cell at [pos] holds. *)
Definition updatePiece (f : Piece → Piece) (b : Board) (pos : Position) : Board :=
  match getPiece b pos with
  | Some p => setGrid b pos (f p)
  | None => b
  end.

(** The same through [getPieceById]: the first cell whose piece has that id. *)
Fixpoint updateFirst (P : Piece → bool) (f : Piece → Piece) (l : list Piece) : list Piece :=
  match l with
  | [] => []
  | p :: l => if P p then f p :: l else p :: updateFirst P f l
  end.
Definition updatePieceById (f : Piece → Piece) (b : Board) (id : Z) : Board :=
  mkBoard (width b) (height b) (updateFirst (λ p, getId p =? id) f (grid b)).

(** [GameState]. *)
Record GameState := mkGameState { gs_board : Board; gs_game_over : bool }.

(** ** Well-formedness *)

(** The vector has one cell per position. *)
Definition grid_ok (b : Board) : Prop :=
  0 ≤ width b ∧ 0 ≤ height b ∧ length (grid b) = Z.to_nat (width b * height b).

(** What every object on a board satisfies: only empty cells are colourless,
    an empty cell is the idle [EmptyPiece], nothing on the board is captured. *)
Definition piece_ok (p : Piece) : Prop :=
  (getKind p = NoKind ↔ getColor p = NoColor) ∧
  (getKind p = NoKind → getId p = 0 ∧ getState p = Idle) ∧
  getState p ≠ Captured.

Record board_ok (b : Board) : Prop := {
  board_grid : grid_ok b;
  board_cell : ∀ pos p, getPiece b pos = Some p → getCell p = pos;
  board_piece : ∀ pos p, getPiece b pos = Some p → piece_ok p
}.

(** The pieces actually standing on the board. *)
Definition isReal (p : Piece) : bool := negb (kindEqb (getKind p) NoKind).
Definition livePieces (b : Board) : list Piece := filter isReal (grid b).

(** ** The state machine *)

Lemma isLegalTransition_spec from to :
  isLegalTransition from to = true ↔ to = Captured ∨ (from, to) ∈ kLegalTransitions.
Proof.
  unfold isLegalTransition, stateEqb. case_bool_decide; [tauto|].
  rewrite existsb_exists. split.
  - intros ([f t] & Hin & Ht). b2p. simplify_eq/=. right. by apply list_elem_of_In.
  - intros [?|Hin]; [done|]. exists (from, to). rewrite <-list_elem_of_In. split; [done|].
    simpl. by rewrite !bool_decide_eq_true_2.
Qed.

Lemma transition_id s p : getId (transition s p) = getId p.
Proof. unfold transition, transitionTo. by case_match. Qed.
Lemma transition_color s p : getColor (transition s p) = getColor p.
Proof. unfold transition, transitionTo. by case_match. Qed.
Lemma transition_kind s p : getKind (transition s p) = getKind p.
Proof. unfold transition, transitionTo. by case_match. Qed.
Lemma transition_cell s p : getCell (transition s p) = getCell p.
Proof. unfold transition, transitionTo. by case_match. Qed.
Lemma transition_state s p :
  getState (transition s p) =
  if isLegalTransition (getState p) s then s else getState p.
Proof. unfold transition, transitionTo. by case_match. Qed.
#[export] Hint Rewrite transition_id transition_color transition_kind transition_cell
  transition_state : kfc.

Lemma transition_isReal s p : isReal (transition s p) = isReal p.
Proof. unfold isReal. by rewrite transition_kind. Qed.

Lemma piece_ok_transition s p :
  s ≠ Captured → s ≠ Jump → s ≠ Moving → piece_ok p → piece_ok (transition s p).
Proof.
  intros H1 H2 H3 (Hk & Hn & Hc). unfold piece_ok. autorewrite with kfc.
  split_and!; [done| |by case_match].
  intros Hk'. destruct (Hn Hk') as [-> ->]. by destruct s.
Qed.

Lemma piece_ok_transition_real s p :
  s ≠ Captured → getKind p ≠ NoKind → piece_ok p → piece_ok (transition s p).
Proof.
  intros H1 H2 (Hk & Hn & Hc). unfold piece_ok. autorewrite with kfc.
  split_and!; [done|done|by case_match].
Qed.

Lemma piece_ok_empty pos : piece_ok (makeEmpty pos).
Proof. by unfold piece_ok. Qed.

(** ** Cells and indices *)

Lemma isWithinBounds_spec b pos :
  isWithinBounds b pos = true ↔ 0 ≤ row pos < height b ∧ 0 ≤ col pos < width b.
Proof. unfold isWithinBounds. rewrite !andb_true_iff, !Z.leb_le, !Z.ltb_lt. tauto. Qed.

Lemma isWithinBounds_setGrid b pos p q :
  isWithinBounds (setGrid b pos p) q = isWithinBounds b q.
Proof. reflexivity. Qed.

Lemma idx_lt b pos :
  grid_ok b → isWithinBounds b pos = true → (idx b pos < length (grid b))%nat.
Proof.
  intros (Hw & Hh & Hl) Hb%isWithinBounds_spec. rewrite Hl. unfold idx, index.
  apply Z2Nat.inj_lt; nia.
Qed.

Lemma idx_inj b p q :
  isWithinBounds b p = true → isWithinBounds b q = true → idx b p = idx b q → p = q.
Proof.
  intros Hp%isWithinBounds_spec Hq%isWithinBounds_spec. unfold idx, index.
  intros Heq%Z2Nat.inj; [|nia..]. destruct p as [r c], q as [r' c']; simpl in *.
  assert (r = r') by nia. subst. f_equal. lia.
Qed.

Lemma getPiece_bounds b pos p : getPiece b pos = Some p → isWithinBounds b pos = true.
Proof. unfold getPiece. by case_match. Qed.

Lemma getPiece_is_Some b pos :
  grid_ok b → isWithinBounds b pos = true → ∃ p, getPiece b pos = Some p.
Proof.
  intros Hg Hb. unfold getPiece. rewrite Hb.
  apply lookup_lt_is_Some. by apply idx_lt.
Qed.

Lemma getPiece_outside b pos : isWithinBounds b pos = false → getPiece b pos = None.
Proof. unfold getPiece. by intros ->. Qed.

Lemma getPieceAt_getPiece b r c : getPieceAt b r c = getPiece b (mkPos r c).
Proof. reflexivity. Qed.

Lemma isCellEmpty_spec b pos :
  isCellEmpty b pos = true ↔ ∃ p, getPiece b pos = Some p ∧ getKind p = NoKind.
Proof.
  unfold isCellEmpty, getPiece, kindEqb. case_match; [|naive_solver].
  case_match; [|naive_solver]. rewrite bool_decide_eq_true. naive_solver.
Qed.

Lemma grid_ok_setGrid b pos p : grid_ok b → grid_ok (setGrid b pos p).
Proof. unfold grid_ok; simpl. by rewrite length_insert. Qed.

Lemma getPiece_setGrid b pos p q :
  grid_ok b → isWithinBounds b pos = true →
  getPiece (setGrid b pos p) q = if decide (q = pos) then Some p else getPiece b q.
Proof.
  intros Hg Hb. unfold getPiece. rewrite isWithinBounds_setGrid.
  change (idx (setGrid b pos p) q) with (idx b q). simpl. case_decide as Hq.
  - subst. rewrite Hb. apply list_lookup_insert_eq. by apply idx_lt.
  - destruct (isWithinBounds b q) eqn:Hbq; [|done].
    apply list_lookup_insert_ne. intros Heq. apply Hq. by eapply idx_inj.
Qed.

Lemma getPiece_setGrid_eq b pos p :
  grid_ok b → isWithinBounds b pos = true → getPiece (setGrid b pos p) pos = Some p.
Proof. intros. rewrite getPiece_setGrid by done. by rewrite decide_True. Qed.

Lemma getPiece_setGrid_ne b pos p q :
  q ≠ pos → getPiece (setGrid b pos p) q = getPiece b q ∨ isWithinBounds b pos = false.
Proof.
  intros Hq. destruct (isWithinBounds b pos) eqn:Hb; [left|by right].
  unfold getPiece. rewrite isWithinBounds_setGrid.
  change (idx (setGrid b pos p) q) with (idx b q). simpl.
  destruct (isWithinBounds b q) eqn:Hbq; [|done].
  apply list_lookup_insert_ne. intros Heq. apply Hq. by eapply idx_inj.
Qed.

Lemma grid_lookup_pos b i p :
  grid_ok b → grid b !! i = Some p → ∃ pos, idx b pos = i ∧ getPiece b pos = Some p.
Proof.
  intros Hg Hi. pose proof (lookup_lt_Some _ _ _ Hi) as Hlt.
  destruct Hg as (Hw & Hh & Hl). rewrite Hl in Hlt.
  assert (0 < width b * height b) by lia. assert (0 < width b) by nia.
  assert (0 ≤ Z.of_nat i < width b * height b) by lia.
  pose proof (Z.div_mod (Z.of_nat i) (width b) ltac:(lia)).
  pose proof (Z.mod_pos_bound (Z.of_nat i) (width b) ltac:(lia)).
  assert (0 ≤ Z.of_nat i / width b) by (apply Z.div_pos; lia).
  assert (Z.of_nat i / width b < height b) by (apply Z.div_lt_upper_bound; nia).
  set (pos := mkPos (Z.of_nat i / width b) (Z.of_nat i mod width b)).
  assert (idx b pos = i) as Hidx by (unfold idx, index; simpl; lia).
  exists pos. split; [done|]. unfold getPiece.
  rewrite (proj2 (isWithinBounds_spec _ _)) by (simpl; lia). by rewrite Hidx.
Qed.

Lemma elem_of_grid b p :
  grid_ok b → p ∈ grid b ↔ ∃ pos, getPiece b pos = Some p.
Proof.
  intros Hg. split.
  - intros [i Hi]%list_elem_of_lookup. destruct (grid_lookup_pos b i p Hg Hi) as (pos & _ & ?).
    by exists pos.
  - intros [pos Hp]. unfold getPiece in Hp. case_match; [|done].
    by eapply list_elem_of_lookup_2.
Qed.

Lemma setGrid_perm b pos old p :
  getPiece b pos = Some old → p :: grid b ≡ₚ old :: grid (setGrid b pos p).
Proof.
  unfold getPiece. case_match; [|done]. intros Hl. simpl.
  rewrite (insert_take_drop (grid b) (idx b pos) p) by (by eapply lookup_lt_Some).
  rewrite <-(take_drop_middle (grid b) (idx b pos) old) at 1 by done.
  rewrite <-!Permutation_middle. constructor 3.
Qed.

Lemma setGrid_setGrid b pos p q : setGrid (setGrid b pos p) pos q = setGrid b pos q.
Proof. unfold setGrid, idx, index; simpl. by rewrite list_insert_insert_eq. Qed.

(** ** What the operations do to a well-formed board *)

Definition realList (p : Piece) : list Piece := if isReal p then [p] else [].

Lemma livePieces_setGrid b pos old p :
  getPiece b pos = Some old →
  realList p ++ livePieces b ≡ₚ realList old ++ livePieces (setGrid b pos p).
Proof.
  intros Hg. pose proof (setGrid_perm b pos old p Hg) as Hp.
  apply (filter_Permutation isReal) in Hp. rewrite !filter_cons in Hp.
  unfold realList, livePieces.
  destruct (isReal p), (isReal old); simpl in *; exact Hp.
Qed.

Lemma elem_of_livePieces b p :
  grid_ok b → p ∈ livePieces b ↔ isReal p = true ∧ ∃ pos, getPiece b pos = Some p.
Proof.
  intros Hg. unfold livePieces. rewrite list_elem_of_filter, elem_of_grid by done.
  by rewrite Is_true_true.
Qed.

Lemma board_ok_setGrid b pos p :
  board_ok b → isWithinBounds b pos = true → getCell p = pos → piece_ok p →
  board_ok (setGrid b pos p).
Proof.
  intros [Hg Hc Hp] Hb Hcell Hok. split.
  - by apply grid_ok_setGrid.
  - intros q x. rewrite getPiece_setGrid by done. case_decide; naive_solver.
  - intros q x. rewrite getPiece_setGrid by done. case_decide; naive_solver.
Qed.

Lemma board_ok_removePiece b pos : board_ok b → board_ok (removePiece b pos).
Proof.
  intros Hok. unfold removePiece. case_match; [|done].
  apply board_ok_setGrid; auto using piece_ok_empty.
Qed.

Lemma board_ok_updatePiece b pos f :
  board_ok b →
  (∀ p, getPiece b pos = Some p → piece_ok p → getCell (f p) = getCell p ∧ piece_ok (f p)) →
  board_ok (updatePiece f b pos).
Proof.
  intros Hok Hf. unfold updatePiece. destruct (getPiece b pos) as [p|] eqn:E; [|done].
  destruct (Hf p eq_refl (board_piece _ Hok _ _ E)) as [Hc Hp].
  apply board_ok_setGrid; [done|by eapply getPiece_bounds| |done].
  rewrite Hc. by apply (board_cell _ Hok).
Qed.

Lemma movePiece_eq b from to p :
  getPiece b from = Some p → isWithinBounds b to = true →
  movePiece b from to = setGrid (setGrid b to (setCell to p)) from (makeEmpty from).
Proof.
  intros Hp Ht. unfold movePiece. pose proof (getPiece_bounds _ _ _ Hp) as Hf.
  rewrite Hf, Ht. unfold getPiece in Hp. rewrite Hf in Hp. simpl. by rewrite Hp.
Qed.

Lemma movePiece_outside b from to :
  isWithinBounds b to = false → movePiece b from to = b.
Proof. intros Ht. unfold movePiece. rewrite Ht. by rewrite orb_true_r. Qed.

Lemma board_ok_movePiece b from to : board_ok b → board_ok (movePiece b from to).
Proof.
  intros Hok. destruct (isWithinBounds b to) eqn:Ht; [|by rewrite movePiece_outside].
  destruct (isWithinBounds b from) eqn:Hf.
  2:{ unfold movePiece. by rewrite Hf. }
  destruct (getPiece_is_Some b from (board_grid _ Hok) Hf) as [p Hp].
  rewrite (movePiece_eq _ _ _ p) by done.
  pose proof (board_piece _ Hok _ _ Hp) as (H1 & H2 & H3).
  apply board_ok_setGrid; [|done..|apply piece_ok_empty].
  apply board_ok_setGrid; [done..|]. by unfold piece_ok.
Qed.

Lemma board_ok_addPiece b p pos :
  board_ok b → getCell p = pos → piece_ok p → board_ok (addPiece b p pos).
Proof.
  intros. unfold addPiece. case_match eqn:E; [|done]. b2p. by apply board_ok_setGrid.
Qed.

Lemma updateFirst_length P f l : length (updateFirst P f l) = length l.
Proof. induction l; simpl; [done|]. case_match; simpl; congruence. Qed.

Lemma updateFirst_lookup P f l i p :
  updateFirst P f l !! i = Some p →
  l !! i = Some p ∨ ∃ q, l !! i = Some q ∧ P q = true ∧ p = f q.
Proof.
  revert i. induction l as [|x l IH]; intros i; simpl; [done|].
  destruct (P x) eqn:E, i; simpl; naive_solver.
Qed.

Lemma getPiece_updatePieceById f b id pos p :
  getPiece (updatePieceById f b id) pos = Some p →
  getPiece b pos = Some p ∨
  ∃ q, getPiece b pos = Some q ∧ getId q = id ∧ p = f q.
Proof.
  unfold getPiece. change (isWithinBounds (updatePieceById f b id) pos) with (isWithinBounds b pos).
  change (idx (updatePieceById f b id) pos) with (idx b pos). simpl.
  case_match; [|done]. intros [?|(q & ? & ? & ?)]%updateFirst_lookup; b2p; eauto.
Qed.

Lemma board_ok_updatePieceById f b id :
  board_ok b →
  (∀ p, piece_ok p → getId p = id → getCell (f p) = getCell p ∧ piece_ok (f p)) →
  board_ok (updatePieceById f b id).
Proof.
  intros [[Hw [Hh Hl]] Hc Hp] Hf. split.
  - unfold grid_ok; simpl. by rewrite updateFirst_length.
  - intros pos p [?|(q & Hq & Hid & ->)]%getPiece_updatePieceById; [eauto|].
    rewrite (proj1 (Hf q (Hp _ _ Hq) Hid)). eauto.
  - intros pos p [?|(q & Hq & Hid & ->)]%getPiece_updatePieceById; [eauto|].
    apply Hf; eauto.
Qed.

Lemma livePieces_updateFirst P f l :
  (∀ p, isReal (f p) = isReal p) → (∀ p, getId (f p) = getId p) →
  getId <$> filter isReal (updateFirst P f l) = getId <$> filter isReal l.
Proof.
  intros Hr Hi. induction l as [|x l IH]; simpl; [done|].
  case_match; rewrite !filter_cons, ?Hr; case_decide; csimpl; rewrite ?Hi; congruence.
Qed.

(** Two cells never hold the same piece. *)
Lemma grid_lookup_unique b i j p :
  board_ok b → grid b !! i = Some p → grid b !! j = Some p → i = j.
Proof.
  intros Hok. assert (∀ k, grid b !! k = Some p → k = idx b (getCell p)) as Hk.
  { intros k Hk. destruct (grid_lookup_pos b k p) as (pos & <- & Hp); [apply Hok|done|].
    by rewrite (board_cell _ Hok _ _ Hp). }
  intros Hi%Hk Hj%Hk. congruence.
Qed.

(** The board the constructor builds. *)
Lemma allCells_length w h : length (allCells w h) = (Z.to_nat h * Z.to_nat w)%nat.
Proof.
  unfold allCells. rewrite <-(length_seqZ 0 h).
  induction (seqZ 0 h) as [|r l IH]; simpl; [done|].
  by rewrite length_app, length_map, length_seqZ, IH.
Qed.

Lemma flat_map_lookup {A B} (f : A → list B) (n : nat) l i j x :
  (∀ a, length (f a) = n) → l !! i = Some x → (j < n)%nat →
  flat_map f l !! (i * n + j)%nat = f x !! j.
Proof.
  intros Hn. revert i. induction l as [|a l IH]; intros i Hi Hj; [done|].
  simpl. destruct i as [|i]; simplify_eq/=.
  - apply lookup_app_l. by rewrite Hn.
  - rewrite lookup_app_r by (rewrite Hn; lia). rewrite Hn.
    replace (n + i * n + j - n)%nat with (i * n + j)%nat by lia. by apply IH.
Qed.

Lemma getPiece_newBoard w h pos :
  getPiece (newBoard w h) pos =
  if isWithinBounds (newBoard w h) pos then Some (makeEmpty pos) else None.
Proof.
  unfold getPiece. case_match eqn:E; [|done]. apply isWithinBounds_spec in E.
  destruct pos as [r c]; simpl in *. rewrite list_lookup_fmap.
  replace (idx (newBoard w h) (mkPos r c)) with (Z.to_nat r * Z.to_nat w + Z.to_nat c)%nat
    by (unfold idx, index; simpl; nia).
  unfold allCells. rewrite (flat_map_lookup _ (Z.to_nat w) _ _ _ r).
  - rewrite list_lookup_fmap, lookup_seqZ_lt by lia. simpl. by rewrite Z2Nat.id by lia.
  - intros a. by rewrite length_map, length_seqZ.
  - rewrite lookup_seqZ_lt by lia. f_equal. lia.
  - lia.
Qed.

Lemma board_ok_newBoard w h : 0 ≤ w → 0 ≤ h → board_ok (newBoard w h).
Proof.
  intros Hw Hh. split.
  - unfold grid_ok, newBoard; simpl. rewrite length_map, allCells_length. nia.
  - intros pos p. rewrite getPiece_newBoard. case_match; naive_solver.
  - intros pos p. rewrite getPiece_newBoard. case_match; [|done].
    intros [= <-]. apply piece_ok_empty.
Qed.

Lemma allCells_lookup w h i :
  0 ≤ w → 0 ≤ h → (i < Z.to_nat (w * h))%nat →
  allCells w h !! i = Some (mkPos (Z.of_nat i / w) (Z.of_nat i mod w)).
Proof.
  intros Hw Hh Hi. assert (0 < w) by nia.
  pose proof (Z.div_mod (Z.of_nat i) w ltac:(lia)) as Hd.
  pose proof (Z.mod_pos_bound (Z.of_nat i) w ltac:(lia)) as Hm.
  set (r := Z.of_nat i / w) in *. set (c := Z.of_nat i mod w) in *.
  assert (0 ≤ r) by (apply Z.div_pos; lia). assert (r < h) by nia.
  replace i with (Z.to_nat r * Z.to_nat w + Z.to_nat c)%nat by nia.
  unfold allCells. rewrite (flat_map_lookup _ (Z.to_nat w) _ _ _ r).
  - rewrite list_lookup_fmap, lookup_seqZ_lt by lia. simpl. by rewrite Z2Nat.id by lia.
  - intros a. by rewrite length_map, length_seqZ.
  - rewrite lookup_seqZ_lt by lia. f_equal. lia.
  - lia.
Qed.

(** The nested loops over rows and columns read the vector in order. *)
Lemma grid_allCells b :
  grid_ok b → map (getPiece b) (allCells (width b) (height b)) = map Some (grid b).
Proof.
  intros (Hw & Hh & Hl). apply list_eq. intros i. rewrite !list_lookup_fmap.
  destruct (decide (i < Z.to_nat (width b * height b))%nat) as [Hi|Hi].
  - rewrite allCells_lookup by done. simpl.
    assert (is_Some (grid b !! i)) as [p Hp] by (apply lookup_lt_is_Some; lia).
    rewrite Hp. simpl. f_equal.
    destruct (grid_lookup_pos b i p ltac:(done) Hp) as (pos & Hidx & Hget).
    rewrite <-Hget. f_equal. pose proof (getPiece_bounds _ _ _ Hget) as Hb%isWithinBounds_spec.
    unfold idx, index in Hidx. destruct pos as [r c]; simpl in *. subst i.
    rewrite Z2Nat.id by nia. f_equal.
    + rewrite Z.mul_comm. rewrite Z.mul_comm, Z.div_add_l by lia. rewrite Z.div_small by lia. lia.
    + rewrite Z.add_comm, Z.mod_add by lia. apply Z.mod_small. lia.
  - rewrite !lookup_ge_None_2; [done|lia|]. rewrite allCells_length. nia.
Qed.


Lemma allCells_idx w h i pos :
  0 ≤ w → 0 ≤ h → allCells w h !! i = Some pos →
  isWithinBounds (newBoard w h) pos = true ∧ idx (newBoard w h) pos = i.
Proof.
  intros Hw Hh Hi. pose proof (lookup_lt_Some _ _ _ Hi) as Hlt. rewrite allCells_length in Hlt.
  rewrite allCells_lookup in Hi by (done || nia). injection Hi as <-. assert (0 < w) by nia.
  pose proof (Z.div_mod (Z.of_nat i) w ltac:(lia)) as Hd.
  pose proof (Z.mod_pos_bound (Z.of_nat i) w ltac:(lia)) as Hm.
  set (r := Z.of_nat i / w) in *. set (c := Z.of_nat i mod w) in *.
  assert (0 ≤ r) by (apply Z.div_pos; lia).
  split; [apply isWithinBounds_spec; simpl; nia|]. unfold idx, index; simpl. nia.
Qed.

#[export] Hint Resolve board_ok_removePiece board_ok_movePiece piece_ok_empty
  getPiece_bounds board_grid : kfc.
