(* ===== verification/Rules.v ===== *)
(** * Movement rules ([server/rules])

    One definition per rule class, [PieceRules::legalDestinations] and
    [RuleEngine]; then the rules of chess as a predicate on squares
    ([legal_move]) and the theorem that [validateMove] decides it. *)
From S2P Require Import Prelude Model.

(** [MoveValidation]. *)
Record MoveValidation := mkValidation { is_valid : bool; reason : string }.

(** [board.getPiece(pos)->getColor()] for a [pos] the caller has checked. *)
Definition colorAt (b : Board) (pos : Position) : Color :=
  match getPiece b pos with Some p => getColor p | None => NoColor end.

Definition offset (pos : Position) (dr dc : Z) : Position := mkPos (row pos + dr) (col pos + dc).

(** The [while] of [slideOneDirection], entered at [(r, c)]: the cells it
    pushes, or [None] when [fuel] iterations do not finish it. *)
Fixpoint slideLoop (fuel : nat) (b : Board) (piece : Piece) (dr dc : Z)
    (ignoreBlockers : bool) (pos : Position) : option (list Position) :=
  match fuel with
  | O => None
  | S fuel =>
    if isWithinBounds b pos then
      if isCellEmpty b pos then
        cons pos <$> slideLoop fuel b piece dr dc ignoreBlockers (offset pos dr dc)
      else if ignoreBlockers then
        cons pos <$> slideLoop fuel b piece dr dc ignoreBlockers (offset pos dr dc)
      else if colorEqb (colorAt b pos) (getColor piece) then Some [] else Some [pos]
    else Some []
  end.

Definition slideFuel (b : Board) : nat := S (Z.to_nat (width b) + Z.to_nat (height b)).

Definition slideOneDirection (b : Board) (piece : Piece) (dr dc : Z)
    (ignoreBlockers : bool) : list Position :=
  default [] (slideLoop (slideFuel b) b piece dr dc ignoreBlockers (offset (getCell piece) dr dc)).

Definition slide (b : Board) (piece : Piece) (directions : list (Z * Z))
    (ignoreBlockers : bool) : list Position :=
  foldl (λ res d, res ++ slideOneDirection b piece d.1 d.2 ignoreBlockers) [] directions.

Definition rookDirections : list (Z * Z) := [(1, 0); (-1, 0); (0, 1); (0, -1)].
Definition bishopDirections : list (Z * Z) := [(1, 1); (1, -1); (-1, 1); (-1, -1)].
Definition queenDirections : list (Z * Z) :=
  [(1, 0); (-1, 0); (0, 1); (0, -1); (1, 1); (1, -1); (-1, 1); (-1, -1)].

Definition RookRules_moves b piece ign := slide b piece rookDirections ign.
Definition BishopRules_moves b piece ign := slide b piece bishopDirections ign.
Definition QueenRules_moves b piece ign := slide b piece queenDirections ign.

Definition KingRules_moves (b : Board) (piece : Piece) (ignoreBlockers : bool) : list Position :=
  flat_map (λ dr, flat_map (λ dc,
    if (dr =? 0) && (dc =? 0) then []
    else let to := offset (getCell piece) dr dc in
         if negb (isWithinBounds b to) then []
         else if negb ignoreBlockers && negb (isCellEmpty b to)
                 && colorEqb (colorAt b to) (getColor piece) then []
         else [to]) [-1; 0; 1]) [-1; 0; 1].

Definition knightJumps : list (Z * Z) :=
  [(-2, -1); (-2, 1); (-1, -2); (-1, 2); (1, -2); (1, 2); (2, -1); (2, 1)].

Definition KnightRules_moves (b : Board) (piece : Piece) : list Position :=
  flat_map (λ j, let to := offset (getCell piece) j.1 j.2 in
                 if negb (isWithinBounds b to) then [] else [to]) knightJumps.

Definition PawnRules_moves (b : Board) (piece : Piece) : list Position :=
  let r := row (getCell piece) in
  let c := col (getCell piece) in
  let dir := if colorEqb (getColor piece) White then -1 else 1 in
  let startRow := if colorEqb (getColor piece) White then height b - 2 else 1 in
  let oneStep := mkPos (r + dir) c in
  let twoStep := mkPos (r + 2 * dir) c in
  (if isWithinBounds b oneStep && isCellEmpty b oneStep then
     oneStep :: (if (r =? startRow) && isWithinBounds b twoStep && isCellEmpty b twoStep
                 then [twoStep] else [])
   else []) ++
  flat_map (λ dc, let diag := mkPos (r + dir) (c + dc) in
                  if negb (isWithinBounds b diag) then []
                  else if negb (isCellEmpty b diag)
                          && negb (colorEqb (colorAt b diag) (getColor piece))
                  then [diag] else []) [-1; 1].

(** [PieceRules::legalDestinations]. *)
Definition legalDestinations (b : Board) (piece : Piece) (ignoreBlockers : bool) : list Position :=
  match getKind piece with
  | Rook => RookRules_moves b piece ignoreBlockers
  | Bishop => BishopRules_moves b piece ignoreBlockers
  | Queen => QueenRules_moves b piece ignoreBlockers
  | Knight => KnightRules_moves b piece
  | King => KingRules_moves b piece ignoreBlockers
  | Pawn => PawnRules_moves b piece
  | NoKind => []
  end.

(** [RuleEngine::validateMove], [RuleEngine::validateJump]. *)
Definition validateMove (b : Board) (from to : Position) (relaxedBlocking : bool) : MoveValidation :=
  if negb (isWithinBounds b from) || negb (isWithinBounds b to)
  then mkValidation false "outside_board"
  else match getPiece b from with
  | None => mkValidation false "empty_source"
  | Some piece =>
    if colorEqb (getColor piece) NoColor then mkValidation false "empty_source"
    else
      let friendly := match getPiece b to with
                      | Some dest => colorEqb (getColor dest) (getColor piece)
                      | None => false end in
      if friendly && negb (kindEqb (getKind piece) Knight) && negb relaxedBlocking
      then mkValidation false "friendly_destination"
      else if existsb (λ pos, posEq pos to) (legalDestinations b piece relaxedBlocking)
      then mkValidation true "ok"
      else mkValidation false "illegal_piece_move"
  end.

Definition validateJump (b : Board) (pos : Position) : MoveValidation :=
  if negb (isWithinBounds b pos) then mkValidation false "outside_board"
  else match getPiece b pos with
  | None => mkValidation false "empty_source"
  | Some piece =>
    if colorEqb (getColor piece) NoColor then mkValidation false "empty_source"
    else mkValidation true "ok"
  end.

(** ** The rules of chess, as a predicate *)

(** The [k]-th square from [pos] in direction [(dr, dc)]. *)
Definition along (pos : Position) (dr dc k : Z) : Position := offset pos (k * dr) (k * dc).

(** A slide in direction [(dr, dc)] reaches [to]: every square before it is on
    the board and free (or blockers are ignored), and the square itself is
    free, enemy-occupied, or ignored. *)
Definition slideReaches (b : Board) (p : Piece) (dr dc : Z) (ign : bool) (to : Position) : Prop :=
  ∃ k, 1 ≤ k ∧ to = along (getCell p) dr dc k ∧ isWithinBounds b to = true ∧
       (∀ j, 1 ≤ j < k → isWithinBounds b (along (getCell p) dr dc j) = true ∧
          (ign = true ∨ isCellEmpty b (along (getCell p) dr dc j) = true)) ∧
       (ign = true ∨ isCellEmpty b to = true ∨ colorAt b to ≠ getColor p).

(** Squares strictly between two squares on a common line. *)
Definition between (from to : Position) (j : Z) : Position :=
  along from (Z.sgn (row to - row from)) (Z.sgn (col to - col from)) j.

Definition dist (from to : Position) : Z :=
  Z.max (Z.abs (row to - row from)) (Z.abs (col to - col from)).

Definition clearPath (b : Board) (from to : Position) : Prop :=
  ∀ j, 1 ≤ j < dist from to → isCellEmpty b (between from to j) = true.

Definition forward (c : Color) : Z := if colorEqb c White then -1 else 1.
Definition pawnRow (b : Board) (c : Color) : Z := if colorEqb c White then height b - 2 else 1.

Definition shape_ok (b : Board) (p : Piece) (from to : Position) (relaxed : bool) : Prop :=
  let dr := row to - row from in
  let dc := col to - col from in
  match getKind p with
  | Rook => (dr = 0 ∨ dc = 0) ∧ from ≠ to ∧ (relaxed = true ∨ clearPath b from to)
  | Bishop => Z.abs dr = Z.abs dc ∧ from ≠ to ∧ (relaxed = true ∨ clearPath b from to)
  | Queen => (dr = 0 ∨ dc = 0 ∨ Z.abs dr = Z.abs dc) ∧ from ≠ to ∧
             (relaxed = true ∨ clearPath b from to)
  | Knight => Z.abs dr * Z.abs dc = 2
  | King => dist from to = 1
  | Pawn =>
      (dc = 0 ∧ dr = forward (getColor p) ∧ isCellEmpty b to = true) ∨
      (dc = 0 ∧ dr = 2 * forward (getColor p) ∧ row from = pawnRow b (getColor p) ∧
       isCellEmpty b (offset from (forward (getColor p)) 0) = true ∧ isCellEmpty b to = true) ∨
      (Z.abs dc = 1 ∧ dr = forward (getColor p) ∧ isCellEmpty b to = false ∧
       colorAt b to ≠ getColor p)
  | NoKind => False
  end.

(** What a legal request is, independently of the generators above. *)
Definition legal_move (b : Board) (from to : Position) (relaxed : bool) : Prop :=
  isWithinBounds b from = true ∧ isWithinBounds b to = true ∧
  ∃ p, getPiece b from = Some p ∧ getColor p ≠ NoColor ∧
       (relaxed = true ∨ getKind p = Knight ∨ colorAt b to ≠ getColor p) ∧
       shape_ok b p from to relaxed.

(** The simplified rules the repository writes down
    ([docs/kung_fu_chess_spec.md], sections 7 and 8): a pawn only ever advances
    one row, and no piece goes where a friend stands.  Requests there always
    respect blockers. *)
Definition documented_move (b : Board) (from to : Position) : Prop :=
  isWithinBounds b from = true ∧ isWithinBounds b to = true ∧
  ∃ p, getPiece b from = Some p ∧ getColor p ≠ NoColor ∧ colorAt b to ≠ getColor p ∧
    match getKind p with
    | Pawn => row to - row from = forward (getColor p) ∧
        (col to = col from ∧ isCellEmpty b to = true ∨
         Z.abs (col to - col from) = 1 ∧ isCellEmpty b to = false)
    | _ => shape_ok b p from to false
    end.

(** The two kinds of move that the code accepts beyond them. *)
Definition pawn_opening (b : Board) (from to : Position) : Prop :=
  ∃ p, getPiece b from = Some p ∧ getKind p = Pawn ∧ getColor p ≠ NoColor ∧
    row from = pawnRow b (getColor p) ∧ to = offset from (2 * forward (getColor p)) 0 ∧
    isCellEmpty b (offset from (forward (getColor p)) 0) = true ∧ isCellEmpty b to = true.
Definition knight_onto_friend (b : Board) (from to : Position) : Prop :=
  ∃ p, getPiece b from = Some p ∧ getKind p = Knight ∧ getColor p ≠ NoColor ∧
    isWithinBounds b to = true ∧ colorAt b to = getColor p ∧
    Z.abs (row to - row from) * Z.abs (col to - col from) = 2.

(** ** The sliding loop terminates *)

(** Iterations left before direction [(dr, dc)] leaves the board. *)
Definition slideMeasure (b : Board) (dr dc : Z) (pos : Position) : Z :=
  if 0 <? dr then height b - row pos
  else if dr <? 0 then row pos + 1
  else if 0 <? dc then width b - col pos
  else col pos + 1.

Lemma slideLoop_total_from fuel b p dr dc ign pos :
  dr ≠ 0 ∨ dc ≠ 0 → (0 < fuel)%nat →
  (isWithinBounds b pos = true → slideMeasure b dr dc pos < Z.of_nat fuel) →
  is_Some (slideLoop fuel b p dr dc ign pos).
Proof.
  intros Hd. revert pos. induction fuel as [|fuel IH]; intros pos Hf Hm; [lia|].
  simpl. destruct (isWithinBounds b pos) eqn:Hb; [|by eexists].
  specialize (Hm eq_refl). apply isWithinBounds_spec in Hb.
  assert (is_Some (slideLoop fuel b p dr dc ign (offset pos dr dc))) as [l Hl].
  { unfold slideMeasure in *. apply IH; [|intros Hb'%isWithinBounds_spec].
    - destruct (Z.ltb_spec 0 dr), (Z.ltb_spec dr 0), (Z.ltb_spec 0 dc); lia.
    - simpl in *. destruct (Z.ltb_spec 0 dr), (Z.ltb_spec dr 0), (Z.ltb_spec 0 dc); simpl; lia. }
  rewrite Hl. repeat case_match; by eexists.
Qed.

Lemma slideLoop_total b p dr dc ign pos :
  dr ≠ 0 ∨ dc ≠ 0 → is_Some (slideLoop (slideFuel b) b p dr dc ign pos).
Proof.
  intros Hd. apply slideLoop_total_from; [done|unfold slideFuel; lia|].
  intros Hb%isWithinBounds_spec. unfold slideMeasure, slideFuel.
  destruct (Z.ltb_spec 0 dr), (Z.ltb_spec dr 0), (Z.ltb_spec 0 dc); lia.
Qed.

(** ** ... and reaches exactly the squares of [slideReaches] *)

Lemma along_step pos dr dc k : offset (along pos dr dc k) dr dc = along pos dr dc (k + 1).
Proof. unfold along, offset; simpl. f_equal; lia. Qed.

Lemma along_inj pos dr dc k k' :
  dr ≠ 0 ∨ dc ≠ 0 → along pos dr dc k = along pos dr dc k' → k = k'.
Proof. intros Hd [= H1 H2]. nia. Qed.

Definition stepFree (b : Board) (c : Position) (dr dc : Z) (ign : bool) (j : Z) : Prop :=
  isWithinBounds b (along c dr dc j) = true ∧
  (ign = true ∨ isCellEmpty b (along c dr dc j) = true).

Definition mayLand (b : Board) (p : Piece) (ign : bool) (to : Position) : Prop :=
  isWithinBounds b to = true ∧
  (ign = true ∨ isCellEmpty b to = true ∨ colorAt b to ≠ getColor p).

Lemma slideLoop_spec fuel b p dr dc ign c k l to :
  slideLoop fuel b p dr dc ign (along c dr dc k) = Some l →
  to ∈ l ↔ ∃ k', k ≤ k' ∧ to = along c dr dc k' ∧
           (∀ j, k ≤ j < k' → stepFree b c dr dc ign j) ∧ mayLand b p ign to.
Proof.
  revert k l. induction fuel as [|fuel IH]; intros k l; [done|]. simpl.
  assert (∀ l' : list Position, stepFree b c dr dc ign k → cons (along c dr dc k) <$>
      slideLoop fuel b p dr dc ign (offset (along c dr dc k) dr dc) = Some l' →
    to ∈ l' ↔ ∃ k', k ≤ k' ∧ to = along c dr dc k' ∧
           (∀ j, k ≤ j < k' → stepFree b c dr dc ign j) ∧ mayLand b p ign to) as Hgo.
  { intros l' Hfree (l'' & Hl & ->)%fmap_Some_1. rewrite along_step in Hl.
    rewrite elem_of_cons, (IH _ _ Hl). split.
    - intros [->|(k' & ? & ? & Hj & ?)].
      + exists k. split_and!; [lia|done|lia|]. destruct Hfree. split; [done|naive_solver].
      + exists k'. split_and!; [lia|done| |done]. intros j ?.
        destruct (decide (j = k)) as [->|]; [done|]. apply Hj. lia.
    - intros (k' & ? & ? & Hj & ?). destruct (decide (k' = k)) as [->|]; [by left|].
      right. exists k'. split_and!; [lia|done| |done]. intros. apply Hj. lia. }
  assert (∀ l' : list Position, (∀ k', k < k' → stepFree b c dr dc ign k → False) →
     (to ∈ l' ↔ to = along c dr dc k ∧ mayLand b p ign to) →
     to ∈ l' ↔ ∃ k', k ≤ k' ∧ to = along c dr dc k' ∧
           (∀ j, k ≤ j < k' → stepFree b c dr dc ign j) ∧ mayLand b p ign to) as Hstop.
  { intros l' Hno ->. split.
    - intros [? ?]. exists k. split_and!; [lia|done|lia|done].
    - intros (k' & ? & ? & Hj & ?). destruct (decide (k' = k)) as [->|]; [done|].
      exfalso. apply (Hno k'); [lia|]. apply Hj. lia. }
  unfold stepFree, mayLand in *.
  destruct (isWithinBounds b (along c dr dc k)) eqn:Hb; [|intros [= <-]; apply Hstop; [naive_solver|]].
  2:{ split; [by intros ?%elem_of_nil|]. intros (-> & ? & _). congruence. }
  destruct (isCellEmpty b (along c dr dc k)) eqn:He; [by apply Hgo; auto|].
  destruct ign; [by apply Hgo; auto|].
  unfold colorEqb. case_bool_decide; intros [= <-]; apply Hstop; [naive_solver| |naive_solver|].
  - split; [by intros ?%elem_of_nil|]. intros (-> & ? & [?|[?|?]]); congruence.
  - rewrite list_elem_of_singleton. naive_solver.
Qed.

Lemma elem_of_slideOneDirection b p dr dc ign to :
  dr ≠ 0 ∨ dc ≠ 0 →
  to ∈ slideOneDirection b p dr dc ign ↔ slideReaches b p dr dc ign to.
Proof.
  intros Hd. unfold slideOneDirection.
  destruct (slideLoop_total b p dr dc ign (offset (getCell p) dr dc) Hd) as [l Hl].
  rewrite Hl. simpl.
  replace (offset (getCell p) dr dc) with (along (getCell p) dr dc 1) in Hl
    by (unfold along; f_equal; lia).
  rewrite (slideLoop_spec _ _ _ _ _ _ _ _ _ _ Hl).
  unfold slideReaches, stepFree, mayLand. naive_solver.
Qed.

Lemma elem_of_slide b p dirs ign to :
  (∀ d, d ∈ dirs → d.1 ≠ 0 ∨ d.2 ≠ 0) →
  to ∈ slide b p dirs ign ↔ ∃ d, d ∈ dirs ∧ slideReaches b p d.1 d.2 ign to.
Proof.
  intros Hd. unfold slide.
  assert (∀ acc, to ∈ foldl (λ res d, res ++ slideOneDirection b p d.1 d.2 ign) acc dirs ↔
            to ∈ acc ∨ ∃ d, d ∈ dirs ∧ slideReaches b p d.1 d.2 ign to) as H.
  { induction dirs as [|d dirs IH]; intros acc; simpl.
    - set_solver.
    - rewrite IH by set_solver. rewrite elem_of_app, elem_of_slideOneDirection by set_solver.
      set_solver. }
  rewrite H. set_solver.
Qed.


(** ** [validateMove] decides [legal_move] *)

Definition unitDir (d : Z * Z) : Prop :=
  (-1 ≤ d.1 ≤ 1 ∧ -1 ≤ d.2 ≤ 1) ∧ (d.1 ≠ 0 ∨ d.2 ≠ 0).

Lemma unit_line from d k :
  unitDir d → 1 ≤ k →
  let to := along from d.1 d.2 k in
  dist from to = k ∧ ∀ j, between from to j = along from d.1 d.2 j.
Proof.
  destruct d as [dr dc]. unfold unitDir; simpl. intros Hd Hk.
  assert (dr = -1 ∨ dr = 0 ∨ dr = 1) as Hr by lia.
  assert (dc = -1 ∨ dc = 0 ∨ dc = 1) as Hc by lia.
  assert (∀ a d, d = -1 ∨ d = 0 ∨ d = 1 → Z.sgn (a + k * d - a) = d) as Hs by lia.
  split.
  - unfold dist; simpl. destruct Hr as [->|[->| ->]], Hc as [->|[->| ->]]; lia.
  - intros j. unfold between; simpl. by rewrite !Hs.
Qed.

Lemma slideReaches_line b p d ign from to :
  unitDir d → getCell p = from → isWithinBounds b from = true →
  slideReaches b p d.1 d.2 ign to ↔
  (∃ k, 1 ≤ k ∧ to = along from d.1 d.2 k) ∧ isWithinBounds b to = true ∧
  (ign = true ∨ clearPath b from to) ∧ mayLand b p ign to.
Proof.
  intros Hd <- Hb. unfold slideReaches, mayLand. split.
  - intros (k & Hk & -> & Hto & Hfree & Hland).
    destruct (unit_line (getCell p) d k Hd Hk) as [Hdist Hbt].
    split_and!; [eauto|done| |done|done].
    destruct ign; [by left|right]. intros j. rewrite Hdist, Hbt. intros Hj.
    destruct (Hfree j Hj) as [_ [?|?]]; done.
  - intros ((k & Hk & ->) & Hto & Hclear & _ & Hland).
    destruct (unit_line (getCell p) d k Hd Hk) as [Hdist Hbt].
    exists k. split_and!; [done..| |done]. intros j Hj. split.
    + apply isWithinBounds_spec in Hb. apply isWithinBounds_spec in Hto.
      apply isWithinBounds_spec. simpl in *. destruct Hd. nia.
    + destruct Hclear as [?|Hc]; [by left|right]. rewrite <-Hbt. apply Hc. by rewrite Hdist.
Qed.

Lemma unit_toward from to :
  from ≠ to →
  row to - row from = 0 ∨ col to - col from = 0 ∨
    Z.abs (row to - row from) = Z.abs (col to - col from) →
  let d := (Z.sgn (row to - row from), Z.sgn (col to - col from)) in
  1 ≤ dist from to ∧ to = along from d.1 d.2 (dist from to).
Proof.
  destruct from as [r c], to as [r' c']; unfold dist, along, offset; simpl. intros Hne Hl.
  assert (r' - r ≠ 0 ∨ c' - c ≠ 0).
  { destruct (decide (r' = r)), (decide (c' = c)); subst; [done|lia..]. }
  split; [lia|]. f_equal; lia.
Qed.

Lemma shape_slide (dirs : list (Z * Z)) (shape : Prop) b p ign from to :
  (∀ d, d ∈ dirs → unitDir d) → getCell p = from → isWithinBounds b from = true →
  (from ≠ to ∧ shape ↔ ∃ d k, d ∈ dirs ∧ 1 ≤ k ∧ to = along from d.1 d.2 k) →
  to ∈ slide b p dirs ign ↔
  isWithinBounds b to = true ∧ mayLand b p ign to ∧
  shape ∧ from ≠ to ∧ (ign = true ∨ clearPath b from to).
Proof.
  intros Hd Hc Hb Hs. rewrite elem_of_slide by (intros d Hin; by apply (Hd d Hin)).
  transitivity (∃ d, d ∈ dirs ∧ (∃ k, 1 ≤ k ∧ to = along from d.1 d.2 k) ∧
    isWithinBounds b to = true ∧ (ign = true ∨ clearPath b from to) ∧ mayLand b p ign to).
  { split; intros (d & Hin & H); exists d; (split; [done|]); revert H;
      by rewrite (slideReaches_line _ _ _ _ _ _ (Hd d Hin) Hc Hb). }
  split.
  - intros (d & Hin & (k & Hk & He) & Hto & Hcl & Hl).
    assert (from ≠ to ∧ shape) as [? ?] by (apply Hs; eauto). done.
  - intros (Hto & Hl & Hsh & Hne & Hcl).
    destruct (proj1 Hs (conj Hne Hsh)) as (d & k & Hin & Hk & He). exists d. eauto 10.
Qed.

Ltac in_dirs := rewrite ?elem_of_cons, ?elem_of_nil.
Ltac each_dir H := repeat (apply elem_of_cons in H as [->|H]); [..|by apply elem_of_nil in H].

Ltac solve_slide_shape :=
  split;
  [ intros [Hne Hs];
    match type of Hne with ?f ≠ ?t =>
      destruct (unit_toward f t Hne) as [Hk He]; [lia|];
      eexists _, _; split_and!; [|exact Hk|exact He]
    end;
    apply list_elem_of_In; simpl;
    repeat match goal with |- context [Z.sgn ?z] =>
      destruct (Z.sgn_spec z) as [[? ->]|[[? ->]|[? ->]]] end;
    try tauto; exfalso; unfold dist in *; lia
  | intros (d & k & Hin & Hk & ->); each_dir Hin; unfold along, offset; simpl;
    (split; [intros Heq; apply (f_equal (λ p, row p + 2 * col p)) in Heq as ?;
             apply (f_equal row) in Heq; simpl in *; lia | lia]) ].

Lemma elem_of_Rook b p ign from to :
  getCell p = from → isWithinBounds b from = true →
  to ∈ RookRules_moves b p ign ↔ isWithinBounds b to = true ∧ mayLand b p ign to ∧
    (row to - row from = 0 ∨ col to - col from = 0) ∧ from ≠ to ∧
    (ign = true ∨ clearPath b from to).
Proof.
  intros Hc Hb. apply shape_slide; [|done..|solve_slide_shape].
  intros d Hin. each_dir Hin; unfold unitDir; simpl; lia.
Qed.

Lemma elem_of_Bishop b p ign from to :
  getCell p = from → isWithinBounds b from = true →
  to ∈ BishopRules_moves b p ign ↔ isWithinBounds b to = true ∧ mayLand b p ign to ∧
    Z.abs (row to - row from) = Z.abs (col to - col from) ∧ from ≠ to ∧
    (ign = true ∨ clearPath b from to).
Proof.
  intros Hc Hb. apply shape_slide; [|done..|solve_slide_shape].
  intros d Hin. each_dir Hin; unfold unitDir; simpl; lia.
Qed.

Lemma elem_of_Queen b p ign from to :
  getCell p = from → isWithinBounds b from = true →
  to ∈ QueenRules_moves b p ign ↔ isWithinBounds b to = true ∧ mayLand b p ign to ∧
    (row to - row from = 0 ∨ col to - col from = 0 ∨
     Z.abs (row to - row from) = Z.abs (col to - col from)) ∧ from ≠ to ∧
    (ign = true ∨ clearPath b from to).
Proof.
  intros Hc Hb. apply shape_slide; [|done..|solve_slide_shape].
  intros d Hin. each_dir Hin; unfold unitDir; simpl; lia.
Qed.

Lemma elem_of_flat_map {A B} (f : A → list B) l y :
  y ∈ flat_map f l ↔ ∃ x, x ∈ l ∧ y ∈ f x.
Proof.
  rewrite list_elem_of_In, in_flat_map. by setoid_rewrite list_elem_of_In.
Qed.

Lemma elem_of_if_nil {A} (c : bool) (x : A) l :
  x ∈ (if c then [] else l) ↔ c = false ∧ x ∈ l.
Proof. destruct c; rewrite ?elem_of_nil; naive_solver. Qed.

Lemma elem_of_if_some {A} (c : bool) (x : A) l :
  x ∈ (if c then l else []) ↔ c = true ∧ x ∈ l.
Proof. destruct c; rewrite ?elem_of_nil; naive_solver. Qed.

Lemma elem_of_King b p ign from to :
  getCell p = from →
  to ∈ KingRules_moves b p ign ↔ mayLand b p ign to ∧ dist from to = 1.
Proof.
  intros <-. unfold KingRules_moves, mayLand. rewrite elem_of_flat_map.
  setoid_rewrite elem_of_flat_map. setoid_rewrite elem_of_if_nil.
  setoid_rewrite elem_of_if_nil. setoid_rewrite elem_of_if_nil.
  setoid_rewrite list_elem_of_singleton.
  setoid_rewrite negb_false_iff. unfold colorEqb. split.
  - intros (dr & Hr & dc & Hc & H0 & Hb & Hf & ->). split_and!.
    + done.
    + destruct ign, (isCellEmpty _ _); b2p; simpl in *; auto.
      b2p. by right; right.
    + each_dir Hr; each_dir Hc; simpl in H0; try done; unfold dist; simpl; lia.
  - intros ((Hb & Hl) & Hd). unfold dist in Hd.
    assert (offset (getCell p) (row to - row (getCell p)) (col to - col (getCell p)) = to) as He
      by (destruct to; unfold offset; simpl; f_equal; lia).
    assert (∀ z, -1 ≤ z ≤ 1 → z ∈ [-1; 0; 1]) as Hin.
    { intros z Hz. assert (z = -1 ∨ z = 0 ∨ z = 1) as [->|[->| ->]] by lia; set_solver. }
    exists (row to - row (getCell p)). split; [apply Hin; lia|].
    exists (col to - col (getCell p)). split; [apply Hin; lia|]. rewrite He.
    split_and!; [|done| |done].
    + apply andb_false_iff. destruct (decide (row to - row (getCell p) = 0));
        [right|left]; apply Z.eqb_neq; lia.
    + destruct Hl as [->|[->|Hl]]; simpl; [done|by rewrite andb_false_r|].
      rewrite bool_decide_eq_false_2 by done. by rewrite andb_false_r.
Qed.

Lemma elem_of_Knight b p from to :
  getCell p = from →
  to ∈ KnightRules_moves b p ↔ isWithinBounds b to = true ∧
    Z.abs (row to - row from) * Z.abs (col to - col from) = 2.
Proof.
  intros <-. unfold KnightRules_moves. rewrite elem_of_flat_map.
  setoid_rewrite elem_of_if_nil. setoid_rewrite list_elem_of_singleton.
  setoid_rewrite negb_false_iff. split.
  - intros (d & Hin & Hb & ->). split; [done|].
    each_dir Hin; unfold offset; simpl; lia.
  - intros [Hb Hm]. set (dr := row to - row (getCell p)) in *.
    set (dc := col to - col (getCell p)) in *. exists (dr, dc).
    assert (offset (getCell p) dr dc = to) as He
      by (unfold dr, dc; destruct to; unfold offset; simpl; f_equal; lia).
    simpl. rewrite He. split_and!; [|done..].
    assert ((Z.abs dr = 1 ∧ Z.abs dc = 2) ∨ (Z.abs dr = 2 ∧ Z.abs dc = 1)) as Ha.
    { assert (Z.abs dr = 0 ∨ Z.abs dr = 1 ∨ Z.abs dr = 2 ∨ 3 ≤ Z.abs dr) as [H|[H|[H|H]]] by lia;
        rewrite ?H in *; try lia.
      assert (Z.abs dc = 0 ∨ 1 ≤ Z.abs dc) by lia. nia. }
    clearbody dr dc. clear -Ha. assert (dr = 1 ∨ dr = -1 ∨ dr = 2 ∨ dr = -2) as Hr by lia.
    destruct Hr as [->|[->|[->| ->]]]; [| | |];
      [assert (dc = 2 ∨ dc = -2) as [->| ->] by lia..
      |assert (dc = 1 ∨ dc = -1) as [->| ->] by lia
      |assert (dc = 1 ∨ dc = -1) as [->| ->] by lia]; apply list_elem_of_In; simpl; tauto.
Qed.

Lemma isCellEmpty_bounds b pos : isCellEmpty b pos = true → isWithinBounds b pos = true.
Proof. unfold isCellEmpty. by case_match. Qed.

Lemma pawn_forward p : (if colorEqb (getColor p) White then -1 else 1) = forward (getColor p).
Proof. reflexivity. Qed.

Lemma elem_of_Pawn b p from to :
  getCell p = from → isWithinBounds b to = true → getKind p = Pawn →
  to ∈ PawnRules_moves b p ↔ shape_ok b p from to false.
Proof.
  intros <- Hb Hk. unfold PawnRules_moves, shape_ok. rewrite Hk, pawn_forward.
  rewrite elem_of_app, elem_of_flat_map, elem_of_if_some, elem_of_cons, elem_of_if_some.
  setoid_rewrite elem_of_if_nil. setoid_rewrite elem_of_if_some.
  setoid_rewrite list_elem_of_singleton.
  setoid_rewrite negb_false_iff.
  change (if colorEqb (getColor p) White then height b - 2 else 1) with (pawnRow b (getColor p)).
  set (f := forward (getColor p)). destruct (getCell p) as [r c] eqn:Hcell.
  destruct to as [r' c']; unfold offset; simpl. rewrite !Z.add_0_r. split.
  - intros [[H1 [H|[H2 H]]]|(d & Hd & Hbd & H & H')]; b2p.
    + injection H as -> ->. left. split_and!; [lia..|done].
    + injection H as -> ->. right; left. split_and!; [lia|lia|lia|done|done].
    + injection H' as -> ->. unfold colorEqb in *. b2p. right; right.
      each_dir Hd; split_and!; (lia || done).
  - intros [(Hc & Hr & He)|[(Hc & Hr & Hrow & He1 & He)|(Hc & Hr & He & Hcol)]].
    + assert (r' = r + f) as -> by lia. assert (c' = c) as -> by lia. left.
      split; [by rewrite Hb, He|by left].
    + assert (r' = r + 2 * f) as -> by lia. assert (c' = c) as -> by lia. left.
      split; [by rewrite (isCellEmpty_bounds _ _ He1), He1|]. right.
      split; [|done]. rewrite Hb, He, (proj2 (Z.eqb_eq _ _) Hrow). done.
    + right. exists (c' - c). assert (r' = r + f) as -> by lia.
      replace (c + (c' - c)) with c' by lia. split_and!; [|done| |done].
      * assert (c' - c = -1 ∨ c' - c = 1) as [->| ->] by lia; set_solver.
      * unfold colorEqb. by rewrite He, bool_decide_eq_false_2.
Qed.

(** The shape of a piece's move decides membership in its generator. *)
Lemma elem_of_legalDestinations b p from to relaxed :
  board_ok b → getPiece b from = Some p → getColor p ≠ NoColor →
  (relaxed = true ∨ getKind p = Knight ∨ colorAt b to ≠ getColor p) →
  to ∈ legalDestinations b p relaxed ↔ isWithinBounds b to = true ∧ shape_ok b p from to relaxed.
Proof.
  intros Hok Hp Hcol Hfr. pose proof (board_cell _ Hok _ _ Hp) as Hc.
  pose proof (getPiece_bounds _ _ _ Hp) as Hb.
  assert (getKind p ≠ Knight → isWithinBounds b to = true → mayLand b p relaxed to) as Hland
    by (unfold mayLand; naive_solver).
  unfold legalDestinations. destruct (getKind p) eqn:Hk; unfold shape_ok; rewrite ?Hk.
  - rewrite (elem_of_King b p relaxed from) by done. unfold mayLand in *. naive_solver.
  - rewrite (elem_of_Queen b p relaxed from) by done. naive_solver.
  - rewrite (elem_of_Rook b p relaxed from) by done. naive_solver.
  - rewrite (elem_of_Bishop b p relaxed from) by done. naive_solver.
  - by rewrite (elem_of_Knight b p from).
  - destruct (isWithinBounds b to) eqn:Hto.
    + rewrite (elem_of_Pawn b p from) by done. unfold shape_ok. rewrite Hk. tauto.
    + split; [|by intros [? ?]]. unfold PawnRules_moves.
      rewrite elem_of_app, elem_of_flat_map, elem_of_if_some, elem_of_cons, elem_of_if_some,
        list_elem_of_singleton.
      intros [[? [->|[? ->]]]|(d & _ & [Hn [_ ->%list_elem_of_singleton]%elem_of_if_some]%elem_of_if_nil)];
        b2p; congruence.
  - rewrite elem_of_nil. tauto.
Qed.

Lemma existsb_posEq l to : existsb (λ pos, posEq pos to) l = true ↔ to ∈ l.
Proof.
  rewrite existsb_exists. setoid_rewrite <-list_elem_of_In. setoid_rewrite posEq_spec.
  naive_solver.
Qed.

Lemma colorEqb_true a b : colorEqb a b = true ↔ a = b.
Proof. apply bool_decide_eq_true. Qed.
Lemma colorEqb_false a b : colorEqb a b = false ↔ a ≠ b.
Proof. apply bool_decide_eq_false. Qed.
Lemma kindEqb_true a b : kindEqb a b = true ↔ a = b.
Proof. apply bool_decide_eq_true. Qed.
Lemma kindEqb_false a b : kindEqb a b = false ↔ a ≠ b.
Proof. apply bool_decide_eq_false. Qed.

(** The four answers [validateMove] gives to a request inside the board. *)
Inductive move_answer (b : Board) (from to : Position) (relaxed : bool) : MoveValidation → Prop :=
  | ans_outside : isWithinBounds b from = false ∨ isWithinBounds b to = false →
      move_answer b from to relaxed (mkValidation false "outside_board")
  | ans_empty : isWithinBounds b to = true → isCellEmpty b from = true →
      move_answer b from to relaxed (mkValidation false "empty_source")
  | ans_friendly p : getPiece b from = Some p → getColor p ≠ NoColor →
      isWithinBounds b to = true →
      colorAt b to = getColor p → getKind p ≠ Knight → relaxed = false →
      move_answer b from to relaxed (mkValidation false "friendly_destination")
  | ans_illegal p : getPiece b from = Some p → getColor p ≠ NoColor →
      isWithinBounds b to = true →
      (relaxed = true ∨ getKind p = Knight ∨ colorAt b to ≠ getColor p) →
      ¬ shape_ok b p from to relaxed →
      move_answer b from to relaxed (mkValidation false "illegal_piece_move")
  | ans_ok : legal_move b from to relaxed →
      move_answer b from to relaxed (mkValidation true "ok").

Lemma board_cell_empty b pos p :
  board_ok b → getPiece b pos = Some p → isCellEmpty b pos = true ↔ getColor p = NoColor.
Proof.
  intros Hok Hp. rewrite isCellEmpty_spec. destruct (board_piece _ Hok _ _ Hp) as [Hk _].
  naive_solver.
Qed.

(** The answer is the one the rules prescribe. *)
Lemma validateMove_answer b from to relaxed :
  board_ok b → move_answer b from to relaxed (validateMove b from to relaxed).
Proof.
  intros Hok. unfold validateMove.
  destruct (isWithinBounds b from) eqn:Hf; [|by constructor; left].
  destruct (isWithinBounds b to) eqn:Ht; [|by constructor; right]. cbn [negb orb].
  destruct (getPiece_is_Some b from (board_grid _ Hok) Hf) as [p Hp]. rewrite Hp.
  destruct (colorEqb (getColor p) NoColor) eqn:Hcol.
  { apply colorEqb_true in Hcol. constructor; [done|]. by eapply board_cell_empty. }
  apply colorEqb_false in Hcol.
  destruct (getPiece_is_Some b to (board_grid _ Hok) Ht) as [q Hq]. rewrite Hq.
  assert (colorAt b to = getColor q) as Hca by (unfold colorAt; by rewrite Hq).
  destruct (colorEqb (getColor q) (getColor p) && negb (kindEqb (getKind p) Knight) && negb relaxed)
    eqn:Hfr.
  { b2p. apply (ans_friendly _ _ _ _ p); try done; rewrite ?Hca.
    - by apply colorEqb_true.
    - by apply kindEqb_false. }
  assert (relaxed = true ∨ getKind p = Knight ∨ colorAt b to ≠ getColor p) as Hfr'.
  { rewrite Hca. destruct relaxed; [by left|right].
    destruct (decide (getKind p = Knight)); [by left|right]. intros Heq.
    rewrite (proj2 (colorEqb_true _ _) Heq), (proj2 (kindEqb_false _ _) n) in Hfr. done. }
  pose proof (elem_of_legalDestinations b p from to relaxed Hok Hp Hcol Hfr') as Hin.
  destruct (existsb _ _) eqn:Hex.
  - apply existsb_posEq, Hin in Hex as [_ ?]. constructor. unfold legal_move. eauto 10.
  - apply (ans_illegal _ _ _ _ p); try done. intros Hs.
    assert (to ∈ legalDestinations b p relaxed) as Hx%existsb_posEq by (by apply Hin). congruence.
Qed.

(** ... and no other is. *)
Lemma move_answer_unique b from to relaxed v w :
  board_ok b → move_answer b from to relaxed v → move_answer b from to relaxed w → v = w.
Proof.
  intros Hok Hv Hw.
  assert (∀ p, isCellEmpty b from = true → getPiece b from = Some p → getColor p ≠ NoColor → False) as Hempty
    by (intros p He Hp Hc; by apply Hc, (board_cell_empty _ _ _ Hok Hp)).
  assert (∀ x, isCellEmpty b x = true → isWithinBounds b x = true) as Hin by apply isCellEmpty_bounds.
  destruct Hv as [[]|? He|p Hp|p Hp|Hl], Hw as [[]|? He'|q Hq|q Hq|Hl']; try done;
    repeat match goal with
    | H : legal_move _ _ _ _ |- _ => destruct H as (? & ? & ? & ? & ? & ? & ?)
    | H : getPiece _ from = Some _ |- _ => pose proof (getPiece_bounds _ _ _ H); revert H
    end; intros; simplify_eq; try (exfalso; eauto; fail); naive_solver congruence.
Qed.

Lemma legal_move_piece b from to relaxed p :
  legal_move b from to relaxed → getPiece b from = Some p →
  getColor p ≠ NoColor ∧ (relaxed = true ∨ getKind p = Knight ∨ colorAt b to ≠ getColor p) ∧
  shape_ok b p from to relaxed.
Proof. intros (_ & _ & p' & ? & ? & ? & ?) ?. by simplify_eq. Qed.

Lemma validateMove_decides b from to relaxed :
  board_ok b →
  is_valid (validateMove b from to relaxed) = true ↔ legal_move b from to relaxed.
Proof.
  intros Hok. destruct (validateMove_answer b from to relaxed Hok)
    as [[Ho|Ho]|Ht He|p Hp Hc Ht Hd Hk Hr|p Hp Hc Ht Hf Hs|Hl]; simpl; [split; [done|]..|done].
  - intros (? & _). congruence.
  - intros (_ & ? & _). congruence.
  - intros (_ & _ & p & Hp & Hcol & _). by apply (board_cell_empty _ _ _ Hok Hp) in He.
  - intros Hl. destruct (legal_move_piece _ _ _ _ _ Hl Hp) as (_ & Hx & _). naive_solver.
  - intros Hl. by destruct (legal_move_piece _ _ _ _ _ Hl Hp) as (_ & _ & ?).
Qed.

Lemma colorAt_empty b pos p :
  board_ok b → isCellEmpty b pos = true → getColor p ≠ NoColor → colorAt b pos ≠ getColor p.
Proof.
  intros Hok (q & Hq & Hk)%isCellEmpty_spec Hp. unfold colorAt. rewrite Hq.
  destruct (board_piece _ Hok _ _ Hq) as [Hc _]. apply Hc in Hk. congruence.
Qed.

(** The rules of the code are those of the document and two kinds of move more. *)
Lemma legal_move_documented b from to :
  board_ok b →
  legal_move b from to false ↔
  documented_move b from to ∨ pawn_opening b from to ∨ knight_onto_friend b from to.
Proof.
  intros Hok. split.
  - intros (Hf & Ht & p & Hp & Hc & Hfr & Hs). destruct (decide (colorAt b to = getColor p)) as [He|He].
    + right; right. exists p. destruct Hfr as [?|[Hk|?]]; [done| |done]. unfold shape_ok in Hs. rewrite Hk in Hs. done.
    + unfold documented_move, pawn_opening. destruct (getKind p) eqn:Hk;
        try (left; split_and!; [done..|]; exists p; rewrite Hk; by split_and!).
      unfold shape_ok in Hs. rewrite Hk in Hs.
      destruct Hs as [(? & ? & ?)|[(? & ? & ? & ? & ?)|(? & ? & ? & ?)]].
      * left. split_and!; [done..|]. exists p. rewrite Hk. split_and!; [done..|]. left. split; [lia|done].
      * right; left. exists p. split_and!; try done. destruct to; unfold offset; simpl in *. f_equal; lia.
      * left. split_and!; [done..|]. exists p. rewrite Hk. split_and!; [done..|]. by right.
  - intros [(Hf & Ht & p & Hp & Hc & He & Hs)|[(p & Hp & Hk & Hc & Hr & -> & H1 & H2)|(p & Hp & Hk & Hc & Ht & He & Hs)]].
    + split_and!; [done..|]. exists p. split_and!; [done..|by right; right|]. unfold shape_ok in *.
      destruct (getKind p); try done. destruct Hs as [Hr [[Hcol ?]|[Hcol ?]]]; [left; split_and!; [lia|done..]|by right; right].
    + split_and!; [by eapply getPiece_bounds|by apply isCellEmpty_bounds|]. exists p. split_and!; [done..| |].
      * right; right. by apply colorAt_empty.
      * unfold shape_ok. rewrite Hk. right; left. simpl. split_and!; [lia..|done|done|done].
    + split_and!; [by eapply getPiece_bounds|done|]. exists p. split_and!; [done|done|by right; left|].
      unfold shape_ok. by rewrite Hk.
Qed.

(** C1 [RuleEngine::validateMove] accepts exactly the moves of [legal_move],
    stated on squares, for every kind of piece, strictly or with blockers
    ignored.  Strictly, these are the moves of the repository's own document and
    two kinds it excludes: a pawn's opening step of two squares, and a knight onto
    a friend. *)
Theorem validateMove_legal b from to relaxed :
  board_ok b →
  (is_valid (validateMove b from to relaxed) = true ↔ legal_move b from to relaxed) ∧
  (is_valid (validateMove b from to false) = true ↔
   documented_move b from to ∨ pawn_opening b from to ∨ knight_onto_friend b from to).
Proof.
  intros Hok. split; [by apply validateMove_decides|].
  rewrite validateMove_decides by done. by apply legal_move_documented.
Qed.

(** Every refusal of [validateMove] names its cause: a square outside the
    board, an empty source, a friend on the destination (never for a knight),
    or a move the piece cannot make. *)
Theorem validateMove_reason b from to relaxed :
  board_ok b → move_answer b from to relaxed (validateMove b from to relaxed).
Proof. apply validateMove_answer. Qed.

(** The sliding loop terminates within the board's width plus height in any
    real direction, whatever stands on the board, and gives the squares a
    slide reaches: up to the first blocker, which is included when it can be
    captured, or to the edge when blockers are ignored. *)
Theorem slideOneDirection_reaches b p dr dc ign to :
  dr ≠ 0 ∨ dc ≠ 0 →
  is_Some (slideLoop (slideFuel b) b p dr dc ign (offset (getCell p) dr dc)) ∧
  (to ∈ slideOneDirection b p dr dc ign ↔ slideReaches b p dr dc ign to).
Proof. intros Hd. split; [by apply slideLoop_total|by apply elem_of_slideOneDirection]. Qed.
