(* ===== verification/Text.v ===== *)
(** * Text

    The string operations of the C++ streams the code reads and writes with:
    [std::getline], [operator>>] into a string, and the printing of integers. *)
From S2P Require Import Prelude.
From Stdlib Require Import Ascii.
From stdpp Require Export pretty.

#[global] Open Scope Z_scope.

Definition newline : Ascii.ascii := Ascii.ascii_of_nat 10.
Definition carriageReturn : Ascii.ascii := Ascii.ascii_of_nat 13.
Definition endl : string := String newline "".

(** [isspace] in the C locale: blank, and the control codes 9 to 13. *)
Definition isspace (c : Ascii.ascii) : bool :=
  let n := Ascii.nat_of_ascii c in Nat.eqb n 32 || (Nat.leb 9 n && Nat.leb n 13).

(** [isalnum] in the C locale. *)
Definition isalnum (c : Ascii.ascii) : bool :=
  let n := Ascii.nat_of_ascii c in
  (Nat.leb 48 n && Nat.leb n 57) || (Nat.leb 65 n && Nat.leb n 90) || (Nat.leb 97 n && Nat.leb n 122).

(** The lines a [while (std::getline(in, line))] loop sees. *)
Fixpoint getlines (s : string) : list string :=
  match s with
  | EmptyString => []
  | String c rest =>
    if Ascii.eqb c newline then "" :: getlines rest
    else match getlines rest with
         | l :: ls => String c l :: ls
         | [] => [String c ""]
         end
  end.

(** The tokens a [while (ss >> token)] loop sees. *)
Fixpoint words (s : string) : list string :=
  match s with
  | EmptyString => []
  | String c rest =>
    if isspace c then words rest
    else match rest with
         | EmptyString => [String c ""]
         | String d _ =>
           if isspace d then String c "" :: words rest
           else match words rest with w :: ws => String c w :: ws | [] => [String c ""] end
         end
  end.

(** [if (!line.empty() && line.back() == '\r') line.pop_back();] *)
Fixpoint chomp (s : string) : string :=
  match s with
  | EmptyString => ""
  | String c EmptyString => if Ascii.eqb c carriageReturn then "" else s
  | String c rest => String c (chomp rest)
  end.

(** Tokens written with a separator between them. *)
Fixpoint joinWith (sep : string) (l : list string) : string :=
  match l with
  | [] => ""
  | [t] => t
  | t :: l => t +:+ sep +:+ joinWith sep l
  end.

(** [out << n] for an [int]. *)
Definition showInt (n : Z) : string := pretty n.

(** [setw(w)] with [setfill('0')]. *)
Definition zeroPad (w : nat) (s : string) : string :=
  String.concat "" (replicate (w - String.length s) "0") +:+ s.

(** [c_str()]: the string up to its first NUL. *)
Fixpoint c_str (s : string) : string :=
  match s with
  | EmptyString => ""
  | String c rest => if Ascii.eqb c Ascii.zero then "" else String c (c_str rest)
  end.

Lemma c_str_idemp s : c_str (c_str s) = c_str s.
Proof. induction s as [|c s IH]; simpl; [done|]. destruct (Ascii.eqb c Ascii.zero) eqn:E; simpl; by rewrite ?E, ?IH. Qed.

(** ** Words and lines *)

Fixpoint allChars (P : Ascii.ascii → bool) (s : string) : bool :=
  match s with EmptyString => true | String c s => P c && allChars P s end.

Definition isToken (s : string) : bool :=
  negb (String.eqb s "") && allChars (λ c, negb (isspace c)) s.

Lemma allChars_app P s t : allChars P (s +:+ t) = allChars P s && allChars P t.
Proof. induction s as [|c s IH]; simpl; [done|]. by rewrite IH, andb_assoc. Qed.

Lemma append_nil_r (s : string) : s +:+ "" = s.
Proof. induction s as [|c s IH]; simpl; [done|]. change (String c (s +:+ "") = String c s). by rewrite IH. Qed.

Lemma append_assoc (s t u : string) : s +:+ (t +:+ u) = (s +:+ t) +:+ u.
Proof.
  induction s as [|c s IH]; simpl; [done|].
  change (String c (s +:+ (t +:+ u)) = String c ((s +:+ t) +:+ u)). by rewrite IH.
Qed.

Lemma string_app_cons c (s t : string) : String c s +:+ t = String c (s +:+ t).
Proof. done. Qed.

Lemma words_cons a b x :
  isspace a = false → isspace b = false →
  words (String a (String b x)) =
    match words (String b x) with w :: ws => String a w :: ws | [] => [String a ""] end.
Proof. intros Ha Hb. cbn [words]. by rewrite Ha, Hb. Qed.

(** A token is read whole, up to the blank or the end that follows it. *)
Lemma words_token_sep t c s :
  isToken t = true → isspace c = true → words (t +:+ String c s) = t :: words s.
Proof.
  unfold isToken. intros [Hne Hc]%andb_true_iff Hsp. b2p.
  assert (words (String c s) = words s) as Hcs by (simpl; by rewrite Hsp).
  induction t as [|a t IH]; [done|]. simpl in Hc. apply andb_true_iff in Hc as [Ha Hc]. b2p.
  rewrite string_app_cons. destruct t as [|b t].
  - simpl. rewrite Ha, Hsp. by destruct (Ascii.eqb c c).
  - rewrite string_app_cons in IH |- *. simpl in Hc. pose proof Hc as [Hb%negb_true_iff _]%andb_true_iff.
    rewrite words_cons by done. by rewrite IH.
Qed.

Lemma words_token t : isToken t = true → words t = [t].
Proof.
  unfold isToken. intros [Hne Hc]%andb_true_iff. b2p.
  induction t as [|a t IH]; [done|]. simpl in Hc. apply andb_true_iff in Hc as [Ha Hc]. b2p.
  destruct t as [|b t].
  - simpl. by rewrite Ha.
  - simpl in Hc. pose proof Hc as [Hb%negb_true_iff _]%andb_true_iff.
    rewrite words_cons by done. by rewrite IH.
Qed.

Lemma words_join l :
  (∀ t, t ∈ l → isToken t = true) → words (joinWith " " l) = l.
Proof.
  induction l as [|t l IH]; intros Hl; [done|]. destruct l as [|u l].
  - apply words_token, Hl. by left.
  - change (joinWith " " (t :: u :: l)) with (t +:+ String " "%char (joinWith " " (u :: l))).
    rewrite words_token_sep; [|apply Hl; by left|done]. f_equal. apply IH.
    intros x Hx. apply Hl. by right.
Qed.

(** A text of lines, each closed by a newline, is read back line by line. *)
Definition noNewline (s : string) : bool := allChars (λ c, negb (Ascii.eqb c newline)) s.

Lemma getlines_line s rest :
  noNewline s = true → getlines (s +:+ endl +:+ rest) = s :: getlines rest.
Proof.
  unfold noNewline. induction s as [|c s IH]; intros Hn.
  - change ("" +:+ endl +:+ rest) with (String newline rest). simpl. done.
  - simpl in Hn. apply andb_true_iff in Hn as [Hc Hs]. b2p.
    rewrite string_app_cons. cbn [getlines]. rewrite Hc, IH by done. done.
Qed.

Lemma getlines_lines (l : list string) :
  (∀ s, s ∈ l → noNewline s = true) → getlines (foldr (λ s acc, s +:+ endl +:+ acc) "" l) = l.
Proof.
  induction l as [|s l IH]; intros Hl; [done|]. simpl.
  rewrite getlines_line by (apply Hl; by left). f_equal. apply IH. intros x Hx. apply Hl. by right.
Qed.

Definition noReturn (s : string) : bool := allChars (λ c, negb (Ascii.eqb c carriageReturn)) s.

Lemma chomp_id s : noReturn s = true → chomp s = s.
Proof.
  unfold noReturn. induction s as [|c s IH]; intros Hn; [done|]. simpl in Hn |- *.
  apply andb_true_iff in Hn as [Hc Hs]. b2p. rewrite Hc. destruct s; [done|]. by rewrite IH.
Qed.

Lemma append_inj_l (s t u : string) : s +:+ t = s +:+ u → t = u.
Proof. induction s as [|c s IH]; simpl; [done|]. intros [= H]. by apply IH. Qed.

(** A text without [c] after the last [c] is what it is. *)
Lemma append_last_inj c s1 t1 s2 t2 :
  allChars (λ d, negb (Ascii.eqb d c)) t1 = true → allChars (λ d, negb (Ascii.eqb d c)) t2 = true →
  s1 +:+ String c t1 = s2 +:+ String c t2 → s1 = s2 ∧ t1 = t2.
Proof.
  intros H1 H2. revert s2. induction s1 as [|d s1 IH]; intros [|d' s2]; simpl.
  - by intros [= ->].
  - intros [= -> ->]. rewrite allChars_app in H1. simpl in H1. rewrite Ascii.eqb_refl in H1. b2p. done.
  - intros [= -> <-]. rewrite allChars_app in H2. simpl in H2. rewrite Ascii.eqb_refl in H2. b2p. done.
  - intros [= -> H]. destruct (IH s2 H) as [-> ->]. done.
Qed.

Lemma c_str_no_nul s : allChars (λ c, negb (Ascii.eqb c Ascii.zero)) s = true → c_str s = s.
Proof.
  induction s as [|c s IH]; simpl; [done|]. intros [Hc Hs]%andb_true_iff. rewrite IH by done. by destruct (Ascii.eqb c Ascii.zero).
Qed.
