(* ===== verification/Scan.v ===== *)
(** * Reading integers from text

    [std::stoi], and the formatted input of an [std::istringstream]: [ls >> word]
    and [ls >> n].  What is left of the text is returned with what was read, so
    that a following extraction starts where this one stopped. *)
From S2P Require Import Prelude Text.
From Stdlib Require Import Ascii.

Definition digitOf (c : ascii) : option Z :=
  let n := Z.of_nat (nat_of_ascii c) in if (48 <=? n) && (n <=? 57) then Some (n - 48) else None.

(** The longest run of digits: its value on top of [acc], and the rest. *)
Fixpoint scanDigits (acc : Z) (s : string) : Z * string :=
  match s with
  | EmptyString => (acc, "")
  | String c rest =>
    match digitOf c with Some d => scanDigits (10 * acc + d) rest | None => (acc, s) end
  end.

Fixpoint skipSpace (s : string) : string :=
  match s with
  | EmptyString => ""
  | String c rest => if isspace c then skipSpace rest else s
  end.

(** An optional sign and at least one digit. *)
Definition scanSigned (s : string) : option (Z * string) :=
  let digits neg s :=
    match s with
    | String c _ =>
      match digitOf c with
      | Some _ => let '(n, rest) := scanDigits 0 s in Some (if neg : bool then - n else n, rest)
      | None => None
      end
    | EmptyString => None
    end in
  match s with
  | String c rest =>
    if Ascii.eqb c "-" then digits true rest
    else if Ascii.eqb c "+" then digits false rest
    else digits false s
  | EmptyString => None
  end.

(** [std::stoi]: what follows the number is ignored. *)
Definition stoi (s : string) : result Z :=
  match scanSigned (skipSpace s) with
  | None => Throw "stoi"
  | Some (n, _) => if decide (int_range n) then Ok n else Throw "stoi"
  end.

(** A stream of characters and its fail bit.  [ls >> word]. *)
Fixpoint takeWord (s : string) : string * string :=
  match s with
  | EmptyString => ("", "")
  | String c rest => if isspace c then ("", s) else let '(w, r) := takeWord rest in (String c w, r)
  end.

Definition readWord (s : string) : string * string := takeWord (skipSpace s).

(** [ls >> n] on a stream that may have failed already: a failed stream leaves
    the variable alone, a failed conversion stores 0, one that does not fit
    stores the nearest [int] and fails as well. *)
Definition readInt (n : Z) (stream : option string) : Z * option string :=
  match stream with
  | None => (n, None)
  | Some s =>
    match scanSigned (skipSpace s) with
    | None => (0, None)
    | Some (z, rest) =>
      if z <? INT_MIN then (INT_MIN, None)
      else if INT_MAX <? z then (INT_MAX, None)
      else (z, Some rest)
    end
  end.

(** ** Reading back what was printed *)

Definition startsNoDigit (s : string) : bool :=
  match s with String c _ => bool_decide (digitOf c = None) | EmptyString => true end.

Lemma scanDigits_stop acc s : startsNoDigit s = true → scanDigits acc s = (acc, s).
Proof. destruct s as [|c s]; simpl; [done|]. intros ?. b2p. by case_match. Qed.

Lemma digitOf_char n : (n < 10)%N → digitOf (pretty_N_char n) = Some (Z.of_N n).
Proof.
  intros Hn. destruct n as [|p]; [done|]. do 4 (destruct p; try done; try lia).
Qed.


Lemma scanDigits_pretty_go x s : scanDigits 0 (pretty_N_go x s) = scanDigits (Z.of_N x) s.
Proof.
  revert s. induction (N.lt_wf_0 x) as [x _ IH]. intros s.
  destruct (decide (0 < x)%N) as [Hx|Hx].
  - rewrite pretty_N_go_step by done. rewrite IH by (apply N.div_lt; lia). cbn [scanDigits].
    rewrite digitOf_char by (apply N.mod_lt; lia). f_equal.
    rewrite N2Z.inj_div, N2Z.inj_mod. pose proof (Z.div_mod (Z.of_N x) 10). lia.
  - assert (x = 0%N) as -> by lia. by rewrite pretty_N_go_0.
Qed.

Lemma pretty_go_app x s t : pretty_N_go x s +:+ t = pretty_N_go x (s +:+ t).
Proof.
  revert s. induction (N.lt_wf_0 x) as [x _ IH]. intros s.
  destruct (decide (0 < x)%N) as [Hx|Hx].
  - rewrite !(pretty_N_go_step x) by done. rewrite IH by (apply N.div_lt; lia). done.
  - assert (x = 0%N) as -> by lia. by rewrite !pretty_N_go_0.
Qed.

Lemma pretty_go_head x c s :
  is_Some (digitOf c) → ∃ d t, pretty_N_go x (String c s) = String d t ∧ is_Some (digitOf d).
Proof.
  revert c s. induction (N.lt_wf_0 x) as [x _ IH]. intros c s Hc.
  destruct (decide (0 < x)%N) as [Hx|Hx].
  - rewrite pretty_N_go_step by done. apply IH; [apply N.div_lt; lia|].
    rewrite digitOf_char by (apply N.mod_lt; lia). eauto.
  - assert (x = 0%N) as -> by lia. rewrite pretty_N_go_0. eauto.
Qed.

Lemma pretty_N_head (n : N) : ∃ d t, pretty n = String d t ∧ is_Some (digitOf d).
Proof.
  unfold pretty, pretty_N. case_decide as Hn; [by exists "0"%char, ""; eauto|].
  rewrite pretty_N_go_step by lia. apply pretty_go_head.
  rewrite digitOf_char by (apply N.mod_lt; lia). eauto.
Qed.

Lemma scanDigits_pretty (n : N) rest :
  startsNoDigit rest = true → scanDigits 0 (pretty n +:+ rest) = (Z.of_N n, rest).
Proof.
  intros Hr. unfold pretty, pretty_N. case_decide as Hn.
  - subst n. change ("0" +:+ rest) with (String "0" rest). cbn [scanDigits].
    exact (scanDigits_stop 0 rest Hr).
  - rewrite pretty_go_app, scanDigits_pretty_go. by apply scanDigits_stop.
Qed.

Lemma scanSigned_digit c s :
  is_Some (digitOf c) → scanSigned (String c s) = Some (scanDigits 0 (String c s)).
Proof.
  intros [d Hd]. unfold scanSigned.
  destruct (Ascii.eqb_spec c "-"); [by subst c|]. destruct (Ascii.eqb_spec c "+"); [by subst c|].
  rewrite Hd. by destruct (scanDigits 0 (String c s)).
Qed.

Lemma scanSigned_showInt z rest :
  startsNoDigit rest = true → scanSigned (showInt z +:+ rest) = Some (z, rest).
Proof.
  intros Hr. unfold showInt. destruct z as [|p|p].
  - change (pretty 0) with (pretty 0%N). destruct (pretty_N_head 0) as (d & t & E & Hd).
    pose proof (scanDigits_pretty 0 rest Hr) as Hs. rewrite E in Hs |- *. change (String d t +:+ rest) with (String d (t +:+ rest)) in *.
    by rewrite scanSigned_digit, Hs.
  - change (pretty (Z.pos p)) with (pretty (N.pos p)). destruct (pretty_N_head (N.pos p)) as (d & t & E & Hd).
    pose proof (scanDigits_pretty (N.pos p) rest Hr) as Hs. rewrite E in Hs |- *. change (String d t +:+ rest) with (String d (t +:+ rest)) in *.
    by rewrite scanSigned_digit, Hs.
  - change (pretty (Z.neg p)) with (String "-" (pretty (N.pos p))). destruct (pretty_N_head (N.pos p)) as (d & t & E & Hd).
    pose proof (scanDigits_pretty (N.pos p) rest Hr) as Hs. rewrite E in Hs |- *.
    change (String "-" (String d t) +:+ rest) with (String "-" (String d (t +:+ rest))).
    change (String d t +:+ rest) with (String d (t +:+ rest)) in Hs.
    unfold scanSigned. simpl (Ascii.eqb _ _). cbv iota. destruct Hd as [x Hx]. rewrite Hx, Hs. done.
Qed.

Lemma digit_not_space c : is_Some (digitOf c) → isspace c = false.
Proof.
  unfold digitOf, isspace. intros [x Hx]. case_match; [|done]. b2p.
  apply orb_false_iff. split; [apply Nat.eqb_neq; lia|].
  apply andb_false_iff. right. apply Nat.leb_gt. lia.
Qed.

Lemma skipSpace_showInt z rest : skipSpace (showInt z +:+ rest) = showInt z +:+ rest.
Proof.
  unfold showInt. destruct z as [|p|p].
  - done.
  - change (pretty (Z.pos p)) with (pretty (N.pos p)). destruct (pretty_N_head (N.pos p)) as (d & t & -> & Hd).
    change (String d t +:+ rest) with (String d (t +:+ rest)). cbn [skipSpace]. by rewrite digit_not_space.
  - done.
Qed.

Lemma stoi_showInt z : int_range z → stoi (showInt z) = Ok z.
Proof.
  intros Hz. unfold stoi. rewrite <-(append_nil_r (showInt z)), skipSpace_showInt.
  rewrite scanSigned_showInt by done. by rewrite decide_True.
Qed.

(** An integer in the text of a stream, after blanks. *)
Lemma readInt_showInt n z rest :
  int_range z → startsNoDigit rest = true →
  readInt n (Some (" " +:+ showInt z +:+ rest)) = (z, Some rest).
Proof.
  intros Hz Hr. unfold readInt.
  change (skipSpace (" " +:+ showInt z +:+ rest)) with (skipSpace (showInt z +:+ rest)).
  rewrite skipSpace_showInt, scanSigned_showInt by done. unfold int_range in Hz.
  destruct (z <? INT_MIN) eqn:E1; b2p; [lia|]. destruct (INT_MAX <? z) eqn:E2; b2p; [lia|done].
Qed.

(** ** The characters of a number *)

Lemma pretty_N_go_chars P x s :
  (∀ n, (n < 10)%N → P (pretty_N_char n) = true) → allChars P s = true → allChars P (pretty_N_go x s) = true.
Proof.
  intros Hd. revert s. induction (N.lt_wf_0 x) as [x _ IH]. intros s Hs.
  destruct (decide (0 < x)%N) as [Hx|Hx].
  - rewrite pretty_N_go_step by done. apply IH; [apply N.div_lt; lia|]. simpl. by rewrite Hd, Hs by (apply N.mod_lt; lia).
  - assert (x = 0%N) as -> by lia. by rewrite pretty_N_go_0.
Qed.

Lemma pretty_N_chars P (n : N) : (∀ n, (n < 10)%N → P (pretty_N_char n) = true) → allChars P (pretty n) = true.
Proof.
  intros Hd. unfold pretty, pretty_N. case_decide as Hn; [|by apply pretty_N_go_chars].
  pose proof (Hd 0%N ltac:(lia)) as H0. change (P "0"%char && true = true). by rewrite andb_true_r.
Qed.

Lemma showInt_chars P z :
  P "-"%char = true → (∀ n, (n < 10)%N → P (pretty_N_char n) = true) → allChars P (showInt z) = true.
Proof.
  intros Hm Hd. unfold showInt. destruct z as [|p|p].
  - exact (pretty_N_chars P 0 Hd).
  - exact (pretty_N_chars P (N.pos p) Hd).
  - change (pretty (Z.neg p)) with (String "-" (pretty (N.pos p))). cbn [allChars]. by rewrite Hm, pretty_N_chars.
Qed.

Lemma showInt_without c z : digitOf c = None → c ≠ "-"%char → allChars (λ d, negb (Ascii.eqb d c)) (showInt z) = true.
Proof.
  intros Hc Hm. apply showInt_chars; [by destruct (Ascii.eqb_spec "-" c)|].
  intros n Hn. apply negb_true_iff, Ascii.eqb_neq. intros <-. by rewrite digitOf_char in Hc.
Qed.

Lemma showInt_inj a b : showInt a = showInt b → a = b.
Proof. apply (inj pretty). Qed.

Lemma c_str_showInt z : c_str (showInt z) = showInt z.
Proof. apply c_str_no_nul, showInt_without; [reflexivity|done]. Qed.
