(* ===== verification/Double.v ===== *)
(** * IEEE double arithmetic

    The C++ [double] is the binary64 format of the Standard Library's
    specification of floating-point numbers; [int] converts exactly, every
    operation rounds to nearest even. *)
From S2P Require Import Prelude.
From Stdlib Require Import SpecFloat.

Definition double : Type := spec_float.

Definition prec : Z := 53.
Definition emax : Z := 1024.

(** [static_cast<double>(z)]. *)
Definition dOfInt (z : Z) : double := binary_normalize prec emax z 0 false.

Definition dAdd : double → double → double := SFadd prec emax.
Definition dSub : double → double → double := SFsub prec emax.
Definition dMul : double → double → double := SFmul prec emax.
Definition dDiv : double → double → double := SFdiv prec emax.
Definition dLt (a b : double) : bool := SFltb a b.
Definition dLe (a b : double) : bool := SFleb a b.

Definition d0 : double := S754_zero false.
Definition d1 : double := dOfInt 1.

(** [std::clamp(v, lo, hi)]. *)
Definition dClamp (v lo hi : double) : double :=
  if dLt v lo then lo else if dLt hi v then hi else v.

(** [int] quotients as the code forms them: [static_cast<double>(a) / b]. *)
Definition dRatio (a b : Z) : double := dDiv (dOfInt a) (dOfInt b).

(** A double without its fraction (the C++ conversion is undefined where the
    result does not fit; here it is the exact integer, and 0 for NaN). *)
Definition dTrunc (d : double) : Z :=
  match d with
  | S754_finite s m e =>
    let a := if 0 <=? e then Z.pos m * 2 ^ e else Z.pos m / 2 ^ (- e) in
    if s then - a else a
  | _ => 0
  end.

Example dRatio_half : dRatio 1 2 = S754_finite false 4503599627370496 (-53).
Proof. vm_compute. reflexivity. Qed.
