(* ===== verification/DoubleBounds.v ===== *)
(** * Bounds on rounded arithmetic

    What the development needs of IEEE rounding: it does not pass an integer, so a
    share [n * p] of an [int] cut to an [int] again stays between 0 and [n]. *)
From S2P Require Import Prelude Double.
From Stdlib Require Import SpecFloat.

(** ** Rounding does not pass an integer

    The standard says that rounding is monotonic; here is what the development
    needs of it, proved of the rounding function: a result that is at most an
    integer [N] before rounding is at most [N] after. *)

(** [m * 2 ^ e] is at most [N], and less when something was cut off. *)
Definition below (m e : Z) (l : location) (N : Z) : Prop :=
  match l with
  | loc_Exact => m * 2 ^ Z.max e 0 ≤ N * 2 ^ Z.max (- e) 0
  | _ => m * 2 ^ Z.max e 0 < N * 2 ^ Z.max (- e) 0
  end.

(** A finite double of sign [s] and of magnitude at most [N]. *)
Definition dWithin (s : bool) (N : Z) (d : double) : Prop :=
  match d with
  | S754_zero s' => s' = s
  | S754_finite s' m e => s' = s ∧ Z.pos m < 2 ^ 53 ∧ below (Z.pos m) e loc_Exact N
  | _ => False
  end.

Lemma digits_bounds p : 2 ^ (Z.pos (digits2_pos p) - 1) ≤ Z.pos p < 2 ^ Z.pos (digits2_pos p).
Proof.
  induction p as [p IH|p IH|]; simpl digits2_pos; [..|simpl; lia];
    rewrite Pos2Z.inj_succ; unfold Z.succ; rewrite Z.add_simpl_r, Z.pow_add_r by lia;
    replace (2 ^ Z.pos (digits2_pos p)) with (2 * 2 ^ (Z.pos (digits2_pos p) - 1)) in *
      by (rewrite <-Z.pow_succ_r by lia; f_equal; lia); lia.
Qed.

(** [r'] is [r] without its [k] last bits; the sticky bits tell a loss. *)
Definition inexact (r : shr_record) : bool := shr_r r || shr_s r.

Definition cut (k : Z) (r r' : shr_record) : Prop :=
  0 ≤ shr_m r' ∧ shr_m r' * 2 ^ k ≤ shr_m r < (shr_m r' + 1) * 2 ^ k ∧
  (inexact r' = true → inexact r = true ∨ shr_m r' * 2 ^ k < shr_m r).

Lemma cut_1 r : 0 ≤ shr_m r → cut 1 r (shr_1 r).
Proof.
  destruct r as [[|[p|p|]|p] [] []]; unfold cut, inexact; simpl; intros Hm; split_and!; try done; try lia;
    intros; try (by left); try (right; lia).
Qed.

Lemma cut_trans j k r1 r2 r3 : 0 ≤ j → 0 ≤ k → cut j r1 r2 → cut k r2 r3 → cut (j + k) r1 r3.
Proof.
  intros Hj Hk (H2 & Hc & Hi) (H3 & Hd & Hi'). unfold cut. rewrite Z.pow_add_r by lia.
  pose proof (Z.pow_pos_nonneg 2 j ltac:(lia) Hj). split_and!; [done|nia|nia|].
  intros [Hx|Hx]%Hi'; [destruct (Hi Hx); [by left|right; nia]|right; nia].
Qed.

Lemma cut_iter p r : 0 ≤ shr_m r → cut (Z.pos p) r (iter_pos shr_1 p r).
Proof.
  revert r. induction p as [p IH|p IH|]; intros r Hr; simpl iter_pos; [| |by apply cut_1].
  - pose proof (cut_1 r Hr) as H1. pose proof (IH _ (proj1 H1)) as H2. pose proof (IH _ (proj1 H2)) as H3.
    replace (Z.pos p~1) with (1 + (Z.pos p + Z.pos p)) by lia. by eapply cut_trans; [..|eapply cut_trans].
  - pose proof (IH _ Hr) as H1. pose proof (IH _ (proj1 H1)) as H2.
    replace (Z.pos p~0) with (Z.pos p + Z.pos p) by lia. by eapply cut_trans.
Qed.

Lemma cut_refl r : 0 ≤ shr_m r → cut 0 r r.
Proof. intros Hr. unfold cut. rewrite Z.pow_0_r. split_and!; [done|lia|lia|by left]. Qed.

Lemma shr_cut r e n : 0 ≤ shr_m r → cut (Z.max n 0) r (shr r e n).1 ∧ (shr r e n).2 = e + Z.max n 0.
Proof.
  intros Hr. destruct n as [|p|p]; cbn [shr fst snd Z.max Z.compare]; split; try lia; try by apply cut_refl.
  by apply cut_iter.
Qed.

Lemma round_even_spec r : 0 ≤ shr_m r →
  shr_m r ≤ round_nearest_even (shr_m r) (loc_of_shr_record r) ≤ shr_m r + (if inexact r then 1 else 0).
Proof. unfold inexact. destruct r as [m [] []]; simpl; [|destruct (Z.even m)|..]; lia. Qed.

Lemma Zdigits2_bounds m : 0 < m → 2 ^ (Zdigits2 m - 1) ≤ m < 2 ^ Zdigits2 m.
Proof. destruct m as [|p|p]; [lia| |lia]. intros _. apply digits_bounds. Qed.

Lemma Zdigits2_pos m : 0 ≤ m → 0 ≤ Zdigits2 m.
Proof. destruct m; simpl; lia. Qed.

Lemma Zdigits2_le m k : 0 ≤ k → 0 ≤ m < 2 ^ k → Zdigits2 m ≤ k.
Proof.
  intros Hk Hm. destruct (decide (m = 0)) as [->|]; [done|].
  pose proof (Zdigits2_bounds m ltac:(lia)) as [Hd _]. destruct (Z.le_gt_cases (Zdigits2 m) k); [done|].
  pose proof (Z.pow_le_mono_r 2 k (Zdigits2 m - 1) ltac:(lia) ltac:(lia)). lia.
Qed.

(** A magnitude below [2 ^ 52] that has bits to lose lies left of the point. *)
Lemma below_fexp m e l N :
  0 < m → 0 ≤ N < 2 ^ 52 → below m e l N → Zdigits2 m + e ≤ 52.
Proof.
  intros Hm HN Hb. pose proof (Zdigits2_bounds m Hm) as [Hd _]. set (d := Zdigits2 m) in *.
  assert (m * 2 ^ Z.max e 0 ≤ N * 2 ^ Z.max (- e) 0) as Hle by (destruct l; unfold below in Hb; lia).
  destruct (Z.le_gt_cases (d + e) 52); [done|]. exfalso.
  assert (0 < d) by (unfold d; destruct m; simpl; lia).
  assert (2 ^ 52 * 2 ^ Z.max (- e) 0 ≤ m * 2 ^ Z.max e 0); [|pose proof (Z.pow_pos_nonneg 2 (Z.max (-e) 0) ltac:(lia) ltac:(lia)); nia].
  transitivity (2 ^ (d - 1) * 2 ^ Z.max e 0).
  - rewrite <-!Z.pow_add_r by lia. apply Z.pow_le_mono_r; lia.
  - pose proof (Z.pow_pos_nonneg 2 (Z.max e 0) ltac:(lia) ltac:(lia)). nia.
Qed.

Lemma record_of_loc_spec m l :
  shr_m (shr_record_of_loc m l) = m ∧ (inexact (shr_record_of_loc m l) = true ↔ l ≠ loc_Exact).
Proof. destruct l as [|[]]; split; try done; unfold inexact; simpl; by split. Qed.

(** The exponent and significand after the shift and the rounding. *)
Definition rounded (m e : Z) (l : location) : Z * Z :=
  let '(r, e') := shr_fexp prec emax m e l in (round_nearest_even (shr_m r) (loc_of_shr_record r), e').

Lemma rounded_spec m e l N :
  0 ≤ m → 0 ≤ N < 2 ^ 52 → l = loc_Exact ∨ e ≤ 0 → below m e l N →
  let '(m', e') := rounded m e l in
  0 ≤ m' ≤ 2 ^ 53 ∧ -1074 ≤ e' ∧ below m' e' loc_Exact N.
Proof.
  intros Hm HN Hl Hb. unfold rounded, shr_fexp.
  set (n := fexp prec emax (Zdigits2 m + e) - e). set (r0 := shr_record_of_loc m l).
  destruct (record_of_loc_spec m l) as [Hr0 Hi0]. fold r0 in Hr0, Hi0.
  destruct (shr_cut r0 e n ltac:(lia)) as [Hc He]. destruct (shr r0 e n) as [r e']. cbn [fst snd] in *.
  destruct Hc as (Hr & [Hlo Hhi] & Hi). rewrite Hr0 in *.
  pose proof (round_even_spec r Hr) as [Hq Hq']. set (q := round_nearest_even _ _) in *.
  assert (fexp prec emax (Zdigits2 m + e) = Z.max (Zdigits2 m + e - 53) (-1074)) as Hf by done.
  assert (n = fexp prec emax (Zdigits2 m + e) - e) as Hnd by done. clearbody n.
  assert (0 ≤ Zdigits2 m) by by apply Zdigits2_pos.
  assert (shr_m r < 2 ^ 53) as H53.
  { assert (m < 2 ^ (53 + Z.max n 0)) as Hlt.
    { destruct (decide (m = 0)) as [->|]; [apply Z.pow_pos_nonneg; lia|].
      pose proof (Zdigits2_bounds m ltac:(lia)) as [_ Hd]. eapply Z.lt_le_trans; [done|].
      apply Z.pow_le_mono_r; lia. }
    rewrite Z.pow_add_r in Hlt by lia.
    pose proof (Z.pow_pos_nonneg 2 (Z.max n 0) ltac:(lia) ltac:(lia)). nia. }
  split_and!; [lia|destruct (inexact r); lia|lia|].
  assert (q ≤ shr_m r + 1 ∧ (inexact r = false → q ≤ shr_m r)) as [Hq1 Hq2] by (destruct (inexact r); split; lia).
  clear Hq'. unfold below. destruct (Z.le_gt_cases n 0) as [Hn|Hn].
  - rewrite (Z.max_r n 0) in * by lia. replace (e + 0) with e in * by lia. subst e'.
    assert (shr_m r = m) as Hrm by (rewrite Z.pow_0_r in *; lia). rewrite Hrm in *.
    destruct (inexact r) eqn:Hir.
    + assert (l ≠ loc_Exact) as Hne by (apply Hi0; destruct (Hi eq_refl); [done|rewrite Z.pow_0_r in *; lia]).
      destruct Hl as [|Hle]; [done|]. rewrite Z.max_r in * by lia. rewrite Z.pow_0_r in *.
      destruct l; [done|]. unfold below in Hb. rewrite Z.max_r, Z.pow_0_r in Hb by lia. lia.
    + assert (q = m) as -> by (specialize (Hq2 eq_refl); lia). destruct l; unfold below in Hb; lia.
  - rewrite (Z.max_l n 0) in * by lia.
    assert (e' < 0) as He'.
    { destruct (decide (m = 0)) as [->|]; [cbn [Zdigits2] in *; lia|].
      pose proof (below_fexp m e l N ltac:(lia) HN Hb). lia. }
    rewrite (Z.max_r e' 0), (Z.max_l (- e') 0) by lia. rewrite Z.pow_0_r.
    assert (2 ^ (- e) = 2 ^ (- e') * 2 ^ n) as Hp by (rewrite <-Z.pow_add_r by lia; f_equal; lia).
    pose proof (Z.pow_pos_nonneg 2 n ltac:(lia) ltac:(lia)) as Hpn.
    assert (below m e l N → m ≤ N * 2 ^ (- e') * 2 ^ n ∧ (l ≠ loc_Exact → m < N * 2 ^ (- e') * 2 ^ n)) as Hm'.
    { unfold below. rewrite (Z.max_r e 0), (Z.max_l (- e) 0), Z.pow_0_r, Hp by lia. destruct l; split; intros; try done; lia. }
    destruct (Hm' Hb) as [Hm1 Hm2]. destruct (inexact r) eqn:Hir.
    + assert (shr_m r * 2 ^ n < N * 2 ^ (- e') * 2 ^ n); [|nia].
      destruct (Hi eq_refl) as [Hx|Hx]; [apply Hi0 in Hx; specialize (Hm2 Hx)|]; lia.
    + specialize (Hq2 eq_refl). nia.
Qed.

Lemma binary_round_aux_rounded s m e l :
  binary_round_aux prec emax s m e l =
    let '(q, e1) := rounded m e l in
    let '(r, e2) := shr_fexp prec emax q e1 loc_Exact in
    match shr_m r with
    | Z0 => S754_zero s
    | Zpos p => if e2 <=? emax - prec then S754_finite s p e2 else S754_infinity s
    | _ => S754_nan
    end.
Proof. unfold binary_round_aux, rounded. by destruct (shr_fexp prec emax m e l). Qed.

Lemma below_shift q e N : q = 2 ^ 53 → N < 2 ^ 52 → below q e loc_Exact N → below (2 ^ 52) (e + 1) loc_Exact N.
Proof.
  unfold below. intros -> HN Hb. destruct (Z.le_gt_cases 0 e).
  - rewrite (Z.max_l e 0), (Z.max_r (- e) 0), Z.pow_0_r in Hb by lia.
    pose proof (Z.pow_pos_nonneg 2 e ltac:(lia) ltac:(lia)). lia.
  - rewrite (Z.max_r e 0), (Z.max_l (- e) 0), Z.pow_0_r in Hb by lia.
    rewrite (Z.max_r (e + 1) 0), (Z.max_l (- (e + 1)) 0), Z.pow_0_r by lia.
    replace (- e) with (- (e + 1) + 1) in Hb by lia. rewrite Z.pow_add_r in Hb by lia. lia.
Qed.

Lemma below_exponent p e N : N < 2 ^ 52 → below (Z.pos p) e loc_Exact N → e < 52.
Proof.
  unfold below. intros HN Hb. destruct (Z.le_gt_cases 52 e); [|done]. exfalso.
  rewrite (Z.max_l e 0), (Z.max_r (- e) 0), Z.pow_0_r in Hb by lia.
  pose proof (Z.pow_le_mono_r 2 52 e ltac:(lia) ltac:(lia)). nia.
Qed.

Lemma round_within s m e l N :
  0 ≤ m → 0 ≤ N < 2 ^ 52 → l = loc_Exact ∨ e ≤ 0 → below m e l N →
  dWithin s N (binary_round_aux prec emax s m e l).
Proof.
  intros Hm HN Hl Hb. rewrite binary_round_aux_rounded.
  pose proof (rounded_spec m e l N Hm HN Hl Hb) as Hq. destruct (rounded m e l) as [q e1].
  destruct Hq as (Hq & He1 & Hbq). unfold shr_fexp. simpl shr_record_of_loc.
  set (r0 := Build_shr_record q false false).
  assert (Zdigits2 q ≤ 54) as Hd by (apply Zdigits2_le; lia).
  assert (fexp prec emax (Zdigits2 q + e1) = Z.max (Zdigits2 q + e1 - 53) (-1074)) as -> by done.
  set (n := Z.max (Zdigits2 q + e1 - 53) (-1074) - e1).
  destruct (shr_cut r0 e1 n ltac:(simpl; lia)) as [Hc He]. destruct (shr r0 e1 n) as [r e2]. cbn [fst snd] in *.
  assert (0 ≤ shr_m r < 2 ^ 53 ∧ below (shr_m r) e2 loc_Exact N) as [Hr Hbr].
  { destruct Hc as (Hr & [Hlo Hhi] & _). simpl shr_m in *. destruct (Z.le_gt_cases (Zdigits2 q) 53).
    - rewrite (Z.max_r n 0) in * by lia. rewrite Z.pow_0_r in *. assert (shr_m r = q) as -> by lia.
      replace e2 with e1 by lia. split; [|done]. split; [lia|].
      destruct (decide (q = 0)) as [->|]; [lia|]. pose proof (Zdigits2_bounds q ltac:(lia)) as [_ Hq2].
      eapply Z.lt_le_trans; [done|]. apply Z.pow_le_mono_r; lia.
    - assert (q = 2 ^ 53) as Hq53.
      { destruct (decide (q = 0)) as [->|]; [simpl in *; lia|]. pose proof (Zdigits2_bounds q ltac:(lia)) as [Hq1 _].
        pose proof (Z.pow_le_mono_r 2 53 (Zdigits2 q - 1) ltac:(lia) ltac:(lia)). lia. }
      replace (Z.max n 0) with 1 in * by lia. assert (shr_m r = 2 ^ 52) as -> by lia.
      subst e2. split; [lia|]. apply below_shift with q; [done|lia|done]. }
  destruct (shr_m r) as [|p|p]; [done| |lia].
  pose proof (below_exponent p e2 N ltac:(lia) Hbr). unfold emax, prec.
  destruct (Z.leb_spec e2 (1024 - 53)); [|lia]. simpl. split_and!; [done|lia|done].
Qed.

(** ** The operations on magnitudes *)
Lemma below_scale m e N K : 0 ≤ K → 0 ≤ e + K → below m e loc_Exact N ↔ m * 2 ^ (e + K) ≤ N * 2 ^ K.
Proof.
  intros HK He. unfold below. set (j := Z.max (- e) 0).
  assert (2 ^ (e + K) = 2 ^ Z.max e 0 * 2 ^ (K - j)) as -> by (rewrite <-Z.pow_add_r by lia; f_equal; lia).
  assert (2 ^ K = 2 ^ j * 2 ^ (K - j)) as -> by (rewrite <-Z.pow_add_r by lia; f_equal; lia).
  pose proof (Z.pow_pos_nonneg 2 (K - j) ltac:(lia) ltac:(lia)). rewrite !Z.mul_assoc. nia.
Qed.

Lemma dMul_within s1 N1 a s2 N2 b :
  0 ≤ N1 → 0 ≤ N2 → N1 * N2 < 2 ^ 52 → dWithin s1 N1 a → dWithin s2 N2 b →
  dWithin (xorb s1 s2) (N1 * N2) (dMul a b).
Proof.
  intros H1 H2 HN Ha Hb. destruct a as [sa| | |sa ma ea], b as [sb| | |sb mb eb]; simpl in Ha, Hb; try done.
  - by subst.
  - destruct Hb as [-> _]. by subst.
  - destruct Ha as [-> _]. by subst.
  - destruct Ha as (-> & _ & Ha), Hb as (-> & _ & Hb).
    apply round_within; [lia|lia|by left|].
    set (K := Z.max 0 (- ea)). set (J := Z.max 0 (- eb)).
    apply (below_scale _ ea _ K ltac:(lia) ltac:(lia)) in Ha.
    apply (below_scale _ eb _ J ltac:(lia) ltac:(lia)) in Hb.
    apply (below_scale _ _ _ (K + J)); [lia..|].
    replace (ea + eb + (K + J)) with ((ea + K) + (eb + J)) by lia.
    rewrite (Z.pow_add_r 2 (ea + K) (eb + J)), (Z.pow_add_r 2 K J) by lia.
    pose proof (Z.pow_pos_nonneg 2 (ea + K) ltac:(lia) ltac:(lia)).
    pose proof (Z.pow_pos_nonneg 2 (eb + J) ltac:(lia) ltac:(lia)).
    rewrite Pos2Z.inj_mul. transitivity ((Z.pos ma * 2 ^ (ea + K)) * (Z.pos mb * 2 ^ (eb + J))); [lia|].
    transitivity ((N1 * 2 ^ K) * (N2 * 2 ^ J)); [apply Z.mul_le_mono_nonneg; lia|lia].
Qed.

Lemma shl_align_spec m e e' : e' ≤ e → shl_align m e e' = (Z.to_pos (Z.pos m * 2 ^ (e - e')), e').
Proof.
  intros He. unfold shl_align. destruct (e' - e) as [|d|d] eqn:Hd; [|lia|].
  - replace e' with e by lia. by rewrite Z.sub_diag, Z.pow_0_r, Z.mul_1_r.
  - replace (e - e') with (Z.pos d) by lia. f_equal.
    rewrite <-(Pos2Z.id (Pos.iter xO m d)). f_equal. clear.
    induction d as [|d IH] using Pos.peano_ind; [simpl; lia|].
    rewrite Pos.iter_succ, Pos2Z.inj_succ, Z.pow_succ_r, Pos2Z.inj_xO, IH by lia. lia.
Qed.

Lemma below_mono m e N N' : N ≤ N' → below m e loc_Exact N → below m e loc_Exact N'.
Proof. unfold below. pose proof (Z.pow_pos_nonneg 2 (Z.max (- e) 0) ltac:(lia) ltac:(lia)). nia. Qed.

Lemma binary_round_within s m e N :
  0 ≤ N < 2 ^ 52 → below (Z.pos m) e loc_Exact N → dWithin s N (binary_round prec emax s m e).
Proof.
  intros HN Hb. unfold binary_round. set (f := fexp _ _ _).
  destruct (Z.le_gt_cases f e) as [Hf|Hf].
  - rewrite shl_align_spec by done. apply round_within; [lia..|by left|].
    pose proof (Z.pow_pos_nonneg 2 (e - f) ltac:(lia) ltac:(lia)).
    rewrite Z2Pos.id by nia. set (K := Z.max 0 (- f)).
    apply (below_scale _ _ _ K); [lia..|]. apply (below_scale _ e _ K ltac:(lia) ltac:(lia)) in Hb.
    rewrite <-Z.mul_assoc, <-Z.pow_add_r by lia. by replace (e - f + (f + K)) with (e + K) by lia.
  - unfold shl_align. destruct (f - e) eqn:?; [lia| |lia]. apply round_within; [lia..|by left|done].
Qed.

Lemma dOfInt_within n : Z.abs n < 2 ^ 52 → dWithin (n <? 0) (Z.abs n) (dOfInt n).
Proof.
  intros Hn. destruct n as [|p|p]; [done|..]; apply binary_round_within; try lia; apply Z.le_refl.
Qed.

Lemma dTrunc_within s N d : 0 ≤ N → dWithin s N d → if s then - N ≤ dTrunc d ≤ 0 else 0 ≤ dTrunc d ≤ N.
Proof.
  intros HN Hd. destruct d as [s'| | |s' m e]; simpl in Hd; try done; [subst; simpl; destruct s; lia|].
  destruct Hd as (-> & _ & Hb). unfold below in Hb. unfold dTrunc.
  set (a := if 0 <=? e then _ else _). assert (0 ≤ a ≤ N); [|destruct s; lia].
  unfold a. destruct (Z.leb_spec 0 e).
  - rewrite (Z.max_l e 0), (Z.max_r (- e) 0), Z.pow_0_r in Hb by lia.
    pose proof (Z.pow_pos_nonneg 2 e ltac:(lia) ltac:(lia)). nia.
  - rewrite (Z.max_r e 0), (Z.max_l (- e) 0), Z.pow_0_r in Hb by lia.
    pose proof (Z.pow_pos_nonneg 2 (- e) ltac:(lia) ltac:(lia)). split; [apply Z.div_pos; lia|].
    apply Z.div_le_upper_bound; lia.
Qed.

(** [1.0 - p] of a proportion is a proportion. *)
Lemma dSub_1_within p : dWithin false 1 p → dWithin false 1 (dSub d1 p).
Proof.
  change d1 with (S754_finite false 4503599627370496 (-52)).
  destruct p as [s| | |s m e]; cbn [dWithin]; try done.
  intros (-> & Hm & Hb). unfold dSub, SFsub. set (ez := Z.min (-52) e).
  rewrite !shl_align_spec by lia. cbn [fst cond_Zopp].
  pose proof (Z.pow_pos_nonneg 2 (-52 - ez) ltac:(lia) ltac:(lia)).
  pose proof (Z.pow_pos_nonneg 2 (e - ez) ltac:(lia) ltac:(lia)).
  rewrite !Z2Pos.id by nia. apply (below_scale _ e _ (- ez) ltac:(lia) ltac:(lia)) in Hb.
  assert (2 ^ (- ez) = 2 ^ 52 * 2 ^ (-52 - ez)) as Hp by (rewrite <-Z.pow_add_r by lia; f_equal; lia).
  change (2 ^ 52) with 4503599627370496 in Hp. replace (e + - ez) with (e - ez) in Hb by lia.
  assert (0 ≤ 4503599627370496 * 2 ^ (-52 - ez) - Z.pos m * 2 ^ (e - ez) ≤ 2 ^ (- ez)) as Hd by lia.
  destruct (4503599627370496 * 2 ^ (-52 - ez) - Z.pos m * 2 ^ (e - ez)) as [|q|q] eqn:Hq; [done| |lia].
  apply binary_round_within; [lia|]. apply (below_scale _ _ _ (- ez)); [lia..|].
  rewrite Z.add_opp_diag_r, Z.pow_0_r. lia.
Qed.

(** [static_cast<int>(n * p)] of a proportion [p]. *)
Lemma dTrunc_share n p : Z.abs n < 2 ^ 52 → dWithin false 1 p →
  if n <? 0 then n ≤ dTrunc (dMul (dOfInt n) p) ≤ 0 else 0 ≤ dTrunc (dMul (dOfInt n) p) ≤ n.
Proof.
  intros Hn Hp. pose proof (dMul_within (n <? 0) (Z.abs n) _ false 1 p ltac:(lia) ltac:(lia) ltac:(lia) (dOfInt_within n Hn) Hp) as Hm.
  apply dTrunc_within in Hm; [|lia]. rewrite Z.mul_1_r, xorb_false_r in Hm.
  revert Hm. destruct (Z.ltb_spec n 0); lia.
Qed.

(** ** A ratio of two counts *)
Lemma binary_round_exact p :
  Z.pos p < 2 ^ 52 → ∃ m e, binary_round prec emax false p 0 = S754_finite false m e ∧
    e ≤ 0 ∧ Z.pos m = Z.pos p * 2 ^ (- e) ∧ 2 ^ 52 ≤ Z.pos m < 2 ^ 53.
Proof.
  intros Hp. unfold binary_round. pose proof (digits_bounds p) as [Hd1 Hd2].
  set (d := Z.pos (digits2_pos p)) in *.
  assert (d ≤ 52) as Hd by (apply (Zdigits2_le (Z.pos p) 52); lia).
  assert (fexp prec emax (d + 0) = d - 53) as -> by (unfold fexp, emin, prec, emax; lia).
  rewrite shl_align_spec by lia. replace (0 - (d - 53)) with (53 - d) by lia.
  pose proof (Z.pow_pos_nonneg 2 (53 - d) ltac:(lia) ltac:(lia)).
  assert (2 ^ 52 ≤ Z.pos p * 2 ^ (53 - d) < 2 ^ 53) as Hm.
  { replace (2 ^ 52) with (2 ^ (d - 1) * 2 ^ (53 - d)) by (rewrite <-Z.pow_add_r by lia; f_equal; lia).
    replace (2 ^ 53) with (2 ^ d * 2 ^ (53 - d)) by (rewrite <-Z.pow_add_r by lia; f_equal; lia). nia. }
  set (m := Z.to_pos (Z.pos p * 2 ^ (53 - d))).
  assert (Z.pos m = Z.pos p * 2 ^ (53 - d)) as Hmp by (unfold m; rewrite Z2Pos.id; lia).
  assert (Zdigits2 (Z.pos m) = 53) as Hdig.
  { pose proof (Zdigits2_le (Z.pos m) 53 ltac:(lia) ltac:(lia)).
    pose proof (Zdigits2_bounds (Z.pos m) ltac:(lia)) as [_ Hb].
    destruct (Z.le_gt_cases 53 (Zdigits2 (Z.pos m))); [lia|].
    pose proof (Z.pow_le_mono_r 2 (Zdigits2 (Z.pos m)) 52 ltac:(lia) ltac:(lia)). lia. }
  exists m, (d - 53). split_and!; [|lia|rewrite Hmp; do 2 f_equal; lia|lia..].
  rewrite binary_round_aux_rounded. unfold rounded, shr_fexp. rewrite Hdig.
  assert (fexp prec emax (53 + (d - 53)) - (d - 53) = 0) as -> by (unfold fexp, emin, prec, emax; lia).
  cbn [shr shr_record_of_loc shr_m loc_of_shr_record round_nearest_even]. rewrite Hdig.
  assert (fexp prec emax (53 + (d - 53)) - (d - 53) = 0) as -> by (unfold fexp, emin, prec, emax; lia).
  cbn [shr shr_record_of_loc shr_m]. destruct (Z.leb_spec (d - 53) (emax - prec)); [done|unfold emax, prec in *; lia].
Qed.

Lemma Zdigits2_unique m k : 0 < k → 2 ^ (k - 1) ≤ m < 2 ^ k → Zdigits2 m = k.
Proof.
  intros Hk Hm. pose proof (Z.pow_pos_nonneg 2 (k - 1) ltac:(lia) ltac:(lia)).
  pose proof (Zdigits2_le m k ltac:(lia) ltac:(lia)). pose proof (Zdigits2_bounds m ltac:(lia)) as [_ Hb].
  destruct (Z.le_gt_cases k (Zdigits2 m)); [lia|].
  pose proof (Z.pow_le_mono_r 2 (Zdigits2 m) (k - 1) ltac:(lia) ltac:(lia)). lia.
Qed.

Lemma dRatio_within N a b :
  0 ≤ N < 2 ^ 52 → 0 ≤ a ≤ N * b → a < 2 ^ 52 → 0 < b < 2 ^ 52 → dWithin false N (dRatio a b).
Proof.
  intros HN Hab Ha Hb. destruct a as [|a|]; [|..|lia].
  { destruct b as [|b|]; [lia| |lia]. destruct (binary_round_exact b ltac:(lia)) as (m & e & Hr & _).
    unfold dRatio, dDiv, dOfInt. simpl. by rewrite Hr. }
  destruct b as [|b|]; [lia| |lia].
  destruct (binary_round_exact a ltac:(lia)) as (m1 & e1 & Hr1 & He1 & Hm1 & Hn1).
  destruct (binary_round_exact b ltac:(lia)) as (m2 & e2 & Hr2 & He2 & Hm2 & Hn2).
  unfold dRatio, dDiv, dOfInt. simpl binary_normalize. rewrite Hr1, Hr2. unfold SFdiv, SFdiv_core_binary.
  rewrite (Zdigits2_unique (Z.pos m1) 53), (Zdigits2_unique (Z.pos m2) 53) by lia.
  set (f := fexp _ _ _). set (e := Z.min f (e1 - e2)). set (s := e1 - e2 - e).
  assert (match s with 0 => Z.pos m1 | Z.pos _ => Z.shiftl (Z.pos m1) s | Z.neg _ => 0 end = Z.pos m1 * 2 ^ s) as ->.
  { destruct s eqn:Hs; [lia|by rewrite Z.shiftl_mul_pow2 by lia|lia]. }
  assert (e ≤ 0) as He.
  { assert (- e2 ≤ 52); [|unfold e, f, fexp, emin, prec, emax; lia]. destruct (Z.le_gt_cases (- e2) 52); [done|].
    pose proof (Z.pow_le_mono_r 2 53 (- e2) ltac:(lia) ltac:(lia)). nia. }
  pose proof (Z_div_mod (Z.pos m1 * 2 ^ s) (Z.pos m2) ltac:(lia)) as Hdm.
  destruct (Z.div_eucl _ _) as [q r]. destruct Hdm as [Hq Hr].
  assert (Z.pos m1 * 2 ^ s ≤ Z.pos m2 * (N * 2 ^ (- e))) as Hms.
  { rewrite Hm1, Hm2. replace (Z.pos b * 2 ^ (- e2) * (N * 2 ^ (- e))) with (N * Z.pos b * (2 ^ (- e2) * 2 ^ (- e))) by lia.
    rewrite <-!Z.mul_assoc, <-!Z.pow_add_r by lia. replace (- e1 + s) with (- e2 + - e) by lia. rewrite Z.mul_assoc.
    pose proof (Z.pow_pos_nonneg 2 (- e2 + - e) ltac:(lia) ltac:(lia)). nia. }
  pose proof (Z.pow_pos_nonneg 2 (- e) ltac:(lia) ltac:(lia)).
  pose proof (Z.pow_pos_nonneg 2 s ltac:(lia) ltac:(lia)).
  assert (0 ≤ q) by nia.
  apply round_within; [lia..|right; lia|]. unfold below.
  rewrite (Z.max_r e 0), (Z.max_l (- e) 0), Z.pow_0_r by lia.
  destruct (new_location (Z.pos m2) r) eqn:Hl; [nia|].
  assert (r ≠ 0) by (intros ->; unfold new_location, new_location_even, new_location_odd in Hl; by destruct (Z.even _)).
  nia.
Qed.

Lemma SFltb_finite m1 e1 m2 e2 :
  SFltb (S754_finite false m1 e1) (S754_finite false m2 e2) =
    match e1 ?= e2 with Lt => true | Gt => false | Eq => match Pos.compare m1 m2 with Lt => true | _ => false end end.
Proof. unfold SFltb, SFcompare, Pos.compare. by destruct (e1 ?= e2), (Pos.compare_cont Eq m1 m2). Qed.

Lemma d1_finite : d1 = S754_finite false 4503599627370496 (-52).
Proof. vm_compute. reflexivity. Qed.

(** A double below 1.0 is a proportion, whatever it was bounded by. *)
Lemma dLt_1_within N d : dWithin false N d → dLt d d1 = true → dWithin false 1 d.
Proof.
  rewrite d1_finite. destruct d as [s| | |s m e]; try done.
  intros (-> & Hm & Hb). unfold dLt. rewrite SFltb_finite. intros Hlt. split_and!; [done|done|]. unfold below.
  destruct (Z.compare_spec e (-52)) as [->|He|He]; [|..|done].
  - remember 4503599627370496%positive as M eqn:HM. destruct (Pos.compare m M) eqn:Hlm; [discriminate| |discriminate].
    change (2 ^ Z.max (-52) 0) with 1. change (2 ^ Z.max (- (-52)) 0) with 4503599627370496.
    assert (Z.pos m < Z.pos M) as Hm2 by exact Hlm. clear Hlm Hlt. rewrite HM in Hm2. lia.
  - rewrite (Z.max_r e 0), (Z.max_l (- e) 0), Z.pow_0_r by lia.
    pose proof (Z.pow_le_mono_r 2 53 (- e) ltac:(lia) ltac:(lia)). lia.
Qed.

(** The ends of the scale. *)
Lemma dZero_within N : dWithin false N d0.
Proof. done. Qed.

Lemma dOne_within : dWithin false 1 d1.
Proof. by vm_compute. Qed.
