(* ===== verification/Motion.v ===== *)
(** * Motions, paths and the arbiter's state ([server/realtime])

    [Motion.h], [MotionPath.cpp], [RestDurations.h], [CaptureObserver.h], and
    the state [RealTimeArbiter] owns.  [CollisionResolver] and
    [ArrivalResolver] hold references to that state, so the three classes are
    functions over one record.

    Observers are called synchronously and never call back, so what they see
    is the sequence of notifications: the record's [events], in the order the
    code sends them. *)
From S2P Require Import Prelude Model Rules Double.

(** [RestDurations.h]. *)
Definition SHORT_REST_MS : Z := 500.
Definition LONG_REST_MS : Z := 1000.
Definition JUMP_DURATION_MS : Z := 1000.

Definition MS_PER_SQUARE_TRAVELED : Z := 1000.

Record Motion := mkMotion {
  from : Position;
  to : Position;
  start_time_ms : Z;
  arrival_time_ms : Z;
  piece_id : Z
}.

#[export] Instance Motion_eq_dec : EqDecision Motion.
Proof. solve_decision. Defined.

Definition calcTravelTime (from to : Position) : Z :=
  Z.max (Z.abs (row to - row from)) (Z.abs (col to - col from)) * MS_PER_SQUARE_TRAVELED.

Definition pathSteps (m : Motion) : Z :=
  Z.max (Z.abs (row (to m) - row (from m))) (Z.abs (col (to m) - col (from m))).

(** [int] division truncates towards zero. *)
Definition pathCheckpoints (m : Motion) : list (Position * Z) :=
  let totalDr := row (to m) - row (from m) in
  let totalDc := col (to m) - col (from m) in
  let steps := Z.max (Z.abs totalDr) (Z.abs totalDc) in
  if steps =? 0 then []
  else
    let dr := Z.quot totalDr steps in
    let dc := Z.quot totalDc steps in
    map (λ i, (mkPos (row (from m) + dr * i) (col (from m) + dc * i),
               start_time_ms m + i * MS_PER_SQUARE_TRAVELED)) (seqZ 1 steps).

(** [m.from == m.to]: the motion of a jump. *)
Definition isJump (m : Motion) : bool := posEq (from m) (to m).

Definition redirect (m : Motion) (cp : Position * Z) : Motion :=
  mkMotion (from m) cp.1 (start_time_ms m) cp.2 (piece_id m).

(** [CaptureImpact], and the calls [onPieceCaptured] and [onMoveCompleted]. *)
Record CaptureImpact := mkImpact {
  capturingPieceId : Z;
  collisionCell : Position;
  impactProgress : double
}.

Inductive Event :=
  | onPieceCaptured (captured : Piece) (impact : CaptureImpact)
  | onMoveCompleted (piece : Piece) (from to : Position) (wasCapture : bool) (gameClockMs : Z).

(** The fields of [RealTimeArbiter]. *)
Record Arbiter := mkArbiter {
  game_clock_ms : Z;
  active_motions : list Motion;
  cooldown_until_ms : gmap Z Z;
  captured_pieces : list Piece;
  board : Board;
  events : list Event
}.

Definition newArbiter (b : Board) : Arbiter := mkArbiter 0 [] ∅ [] b [].

Definition setClock (t : Z) (a : Arbiter) : Arbiter :=
  mkArbiter t (active_motions a) (cooldown_until_ms a) (captured_pieces a) (board a) (events a).
Definition setMotions (ms : list Motion) (a : Arbiter) : Arbiter :=
  mkArbiter (game_clock_ms a) ms (cooldown_until_ms a) (captured_pieces a) (board a) (events a).
Definition setCooldown (id until : Z) (a : Arbiter) : Arbiter :=
  mkArbiter (game_clock_ms a) (active_motions a) (<[id := until]> (cooldown_until_ms a))
    (captured_pieces a) (board a) (events a).
Definition pushCaptured (p : Piece) (a : Arbiter) : Arbiter :=
  mkArbiter (game_clock_ms a) (active_motions a) (cooldown_until_ms a)
    (captured_pieces a ++ [p]) (board a) (events a).
Definition onBoard (f : Board → Board) (a : Arbiter) : Arbiter :=
  mkArbiter (game_clock_ms a) (active_motions a) (cooldown_until_ms a) (captured_pieces a)
    (f (board a)) (events a).
Definition notify (e : Event) (a : Arbiter) : Arbiter :=
  mkArbiter (game_clock_ms a) (active_motions a) (cooldown_until_ms a) (captured_pieces a)
    (board a) (events a ++ [e]).

(** [piece->transitionTo(s)] for the piece of a cell, its result ignored. *)
Definition transitionAt (s : State) (pos : Position) (a : Arbiter) : Arbiter :=
  onBoard (λ b, updatePiece (transition s) b pos) a.

(** ** Paths *)

(** A slide keeps to a rank, a file or a diagonal (a knight's move does not). *)
Definition straight (m : Motion) : Prop :=
  row (to m) = row (from m) ∨ col (to m) = col (from m) ∨
  Z.abs (row (to m) - row (from m)) = Z.abs (col (to m) - col (from m)).

(** The motion was given its travel time, as [addMotion] does. *)
Definition timed (m : Motion) : Prop :=
  arrival_time_ms m = start_time_ms m + calcTravelTime (from m) (to m).

Lemma isJump_steps m : isJump m = true ↔ pathSteps m = 0.
Proof.
  unfold isJump, pathSteps. rewrite posEq_spec. destruct (from m), (to m); simpl. split.
  - intros [= -> ->]. lia.
  - intros ?. f_equal; lia.
Qed.

Lemma pathSteps_pos m : 0 ≤ pathSteps m.
Proof. unfold pathSteps. lia. Qed.

Lemma quot_unit a n : 0 < n → a = 0 ∨ Z.abs a = n → Z.quot a n = Z.sgn a.
Proof.
  intros Hn [->|Ha]; [by apply Z.quot_0_l; lia|].
  destruct (Z.sgn_spec a) as [[Hs ->]|[[Hs ->]|[Hs ->]]]; try lia.
  - replace a with n by lia. apply Z.quot_same. lia.
  - replace a with (- n) by lia. rewrite Z.quot_opp_l, Z.quot_same; lia.
Qed.

Lemma pathCheckpoints_lookup m k :
  straight m → 
  pathCheckpoints m !! k =
  if decide (Z.of_nat k < pathSteps m)
  then Some (between (from m) (to m) (Z.of_nat k + 1), start_time_ms m + (Z.of_nat k + 1) * 1000)
  else None.
Proof.
  intros Hs. unfold pathCheckpoints. fold (pathSteps m). pose proof (pathSteps_pos m).
  case_match eqn:E; b2p.
  { case_decide; [lia|done]. }
  rewrite list_lookup_fmap. case_decide as Hk.
  - rewrite lookup_seqZ_lt by lia. simpl. rewrite !quot_unit; [|unfold pathSteps, straight in *; lia..].
    unfold between, along, offset; simpl. f_equal. f_equal; [f_equal; lia|].
    unfold MS_PER_SQUARE_TRAVELED. lia.
  - rewrite lookup_seqZ_ge by lia. done.
Qed.

Lemma pathCheckpoints_length m : length (pathCheckpoints m) = Z.to_nat (pathSteps m).
Proof.
  unfold pathCheckpoints. fold (pathSteps m). case_match; b2p.
  - simpl. lia.
  - by rewrite length_map, length_seqZ.
Qed.

(** A slide's checkpoints are one square and 1000 ms apart, start one step
    from its origin and end on its destination at its arrival time. *)
Theorem pathCheckpoints_walk m :
  straight m → timed m →
  (∀ k cell t, pathCheckpoints m !! k = Some (cell, t) →
     t = start_time_ms m + (Z.of_nat k + 1) * MS_PER_SQUARE_TRAVELED ∧
     dist (from m) cell = Z.of_nat k + 1 ∧
     dist (match k with O => from m | S k' => (default (from m, 0) (pathCheckpoints m !! k')).1 end)
          cell = 1) ∧
  length (pathCheckpoints m) = Z.to_nat (dist (from m) (to m)) ∧
  (isJump m = false → last (pathCheckpoints m) = Some (to m, arrival_time_ms m)).
Proof.
  intros Hs Ht. pose proof (pathSteps_pos m) as Hp. split_and!.
  - intros k cell t. rewrite pathCheckpoints_lookup by done. case_decide as Hk; [|done].
    intros [= <- <-]. split; [done|].
    assert (∀ i, 0 ≤ i ≤ pathSteps m → dist (from m) (between (from m) (to m) i) = i) as Hd.
    { unfold pathSteps, dist, between, straight in *; simpl. intros i Hi. clear Ht. 
      destruct (Z.sgn_spec (row (to m) - row (from m))) as [[? ->]|[[? ->]|[? ->]]],
        (Z.sgn_spec (col (to m) - col (from m))) as [[? ->]|[[? ->]|[? ->]]]; lia. }
    split; [apply Hd; lia|]. destruct k as [|k]; [apply Hd; lia|].
    rewrite pathCheckpoints_lookup by done. rewrite decide_True by lia. simpl.
    clear Hd. unfold pathSteps, dist, between, straight in *; simpl. clear Ht.
    destruct (Z.sgn_spec (row (to m) - row (from m))) as [[? ->]|[[? ->]|[? ->]]],
        (Z.sgn_spec (col (to m) - col (from m))) as [[? ->]|[[? ->]|[? ->]]]; lia.
  - apply pathCheckpoints_length.
  - intros Hj. rewrite last_lookup, pathCheckpoints_length, pathCheckpoints_lookup by done.
    assert (pathSteps m ≠ 0) by (by intros H%isJump_steps; rewrite Hj in H).
    rewrite decide_True by lia. replace (Z.of_nat _ + 1) with (pathSteps m) by lia.
    rewrite Ht. unfold calcTravelTime. fold (pathSteps m). do 2 f_equal.
    clear Ht Hj. unfold pathSteps, between, along, offset, straight in *; simpl.
    destruct (from m) as [r c], (to m) as [r' c']; simpl in *. f_equal; lia.
Qed.

Lemma pathCheckpoints_walk_witness :
  let m := mkMotion (mkPos 7 0) (mkPos 4 3) 250 3250 5 in
  straight m ∧ last (pathCheckpoints m) = Some (mkPos 4 3, 3250).
Proof.
  intros m. assert (straight m) as Hs by (unfold straight; simpl; lia). split; [done|].
  apply (pathCheckpoints_walk m); [done|reflexivity..].
Defined.
