(* ===== verification/Collision.v ===== *)
(** * [CollisionResolver]

    What happens to motions that meet on their way: enemy collisions, friendly
    motions on crossing paths, and pieces standing in the way of a slide. *)
From S2P Require Import Prelude Model Rules Double Motion.

Record Occupancy := mkOccupancy {
  occ_cell : Position; occ_enter : Z; occ_leave : Z; occ_motionIndex : nat;
  occ_checkpointIndex : Z
}.
Record Step := mkStep {
  step_from : Position; step_to : Position; step_enter : Z; step_leave : Z;
  step_motionIndex : nat; step_checkpointIndex : Z
}.

Definition overlaps (enter1 leave1 enter2 leave2 : Z) : bool :=
  Z.max enter1 enter2 <? Z.min leave1 leave2.

(** The loop over the checkpoints of one motion: [prevCell], [prevTime] and
    [k] are its variables, the two lists what it pushes. *)
Fixpoint collectPath (previousClock gameClockMs : Z) (i : nat) (prevCell : Position)
    (prevTime k : Z) (checkpoints : list (Position * Z)) : list Occupancy * list Step :=
  match checkpoints with
  | [] => ([], [])
  | (cell, enter) :: rest =>
    let leave := match rest with [] => INT_MAX | (_, t) :: _ => t end in
    let occ := if (previousClock <? leave) && (enter <=? gameClockMs)
               then [mkOccupancy cell enter leave i k] else [] in
    let steps := if (previousClock <? enter) && (prevTime <=? gameClockMs)
                 then [mkStep prevCell cell prevTime enter i k] else [] in
    let r := collectPath previousClock gameClockMs i cell enter (k + 1) rest in
    (occ ++ r.1, steps ++ r.2)
  end.

(** A motion the resolver follows: not a jump, and the piece on its source
    cell is not a knight. *)
Definition followed (b : Board) (m : Motion) : bool :=
  negb (isJump m) &&
  match getPiece b (from m) with
  | Some piece => negb (kindEqb (getKind piece) Knight)
  | None => false
  end.

Definition collectMotion (b : Board) (previousClock gameClockMs : Z) (im : nat * Motion)
    : list Occupancy * list Step :=
  let (i, m) := im in
  if followed b m
  then collectPath previousClock gameClockMs i (from m) (start_time_ms m) 0 (pathCheckpoints m)
  else ([], []).

Definition collect (b : Board) (activeMotions : list Motion) (previousClock gameClockMs : Z)
    : list Occupancy * list Step :=
  foldl (λ acc im, let r := collectMotion b previousClock gameClockMs im in
                   (acc.1 ++ r.1, acc.2 ++ r.2))
    ([], []) (indexed activeMotions).

(** The guards of the two nested loops. *)
Definition occMeet (x y : Occupancy) : bool :=
  negb (Nat.eqb (occ_motionIndex x) (occ_motionIndex y)) &&
  posEq (occ_cell x) (occ_cell y) &&
  overlaps (occ_enter x) (occ_leave x) (occ_enter y) (occ_leave y).
Definition stepMeet (x y : Step) : bool :=
  negb (Nat.eqb (step_motionIndex x) (step_motionIndex y)) &&
  (posEq (step_from x) (step_to y) && posEq (step_to x) (step_from y)) &&
  overlaps (step_enter x) (step_leave x) (step_enter y) (step_leave y).

(** [aWins]. *)
Definition beats (mA mB : Motion) : bool :=
  if negb (start_time_ms mA =? start_time_ms mB)
  then start_time_ms mA <? start_time_ms mB
  else piece_id mA <? piece_id mB.

Definition isPieceSliding (activeMotions : list Motion) (pieceId : Z) : bool :=
  existsb (λ m, (piece_id m =? pieceId) && negb (isJump m)) activeMotions.

(** ** [applyNearMiss] *)

(** The innermost two loops: [truncateAt] after comparing with one path. *)
Definition nearMissPath (newPath otherPath : list (Position * Z)) (truncateAt : Z) : Z :=
  foldl (λ t ic, foldl (λ t oc,
      if posEq ic.2.1 oc.1 && (oc.2 <=? ic.2.2) && ((t =? -1) || (Z.of_nat ic.1 <? t))
      then Z.of_nat ic.1 else t) t otherPath)
    truncateAt (indexed newPath).

Definition nearMissOther (b : Board) (movingPiece : Piece) (newPath : list (Position * Z))
    (truncateAt : Z) (other : Motion) : Z :=
  if isJump other then truncateAt
  else match getPiece b (from other) with
  | None => truncateAt
  | Some otherPiece =>
    if kindEqb (getKind otherPiece) Knight then truncateAt
    else if negb (colorEqb (getColor otherPiece) (getColor movingPiece)) then truncateAt
    else nearMissPath newPath (pathCheckpoints other) truncateAt
  end.

(** [None] is the [false] of a motion blocked at its first step. *)
Definition applyNearMiss (b : Board) (activeMotions : list Motion) (motion : Motion)
    : option Motion :=
  match getPiece b (from motion) with
  | None => Some motion
  | Some movingPiece =>
    if kindEqb (getKind movingPiece) Knight then Some motion
    else
      let newPath := pathCheckpoints motion in
      let truncateAt := foldl (nearMissOther b movingPiece newPath) (-1) activeMotions in
      if truncateAt =? 0 then None
      else if 0 <? truncateAt
      then Some (match newPath !! Z.to_nat (truncateAt - 1) with
                 | Some cp => redirect motion cp
                 | None => motion end)
      else Some motion
  end.

(** ** [resolveCollisions] *)

(** [loses] and [impactFor]. *)
Record Losses := mkLosses { loses : list bool; impactFor : gmap nat CaptureImpact }.

Definition markCollision (b : Board) (activeMotions : list Motion) (l : Losses)
    (idxA idxB : nat) (cellA cellB : Position) (enterA enterB : Z) : Losses :=
  match activeMotions !! idxA, activeMotions !! idxB with
  | Some mA, Some mB =>
    match getPiece b (from mA), getPiece b (from mB) with
    | Some pieceA, Some pieceB =>
      if colorEqb (getColor pieceA) (getColor pieceB) then l
      else
        let aWins := beats mA mB in
        let loserIdx := if aWins then idxB else idxA in
        let winner := if aWins then mA else mB in
        let cell := if aWins then cellA else cellB in
        let collisionTimeMs := Z.max enterA enterB in
        let duration := arrival_time_ms winner - start_time_ms winner in
        let progress := if 0 <? duration
          then dClamp (dRatio (collisionTimeMs - start_time_ms winner) duration) d0 d1
          else d1 in
        mkLosses (<[loserIdx := true]> (loses l))
          (<[loserIdx := mkImpact (piece_id winner) cell progress]> (impactFor l))
    | _, _ => l
    end
  | _, _ => l
  end.

Definition markOcc (b : Board) (ms : list Motion) (l : Losses) (xy : Occupancy * Occupancy) : Losses :=
  let (x, y) := xy in
  if occMeet x y
  then markCollision b ms l (occ_motionIndex x) (occ_motionIndex y)
         (occ_cell x) (occ_cell y) (occ_enter x) (occ_enter y)
  else l.
Definition markStep (b : Board) (ms : list Motion) (l : Losses) (xy : Step * Step) : Losses :=
  let (x, y) := xy in
  if stepMeet x y
  then markCollision b ms l (step_motionIndex x) (step_motionIndex y)
         (step_to x) (step_to y) (step_enter x) (step_enter y)
  else l.

Definition findLosses (b : Board) (ms : list Motion) (previousClock gameClockMs : Z) : Losses :=
  let os := collect b ms previousClock gameClockMs in
  let l0 := mkLosses (replicate (length ms) false) ∅ in
  let l1 := foldl (markOcc b ms) l0 (pairs os.1) in
  foldl (markStep b ms) l1 (pairs os.2).

(** The body of the loop over the losing motions; the flag is [kingCaptured]. *)
Definition captureLoser (l : Losses) (s : Arbiter * bool) (im : nat * Motion) : Arbiter * bool :=
  let '(a, kingCaptured) := s in
  let '(i, m) := im in
  if negb (default false (loses l !! i)) then (a, kingCaptured)
  else match getPiece (board a) (from m) with
  | None => (a, kingCaptured)
  | Some piece =>
    let kc := if kindEqb (getKind piece) King then true else kingCaptured in
    let dead := transition Captured piece in
    let a := pushCaptured dead (transitionAt Captured (from m) a) in
    let impact := default (mkImpact (getId piece) (from m) d1) (impactFor l !! i) in
    (onBoard (λ b, removePiece b (from m)) (notify (onPieceCaptured dead impact) a), kc)
  end.

Definition survivors (l : Losses) (ms : list Motion) : list Motion :=
  (filter (λ im, default false (loses l !! im.1) = false) (indexed ms)).*2.

Definition resolveCollisions (previousClock : Z) (s : Arbiter * bool) : Arbiter * bool :=
  let ms := active_motions s.1 in
  let l := findLosses (board s.1) ms previousClock (game_clock_ms s.1) in
  let '(a, kc) := foldl (captureLoser l) s (indexed ms) in
  let anyLoss := existsb (λ im, default false (loses l !! im.1)) (indexed ms) in
  (if anyLoss then setMotions (survivors l ms) a else a, kc).

(** ** [resolveMovingFriendlyBlocks] *)

(** [stopAt]: the earliest checkpoint a motion must not enter. *)
Definition markBlock (b : Board) (ms : list Motion) (stopAt : gmap Z Z)
    (idxA idxB : nat) (cpIndexA cpIndexB : Z) : gmap Z Z :=
  match ms !! idxA, ms !! idxB with
  | Some mA, Some mB =>
    match getPiece b (from mA), getPiece b (from mB) with
    | Some pieceA, Some pieceB =>
      if negb (colorEqb (getColor pieceA) (getColor pieceB)) then stopAt
      else
        let aWins := beats mA mB in
        let loserIdx := if aWins then Z.of_nat idxB else Z.of_nat idxA in
        let loserCpIndex := if aWins then cpIndexB else cpIndexA in
        match stopAt !! loserIdx with
        | None => <[loserIdx := loserCpIndex]> stopAt
        | Some cp => if loserCpIndex <? cp then <[loserIdx := loserCpIndex]> stopAt else stopAt
        end
    | _, _ => stopAt
    end
  | _, _ => stopAt
  end.

Definition blockOcc (b : Board) (ms : list Motion) (s : gmap Z Z) (xy : Occupancy * Occupancy) : gmap Z Z :=
  let (x, y) := xy in
  if occMeet x y
  then markBlock b ms s (occ_motionIndex x) (occ_motionIndex y)
         (occ_checkpointIndex x) (occ_checkpointIndex y)
  else s.
Definition blockStep (b : Board) (ms : list Motion) (s : gmap Z Z) (xy : Step * Step) : gmap Z Z :=
  let (x, y) := xy in
  if stepMeet x y
  then markBlock b ms s (step_motionIndex x) (step_motionIndex y)
         (step_checkpointIndex x) (step_checkpointIndex y)
  else s.

Definition findStopAt (b : Board) (ms : list Motion) (previousClock gameClockMs : Z) : gmap Z Z :=
  let os := collect b ms previousClock gameClockMs in
  foldl (blockStep b ms) (foldl (blockOcc b ms) ∅ (pairs os.1)) (pairs os.2).

(** One entry of [stopAt]; the list is [toErase]. *)
Definition stopMotion (s : Arbiter * list nat) (entry : Z * Z) : Arbiter * list nat :=
  let '(a, toErase) := s in
  let idx := Z.to_nat entry.1 in
  let cpIndex := entry.2 in
  match active_motions a !! idx with
  | None => s
  | Some m =>
    match getPiece (board a) (from m) with
    | None => s
    | Some _ =>
      if cpIndex =? 0
      then (transitionAt LongRest (from m)
              (setCooldown (piece_id m) (game_clock_ms a + LONG_REST_MS) a), toErase ++ [idx])
      else match pathCheckpoints m !! Z.to_nat (cpIndex - 1) with
           | Some cp => (setMotions (<[idx := redirect m cp]> (active_motions a)) a, toErase)
           | None => s
           end
    end
  end.

(** [erase] from the back, after sorting. *)
Definition eraseAll (toErase : list nat) (ms : list Motion) : list Motion :=
  foldl (λ ms i, delete i ms) ms (reverse (merge_sort Nat.le toErase)).

Section Blocks.
Context `{HashIter}.

Definition resolveMovingFriendlyBlocks (previousClock : Z) (a : Arbiter) : Arbiter :=
  let stopAt := findStopAt (board a) (active_motions a) previousClock (game_clock_ms a) in
  let '(a, toErase) := foldl stopMotion (a, []) (hash_iter stopAt) in
  match toErase with
  | [] => a
  | _ => setMotions (eraseAll toErase (active_motions a)) a
  end.
End Blocks.

(** ** [resolveStationaryBlocks] *)

(** How the scan of a motion's checkpoints ends. *)
Inductive BlockAction := CancelMove | Redirect (cp : Position * Z).

Fixpoint stationaryScan (b : Board) (sliding : Z → bool) (m : Motion) (mover : Piece)
    (previousClock gameClockMs : Z) (prev : option (Position * Z))
    (checkpoints : list (Position * Z)) : option BlockAction :=
  match checkpoints with
  | [] => None
  | (cell, time_ms) :: rest =>
    let next := stationaryScan b sliding m mover previousClock gameClockMs (Some (cell, time_ms)) rest in
    if (time_ms <=? previousClock) || (gameClockMs <? time_ms) then next
    else if posEq cell (to m) then next
    else match getPiece b cell with
    | None => next
    | Some blocker =>
      if kindEqb (getKind blocker) NoKind then next
      else if sliding (getId blocker) then next
      else
        let blockerJumping := stateEqb (getState blocker) Jump || stateEqb (getState blocker) ShortRest in
        if colorEqb (getColor blocker) (getColor mover) && negb blockerJumping
        then match prev with
             | None => Some CancelMove
             | Some cp => Some (Redirect cp)
             end
        else Some (Redirect (cell, time_ms))
    end
  end.

(** The [for] over [activeMotions]: [done] is the part before [i]. *)
Fixpoint stationaryLoop (previousClock : Z) (done todo : list Motion) (a : Arbiter) : Arbiter :=
  match todo with
  | [] => setMotions done a
  | m :: todo' =>
    if isJump m then stationaryLoop previousClock (done ++ [m]) todo' a
    else match getPiece (board a) (from m) with
    | None => stationaryLoop previousClock (done ++ [m]) todo' a
    | Some mover =>
      if kindEqb (getKind mover) Knight then stationaryLoop previousClock (done ++ [m]) todo' a
      else match stationaryScan (board a) (isPieceSliding (done ++ m :: todo')) m mover
                   previousClock (game_clock_ms a) None (pathCheckpoints m) with
      | None => stationaryLoop previousClock (done ++ [m]) todo' a
      | Some CancelMove =>
        stationaryLoop previousClock done todo'
          (transitionAt LongRest (from m)
            (setCooldown (piece_id m) (game_clock_ms a + LONG_REST_MS) a))
      | Some (Redirect cp) =>
        stationaryLoop previousClock (done ++ [redirect m cp]) todo' a
      end
    end
  end.

Definition resolveStationaryBlocks (previousClock : Z) (a : Arbiter) : Arbiter :=
  stationaryLoop previousClock [] (active_motions a) a.
