(* ===== verification/Arrival.v ===== *)
(** * [ArrivalResolver]

    What happens when a motion completes: captures, landings blocked by a
    friend, cells defended by a jump, promotion. *)
From S2P Require Import Prelude Model Rules Double Motion.

Section Arrival.
Variable collisionEnabled : bool.

(** The capture of an arriving piece by the piece that jumped. *)
Definition captureArriver (m : Motion) (piece : Piece) (a : Arbiter) : Arbiter :=
  let dead := transition Captured piece in
  onBoard (λ b, removePiece b (from m))
    (notify (onPieceCaptured dead (mkImpact (getId piece) (to m) d1))
      (pushCaptured dead (transitionAt Captured (from m) a))).

(** The piece lands on [to m]: the target, if any, is captured. *)
Definition captureTarget (m : Motion) (piece target : Piece) (a : Arbiter) : Arbiter :=
  let dead := transition Captured target in
  notify (onPieceCaptured dead (mkImpact (getId piece) (to m) d1))
    (pushCaptured dead (transitionAt Captured (to m) a)).

(** The object that moved: on [to m], or still on [from m] when
    [movePiece] refused. *)
Definition landed (b : Board) (m : Motion) : Position :=
  if isWithinBounds b (to m) then to m else from m.

Definition promote (m : Motion) (piece : Piece) (a : Arbiter) : Arbiter :=
  if kindEqb (getKind piece) Pawn then
    let promotionRow := if colorEqb (getColor piece) White then 0 else height (board a) - 1 in
    if row (to m) =? promotionRow
    then onBoard (λ b, updatePiece (promoteTo Queen) b (landed b m)) a
    else a
  else a.

Definition defended (target : option Piece) : bool :=
  match target with
  | Some t => stateEqb (getState t) Jump || stateEqb (getState t) ShortRest
  | None => false
  end.

Definition resolve (s : Arbiter * bool) (m : Motion) : Arbiter * bool :=
  let '(a, kingCaptured) := s in
  let a := setCooldown (piece_id m)
             (game_clock_ms a + (if isJump m then SHORT_REST_MS else LONG_REST_MS)) a in
  if isJump m then
    match getPiece (board a) (from m) with
    | Some jumper => if getId jumper =? piece_id m
                     then (transitionAt ShortRest (from m) a, kingCaptured)
                     else (a, kingCaptured)
    | None => (a, kingCaptured)
    end
  else match getPiece (board a) (from m) with
  | None => (a, kingCaptured)
  | Some piece =>
    if negb (getId piece =? piece_id m) then (a, kingCaptured)
    else
      let target := getPiece (board a) (to m) in
      if defended target then (captureArriver m piece a, kingCaptured)
      else
        let blockedByFriendly := collisionEnabled &&
          match target with Some t => colorEqb (getColor t) (getColor piece) | None => false end &&
          negb (kindEqb (getKind piece) Knight) in
        let a := transitionAt LongRest (from m) a in
        if blockedByFriendly then (a, kingCaptured)
        else
          let kc := match target with
                    | Some t => if kindEqb (getKind t) King then true else kingCaptured
                    | None => kingCaptured end in
          let wasCapture := match target with
                            | Some t => negb (kindEqb (getKind t) NoKind)
                            | None => false end in
          let a := match target with
                   | Some t => if wasCapture then captureTarget m piece t a else a
                   | None => a end in
          let moved := setCell (landed (board a) m) (transition LongRest piece) in
          let a := onBoard (λ b, movePiece b (from m) (to m)) a in
          let a := notify (onMoveCompleted moved (from m) (to m) wasCapture (game_clock_ms a)) a in
          (promote m piece a, kc)
  end.
End Arrival.
