(* ===== verification/Arbiter.v ===== *)
(** * [RealTimeArbiter]

    The coordinator: accepts motions and jumps, and advances time. *)
From S2P Require Import Prelude Model Rules Double Motion Collision Arrival.

Section Arbiter.
Context `{HashIter}.
Variable collisionEnabled : bool.

(** The returned flag, and the state afterwards. *)
Definition addMotion (f t : Position) (id : Z) (a : Arbiter) : Arbiter * bool :=
  let arrival := game_clock_ms a + calcTravelTime f t in
  let newMotion := mkMotion f t (game_clock_ms a) arrival id in
  let accepted := if collisionEnabled
                  then applyNearMiss (board a) (active_motions a) newMotion
                  else Some newMotion in
  match accepted with
  | None => (a, false)
  | Some m => (transitionAt Moving f (setMotions (active_motions a ++ [m]) a), true)
  end.

Definition addJump (pos : Position) (id : Z) (a : Arbiter) : Arbiter :=
  let m := mkMotion pos pos (game_clock_ms a) (game_clock_ms a + JUMP_DURATION_MS) id in
  transitionAt Jump pos (setMotions (active_motions a ++ [m]) a).

Definition getStateStartMs (a : Arbiter) (id : Z) (state : State) : Z :=
  match find (λ m, piece_id m =? id) (active_motions a) with
  | Some m => start_time_ms m
  | None =>
    match cooldown_until_ms a !! id with
    | Some until =>
      let duration := match state with
                      | ShortRest => SHORT_REST_MS
                      | LongRest => LONG_REST_MS
                      | _ => 0 end in
      Z.min (until - duration) (game_clock_ms a)
    | None => 0
    end
  end.

Definition isPieceBusy (a : Arbiter) (id : Z) : bool :=
  existsb (λ m, piece_id m =? id) (active_motions a).

Definition isPieceCoolingDown (a : Arbiter) (id : Z) : bool :=
  match cooldown_until_ms a !! id with
  | Some until => game_clock_ms a <? until
  | None => false
  end.

(** One entry of [cooldown_until_ms]: a rest that ends in this tick. *)
Definition endRest (previous_clock : Z) (a : Arbiter) (entry : Z * Z) : Arbiter :=
  if (previous_clock <? entry.2) && (entry.2 <=? game_clock_ms a)
  then match getPieceById (board a) entry.1 with
       | Some _ => setCooldown entry.1 (game_clock_ms a)
                     (onBoard (λ b, updatePieceById (transition Idle) b entry.1) a)
       | None => a
       end
  else a.

Definition arrived (a : Arbiter) (m : Motion) : bool := arrival_time_ms m <=? game_clock_ms a.

Definition tick (ms : Z) (a : Arbiter) : Arbiter * bool :=
  let previous_clock := game_clock_ms a in
  let a := setClock (game_clock_ms a + ms) a in
  let '(a, kc) :=
    if collisionEnabled then
      let '(a, kc) := resolveCollisions previous_clock (a, false) in
      (resolveStationaryBlocks previous_clock (resolveMovingFriendlyBlocks previous_clock a), kc)
    else (a, false) in
  let arriving := filter (arrived a) (active_motions a) in
  let '(a, kc) := foldl (resolve collisionEnabled) (a, kc) arriving in
  let a := setMotions (filter (λ m, negb (arrived a m)) (active_motions a)) a in
  (foldl (endRest previous_clock) a (hash_iter (cooldown_until_ms a)), kc).
End Arbiter.
