(* ===== verification/ArbiterSteps.v ===== *)
(** * The arbiter as a step relation

    Every operation of [RealTimeArbiter] and of its two resolvers is a
    sequence of a few primitive effects ([astep]).  What an effect preserves,
    all operations preserve: well-formed boards, material, and the agreement
    of the captured pieces with the notifications sent. *)
From S2P Require Import Prelude Model Rules Double Motion Collision Arrival Arbiter.

Definition kill (pos : Position) (piece : Piece) (i : CaptureImpact) (a : Arbiter) : Arbiter :=
  onBoard (λ b, removePiece b pos)
    (notify (onPieceCaptured (transition Captured piece) i)
      (pushCaptured (transition Captured piece) (transitionAt Captured pos a))).

(** A piece goes to another square; [victim] is what it captures there. *)
Definition travel (f t : Position) (victim : option (Piece * CaptureImpact)) (moved : Piece)
    (a : Arbiter) : Arbiter :=
  let a1 := match victim with
            | Some (x, i) => notify (onPieceCaptured (transition Captured x) i)
                (pushCaptured (transition Captured x) (transitionAt Captured t a))
            | None => a end in
  notify (onMoveCompleted moved f t (bool_decide (is_Some victim)) (game_clock_ms a))
    (onBoard (λ b, movePiece b f t) a1).

(** What may stand on the square a piece goes to. *)
Definition vacates (b : Board) (t : Position) (victim : option (Piece * CaptureImpact)) : Prop :=
  match victim with
  | Some (x, _) => getPiece b t = Some x ∧ isReal x = true
  | None => ∀ x, getPiece b t = Some x → isReal x = false
  end.

(** The boolean is [kingCaptured]. *)
Inductive astep : Arbiter * bool → Arbiter * bool → Prop :=
  | astep_clock t a kc : astep (a, kc) (setClock t a, kc)
  | astep_motions ms a kc : astep (a, kc) (setMotions ms a, kc)
  | astep_cooldown id t a kc : astep (a, kc) (setCooldown id t a, kc)
  | astep_rest s pos a kc : s = LongRest ∨ s = ShortRest →
      astep (a, kc) (transitionAt s pos a, kc)
  | astep_begin s pos a kc piece : s = Moving ∨ s = Jump →
      getPiece (board a) pos = Some piece → isReal piece = true →
      astep (a, kc) (transitionAt s pos a, kc)
  | astep_idle id a kc :
      astep (a, kc) (onBoard (λ b, updatePieceById (transition Idle) b id) a, kc)
  | astep_kill pos piece i a kc kc' : getPiece (board a) pos = Some piece →
      (kc' = true → kc = true ∨ getKind piece = King) → (kc = true → kc' = true) →
      astep (a, kc) (kill pos piece i a, kc')
  | astep_travel f t victim piece moved a kc kc' :
      f ≠ t → getPiece (board a) f = Some piece → vacates (board a) t victim →
      getId moved = getId piece ∧ getColor moved = getColor piece ∧ getKind moved = getKind piece →
      (kc' = true ↔ kc = true ∨ ∃ x i, victim = Some (x, i) ∧ getKind x = King) →
      astep (a, kc) (travel f t victim moved a, kc')
  | astep_promote pos a kc piece :
      getPiece (board a) pos = Some piece → getKind piece = Pawn →
      astep (a, kc) (onBoard (λ b, updatePiece (promoteTo Queen) b pos) a, kc).

Notation asteps := (rtc astep).

Lemma asteps_foldl {A} (f : Arbiter * bool → A → Arbiter * bool) l s :
  (∀ s x, x ∈ l → asteps s (f s x)) → asteps s (foldl f s l).
Proof.
  intros Hf. apply (foldl_ind (asteps s)); [done|]. intros s' x Hx Hs. by etrans; [|apply Hf].
Qed.

#[local] Hint Constructors astep : core.
#[local] Hint Resolve rtc_once rtc_refl : core.

(** ** The resolvers *)

Lemma captureLoser_asteps l s im : asteps s (captureLoser l s im).
Proof.
  destruct s as [a kc], im as [i m]. unfold captureLoser. case_match; [done|].
  destruct (getPiece (board a) (from m)) as [p|] eqn:Hp; [|done].
  apply rtc_once. eapply astep_kill; [done| |by case_match].
  case_match eqn:Hk; [|auto]. right. by apply kindEqb_true.
Qed.

Lemma resolveCollisions_asteps prev s : asteps s (resolveCollisions prev s).
Proof.
  unfold resolveCollisions. destruct (foldl _ _ _) as [a kc] eqn:Hf.
  assert (asteps s (a, kc)) as Hs.
  { rewrite <-Hf. apply asteps_foldl. intros. apply captureLoser_asteps. }
  case_match; [|done]. eapply rtc_r; [done|auto].
Qed.

Lemma stopMotion_asteps s e kc : asteps (s.1, kc) ((stopMotion s e).1, kc).
Proof.
  destruct s as [a l]. unfold stopMotion. repeat case_match; simpl; auto.
  eapply rtc_l; [apply astep_cooldown|]. apply rtc_once. apply astep_rest. by left.
Qed.

Lemma resolveMovingFriendlyBlocks_asteps `{HashIter} prev a kc :
  asteps (a, kc) (resolveMovingFriendlyBlocks prev a, kc).
Proof.
  unfold resolveMovingFriendlyBlocks. destruct (foldl _ _ _) as [a' l] eqn:Hf.
  assert (asteps (a, kc) (a', kc)) as Hs.
  { replace a' with (foldl stopMotion (a, []) (hash_iter
      (findStopAt (board a) (active_motions a) prev (game_clock_ms a)))).1 by by rewrite Hf.
    apply (foldl_ind (λ s, asteps (a, kc) (s.1, kc))); [done|].
    intros s e _ Hs. etrans; [done|apply stopMotion_asteps]. }
  destruct l; [done|]. eapply rtc_r; [done|auto].
Qed.

Lemma stationaryLoop_asteps prev dn todo a kc :
  asteps (a, kc) (stationaryLoop prev dn todo a, kc).
Proof.
  revert dn a. induction todo as [|m todo IH]; intros dn a; simpl; [auto|].
  repeat case_match; auto.
  eapply rtc_l; [apply astep_cooldown|]. eapply rtc_l; [apply astep_rest; by left|]. apply IH.
Qed.

Lemma updatePiece_None f b pos : getPiece b pos = None → updatePiece f b pos = b.
Proof. unfold updatePiece. by intros ->. Qed.

Lemma onBoard_board f b a : f (board a) = b → onBoard f a =
  mkArbiter (game_clock_ms a) (active_motions a) (cooldown_until_ms a) (captured_pieces a) b (events a).
Proof. by intros <-. Qed.

Lemma updatePiece_eq f b pos p :
  getPiece b pos = Some p → updatePiece f b pos = setGrid b pos (f p).
Proof. unfold updatePiece. by intros ->. Qed.

(** ** What an effect preserves *)

Lemma isReal_false p : isReal p = false ↔ getKind p = NoKind.
Proof. unfold isReal. by rewrite negb_false_iff, kindEqb_true. Qed.

Lemma isReal_true p : isReal p = true ↔ getKind p ≠ NoKind.
Proof. unfold isReal. by rewrite negb_true_iff, kindEqb_false. Qed.

Lemma kill_board pos p i a :
  getPiece (board a) pos = Some p →
  board (kill pos p i a) = setGrid (board a) pos (makeEmpty pos).
Proof.
  intros Hp. simpl. rewrite (updatePiece_eq _ _ _ p) by done. unfold removePiece.
  rewrite isWithinBounds_setGrid, (getPiece_bounds _ _ _ Hp). apply setGrid_setGrid.
Qed.

Lemma setGrid_shadow b f t x p e :
  setGrid (setGrid (setGrid b t x) t p) f e = setGrid (setGrid b t p) f e.
Proof. by rewrite setGrid_setGrid. Qed.

Lemma getPiece_setGrid_other b pos p q :
  grid_ok b → isWithinBounds b pos = true → q ≠ pos →
  getPiece (setGrid b pos p) q = getPiece b q.
Proof. intros. rewrite getPiece_setGrid by done. by rewrite decide_False. Qed.

(** Whatever was captured on [t], the move overwrites it. *)
Lemma travel_board f t v moved p a :
  grid_ok (board a) → f ≠ t → getPiece (board a) f = Some p →
  board (travel f t v moved a) = movePiece (board a) f t.
Proof.
  intros Hg Hft Hp. unfold travel. destruct v as [[x i]|]; simpl; [|done].
  destruct (getPiece (board a) t) as [y|] eqn:Ht; [|by rewrite updatePiece_None].
  pose proof (getPiece_bounds _ _ _ Ht) as Hbt.
  rewrite (updatePiece_eq _ _ _ y), (movePiece_eq _ _ _ p), (movePiece_eq (board a) _ _ p)
    by (try done; by rewrite getPiece_setGrid_other).
  by rewrite setGrid_shadow.
Qed.

Lemma piece_ok_promote p : getKind p = Pawn → piece_ok p → piece_ok (promoteTo Queen p).
Proof.
  intros Hk (H1 & H2 & H3). unfold piece_ok; simpl. split_and!; [|done..].
  split; [done|]. intros Hc. apply H1 in Hc. congruence.
Qed.

Lemma board_ok_transition b pos s :
  s ≠ Captured → s ≠ Jump → s ≠ Moving → board_ok b →
  board_ok (updatePiece (transition s) b pos).
Proof.
  intros. apply board_ok_updatePiece; [done|]. intros p _ Hp.
  split; [apply transition_cell|by apply piece_ok_transition].
Qed.

Lemma astep_board_ok s s' : astep s s' → board_ok (board s.1) → board_ok (board s'.1).
Proof.
  intros Hs Hok. destruct Hs as
    [| | |st pos a kc Hst|st pos a kc piece Hst Hp Hr|id a kc|pos piece i a kc kc' Hp _ _
    |f t v piece moved a kc kc' Hft Hp _ _ _|pos a kc piece Hp Hk]; cbn [fst] in *; try done.
  - simpl. apply board_ok_transition; naive_solver.
  - simpl. apply board_ok_updatePiece; [done|]. intros p Hp'. simplify_eq.
    split; [apply transition_cell|]. apply piece_ok_transition_real; [naive_solver| |done].
    by apply isReal_true.
  - simpl. apply board_ok_updatePieceById; [done|]. intros p Hp' _.
    split; [apply transition_cell|by apply piece_ok_transition].
  - rewrite kill_board by done. apply board_ok_setGrid; eauto with kfc.
  - rewrite (travel_board _ _ _ _ piece) by (done || apply Hok). by apply board_ok_movePiece.
  - simpl. apply board_ok_updatePiece; [done|]. intros p Hp' Hpok. simplify_eq.
    split; [done|by apply piece_ok_promote].
Qed.

Lemma asteps_board_ok s s' : asteps s s' → board_ok (board s.1) → board_ok (board s'.1).
Proof. induction 1; eauto using astep_board_ok. Qed.

(** ** [ArrivalResolver] *)

Lemma promote_asteps m piece a kc p :
  getPiece (board a) (landed (board a) m) = Some p → getKind p = getKind piece →
  asteps (a, kc) (promote m piece a, kc).
Proof.
  intros Hp Hk. unfold promote. cbv zeta. destruct (kindEqb _ _) eqn:?; [|done].
  destruct (row _ =? _); [|done]. apply rtc_once. eapply astep_promote; [done|]. rewrite Hk. by apply kindEqb_true.
Qed.

Lemma getPiece_movePiece b f t p :
  grid_ok b → f ≠ t → getPiece b f = Some p →
  getPiece (movePiece b f t) (if isWithinBounds b t then t else f) =
    Some (if isWithinBounds b t then setCell t p else p).
Proof.
  intros Hg Hft Hp. destruct (isWithinBounds b t) eqn:Ht; [|by rewrite movePiece_outside].
  rewrite (movePiece_eq _ _ _ p) by done.
  rewrite getPiece_setGrid_other; [|by apply grid_ok_setGrid|exact (getPiece_bounds _ _ _ Hp)|done].
  by apply getPiece_setGrid_eq.
Qed.

Lemma isWithinBounds_movePiece b f t pos :
  isWithinBounds (movePiece b f t) pos = isWithinBounds b pos.
Proof. unfold movePiece. by repeat case_match. Qed.

Lemma isWithinBounds_updatePiece f b pos q :
  isWithinBounds (updatePiece f b pos) q = isWithinBounds b q.
Proof. unfold updatePiece. by case_match. Qed.

Lemma transitionAt_eq s pos p a :
  getPiece (board a) pos = Some p →
  transitionAt s pos a = onBoard (λ b, setGrid b pos (transition s p)) a.
Proof. intros Hp. unfold transitionAt, onBoard. f_equal. by apply updatePiece_eq. Qed.

Lemma transitionAt_same s pos p a :
  grid_ok (board a) → getPiece (board a) pos = Some p →
  getPiece (board (transitionAt s pos a)) pos = Some (transition s p).
Proof.
  intros Hg Hp. rewrite (transitionAt_eq _ _ p) by done. simpl.
  apply getPiece_setGrid_eq; [done|by eapply getPiece_bounds].
Qed.

Lemma transitionAt_other s pos q a :
  grid_ok (board a) → q ≠ pos →
  getPiece (board (transitionAt s pos a)) q = getPiece (board a) q.
Proof.
  intros Hg Hq. unfold transitionAt; simpl. unfold updatePiece.
  destruct (getPiece (board a) pos) eqn:Hp; [|done].
  apply getPiece_setGrid_other; [done|by eapply getPiece_bounds|done].
Qed.

Section Resolve.
Variable collisionEnabled : bool.

(** What [resolve] captures on the square the piece lands on. *)
Definition victimOf (m : Motion) (piece : Piece) (target : option Piece)
    : option (Piece * CaptureImpact) :=
  match target with
  | Some t => if isReal t then Some (t, mkImpact (getId piece) (to m) d1) else None
  | None => None
  end.

(** The tail of [resolve] is a [travel] and perhaps a promotion. *)
Lemma landing_asteps m piece a kc kc' :
  let target := getPiece (board a) (to m) in
  let moved := setCell (landed (board a) m) piece in
  board_ok (board a) → from m ≠ to m → getPiece (board a) (from m) = Some piece →
  (kc' = true ↔ kc = true ∨ ∃ t, target = Some t ∧ getKind t = King) →
  asteps (a, kc)
    (promote m piece (travel (from m) (to m) (victimOf m piece target) moved a), kc').
Proof.
  intros target moved Hok Hne Hp Hkc. pose proof (board_grid _ Hok) as Hg.
  assert (astep (a, kc) (travel (from m) (to m) (victimOf m piece target) moved a, kc')) as Hs.
  { eapply astep_travel; [done..| |done|].
    - unfold vacates, victimOf. destruct target as [t|] eqn:Ht; subst target; [|naive_solver].
      destruct (isReal t) eqn:Hr; naive_solver.
    - rewrite Hkc. unfold victimOf. destruct target as [t|]; [|naive_solver].
      destruct (isReal t) eqn:Hr; [naive_solver|].
      apply isReal_false in Hr. split; [|naive_solver].
      intros [?|(t' & [= <-] & ?)]; [by left|congruence]. }
  eapply rtc_l; [done|].
  pose proof (getPiece_movePiece _ _ _ _ Hg Hne Hp) as Hm.
  apply (promote_asteps _ _ _ _ (if isWithinBounds (board a) (to m) then setCell (to m) piece else piece));
    [|by case_match].
  rewrite (travel_board _ _ _ _ piece) by done. unfold landed.
  rewrite isWithinBounds_movePiece. done.
Qed.

Lemma promote_transition m st piece a : promote m (transition st piece) a = promote m piece a.
Proof. unfold promote. by rewrite transition_kind, transition_color. Qed.

Definition wasCaptureOf (target : option Piece) : bool :=
  match target with Some t => negb (kindEqb (getKind t) NoKind) | None => false end.

(** The code's tail, as written, is that [travel]. *)
Lemma resolve_tail m piece (target : option Piece) a :
  let a2 := transitionAt LongRest (from m) a in
  let a3 := match target with
            | Some t => if wasCaptureOf target then captureTarget m piece t a2 else a2
            | None => a2 end in
  let moved := setCell (landed (board a3) m) (transition LongRest piece) in
  let a4 := onBoard (λ b, movePiece b (from m) (to m)) a3 in
  promote m piece
    (notify (onMoveCompleted moved (from m) (to m) (wasCaptureOf target) (game_clock_ms a4)) a4) =
  promote m (transition LongRest piece)
    (travel (from m) (to m) (victimOf m (transition LongRest piece) target)
       (setCell (landed (board a2) m) (transition LongRest piece)) a2).
Proof.
  intros a2 a3 moved a4. rewrite promote_transition. f_equal.
  unfold travel, victimOf, wasCaptureOf, isReal, moved, a4, a3.
  destruct target as [t|]; [|done]. cbn [wasCaptureOf].
  destruct (negb (kindEqb (getKind t) NoKind)); [|done].
  unfold captureTarget. rewrite transition_id.
  assert (landed (board (transitionAt Captured (to m) a2)) m = landed (board a2) m) as Hl.
  { unfold landed, transitionAt; simpl. by rewrite isWithinBounds_updatePiece. }
  simpl in *. rewrite Hl. done.
Qed.

Lemma resolve_asteps s m :
  board_ok (board s.1) → asteps s (resolve collisionEnabled s m).
Proof.
  destruct s as [a0 kc]. intros Hok. unfold resolve.
  eapply rtc_l; [apply (astep_cooldown (piece_id m)
    (game_clock_ms a0 + (if isJump m then SHORT_REST_MS else LONG_REST_MS)))|]. cbv zeta.
  set (a := setCooldown _ _ a0). assert (board_ok (board a)) as Hok' by exact Hok.
  clearbody a. clear a0 Hok. rename Hok' into Hok.
  pose proof (board_grid _ Hok) as Hg.
  destruct (isJump m) eqn:Hj.
  { repeat case_match; auto. }
  unfold isJump in Hj. apply posEq_false in Hj.
  destruct (getPiece (board a) (from m)) as [piece|] eqn:Hp; [|done].
  destruct (negb _); [done|]. cbv zeta.
  destruct (defended _).
  { apply rtc_once. eapply astep_kill; eauto. }
  eapply rtc_l; [apply (astep_rest LongRest (from m)); by left|].
  destruct (collisionEnabled && _ && _); [done|].
  set (target := getPiece (board a) (to m)).
  assert (target = getPiece (board (transitionAt LongRest (from m) a)) (to m)) as Ht
    by (by rewrite transitionAt_other).
  pose proof (resolve_tail m piece target a) as Htail. cbv zeta in Htail.
  unfold wasCaptureOf in Htail. rewrite Htail. clear Htail. rewrite Ht.
  apply landing_asteps.
  - simpl. by apply board_ok_transition.
  - done.
  - by apply transitionAt_same.
  - rewrite <-Ht. destruct target as [t|]; [|naive_solver].
    destruct (kindEqb (getKind t) King) eqn:Hk.
    + apply kindEqb_true in Hk. naive_solver.
    + apply kindEqb_false in Hk. naive_solver.
Qed.
End Resolve.

(** ** [tick] *)

Lemma endRest_asteps prev a e kc : asteps (a, kc) (endRest prev a e, kc).
Proof.
  unfold endRest. destruct (_ && _); [|done]. case_match; [|done].
  eapply rtc_l; [apply astep_idle|]. apply rtc_once, astep_cooldown.
Qed.

Lemma tick_asteps `{HashIter} coll ms a :
  board_ok (board a) → asteps (a, false) (tick coll ms a).
Proof.
  intros Hok. unfold tick.
  eapply rtc_l; [apply (astep_clock (game_clock_ms a + ms))|].
  set (a1 := setClock _ a). assert (board_ok (board a1)) as Hok1 by exact Hok.
  set (r := if coll then _ else _).
  assert (asteps (a1, false) r) as Hr.
  { unfold r. destruct coll; [|done].
    pose proof (resolveCollisions_asteps (game_clock_ms a) (a1, false)) as Hc.
    destruct (resolveCollisions _ _) as [a2 kc]. etrans; [done|].
    etrans; [apply (resolveMovingFriendlyBlocks_asteps (game_clock_ms a))|].
    apply stationaryLoop_asteps. }
  destruct r as [a2 kc] eqn:Er. clear Er r.
  etrans; [exact Hr|]. pose proof (asteps_board_ok _ _ Hr Hok1) as Hok2. cbn [fst] in Hok2.
  set (l := filter _ _). 
  assert (asteps (a2, kc) (foldl (resolve coll) (a2, kc) l)) as Hf.
  { apply (foldl_ind (asteps (a2, kc))); [done|]. intros s m _ Hs.
    etrans; [done|]. apply resolve_asteps. by eapply (asteps_board_ok _ _ Hs). }
  destruct (foldl _ _ l) as [a3 kc3]. etrans; [exact Hf|].
  eapply rtc_l; [apply (astep_motions (filter (λ m, negb (arrived a3 m)) (active_motions a3)))|].
  match goal with |- asteps (?x, _) _ => set (a4 := x) end.
  apply (foldl_ind (λ x, asteps (a4, kc3) (x, kc3))); [done|].
  intros x e _ Hs. etrans; [done|apply endRest_asteps].
Qed.

Lemma addMotion_asteps coll f t id a kc p :
  getPiece (board a) f = Some p → isReal p = true →
  asteps (a, kc) ((addMotion coll f t id a).1, kc).
Proof.
  intros Hp Hr. unfold addMotion. case_match; [|done].
  eapply rtc_l; [apply astep_motions|]. apply rtc_once. by eapply astep_begin; [left| |].
Qed.

Lemma addJump_asteps pos id a kc p :
  getPiece (board a) pos = Some p → isReal p = true →
  asteps (a, kc) (addJump pos id a, kc).
Proof.
  intros Hp Hr. unfold addJump.
  eapply rtc_l; [apply astep_motions|]. apply rtc_once. by eapply astep_begin; [right| |].
Qed.

(** ** Material *)

(** The ids of everything that is or was on the board. *)
Definition liveIds (b : Board) : list Z := getId <$> livePieces b.
Definition capturedIds (l : list Piece) : list Z := getId <$> filter isReal l.
Definition material (a : Arbiter) : list Z := liveIds (board a) ++ capturedIds (captured_pieces a).

Lemma liveIds_setGrid b pos old p :
  getPiece b pos = Some old →
  (getId <$> realList p) ++ liveIds b ≡ₚ (getId <$> realList old) ++ liveIds (setGrid b pos p).
Proof.
  intros Hg. unfold liveIds. rewrite <-!fmap_app. by apply fmap_Permutation, livePieces_setGrid.
Qed.

Lemma realList_ids p q : getId p = getId q → isReal p = isReal q →
  getId <$> realList p = getId <$> realList q.
Proof. intros Hi Hr. unfold realList. rewrite Hr. case_match; simpl; congruence. Qed.

Lemma liveIds_updatePiece f b pos :
  (∀ p, getId (f p) = getId p) → (∀ p, isReal (f p) = isReal p) →
  liveIds (updatePiece f b pos) ≡ₚ liveIds b.
Proof.
  intros Hi Hr. unfold updatePiece. destruct (getPiece b pos) as [p|] eqn:Hp; [|done].
  pose proof (liveIds_setGrid _ _ _ (f p) Hp) as H.
  rewrite (realList_ids (f p) p) in H by done. by apply Permutation_app_inv_l in H.
Qed.

Lemma capturedIds_app l p : capturedIds (l ++ [p]) = capturedIds l ++ (getId <$> realList p).
Proof.
  unfold capturedIds, realList. rewrite filter_app, fmap_app. f_equal.
  rewrite filter_cons, filter_nil. destruct (isReal p); done.
Qed.

Lemma transition_ids s p : getId <$> realList (transition s p) = getId <$> realList p.
Proof. apply realList_ids; [apply transition_id|apply transition_isReal]. Qed.

Lemma liveIds_movePiece b f t p q :
  grid_ok b → f ≠ t → getPiece b f = Some p → getPiece b t = Some q →
  liveIds b ≡ₚ (getId <$> realList q) ++ liveIds (movePiece b f t).
Proof.
  intros Hg Hft Hp Hq. pose proof (getPiece_bounds _ _ _ Hq) as Hb.
  rewrite (movePiece_eq _ _ _ p) by done. set (b1 := setGrid b t (setCell t p)).
  assert (getPiece b1 f = Some p) as Hp1 by (by unfold b1; rewrite getPiece_setGrid_other).
  pose proof (liveIds_setGrid b t q (setCell t p) Hq) as H1. fold b1 in H1.
  pose proof (liveIds_setGrid b1 f p (makeEmpty f) Hp1) as H2.
  rewrite (realList_ids (setCell t p) p) in H1 by done. simpl in H2. rewrite H2 in H1.
  apply (Permutation_app_inv_l (getId <$> realList p)). rewrite H1.
  rewrite !app_assoc. f_equiv. apply Permutation_app_comm.
Qed.

Lemma astep_material s s' :
  astep s s' → board_ok (board s.1) → material s'.1 ≡ₚ material s.1.
Proof.
  intros Hs Hok. pose proof (board_grid _ Hok) as Hg. destruct Hs as
    [| | |st pos a kc Hst|st pos a kc piece Hst Hp Hr|id a kc|pos piece i a kc kc' Hp _ _
    |f t v piece moved a kc kc' Hft Hp Hv _ _|pos a kc piece Hp Hk]; cbn [fst] in *; try done.
  1-2: unfold material; simpl; by rewrite liveIds_updatePiece
         by (intros; apply transition_id || apply transition_isReal).
  - unfold material; simpl. unfold liveIds, livePieces; simpl.
    by rewrite livePieces_updateFirst by (intros; apply transition_id || apply transition_isReal).
  - unfold material. rewrite kill_board by done. simpl. rewrite capturedIds_app, transition_ids.
    pose proof (liveIds_setGrid _ _ _ (makeEmpty pos) Hp) as H1. simpl in H1. rewrite H1.
    solve_Permutation.
  - unfold material. rewrite (travel_board _ _ _ _ piece) by done.
    destruct v as [[x i]|]; simpl in *.
    + destruct Hv as [Hx Hr]. rewrite capturedIds_app, transition_ids.
      rewrite (liveIds_movePiece _ _ _ _ _ Hg Hft Hp Hx). solve_Permutation.
    + f_equiv. destruct (isWithinBounds (board a) t) eqn:Hb; [|by rewrite movePiece_outside].
      destruct (getPiece_is_Some _ _ Hg Hb) as [q Hq].
      rewrite (liveIds_movePiece _ _ _ _ _ Hg Hft Hp Hq). unfold realList.
      by rewrite (Hv _ Hq).
  - unfold material, onBoard, updatePiece; simpl. rewrite Hp. f_equiv.
    pose proof (liveIds_setGrid _ _ _ (promoteTo Queen piece) Hp) as H.
    rewrite (realList_ids (promoteTo Queen piece) piece) in H.
    + by apply Permutation_app_inv_l in H.
    + done.
    + unfold isReal. by rewrite Hk.
Qed.

Lemma asteps_material s s' :
  asteps s s' → board_ok (board s.1) → material s'.1 ≡ₚ material s.1.
Proof.
  induction 1 as [|s s1 s' Hs _ IH]; intros Hok; [done|].
  rewrite IH by eauto using astep_board_ok. by apply astep_material.
Qed.

(** ** Captures and their notifications *)

Definition capturedOf (es : list Event) : list Piece :=
  omap (λ e, match e with onPieceCaptured p _ => Some p | onMoveCompleted _ _ _ _ _ => None end) es.

Lemma capturedOf_app es es' : capturedOf (es ++ es') = capturedOf es ++ capturedOf es'.
Proof. apply omap_app. Qed.

(** What one stretch of execution reports, with the pieces it captures. *)
Definition reports (s s' : Arbiter * bool) : Prop :=
  ∃ es, events s'.1 = events s.1 ++ es ∧
    captured_pieces s'.1 = captured_pieces s.1 ++ capturedOf es ∧
    (∀ p, p ∈ capturedOf es → getState p = Captured) ∧
    (s.2 = true → s'.2 = true) ∧
    (s'.2 = true → s.2 = true ∨ ∃ p, p ∈ capturedOf es ∧ getKind p = King).

Lemma transition_captured p : getState (transition Captured p) = Captured.
Proof. by rewrite transition_state. Qed.

Lemma astep_reports s s' : astep s s' → reports s s'.
Proof.
  intros Hs. unfold reports. destruct Hs as
    [| | | | | |pos piece i a kc kc' Hp Hk Hk'|f t v piece moved a kc kc' _ _ _ _ Hk|]; simpl.
  1-6,9: exists []; rewrite !app_nil_r; split_and!; try done; auto; set_solver.
  - exists [onPieceCaptured (transition Captured piece) i]. split_and!; try done.
    + intros p [-> |H]%elem_of_cons; [apply transition_captured|set_solver].
    + intros [?|?]%Hk; [by left|right]. eexists. split; [by left|].
      by rewrite transition_kind.
  - destruct v as [[x i]|]; simpl.
    + exists [onPieceCaptured (transition Captured x) i; onMoveCompleted moved f t true (game_clock_ms a)].
      rewrite <-!app_assoc. split_and!; try done.
      * intros p [-> |H]%elem_of_cons; [apply transition_captured|set_solver].
      * intros ?. apply Hk. by left.
      * intros [?|(x' & i' & [= <- <-] & ?)]%Hk; [by left|right]. eexists. split; [by left|].
        by rewrite transition_kind.
    + exists [onMoveCompleted moved f t false (game_clock_ms a)]. rewrite app_nil_r.
      split_and!; try done; [set_solver|intros; apply Hk; by left|].
      intros [?|(x' & i' & ? & ?)]%Hk; [by left|done].
Qed.

Lemma asteps_reports s s' : asteps s s' → reports s s'.
Proof.
  induction 1 as [s|s s1 s' Hs _ IH].
  - exists []. rewrite !app_nil_r. split_and!; auto; set_solver.
  - destruct (astep_reports _ _ Hs) as (e1 & He1 & Hc1 & Hs1 & Hm1 & Hk1).
    destruct IH as (e2 & He2 & Hc2 & Hs2 & Hm2 & Hk2).
    exists (e1 ++ e2). rewrite capturedOf_app, He2, Hc2, He1, Hc1, <-!app_assoc.
    split_and!; [done..| |auto|].
    + intros p. rewrite elem_of_app. intros [?|?]; auto.
    + intros [?|(p & ? & ?)]%Hk2.
      * apply Hk1 in H as [?|(p & ? & ?)]; [by left|right]. exists p. set_solver.
      * right. exists p. set_solver.
Qed.

(** ** The properties of [tick] *)

Section Tick.
Context `{HashIter}.

(** Advancing time keeps the board well formed: every cell's piece knows
    its own cell, empty cells stay the idle [EmptyPiece], and no captured
    piece is left standing, whatever motions are in flight. *)
Theorem tick_board_ok coll ms a :
  board_ok (board a) → board_ok (board (tick coll ms a).1).
Proof. intros Hok. exact (asteps_board_ok _ _ (tick_asteps coll ms a Hok) Hok). Qed.

(** No piece is ever lost or duplicated by [tick]: the ids on the board
    together with the ids captured stay the same collection. *)
Theorem tick_material coll ms a :
  board_ok (board a) → material (tick coll ms a).1 ≡ₚ material a.
Proof. intros Hok. exact (asteps_material _ _ (tick_asteps coll ms a Hok) Hok). Qed.

(** The capture notifications of a tick are exactly the pieces it adds to
    [captured_pieces], each in state [Captured]; and [tick] only reports a
    captured king when one of them is a king. *)
Theorem tick_reports coll ms a :
  board_ok (board a) →
  ∃ es, events (tick coll ms a).1 = events a ++ es ∧
    captured_pieces (tick coll ms a).1 = captured_pieces a ++ capturedOf es ∧
    (∀ p, p ∈ capturedOf es → getState p = Captured) ∧
    ((tick coll ms a).2 = true → ∃ p, p ∈ capturedOf es ∧ getKind p = King).
Proof.
  intros Hok. destruct (asteps_reports _ _ (tick_asteps coll ms a Hok))
    as (es & He & Hc & Hs & _ & Hk).
  exists es. split_and!; [done..|]. intros Hkc. by destruct (Hk Hkc).
Qed.
End Tick.
