(* ===== verification/CollisionSpec.v ===== *)
(** * What the collision resolver decides

    The nested loops over occupancies and steps compute relations on motions:
    which of them meet, and which of two that meet yields.  Stated without
    the loops, and proved of the code's. *)
From S2P Require Import Prelude Model Rules Double Motion Collision.

(** ** The specification *)

Definition leaveTime (m : Motion) (j : nat) : Z :=
  match pathCheckpoints m !! S j with Some (_, t) => t | None => INT_MAX end.

(** Within the tick from [prev] to [clock], [m] is on its [j]-th checkpoint. *)
Definition occupies (prev clock : Z) (m : Motion) (j : nat) (cell : Position) (enter leave : Z) : Prop :=
  pathCheckpoints m !! j = Some (cell, enter) ∧ leave = leaveTime m j ∧
  prev < leave ∧ enter ≤ clock.

Definition stepStart (m : Motion) (j : nat) : Position * Z :=
  match j with O => (from m, start_time_ms m) | S j => default (from m, 0) (pathCheckpoints m !! j) end.

(** Within the tick, [m] walks to its [j]-th checkpoint. *)
Definition walks (prev clock : Z) (m : Motion) (j : nat) (f t : Position) (depart arrive : Z) : Prop :=
  pathCheckpoints m !! j = Some (t, arrive) ∧ stepStart m j = (f, depart) ∧
  prev < arrive ∧ depart ≤ clock.

Definition shareCell (prev clock : Z) (m1 m2 : Motion) : Prop :=
  ∃ j1 j2 cell e1 l1 e2 l2, occupies prev clock m1 j1 cell e1 l1 ∧
    occupies prev clock m2 j2 cell e2 l2 ∧ overlaps e1 l1 e2 l2 = true.

Definition swapCells (prev clock : Z) (m1 m2 : Motion) : Prop :=
  ∃ j1 j2 x y e1 l1 e2 l2, walks prev clock m1 j1 x y e1 l1 ∧
    walks prev clock m2 j2 y x e2 l2 ∧ overlaps e1 l1 e2 l2 = true.

(** Two motions the resolver follows get in each other's way. *)
Definition meets (b : Board) (prev clock : Z) (m1 m2 : Motion) : Prop :=
  followed b m1 = true ∧ followed b m2 = true ∧
  (shareCell prev clock m1 m2 ∨ swapCells prev clock m1 m2).

Definition enemies (b : Board) (m1 m2 : Motion) : Prop :=
  ∃ p1 p2, getPiece b (from m1) = Some p1 ∧ getPiece b (from m2) = Some p2 ∧
    getColor p1 ≠ getColor p2.

(** Who has the right of way: the motion that started earlier; of two that
    started together the piece with the lower id. *)
Definition earlier (m1 m2 : Motion) : Prop :=
  start_time_ms m1 < start_time_ms m2 ∨ start_time_ms m1 = start_time_ms m2 ∧ piece_id m1 < piece_id m2.

Lemma beats_earlier m1 m2 : beats m1 m2 = true ↔ earlier m1 m2.
Proof.
  unfold beats, earlier. destruct (Z.eqb_spec (start_time_ms m1) (start_time_ms m2)); simpl; rewrite Z.ltb_lt; lia.
Qed.

(** [m] is beaten: an enemy motion it meets started earlier, or at the same
    time with a lower id. *)
Definition beaten (b : Board) (prev clock : Z) (ms : list Motion) (m : Motion) : Prop :=
  ∃ m', m' ∈ ms ∧ meets b prev clock m' m ∧ enemies b m' m ∧ earlier m' m.

Lemma overlaps_sym e1 l1 e2 l2 : overlaps e1 l1 e2 l2 = overlaps e2 l2 e1 l1.
Proof. unfold overlaps. by rewrite Z.max_comm, Z.min_comm. Qed.

Lemma meets_sym b prev clock m1 m2 : meets b prev clock m1 m2 → meets b prev clock m2 m1.
Proof.
  intros (? & ? & [H|H]); (split_and!; [done..|]); [left|right].
  - destruct H as (j1 & j2 & c & e1 & l1 & e2 & l2 & ? & ? & ?).
    exists j2, j1, c, e2, l2, e1, l1. rewrite overlaps_sym. auto.
  - destruct H as (j1 & j2 & x & y & e1 & l1 & e2 & l2 & ? & ? & ?).
    exists j2, j1, y, x, e2, l2, e1, l1. rewrite overlaps_sym. auto.
Qed.

(** ** What [collect] gathers *)

Lemma elem_of_collectPath_occ prev clock i pc pt k cps x :
  x ∈ (collectPath prev clock i pc pt k cps).1 ↔
  ∃ j cell enter leave, cps !! j = Some (cell, enter) ∧
    leave = (match cps !! S j with Some (_, t) => t | None => INT_MAX end) ∧
    prev < leave ∧ enter ≤ clock ∧ x = mkOccupancy cell enter leave i (k + Z.of_nat j).
Proof.
  revert pc pt k. induction cps as [|[cell enter] cps IH]; intros pc pt k.
  { split; [by intros ?%elem_of_nil|]. intros (j & ? & ? & ? & ? & _). done. }
  cbn [collectPath]. cbv zeta. cbn [fst]. rewrite elem_of_app, IH.
  replace (match cps with [] => INT_MAX | (_, t) :: _ => t end)
    with (match cps !! 0%nat with Some (_, t) => t | None => INT_MAX end) by by destruct cps as [|[]].
  remember (match cps !! 0%nat with Some (_, t) => t | None => INT_MAX end) as leave eqn:Hlv. split.
  - intros [Hx|(j & c & e & l & ? & ? & ? & ? & ->)].
    + destruct (_ && _) eqn:E; [|by apply elem_of_nil in Hx]. b2p.
      apply list_elem_of_singleton in Hx as ->. exists 0%nat, cell, enter, leave.
      rewrite Z.add_0_r. auto.
    + exists (S j), c, e, l. split_and!; try done. f_equal. lia.
  - intros ([|j] & c & e & l & Hj & Hl & ? & ? & ->); simplify_eq/=.
    + left. rewrite (proj2 (Z.ltb_lt _ _)), (proj2 (Z.leb_le _ _)) by done. simpl.
      apply list_elem_of_singleton. f_equal. lia.
    + right. exists j, c, e, (match cps !! S j with Some (_, t) => t | None => INT_MAX end).
      split_and!; try done. f_equal. lia.
Qed.

Lemma elem_of_collectPath_step prev clock i pc pt k cps x :
  x ∈ (collectPath prev clock i pc pt k cps).2 ↔
  ∃ j f depart t arrive, cps !! j = Some (t, arrive) ∧
    match j with O => Some (pc, pt) | S j => cps !! j end = Some (f, depart) ∧
    prev < arrive ∧ depart ≤ clock ∧ x = mkStep f t depart arrive i (k + Z.of_nat j).
Proof.
  revert pc pt k. induction cps as [|[cell enter] cps IH]; intros pc pt k.
  { split; [by intros ?%elem_of_nil|]. intros (j & ? & ? & ? & ? & ? & _). done. }
  cbn [collectPath]. cbv zeta. cbn [snd]. rewrite elem_of_app, IH. split.
  - intros [Hx|(j & f & d & t & e & Hj & Hf & ? & ? & ->)].
    + destruct (_ && _) eqn:E; [|by apply elem_of_nil in Hx]. b2p.
      apply list_elem_of_singleton in Hx as ->. exists 0%nat, pc, pt, cell, enter.
      rewrite Z.add_0_r. auto.
    + exists (S j), f, d, t, e. split_and!; try (done || by destruct j). f_equal. lia.
  - intros ([|j] & f & d & t & e & Hj & Hf & ? & ? & ->); simplify_eq/=.
    + left. rewrite (proj2 (Z.ltb_lt _ _)), (proj2 (Z.leb_le _ _)) by done. simpl.
      apply list_elem_of_singleton. f_equal. lia.
    + right. exists j, f, d, t, e. split_and!; try (done || by destruct j). f_equal. lia.
Qed.

Lemma collect_fold b prev clock ims acc :
  foldl (λ acc im, let r := collectMotion b prev clock im in (acc.1 ++ r.1, acc.2 ++ r.2)) acc ims =
  (acc.1 ++ flat_map (λ im, (collectMotion b prev clock im).1) ims,
   acc.2 ++ flat_map (λ im, (collectMotion b prev clock im).2) ims).
Proof.
  revert acc. induction ims as [|im ims IH]; intros [o s]; simpl; [by rewrite !app_nil_r|].
  rewrite IH; simpl. by rewrite !app_assoc.
Qed.

Lemma elem_of_collect_occ b ms prev clock x :
  x ∈ (collect b ms prev clock).1 ↔
  ∃ m j, ms !! occ_motionIndex x = Some m ∧ followed b m = true ∧
    occupies prev clock m j (occ_cell x) (occ_enter x) (occ_leave x) ∧
    occ_checkpointIndex x = Z.of_nat j.
Proof.
  unfold collect. rewrite collect_fold; simpl. rewrite elem_of_flat_map. split.
  - intros ([i m] & Him%elem_of_indexed & Hx). unfold collectMotion in Hx.
    destruct (followed b m) eqn:Hf; [|by apply elem_of_nil in Hx].
    apply elem_of_collectPath_occ in Hx as (j & c & e & l & ? & ? & ? & ? & ->).
    exists m, j. unfold occupies, leaveTime; simpl. auto 10.
  - intros (m & j & Hm & Hf & (Hc & Hl & ? & ?) & Hj). exists (occ_motionIndex x, m).
    rewrite elem_of_indexed. split; [done|]. unfold collectMotion. rewrite Hf.
    apply elem_of_collectPath_occ. exists j, (occ_cell x), (occ_enter x), (occ_leave x).
    split_and!; try done. destruct x; simpl in *. f_equal. lia.
Qed.

Lemma elem_of_collect_step b ms prev clock x :
  x ∈ (collect b ms prev clock).2 ↔
  ∃ m j, ms !! step_motionIndex x = Some m ∧ followed b m = true ∧
    walks prev clock m j (step_from x) (step_to x) (step_enter x) (step_leave x) ∧
    step_checkpointIndex x = Z.of_nat j.
Proof.
  unfold collect. rewrite collect_fold; simpl. rewrite elem_of_flat_map. split.
  - intros ([i m] & Him%elem_of_indexed & Hx). unfold collectMotion in Hx.
    destruct (followed b m) eqn:Hf; [|by apply elem_of_nil in Hx].
    apply elem_of_collectPath_step in Hx as (j & f & d & t & e & ? & Hd & ? & ? & ->).
    exists m, j. unfold walks, stepStart; simpl. split_and!; try done.
    destruct j; simplify_eq/=; [done|]. by rewrite Hd.
  - intros (m & j & Hm & Hf & (Hc & Hs & ? & ?) & Hj). exists (step_motionIndex x, m).
    rewrite elem_of_indexed. split; [done|]. unfold collectMotion. rewrite Hf.
    apply elem_of_collectPath_step.
    exists j, (step_from x), (step_enter x), (step_to x), (step_leave x).
    split_and!; try done.
    + unfold stepStart in Hs. destruct j as [|j]; [by f_equal|].
      destruct (pathCheckpoints m !! j) eqn:E; simplify_eq/=; [done|].
      apply lookup_ge_None in E. apply lookup_lt_Some in Hc. lia.
    + destruct x; simpl in *. f_equal. lia.
Qed.

(** ** Who loses *)

Definition marksLoser (b : Board) (ms : list Motion) (i idxA idxB : nat) : Prop :=
  ∃ mA mB, ms !! idxA = Some mA ∧ ms !! idxB = Some mB ∧ enemies b mA mB ∧
    i = if beats mA mB then idxB else idxA.

Lemma markCollision_length b ms l iA iB cA cB eA eB :
  length (loses (markCollision b ms l iA iB cA cB eA eB)) = length (loses l).
Proof. unfold markCollision. repeat case_match; simpl; by rewrite ?length_insert. Qed.

Lemma markCollision_loses b ms l iA iB cA cB eA eB i :
  length (loses l) = length ms →
  loses (markCollision b ms l iA iB cA cB eA eB) !! i = Some true ↔
  loses l !! i = Some true ∨ marksLoser b ms i iA iB.
Proof.
  intros Hlen. unfold markCollision, marksLoser, enemies.
  destruct (ms !! iA) as [mA|] eqn:HA; [|naive_solver].
  destruct (ms !! iB) as [mB|] eqn:HB; [|naive_solver].
  destruct (getPiece b (from mA)) as [pA|] eqn:HpA; [|naive_solver].
  destruct (getPiece b (from mB)) as [pB|] eqn:HpB; [|naive_solver].
  destruct (colorEqb _ _) eqn:Hc; [apply colorEqb_true in Hc|apply colorEqb_false in Hc].
  { naive_solver. }
  simpl. set (k := if beats mA mB then iB else iA).
  assert (k < length (loses l))%nat as Hk.
  { rewrite Hlen. unfold k. case_match; by eapply lookup_lt_Some. }
  destruct (decide (i = k)) as [->|Hne].
  - rewrite list_lookup_insert_eq by done. split; [|done]. intros _. right. exists mA, mB. eauto 10.
  - rewrite list_lookup_insert_ne by done. unfold k in Hne. split; [by left|].
    intros [?|(mA' & mB' & ? & ? & _ & ?)]; [done|]. simplify_eq.
Qed.

Lemma findLosses_length b ms prev clock : length (loses (findLosses b ms prev clock)) = length ms.
Proof.
  unfold findLosses. apply (foldl_ind (λ l, length (loses l) = length ms)).
  - apply (foldl_ind (λ l, length (loses l) = length ms)).
    + simpl. apply length_replicate.
    + intros l [x y] _ Hl. simpl. case_match; [|done]. by rewrite markCollision_length.
  - intros l [x y] _ Hl. simpl. case_match; [|done]. by rewrite markCollision_length.
Qed.

Lemma findLosses_loses b ms prev clock i :
  loses (findLosses b ms prev clock) !! i = Some true ↔
  (∃ xy, xy ∈ pairs (collect b ms prev clock).1 ∧ occMeet xy.1 xy.2 = true ∧
     marksLoser b ms i (occ_motionIndex xy.1) (occ_motionIndex xy.2)) ∨
  (∃ xy, xy ∈ pairs (collect b ms prev clock).2 ∧ stepMeet xy.1 xy.2 = true ∧
     marksLoser b ms i (step_motionIndex xy.1) (step_motionIndex xy.2)).
Proof.
  set (I := λ l, length (loses l) = length ms).
  unfold findLosses. set (os := collect b ms prev clock).
  set (l0 := mkLosses (replicate (length ms) false) ∅).
  assert (I l0) as H0 by (unfold I, l0; simpl; apply length_replicate).
  assert (∀ l xy, I l → I (markOcc b ms l xy)) as Ho.
  { unfold I. intros l [x y] Hl. simpl. case_match; [|done]. by rewrite markCollision_length. }
  assert (∀ l xy, I l → I (markStep b ms l xy)) as Hs.
  { unfold I. intros l [x y] Hl. simpl. case_match; [|done]. by rewrite markCollision_length. }
  assert (I (foldl (markOcc b ms) l0 (pairs os.1))) as H1 by (apply foldl_ind; auto).
  rewrite (foldl_or I (λ l, loses l !! i = Some true) (λ xy, stepMeet xy.1 xy.2 = true ∧
     marksLoser b ms i (step_motionIndex xy.1) (step_motionIndex xy.2))); [|exact H1|exact Hs|].
  2:{ intros l [x y] Hl. simpl. destruct (stepMeet x y); [|naive_solver].
      rewrite markCollision_loses by done. naive_solver. }
  rewrite (foldl_or I (λ l, loses l !! i = Some true) (λ xy, occMeet xy.1 xy.2 = true ∧
     marksLoser b ms i (occ_motionIndex xy.1) (occ_motionIndex xy.2))); [|exact H0|exact Ho|].
  2:{ intros l [x y] Hl. simpl. destruct (occMeet x y); [|naive_solver].
      rewrite markCollision_loses by done. naive_solver. }
  unfold l0; simpl. split; [|tauto].
  intros [[Hr|?]|?]; [|by left|by right]. apply lookup_replicate in Hr as [? _]. done.
Qed.

Lemma beats_asym m1 m2 : beats m1 m2 = true → beats m2 m1 = false.
Proof.
  unfold beats. rewrite (Z.eqb_sym (start_time_ms m2)).
  destruct (Z.eqb_spec (start_time_ms m1) (start_time_ms m2)); simpl;
    rewrite Z.ltb_lt, Z.ltb_ge; lia.
Qed.

Lemma beats_total m1 m2 : piece_id m1 ≠ piece_id m2 → beats m1 m2 = false → beats m2 m1 = true.
Proof.
  unfold beats. rewrite (Z.eqb_sym (start_time_ms m2)).
  destruct (Z.eqb_spec (start_time_ms m1) (start_time_ms m2)); simpl;
    rewrite Z.ltb_lt, Z.ltb_ge; lia.
Qed.

Lemma enemies_sym b m1 m2 : enemies b m1 m2 → enemies b m2 m1.
Proof. intros (p1 & p2 & ? & ? & ?). exists p2, p1. auto. Qed.

Lemma ids_inj ms i j mi mj :
  NoDup (piece_id <$> ms) → ms !! i = Some mi → ms !! j = Some mj → i ≠ j →
  piece_id mi ≠ piece_id mj.
Proof.
  intros Hnd Hi Hj Hne Heq. apply Hne. eapply NoDup_lookup; [done| |];
    rewrite list_lookup_fmap, ?Hi, ?Hj; simpl; [done|congruence].
Qed.

(** A marked pair makes its loser beaten. *)
Lemma marksLoser_beaten b ms prev clock i iA iB :
  NoDup (piece_id <$> ms) → iA ≠ iB → marksLoser b ms i iA iB →
  (∀ mA mB, ms !! iA = Some mA → ms !! iB = Some mB → meets b prev clock mA mB) →
  ∃ m, ms !! i = Some m ∧ beaten b prev clock ms m.
Proof.
  intros Hnd Hne (mA & mB & HA & HB & He & ->) Hm. specialize (Hm _ _ HA HB).
  destruct (beats mA mB) eqn:Hb.
  - exists mB. split; [done|]. exists mA. split_and!; try done; [by eapply list_elem_of_lookup_2|by apply beats_earlier].
  - exists mA. split; [done|]. exists mB. split_and!.
    + by eapply list_elem_of_lookup_2.
    + by apply meets_sym.
    + by apply enemies_sym.
    + apply beats_earlier, beats_total; [|done]. by eapply (ids_inj ms iA iB).
Qed.

Lemma occMeet_spec x y :
  occMeet x y = true ↔ occ_motionIndex x ≠ occ_motionIndex y ∧ occ_cell x = occ_cell y ∧
    overlaps (occ_enter x) (occ_leave x) (occ_enter y) (occ_leave y) = true.
Proof.
  unfold occMeet. rewrite !andb_true_iff, negb_true_iff, Nat.eqb_neq, posEq_spec. tauto.
Qed.

Lemma stepMeet_spec x y :
  stepMeet x y = true ↔ step_motionIndex x ≠ step_motionIndex y ∧ step_from x = step_to y ∧
    step_to x = step_from y ∧
    overlaps (step_enter x) (step_leave x) (step_enter y) (step_leave y) = true.
Proof.
  unfold stepMeet. rewrite !andb_true_iff, negb_true_iff, Nat.eqb_neq, !posEq_spec. tauto.
Qed.

(** The motions the code marks are the beaten ones. *)
Lemma findLosses_beaten b ms prev clock i :
  NoDup (piece_id <$> ms) →
  loses (findLosses b ms prev clock) !! i = Some true ↔
  ∃ m, ms !! i = Some m ∧ beaten b prev clock ms m.
Proof.
  intros Hnd. rewrite findLosses_loses. split.
  - intros [([x y] & [Hx Hy]%elem_of_pairs_both & (Hne & Hc & Ho)%occMeet_spec & Hl)
           |([x y] & [Hx Hy]%elem_of_pairs_both & (Hne & Hc & Hc' & Ho)%stepMeet_spec & Hl)];
      (eapply marksLoser_beaten; [done|exact Hne|exact Hl|]); intros mA mB HA HB; simpl in *.
    + apply elem_of_collect_occ in Hx as (mx & jx & ? & ? & ? & _), Hy as (my & jy & ? & ? & ? & _).
      simplify_eq. split_and!; [done..|]. left.
      exists jx, jy, (occ_cell x), (occ_enter x), (occ_leave x), (occ_enter y), (occ_leave y).
      split_and!; [done| |done]. by rewrite Hc.
    + apply elem_of_collect_step in Hx as (mx & jx & ? & ? & ? & _), Hy as (my & jy & ? & ? & ? & _).
      simplify_eq. split_and!; [done..|]. right.
      exists jx, jy, (step_from x), (step_to x), (step_enter x), (step_leave x),
        (step_enter y), (step_leave y). split_and!; [done| |done]. by rewrite Hc, Hc'.
  - intros (m & Hi & m' & [i' Hi']%list_elem_of_lookup & (Hf' & Hf & Hm) & He & Hb%beats_earlier).
    assert (i' ≠ i) as Hne.
    { intros ->. simplify_eq. pose proof (beats_asym _ _ Hb). congruence. }
    assert (marksLoser b ms i i' i) as Hl1.
    { exists m', m. rewrite Hb. auto. }
    assert (marksLoser b ms i i i') as Hl2.
    { exists m, m'. rewrite (beats_asym _ _ Hb). auto using enemies_sym. }
    destruct Hm as [(j1 & j2 & c & e1 & l1 & e2 & l2 & H1 & H2 & Ho)
                   |(j1 & j2 & x & y & e1 & l1 & e2 & l2 & H1 & H2 & Ho)]; [left|right].
    + set (x := mkOccupancy c e1 l1 i' (Z.of_nat j1)). set (y := mkOccupancy c e2 l2 i (Z.of_nat j2)).
      assert (x ∈ (collect b ms prev clock).1) as Hx by (apply elem_of_collect_occ; exists m', j1; auto).
      assert (y ∈ (collect b ms prev clock).1) as Hy by (apply elem_of_collect_occ; exists m, j2; auto).
      destruct (elem_of_pairs_either _ _ _ Hx Hy) as [Hp|Hp]; [intros [= ?]; congruence| |].
      * exists (x, y). split_and!; [done| |done]. by apply occMeet_spec.
      * exists (y, x). split_and!; [done| |done]. apply occMeet_spec.
        rewrite overlaps_sym. auto.
    + set (u := mkStep x y e1 l1 i' (Z.of_nat j1)). set (v := mkStep y x e2 l2 i (Z.of_nat j2)).
      assert (u ∈ (collect b ms prev clock).2) as Hu by (apply elem_of_collect_step; exists m', j1; auto).
      assert (v ∈ (collect b ms prev clock).2) as Hv by (apply elem_of_collect_step; exists m, j2; auto).
      destruct (elem_of_pairs_either _ _ _ Hu Hv) as [Hp|Hp]; [intros [= ?]; congruence| |].
      * exists (u, v). split_and!; [done| |done]. by apply stepMeet_spec.
      * exists (v, u). split_and!; [done| |done]. apply stepMeet_spec.
        rewrite overlaps_sym. auto.
Qed.

Lemma elem_of_survivors b ms prev clock m :
  NoDup (piece_id <$> ms) →
  m ∈ survivors (findLosses b ms prev clock) ms ↔ m ∈ ms ∧ ¬ beaten b prev clock ms m.
Proof.
  intros Hnd. unfold survivors. rewrite list_elem_of_fmap. split.
  - intros ([i m'] & -> & [Hd Hi%elem_of_indexed]%list_elem_of_filter). simpl in *.
    split; [by eapply list_elem_of_lookup_2|]. intros Hb.
    assert (loses (findLosses b ms prev clock) !! i = Some true) as Hl
      by (apply findLosses_beaten; eauto).
    by rewrite Hl in Hd.
  - intros [[i Hi]%list_elem_of_lookup Hb]. exists (i, m). split; [done|].
    apply list_elem_of_filter. rewrite elem_of_indexed. split; [|done]. simpl.
    destruct (loses _ !! i) as [[]|] eqn:Hl; [|done..].
    apply findLosses_beaten in Hl as (m' & ? & ?); [|done]. by simplify_eq.
Qed.

(** ** Friendly motions that meet *)

(** Every entry of [stopAt] belongs to a motion the resolver follows. *)
Definition stopAt_ok (b : Board) (ms : list Motion) (s : gmap Z Z) : Prop :=
  ∀ k v, s !! k = Some v → ∃ i m, k = Z.of_nat i ∧ ms !! i = Some m ∧ followed b m = true.

Lemma markBlock_ok b ms s iA iB kA kB :
  stopAt_ok b ms s →
  (∀ m, ms !! iA = Some m → followed b m = true) →
  (∀ m, ms !! iB = Some m → followed b m = true) →
  stopAt_ok b ms (markBlock b ms s iA iB kA kB).
Proof.
  intros Hs HA HB. unfold markBlock.
  destruct (ms !! iA) as [mA|] eqn:EA; [|done]. destruct (ms !! iB) as [mB|] eqn:EB; [|done].
  destruct (getPiece b (from mA)); [|done]. destruct (getPiece b (from mB)); [|done].
  destruct (negb _); [done|]. set (k := if beats mA mB then _ else _).
  assert (∀ v, stopAt_ok b ms (<[k := v]> s)) as Hins.
  { intros v k' v'. destruct (decide (k' = k)) as [->|Hne].
    - intros _. unfold k.
      destruct (beats mA mB); [exists iB, mB|exists iA, mA]; auto.
    - rewrite lookup_insert_ne by done. apply Hs. }
  repeat case_match; auto.
Qed.

Lemma findStopAt_ok b ms prev clock : stopAt_ok b ms (findStopAt b ms prev clock).
Proof.
  unfold findStopAt. apply (foldl_ind (stopAt_ok b ms)); [apply (foldl_ind (stopAt_ok b ms))|].
  - intros k v. by rewrite lookup_empty.
  - intros s [x y] [Hx Hy]%elem_of_pairs_both Hs. simpl. destruct (occMeet x y); [|done].
    apply elem_of_collect_occ in Hx as (mx & jx & ? & ? & _), Hy as (my & jy & ? & ? & _).
    apply markBlock_ok; [done|intros; congruence..].
  - intros s [x y] [Hx Hy]%elem_of_pairs_both Hs. simpl. destruct (stepMeet x y); [|done].
    apply elem_of_collect_step in Hx as (mx & jx & ? & ? & _), Hy as (my & jy & ? & ? & _).
    apply markBlock_ok; [done|intros; congruence..].
Qed.

Lemma followed_jump b m : followed b m = true → isJump m = false.
Proof. unfold followed. intros Hf. b2p. by destruct (isJump m). Qed.

(** ** The near miss *)

(** [t] is the least index of [S], or -1. *)
Definition least (S : nat → Prop) (t : Z) : Prop :=
  (t = -1 ∧ ∀ i, ¬ S i) ∨ ∃ i, t = Z.of_nat i ∧ S i ∧ ∀ j, S j → (i ≤ j)%nat.

Lemma least_ext (S S' : nat → Prop) t : (∀ i, S i ↔ S' i) → least S t → least S' t.
Proof. unfold least. intros He [[-> Hn]|(i & -> & Hi & Hm)]; naive_solver. Qed.

Lemma least_fold {A} (f : Z → A → Z) (Q : A → nat → Prop) l S t :
  (∀ S t x, x ∈ l → least S t → least (λ k, S k ∨ Q x k) (f t x)) →
  least S t → least (λ k, S k ∨ ∃ x, x ∈ l ∧ Q x k) (foldl f t l).
Proof.
  revert S t. induction l as [|x l IH]; intros S t Hf Hl; simpl.
  - eapply least_ext; [|done]. intros i. set_solver.
  - eapply least_ext; [|apply IH; [|apply Hf; [by left|exact Hl]]].
    + intros i. set_solver.
    + intros S' t' y Hy. apply Hf. by right.
Qed.

(** The comparison of the innermost loop. *)
Lemma least_step (S : nat → Prop) t (c : bool) (i : nat) :
  least S t →
  least (λ k, S k ∨ (c = true ∧ k = i))
    (if c && ((t =? -1) || (Z.of_nat i <? t)) then Z.of_nat i else t).
Proof.
  intros Hl. destruct c; simpl; [|eapply least_ext; [|done]; naive_solver].
  destruct Hl as [[-> Hn]|(j & -> & Hj & Hm)]; simpl.
  - right. exists i. naive_solver.
  - replace (Z.of_nat j =? -1) with false by (symmetry; apply Z.eqb_neq; lia). simpl.
    destruct (Z.ltb_spec (Z.of_nat i) (Z.of_nat j)); right.
    + exists i. split_and!; [done|by right|]. intros k [Hk%Hm|[_ ->]]; lia.
    + exists j. split_and!; [done|by left|]. intros k [Hk%Hm|[_ ->]]; lia.
Qed.

(** The new path would reach its [i]-th cell when or after the other motion
    does. *)
Definition trails (newPath otherPath : list (Position * Z)) (i : nat) : Prop :=
  ∃ cell t t', newPath !! i = Some (cell, t) ∧ (cell, t') ∈ otherPath ∧ t' ≤ t.

Lemma nearMissPath_least newPath otherPath S t :
  least S t → least (λ k, S k ∨ trails newPath otherPath k) (nearMissPath newPath otherPath t).
Proof.
  intros Hl. unfold nearMissPath.
  eapply least_ext; [|eapply (least_fold _ (λ ic k,
    ∃ oc, oc ∈ otherPath ∧ (posEq ic.2.1 oc.1 && (oc.2 <=? ic.2.2) = true ∧ k = ic.1))); [|exact Hl]].
  - intros k. split; (intros [?|Hk]; [by left|right]); revert Hk.
    + intros ([i [c ct]] & Hi%elem_of_indexed & [oc ot] & Ho & Hc & ->). simpl in *. b2p.
      apply posEq_spec in H. subst. exists oc, ct, ot. auto.
    + intros (c & ct & ot & Hk & Ho & Hle). exists (k, (c, ct)). rewrite elem_of_indexed.
      split; [done|]. exists (c, ot). simpl. rewrite posEq_refl.
      split_and!; [done|by apply Z.leb_le|done].
  - clear Hl. intros S' t' [i ic] _ Hl.
    apply (least_fold _ (λ oc k, posEq ic.1 oc.1 && (oc.2 <=? ic.2) = true ∧ k = i)); [|done].
    intros S'' t'' oc _ Hl''. simpl. by apply least_step.
Qed.

(** A friendly slide already under way, not a knight's. *)
Definition friendlySlide (b : Board) (mover : Piece) (other : Motion) : Prop :=
  isJump other = false ∧ ∃ p, getPiece b (from other) = Some p ∧ getKind p ≠ Knight ∧
    getColor p = getColor mover.

(** The [i]-th checkpoint of [motion] is claimed by a friendly motion. *)
Definition claimed (b : Board) (ms : list Motion) (mover : Piece) (motion : Motion) (i : nat) : Prop :=
  ∃ other, other ∈ ms ∧ friendlySlide b mover other ∧
    trails (pathCheckpoints motion) (pathCheckpoints other) i.

Lemma truncateAt_least b ms mover motion :
  least (claimed b ms mover motion)
    (foldl (nearMissOther b mover (pathCheckpoints motion)) (-1) ms).
Proof.
  eapply least_ext; [|apply (least_fold _ (λ other k, friendlySlide b mover other ∧
    trails (pathCheckpoints motion) (pathCheckpoints other) k) _ (λ _, False))].
  - unfold claimed. naive_solver.
  - intros S t other _ Hl. unfold nearMissOther, friendlySlide.
    destruct (isJump other); [eapply least_ext; [|done]; naive_solver|].
    destruct (getPiece b (from other)) as [p|]; [|eapply least_ext; [|done]; naive_solver].
    destruct (kindEqb _ _) eqn:Hk;
      [apply kindEqb_true in Hk; eapply least_ext; [|done]; naive_solver|apply kindEqb_false in Hk].
    destruct (colorEqb _ _) eqn:Hc;
      [apply colorEqb_true in Hc|apply colorEqb_false in Hc; eapply least_ext; [|done]; naive_solver].
    simpl. eapply least_ext; [|by apply nearMissPath_least]. naive_solver.
  - left. split; [done|]. by intros i [].
Qed.

Lemma claimed_first b ms mover motion :
  (∀ i, ¬ claimed b ms mover motion i) ∨
  ∃ i, claimed b ms mover motion i ∧ ∀ j, (j < i)%nat → ¬ claimed b ms mover motion j.
Proof.
  destruct (truncateAt_least b ms mover motion) as [[_ Hn]|(i & _ & Hi & Hm)]; [by left|right].
  exists i. split; [done|]. intros j Hj Hc%Hm. lia.
Qed.

Lemma nearMiss_cases b ms motion mover :
  getPiece b (from motion) = Some mover →
  (getKind mover = Knight → applyNearMiss b ms motion = Some motion) ∧
  (getKind mover ≠ Knight →
   (applyNearMiss b ms motion = None ↔ claimed b ms mover motion 0) ∧
   (∀ i, claimed b ms mover motion (S i) → (∀ j, (j ≤ i)%nat → ¬ claimed b ms mover motion j) →
      ∃ cp, pathCheckpoints motion !! i = Some cp ∧
            applyNearMiss b ms motion = Some (redirect motion cp)) ∧
   ((∀ i, ¬ claimed b ms mover motion i) → applyNearMiss b ms motion = Some motion)).
Proof.
  intros Hp. unfold applyNearMiss. rewrite Hp. split.
  { intros ->. done. }
  intros Hk%kindEqb_false. rewrite Hk. pose proof (truncateAt_least b ms mover motion) as Hl.
  set (t := foldl _ _ _) in *. clearbody t.
  destruct Hl as [[-> Hn]|(n & -> & Hc & Hmin)].
  - simpl. split_and!; [|by intros i ?%Hn|done]. split; [done|]. by intros ?%Hn.
  - assert (∃ cp, pathCheckpoints motion !! n = Some cp) as [cp Hcp].
    { destruct Hc as (o & _ & _ & c & t & t' & ? & _). eauto. }
    destruct n as [|n].
    + simpl. split_and!; [done|intros i _ Hno; by destruct (Hno 0%nat); [lia|]|intros Hno; by destruct (Hno 0%nat)].
    + replace (Z.of_nat (S n) =? 0) with false by (symmetry; apply Z.eqb_neq; lia).
      replace (0 <? Z.of_nat (S n)) with true by (symmetry; apply Z.ltb_lt; lia).
      replace (Z.to_nat (Z.of_nat (S n) - 1)) with n by lia.
      assert (is_Some (pathCheckpoints motion !! n)) as [cp' Hcp'].
      { apply lookup_lt_is_Some. apply lookup_lt_Some in Hcp. lia. }
      rewrite Hcp'. split_and!.
      * split; [done|]. intros ?%Hmin. lia.
      * intros i Hi Hno. assert (n = i) as ->; [|by exists cp'].
        pose proof (Hmin _ Hi). destruct (decide (i < n)%nat); [lia|].
        destruct (decide (n = i)); [done|]. exfalso. apply (Hno (S n)); [lia|done].
      * intros Hno. by destruct (Hno (S n)).
Qed.

(** [applyNearMiss] on a slide: the motion is refused when its first square
    is claimed by a friendly slide, otherwise stops right before the first
    claimed square, and is unchanged when no square is claimed; a knight is
    exempt. *)
Theorem applyNearMiss_spec b ms motion mover :
  getPiece b (from motion) = Some mover →
  (getKind mover = Knight → applyNearMiss b ms motion = Some motion) ∧
  (getKind mover ≠ Knight →
   (applyNearMiss b ms motion = None ↔ claimed b ms mover motion 0) ∧
   (∀ i, claimed b ms mover motion (S i) → (∀ j, (j ≤ i)%nat → ¬ claimed b ms mover motion j) →
      ∃ cp, pathCheckpoints motion !! i = Some cp ∧
            applyNearMiss b ms motion = Some (redirect motion cp)) ∧
   ((∀ i, ¬ claimed b ms mover motion i) → applyNearMiss b ms motion = Some motion)).
Proof. apply nearMiss_cases. Qed.
