(* ===== verification/Lifecycle.v ===== *)
(** * The life cycle of pieces and motions

    The invariant that ties the state machine of a piece to the arbiter's
    motions and cooldowns: a busy piece has a motion of its own, a resting
    piece a cooldown that runs out, and motions lie in the future.  [tick]
    keeps it although the motions of captured pieces stay in the list; so
    every piece comes back to [Idle]. *)
From S2P Require Import Prelude Model Rules Double Motion Collision Arrival Arbiter ArbiterSteps CollisionSpec.

(** A piece standing on the board. *)
Definition standing (b : Board) (p : Piece) : Prop :=
  isReal p = true ∧ ∃ pos, getPiece b pos = Some p.

(** The cooldown of [id] runs past [t]. *)
Definition cool (t : Z) (a : Arbiter) (id : Z) : Prop :=
  ∃ u, cooldown_until_ms a !! id = Some u ∧ t < u.

Section Home.
  (** Pieces that are expected to stay where they are, by id: those with a
      queued premove. *)
  Variable home : gmap Z Position.

(** The invariant, relative to the motions still to be resolved and to a time
    [t] at which rests were last ended. *)
Record lifecycle (t : Z) (pend : list Motion) (a : Arbiter) : Prop := {
  lc_board : board_ok (board a);
  lc_unique : ∀ p q, standing (board a) p → standing (board a) q →
    getId p = getId q → getCell p = getCell q;
  lc_nonzero : ∀ p, standing (board a) p → getId p ≠ 0;
  lc_pend_nonzero : ∀ m, m ∈ pend → piece_id m ≠ 0;
  lc_pend : NoDup (piece_id <$> pend);
  lc_from : ∀ m p, m ∈ pend → standing (board a) p → getId p = piece_id m → getCell p = from m;
  lc_busy : ∀ p, standing (board a) p → isBusyState (getState p) = true →
    ∃ m, m ∈ pend ∧ piece_id m = getId p ∧ isJump m = stateEqb (getState p) Jump;
  lc_rest : ∀ p, standing (board a) p → isRestingState (getState p) = true →
    cool t a (getId p) ∨ getId p ∈ piece_id <$> pend;
  lc_flight : ∀ m p, m ∈ pend → standing (board a) p → getId p = piece_id m →
    getState p ≠ Idle;
  lc_warm : ∀ m, m ∈ pend → ¬ cool t a (piece_id m);
  lc_idle : ∀ p, standing (board a) p → getState p = Idle → ¬ cool t a (getId p);
  lc_home : ∀ p c, standing (board a) p → home !! getId p = Some c → getCell p = c;
  lc_away : ∀ m, m ∈ pend → home !! piece_id m = None
}.

Lemma standing_cell b p : board_ok b → standing b p → getPiece b (getCell p) = Some p.
Proof. intros Hok (_ & pos & Hp). by rewrite (board_cell _ Hok _ _ Hp). Qed.

Lemma standing_at b pos p : getPiece b pos = Some p → isReal p = true → standing b p.
Proof. intros. split; eauto. Qed.

Lemma lifecycle_eq t pend a p q :
  lifecycle t pend a → standing (board a) p → standing (board a) q → getId p = getId q → p = q.
Proof.
  intros Hl Hp Hq Hid. pose proof (lc_unique _ _ _ Hl _ _ Hp Hq Hid) as Hc.
  apply standing_cell in Hp, Hq; [|apply Hl..]. rewrite Hc in Hp. by simplify_eq.
Qed.

(** Only the set of pending motions matters. *)
Lemma lifecycle_perm t l l' a : l ≡ₚ l' → lifecycle t l a → lifecycle t l' a.
Proof.
  intros Hp [H1 H2 H3 H4 H5 H6 H7 H8 H9 H10 H11 H12 H13]. split; try done.
  - intros m Hm. apply H4. by rewrite Hp.
  - by rewrite <-Hp.
  - intros m p Hm. apply H6. by rewrite Hp.
  - intros p Hs Hb. destruct (H7 p Hs Hb) as (m & Hm & ?). exists m. by rewrite <-Hp.
  - intros p Hs Hb. rewrite <-Hp. auto.
  - intros m p Hm. apply H9. by rewrite Hp.
  - intros m Hm. apply H10. by rewrite Hp.
  - intros m Hm. apply H13. by rewrite Hp.
Qed.

Lemma lifecycle_ext t l a a' :
  board a' = board a → cooldown_until_ms a' = cooldown_until_ms a →
  lifecycle t l a → lifecycle t l a'.
Proof.
  intros Hb Hc [H1 H2 H3 H4 H5 H6 H7 H8 H9 H10 H11 H12 H13].
  split; rewrite ?Hb; unfold cool in *; rewrite ?Hc; try done.
Qed.

(** [p] is a piece of [b] as it stood, or at rest where it was busy. *)
Definition stoodIn (b : Board) (p : Piece) : Prop :=
  ∃ p0, standing b p0 ∧ getId p0 = getId p ∧ getCell p0 = getCell p ∧
    (getState p0 = getState p ∨
     isBusyState (getState p0) = true ∧ isBusyState (getState p) = false ∧ getState p ≠ Idle).

Lemma standing_stoodIn b p : standing b p → stoodIn b p.
Proof. intros. exists p. auto. Qed.

(** A step that finishes motion [m]: other pieces stand as before or are gone,
    the piece of [m] is gone or no longer busy, and its cooldown runs. *)
Lemma lifecycle_finish t m l a a' c :
  lifecycle t (m :: l) a → board_ok (board a') →
  (∀ id, id ≠ piece_id m → cooldown_until_ms a' !! id = cooldown_until_ms a !! id) →
  (∀ p, standing (board a') p →
     (stoodIn (board a) p ∧ getId p ≠ piece_id m) ∨
     (getId p = piece_id m ∧ getCell p = c ∧ isBusyState (getState p) = false ∧
      getState p ≠ Idle ∧ cool t a' (piece_id m))) →
  lifecycle t l a'.
Proof.
  intros [H1 H2 H3 H4 H5 H6 H7 H8 H9 H10 H11 H12 H13] Hok Hcd Hst. simpl in H5. apply NoDup_cons in H5 as [Hni Hnd].
  assert (∀ m', m' ∈ l → piece_id m' ≠ piece_id m) as Hother.
  { intros m' Hm' Heq. apply Hni, list_elem_of_fmap. by exists m'. }
  split; [done| | | |done| | | | | | | |].
  - intros p q Hp Hq Hid.
    destruct (Hst _ Hp) as [[(p0 & Hp0 & ? & <- & _) ?]|(? & ? & _)],
      (Hst _ Hq) as [[(q0 & Hq0 & ? & <- & _) ?]|(? & ? & _)]; try congruence.
    apply H2; congruence.
  - intros p Hp. destruct (Hst _ Hp) as [[(p0 & Hp0 & <- & _) ?]|(-> & _)]; [by apply H3|].
    apply H4. by left.
  - intros m' Hm'. apply H4. by right.
  - intros m' p Hm' Hp Hid. destruct (Hst _ Hp) as [[(p0 & Hp0 & Hi & <- & _) ?]|(Hid' & _)].
    + apply H6; [by right|done|congruence].
    + destruct Hni. apply list_elem_of_fmap. exists m'. split; [congruence|done].
  - intros p Hp Hb. destruct (Hst _ Hp) as [[(p0 & Hp0 & Hi & _ & Hs) Hne]|(_ & _ & ? & _)]; [|congruence].
    destruct Hs as [Hs|(_ & Hs & _)]; [|congruence]. rewrite <-Hs in Hb.
    destruct (H7 p0 Hp0 Hb) as (m' & [->|Hm']%elem_of_cons & Hid & ?); [congruence|].
    exists m'. split_and!; [done|congruence..].
  - intros p Hp Hb. destruct (Hst _ Hp) as [[(p0 & Hp0 & Hi & _ & Hs) Hne]|(-> & _ & _ & _ & ?)]; [|by left].
    assert (cool t a (getId p) ∨ getId p ∈ piece_id <$> (m :: l)) as [(u & Hu & ?)|Hin].
    { rewrite <-Hi. destruct Hs as [Hs|(Hs & _)].
      - rewrite <-Hs in Hb. auto.
      - destruct (H7 p0 Hp0 Hs) as (m' & Hm' & Hid & _). right.
        apply list_elem_of_fmap. eauto. }
    + left. exists u. by rewrite Hcd.
    + right. simpl in Hin. apply elem_of_cons in Hin as [?|?]; [congruence|done].
  - intros m' p Hm' Hp Hid. destruct (Hst _ Hp) as [[(p0 & Hp0 & Hi & _ & Hs) Hne]|(? & _)].
    + destruct Hs as [<-|(_ & _ & ?)]; [|done]. apply (H9 m' p0); [by right|done|congruence].
    + by destruct (Hother m' Hm'); congruence.
  - intros m' Hm' (u & Hu & Hlt). rewrite Hcd in Hu by auto.
    apply (H10 m'); [by right|by exists u].
  - intros p Hp Hidle (u & Hu & Hlt).
    destruct (Hst _ Hp) as [[(p0 & Hp0 & Hi & _ & [Hs|(_ & _ & ?)]) Hne]|(_ & _ & _ & ? & _)]; [|done..].
    rewrite Hcd in Hu by done. apply (H11 p0); [done|congruence|]. rewrite Hi. by exists u.
  - intros p c' Hp Hh. destruct (Hst _ Hp) as [[(p0 & Hp0 & Hi & <- & _) Hne]|(Hid & _)].
    + apply H12; [done|congruence].
    + rewrite Hid, (H13 m) in Hh by (by left). done.
  - intros m' Hm'. apply H13. by right.
Qed.

(** No piece of motion [m] is left on the board. *)
Lemma lifecycle_gone t m l a u :
  lifecycle t (m :: l) a → (∀ p, standing (board a) p → getId p ≠ piece_id m) →
  lifecycle t l a ∧ lifecycle t l (setCooldown (piece_id m) u a).
Proof.
  intros Hl Hno. split; (eapply (lifecycle_finish _ _ _ _ _ (from m)); [exact Hl|apply Hl|..]).
  - done.
  - intros p Hp. left. eauto using standing_stoodIn.
  - intros id Hid. simpl. by rewrite lookup_insert_ne by congruence.
  - intros p Hp. left. eauto using standing_stoodIn.
Qed.

(** The piece of [m], if it still stands, stands where the motion starts. *)
Lemma lifecycle_source t m l a p :
  lifecycle t (m :: l) a → standing (board a) p → getId p = piece_id m →
  getPiece (board a) (from m) = Some p.
Proof.
  intros Hl Hp Hid. rewrite <-(lc_from _ _ _ Hl m p) by (done || by left).
  apply standing_cell; [apply Hl|done].
Qed.

Lemma standing_setGrid b pos x p :
  board_ok b → isWithinBounds b pos = true → standing (setGrid b pos x) p →
  p = x ∨ (standing b p ∧ getCell p ≠ pos).
Proof.
  intros Hok Hb (Hr & q & Hq). rewrite getPiece_setGrid in Hq by (done || apply Hok).
  case_decide; [left; congruence|right]. split; [by eapply standing_at|].
  by rewrite (board_cell _ Hok _ _ Hq).
Qed.

Lemma standing_transitionAt s pos a p :
  board_ok (board a) → standing (board (transitionAt s pos a)) p →
  (∃ p0, getPiece (board a) pos = Some p0 ∧ isReal p0 = true ∧ p = transition s p0) ∨
  (standing (board a) p ∧ getCell p ≠ pos).
Proof.
  intros Hok Hp. destruct (getPiece (board a) pos) as [p0|] eqn:E.
  - rewrite (transitionAt_eq _ _ p0) in Hp by done. pose proof Hp as [Hr _].
    apply standing_setGrid in Hp as [->|?]; [|by right|done|by eapply getPiece_bounds].
    left. exists p0. by rewrite <-(transition_isReal s p0).
  - right. simpl in Hp. rewrite updatePiece_None in Hp by done. split; [done|].
    intros <-. apply standing_cell in Hp; [congruence|done].
Qed.

(** The piece on the motion's source is captured; the arbiter may have noted a
    cooldown for it first. *)
Lemma lifecycle_kill t m l a a' piece i :
  lifecycle t (m :: l) a → getPiece (board a) (from m) = Some piece → board a' = board a →
  (∀ id, id ≠ piece_id m → cooldown_until_ms a' !! id = cooldown_until_ms a !! id) →
  lifecycle t l (kill (from m) piece i a').
Proof.
  intros Hl Hp Hb Hcd. pose proof (lc_board _ _ _ Hl) as Hok.
  assert (board (kill (from m) piece i a') = setGrid (board a) (from m) (makeEmpty (from m))) as Hk
    by (rewrite kill_board, Hb; [done|by rewrite Hb]).
  eapply (lifecycle_finish _ _ _ _ _ (from m)); [exact Hl| |done|]; rewrite Hk.
  - apply board_ok_setGrid; eauto with kfc.
  - intros p Hs. pose proof Hs as [Hr _].
    apply standing_setGrid in Hs as [->|[Hs Hne]]; [done| |done|by eapply getPiece_bounds].
    left. split; [by apply standing_stoodIn|]. intros Hid.
    by rewrite (lc_from _ _ _ Hl m p) in Hne by (done || by left).
Qed.

(** The piece on the motion's source goes to rest. *)
Lemma lifecycle_rest t m l a u piece :
  lifecycle t (m :: l) a → isJump m = false → t < u →
  getPiece (board a) (from m) = Some piece →
  lifecycle t l (transitionAt LongRest (from m) (setCooldown (piece_id m) u a)).
Proof.
  intros Hl Hj Hu Hp. pose proof (lc_board _ _ _ Hl) as Hok.
  eapply (lifecycle_finish _ _ _ _ _ (from m)); [exact Hl| | |].
  - simpl. by apply board_ok_transition.
  - intros id Hid. simpl. by rewrite lookup_insert_ne by congruence.
  - intros p Hs. apply standing_transitionAt in Hs; [|done].
    change (board (setCooldown (piece_id m) u a)) with (board a) in Hs.
    destruct Hs as [(p0 & Hp0 & Hr & ->)|[Hs Hne]].
    + rewrite Hp in Hp0. simplify_eq. rewrite transition_id, transition_cell, transition_state.
      pose proof (standing_at _ _ _ Hp Hr) as Hst.
      destruct (decide (getId p0 = piece_id m)) as [Hid|Hid].
      * right. split_and!; [done|by apply (board_cell _ Hok)| | |].
        -- case_match eqn:Hlt; [done|]. destruct (isBusyState _) eqn:Hb; [|done].
           destruct (lc_busy _ _ _ Hl p0 Hst Hb) as (m' & Hm' & Hid' & Hjs).
           assert (m' = m) as ->.
           { apply elem_of_cons in Hm' as [?|Hm']; [done|].
             pose proof (lc_pend _ _ _ Hl) as Hnd. simpl in Hnd. apply NoDup_cons in Hnd as [Hni _].
             destruct Hni. apply list_elem_of_fmap. exists m'. split; [congruence|done]. }
           rewrite Hj in Hjs. by destruct (getState p0).
        -- case_match eqn:Hlt; [done|]. apply (lc_flight _ _ _ Hl m); [by left|done..].
        -- exists u. simpl. by rewrite lookup_insert_eq.
      * left. split; [|done]. exists p0. rewrite transition_id, transition_cell, transition_state.
        split_and!; [done..|]. destruct (getState p0); simpl; auto.
    + left. split; [by apply standing_stoodIn|]. intros Hid.
      by rewrite (lc_from _ _ _ Hl m p) in Hne by (done || by left).
Qed.

(** Redirecting a slide to one of its checkpoints. *)
Lemma checkpoint_ne m cp : cp ∈ pathCheckpoints m → cp.1 ≠ from m.
Proof.
  unfold pathCheckpoints. case_match; b2p; [by intros ?%elem_of_nil|].
  intros (i & -> & Hi%elem_of_seqZ)%list_elem_of_fmap. simpl. intros Heq.
  destruct (from m) as [r c], (to m) as [r' c']; simpl in *. injection Heq as Hr Hc.
  set (s := Z.max _ _) in *. assert (0 < s) by lia.
  assert (Z.quot (r' - r) s = 0 ∧ Z.quot (c' - c) s = 0) as [Hq1 Hq2] by nia.
  assert (Z.abs (r' - r) = s ∨ Z.abs (c' - c) = s) as [Hs|Hs] by lia.
  - rewrite quot_unit in Hq1 by lia. lia.
  - rewrite quot_unit in Hq2 by lia. lia.
Qed.

Lemma redirect_isJump m cp : cp.1 ≠ from m → isJump (redirect m cp) = false.
Proof. intros Hne. unfold isJump. apply posEq_false. simpl. congruence. Qed.

Lemma lifecycle_redirect t m cp l a :
  isJump m = false → cp.1 ≠ from m →
  lifecycle t (m :: l) a → lifecycle t (redirect m cp :: l) a.
Proof.
  intros Hj Hne [H1 H2 H3 H4 H5 H6 H7 H8 H9 H10 H11 H12 H13]. split; try done.
  - intros m' [->|?]%elem_of_cons; [apply (H4 m); by left|apply H4; by right].
  - intros m' p [->|?]%elem_of_cons; [apply (H6 m); by left|apply H6; by right].
  - intros p Hs Hb. destruct (H7 p Hs Hb) as (m' & [->|?]%elem_of_cons & ? & ?).
    + exists (redirect m cp). split_and!; [by left|done|]. rewrite redirect_isJump by done. congruence.
    + exists m'. split; [by right|done].
  - intros m' p [->|?]%elem_of_cons; [apply (H9 m); by left|apply H9; by right].
  - intros m' [->|?]%elem_of_cons; [apply (H10 m); by left|apply H10; by right].
  - intros m' [->|?]%elem_of_cons; [apply (H13 m); by left|apply H13; by right].
Qed.

(** ** The collision resolver *)

Lemma lifecycle_absent t m l a :
  lifecycle t (m :: l) a → getPiece (board a) (from m) = None → lifecycle t l a.
Proof.
  intros Hl Hn. apply (lifecycle_gone t m l a 0 Hl). intros p Hp Hid.
  rewrite (lifecycle_source _ _ _ _ _ Hl Hp Hid) in Hn. done.
Qed.

Lemma captureLoser_life t ls ims acc s :
  lifecycle t (acc ++ ims.*2) s.1 →
  lifecycle t (acc ++ (filter (λ im, default false (loses ls !! im.1) = false) ims).*2)
    (foldl (captureLoser ls) s ims).1.
Proof.
  revert acc s. induction ims as [|[i m] ims IH]; intros acc [a kc] Hl; [done|].
  simpl. rewrite filter_cons. simpl. destruct (default false (loses ls !! i)) eqn:Hi; simpl.
  - apply (lifecycle_perm _ _ (m :: acc ++ ims.*2)) in Hl; [|simpl; by rewrite Permutation_middle].
    apply IH. destruct (getPiece (board a) (from m)) as [piece|] eqn:Hp.
    + by eapply lifecycle_kill.
    + by eapply lifecycle_absent.
  - specialize (IH (acc ++ [m]) (a, kc)). rewrite <-!app_assoc in IH. by apply IH.
Qed.

Lemma captureLoser_motions ls s im :
  active_motions (captureLoser ls s im).1 = active_motions s.1 ∧
  game_clock_ms (captureLoser ls s im).1 = game_clock_ms s.1.
Proof. destruct s, im. unfold captureLoser. by repeat case_match. Qed.

Lemma captureLosers_motions ls ims s :
  active_motions (foldl (captureLoser ls) s ims).1 = active_motions s.1 ∧
  game_clock_ms (foldl (captureLoser ls) s ims).1 = game_clock_ms s.1.
Proof.
  apply (foldl_ind (λ s', active_motions s'.1 = active_motions s.1 ∧
    game_clock_ms s'.1 = game_clock_ms s.1)); [done|].
  intros s' im _ [<- <-]. apply captureLoser_motions.
Qed.

Lemma survivors_none ls ms :
  existsb (λ im, default false (loses ls !! im.1)) (indexed ms) = false → survivors ls ms = ms.
Proof.
  intros He. unfold survivors. rewrite filter_id; [apply indexed_snd|].
  intros im Hin. destruct (default false _) eqn:E; [|done].
  assert (existsb (λ im, default false (loses ls !! im.1)) (indexed ms) = true); [|congruence].
  apply existsb_exists. exists im. split; [|done]. by apply list_elem_of_In.
Qed.

Lemma resolveCollisions_motions prev s :
  active_motions (resolveCollisions prev s).1 =
    survivors (findLosses (board s.1) (active_motions s.1) prev (game_clock_ms s.1)) (active_motions s.1)
  ∧ game_clock_ms (resolveCollisions prev s).1 = game_clock_ms s.1.
Proof.
  unfold resolveCollisions. set (ls := findLosses _ _ _ _).
  destruct (captureLosers_motions ls (indexed (active_motions s.1)) s) as [Hm Hc].
  destruct (foldl _ _ _) as [a kc] eqn:E. simpl in *.
  destruct (existsb _ _) eqn:Hex; [done|]. split; [|done].
  rewrite Hm. by rewrite (survivors_none _ _ Hex).
Qed.

Lemma resolveCollisions_life t prev s :
  lifecycle t (active_motions s.1) s.1 →
  lifecycle t (active_motions (resolveCollisions prev s).1) (resolveCollisions prev s).1.
Proof.
  intros Hl. rewrite (proj1 (resolveCollisions_motions _ _)).
  unfold resolveCollisions. set (ls := findLosses _ _ _ _).
  pose proof (captureLoser_life t ls (indexed (active_motions s.1)) [] s) as Hf.
  simpl in Hf. rewrite indexed_snd in Hf. specialize (Hf Hl).
  destruct (foldl _ _ _) as [a kc]. cbn [fst] in *.
  case_match; [|done]. by apply (lifecycle_ext _ _ a).
Qed.

Lemma stationaryScan_redirect b sl m mover prev clock pcp cps cp :
  stationaryScan b sl m mover prev clock pcp cps = Some (Redirect cp) →
  cp ∈ cps ∨ pcp = Some cp.
Proof.
  revert pcp. induction cps as [|[cell t] cps IH]; intros pcp; simpl; [done|].
  assert (stationaryScan b sl m mover prev clock (Some (cell, t)) cps = Some (Redirect cp) →
    cp ∈ (cell, t) :: cps ∨ pcp = Some cp) as Hnext.
  { intros [?|[= <-]]%IH; [left; by right|left; by left]. }
  repeat case_match; auto; intros [= <-]; auto. left. by left.
Qed.

Lemma stationaryLoop_life t prev dn todo a :
  t ≤ game_clock_ms a → lifecycle t (dn ++ todo) a →
  lifecycle t (active_motions (stationaryLoop prev dn todo a)) (stationaryLoop prev dn todo a) ∧
  game_clock_ms (stationaryLoop prev dn todo a) = game_clock_ms a.
Proof.
  revert dn a. induction todo as [|m todo IH]; intros dn a Ht Hl; simpl.
  { split; [|done]. rewrite app_nil_r in Hl. by apply (lifecycle_ext _ _ a). }
  assert (lifecycle t ((dn ++ [m]) ++ todo) a) as Hskip by (by rewrite <-app_assoc).
  destruct (isJump m) eqn:Hj; [auto|].
  destruct (getPiece (board a) (from m)) as [mover|] eqn:Hp; [|auto].
  destruct (kindEqb _ _); [auto|].
  destruct (stationaryScan _ _ _ _ _ _ _ _) as [[|cp]|] eqn:Hs; [| |auto].
  - apply (IH dn (transitionAt LongRest (from m)
      (setCooldown (piece_id m) (game_clock_ms a + LONG_REST_MS) a))); [done|].
    eapply lifecycle_rest; [|done| |done].
    + apply (lifecycle_perm _ (dn ++ m :: todo)); [symmetry; apply Permutation_middle|done].
    + unfold LONG_REST_MS. lia.
  - apply IH; [done|]. apply stationaryScan_redirect in Hs as [Hs|?]; [|done].
    apply (lifecycle_perm _ (redirect m cp :: dn ++ todo)).
    { rewrite <-app_assoc. apply Permutation_middle. }
    apply lifecycle_redirect; [done|by apply checkpoint_ne|].
    apply (lifecycle_perm _ (dn ++ m :: todo)); [symmetry; apply Permutation_middle|done].
Qed.

(** Erasing by index: what is left when the indices [te] are skipped. *)
Fixpoint keep {A} (k : nat) (te : list nat) (ms : list A) : list A :=
  match ms with
  | [] => []
  | m :: ms => (if decide (k ∈ te) then [] else [m]) ++ keep (S k) te ms
  end.

Lemma keep_ext {A} k te te' (ms : list A) :
  (∀ j : nat, (k ≤ j)%nat → j ∈ te ↔ j ∈ te') → keep k te ms = keep k te' ms.
Proof.
  revert k. induction ms as [|m ms IH]; intros k Ht; simpl; [done|].
  rewrite (IH (S k)) by (intros; apply Ht; lia). f_equal.
  specialize (Ht k (le_n k)). destruct (decide (k ∈ te)), (decide (k ∈ te')); naive_solver.
Qed.

Lemma keep_nil {A} k (ms : list A) : keep k [] ms = ms.
Proof.
  revert k. induction ms as [|m ms IH]; intros k; simpl; [done|].
  by rewrite IH.
Qed.

Lemma keep_split {A} k te i (ms : list A) m m' :
  ms !! i = Some m → (k + i)%nat ∉ te →
  keep k te (<[i:=m']> ms) ≡ₚ m' :: keep k ((k + i)%nat :: te) ms.
Proof.
  revert k i. induction ms as [|x ms IH]; intros k [|i] Hm Hni; simplify_eq/=.
  - rewrite Nat.add_0_r in *. rewrite decide_False, decide_True by (done || by left). simpl.
    f_equiv. apply reflexive_eq, keep_ext. intros j Hj. rewrite elem_of_cons. naive_solver lia.
  - specialize (IH (S k) i Hm). replace (S k + i)%nat with (k + S i)%nat in IH by lia.
    rewrite IH by done.
    assert (k ∈ (k + S i)%nat :: te ↔ k ∈ te) as Hk by (rewrite elem_of_cons; naive_solver lia).
    destruct (decide (k ∈ te)), (decide (k ∈ (k + S i)%nat :: te)); simpl; try tauto; [done|].
    apply Permutation_swap.
Qed.

Lemma keep_at {A} te i (ms : list A) m :
  ms !! i = Some m → i ∉ te → keep 0 te ms ≡ₚ m :: keep 0 (i :: te) ms.
Proof.
  intros Hm Hi. rewrite <-(list_insert_id ms i m) at 1 by done. exact (keep_split 0 te i ms m m Hm Hi).
Qed.

Lemma delete_keep {A} k i te (ms : list A) :
  (∀ j : nat, j ∈ te → (k + i < j)%nat) →
  delete i (keep k te ms) = keep k ((k + i)%nat :: te) ms.
Proof.
  revert k i. induction ms as [|x ms IH]; intros k i Hte; simpl; [by destruct i|].
  assert (k ∉ te) as Hk by (intros ?%Hte; lia). rewrite decide_False by done. simpl.
  destruct i as [|i].
  - rewrite Nat.add_0_r, decide_True by (by left). simpl.
    apply keep_ext. intros j Hj. rewrite elem_of_cons. naive_solver lia.
  - rewrite decide_False by (rewrite elem_of_cons; naive_solver lia). simpl. f_equal.
    rewrite IH by (intros j Hj%Hte; lia). by replace (S k + i)%nat with (k + S i)%nat by lia.
Qed.

Lemma eraseAll_keep te ms : NoDup te → eraseAll te ms = keep 0 te ms.
Proof.
  intros Hnd. unfold eraseAll. rewrite foldl_reverse.
  pose proof (merge_sort_Permutation Nat.le te) as Hp.
  assert (NoDup (merge_sort Nat.le te)) as Hnd' by by rewrite Hp.
  transitivity (keep 0 (merge_sort Nat.le te) ms); [|apply keep_ext; intros; by rewrite Hp].
  assert (StronglySorted Nat.le (merge_sort Nat.le te)) as Hs
    by (apply (StronglySorted_merge_sort Nat.le)).
  clear Hp. revert Hnd'. induction Hs as [|i l Hs IH Hi]; intros Hnd'; simpl; [by rewrite keep_nil|].
  apply NoDup_cons in Hnd' as [Hni Hnd'].
  rewrite IH by done. rewrite (delete_keep 0); [done|]. intros j Hj.
  rewrite Forall_forall in Hi. specialize (Hi j Hj). assert (i ≠ j) by set_solver.
  unfold Nat.le in Hi. lia.
Qed.

(** The motions left when the indices [te] are about to be erased. *)
Definition pending (s : Arbiter * list nat) : list Motion := keep 0 s.2 (active_motions s.1).

Lemma stopMotion_life t s e i m :
  e.1 = Z.of_nat i → active_motions s.1 !! i = Some m → isJump m = false →
  i ∉ s.2 → NoDup s.2 → t ≤ game_clock_ms s.1 → lifecycle t (pending s) s.1 →
  let s' := stopMotion s e in
  lifecycle t (pending s') s'.1 ∧ NoDup s'.2 ∧ game_clock_ms s'.1 = game_clock_ms s.1 ∧
  (∀ j : nat, j ∈ s'.2 → j = i ∨ j ∈ s.2) ∧
  (∀ j : nat, j ≠ i → active_motions s'.1 !! j = active_motions s.1 !! j).
Proof.
  destruct s as [a te], e as [k cpIndex]. unfold stopMotion, pending. cbn [fst snd].
  intros -> Hm Hj Hni Hnd Ht Hl. rewrite Nat2Z.id, Hm.
  destruct (getPiece (board a) (from m)) as [p|] eqn:Hp; [|auto 10].
  assert (lifecycle t (m :: keep 0 (i :: te) (active_motions a)) a) as Hl'
    by (eapply lifecycle_perm; [by apply keep_at|done]).
  destruct (cpIndex =? 0).
  - cbn [fst snd active_motions]. split_and!.
    + apply (lifecycle_perm _ (keep 0 (i :: te) (active_motions a))).
      { apply reflexive_eq, keep_ext. intros j _. simpl. set_solver. }
      eapply lifecycle_rest; [done..| |done]. unfold LONG_REST_MS. lia.
    + apply NoDup_app. split_and!; [done|set_solver|apply NoDup_singleton].
    + done.
    + set_solver.
    + done.
  - destruct (pathCheckpoints m !! _) as [cp|] eqn:Hcp; [|auto 10].
    cbn [fst snd]. split_and!; [|done|done|by right|].
    + eapply lifecycle_perm; [symmetry; by apply (keep_split 0 te i _ m)|].
      apply (lifecycle_ext _ _ a); [done..|]. apply lifecycle_redirect; [done| |done].
      apply checkpoint_ne. by eapply list_elem_of_lookup_2.
    + intros j Hne. simpl. by rewrite list_lookup_insert_ne.
Qed.

Lemma stopMotions_life t b (ms : list Motion) (es : list (Z * Z)) s :
  (∀ e, e ∈ es → ∃ i m, e.1 = Z.of_nat i ∧ ms !! i = Some m ∧ followed b m = true) →
  NoDup es.*1 → NoDup s.2 → t ≤ game_clock_ms s.1 → lifecycle t (pending s) s.1 →
  (∀ e i, e ∈ es → e.1 = Z.of_nat i → i ∉ s.2 ∧ active_motions s.1 !! i = ms !! i) →
  let s' := foldl stopMotion s es in
  lifecycle t (pending s') s'.1 ∧ NoDup s'.2 ∧ game_clock_ms s'.1 = game_clock_ms s.1.
Proof.
  revert s. induction es as [|e es IH]; intros s He Hnd Hnd' Ht Hl Hsame; [done|]. simpl in *.
  apply NoDup_cons in Hnd as [Hni Hnd].
  destruct (He e) as (i & m & Hei & Hm & Hf); [by left|].
  destruct (Hsame e i) as [Hnin Hmi]; [by left|done|]. rewrite Hm in Hmi.
  destruct (stopMotion_life t s e i m Hei Hmi (followed_jump _ _ Hf) Hnin Hnd' Ht Hl)
    as (Hl' & Hn' & Hc' & Hin' & Hlk'). cbv zeta in *. rewrite <-Hc'.
  apply IH; [set_solver|done..|by rewrite Hc'|done|].
  intros e' i' He' Hei'.
  assert (i' ≠ i). { intros ->. apply Hni. apply list_elem_of_fmap. exists e'. split; [congruence|done]. }
  destruct (Hsame e' i') as [? ?]; [by right|done|]. split.
  - intros [?|?]%Hin'; congruence.
  - by rewrite Hlk'.
Qed.

Lemma resolveMovingFriendlyBlocks_life `{HashIter} t prev a :
  t ≤ game_clock_ms a → lifecycle t (active_motions a) a →
  let a' := resolveMovingFriendlyBlocks prev a in
  lifecycle t (active_motions a') a' ∧ game_clock_ms a' = game_clock_ms a.
Proof.
  intros Ht Hl. unfold resolveMovingFriendlyBlocks. set (sa := findStopAt _ _ _ _).
  destruct (stopMotions_life t (board a) (active_motions a) (hash_iter sa) (a, []))
    as (Hl' & Hnd & Hc).
  - intros [k v] Hin%elem_of_hash_iter. by apply findStopAt_ok in Hin.
  - apply hash_iter_keys_NoDup.
  - constructor.
  - done.
  - unfold pending; simpl. by rewrite keep_nil.
  - intros e i _ _. split; [by intros ?%elem_of_nil|done].
  - destruct (foldl _ _ _) as [a' te]. unfold pending in Hl'. cbn [fst snd] in *.
    rewrite <-(eraseAll_keep te) in Hl' by done.
    destruct te; [done|]. split; [|done]. by eapply lifecycle_ext; [| |exact Hl'].
Qed.

(** ** Arrivals *)

Lemma lifecycle_own t m l a p :
  lifecycle t (m :: l) a → standing (board a) p → getId p = piece_id m →
  isBusyState (getState p) = true → isJump m = stateEqb (getState p) Jump.
Proof.
  intros Hl Hp Hid Hb. destruct (lc_busy _ _ _ Hl p Hp Hb) as (m' & Hm' & Hid' & Hj).
  apply elem_of_cons in Hm' as [->|Hm']; [done|].
  pose proof (lc_pend _ _ _ Hl) as Hnd. simpl in Hnd. apply NoDup_cons in Hnd as [Hni _].
  destruct Hni. apply list_elem_of_fmap. exists m'. split; [congruence|done].
Qed.

Lemma lifecycle_real t m l a p :
  lifecycle t (m :: l) a → getPiece (board a) (from m) = Some p → getId p = piece_id m →
  isReal p = true.
Proof.
  intros Hl Hp Hid. apply isReal_true. intros Hk.
  destruct (board_piece _ (lc_board _ _ _ Hl) _ _ Hp) as (_ & H & _).
  destruct (H Hk) as [H0 _]. apply (lc_pend_nonzero _ _ _ Hl m); [by left|congruence].
Qed.

Lemma lifecycle_elsewhere t m l a q u :
  lifecycle t (m :: l) a → getPiece (board a) (from m) = q →
  (∀ p, q = Some p → getId p ≠ piece_id m) →
  lifecycle t l (setCooldown (piece_id m) u a).
Proof.
  intros Hl Hq Hne. apply (lifecycle_gone t m l a u Hl). intros p Hp Hid.
  pose proof (lifecycle_source _ _ _ _ _ Hl Hp Hid) as Hs. apply (Hne p); [congruence|done].
Qed.

Lemma lifecycle_jump t m l a p u :
  lifecycle t (m :: l) a → isJump m = true → t < u →
  getPiece (board a) (from m) = Some p → getId p = piece_id m →
  lifecycle t l (transitionAt ShortRest (from m) (setCooldown (piece_id m) u a)).
Proof.
  intros Hl Hj Hu Hp Hid. pose proof (lc_board _ _ _ Hl) as Hok.
  eapply (lifecycle_finish _ _ _ _ _ (from m)); [exact Hl| | |].
  - simpl. by apply board_ok_transition.
  - intros id Hne. simpl. by rewrite lookup_insert_ne by congruence.
  - intros q Hs. apply standing_transitionAt in Hs; [|done].
    change (board (setCooldown (piece_id m) u a)) with (board a) in Hs.
    destruct Hs as [(p0 & Hp0 & Hr & ->)|[Hs Hne]].
    * simplify_eq. rewrite transition_id, transition_cell, transition_state. right.
      pose proof (standing_at _ _ _ Hp Hr) as Hst.
      split_and!; [done|by apply (board_cell _ Hok)| | |exists u; simpl; by rewrite lookup_insert_eq].
      + case_match eqn:Hlt; [done|]. destruct (isBusyState _) eqn:Hb; [|done].
        pose proof (lifecycle_own _ _ _ _ _ Hl Hst Hid Hb) as Ho.
        rewrite Hj in Ho. by destruct (getState p).
      + case_match eqn:Hlt; [done|]. apply (lc_flight _ _ _ Hl m); [by left|done..].
    * left. split; [by apply standing_stoodIn|]. intros Hid'.
      by rewrite (lc_from _ _ _ Hl m q) in Hne by (done || by left).
Qed.

Lemma standing_movePiece b f t p0 p :
  board_ok b → f ≠ t → getPiece b f = Some p0 → standing (movePiece b f t) p →
  p = (if isWithinBounds b t then setCell t p0 else p0) ∨ (standing b p ∧ getCell p ≠ f).
Proof.
  intros Hok Hft Hp0 Hs. pose proof (getPiece_bounds _ _ _ Hp0) as Hbf.
  destruct (isWithinBounds b t) eqn:Ht.
  - rewrite (movePiece_eq _ _ _ p0) in Hs by done. pose proof Hs as [Hr _].
    pose proof (board_piece _ Hok _ _ Hp0) as Hpo.
    apply standing_setGrid in Hs as [->|[Hs Hne]]; [done| | |done].
    + apply standing_setGrid in Hs as [->|[Hs ?]]; [by left|by right|done|done].
    + by apply board_ok_setGrid.
  - rewrite movePiece_outside in Hs by done.
    destruct (decide (getCell p = f)) as [Hc|?]; [left|by right].
    apply standing_cell in Hs; [|done]. rewrite Hc in Hs. congruence.
Qed.

Lemma standing_updatePiece g b pos p :
  board_ok b → standing (updatePiece g b pos) p →
  (∃ p1, getPiece b pos = Some p1 ∧ p = g p1) ∨ (standing b p ∧ getCell p ≠ pos).
Proof.
  intros Hok Hs. destruct (getPiece b pos) as [p1|] eqn:E.
  - rewrite (updatePiece_eq _ _ _ p1) in Hs by done.
    apply standing_setGrid in Hs as [->|?]; [left; eauto|by right|done|by eapply getPiece_bounds].
  - rewrite updatePiece_None in Hs by done. right. split; [done|]. intros <-.
    apply standing_cell in Hs; congruence.
Qed.

(** Who stands after a landing: the piece that moved, perhaps promoted, and
    others that stood before. *)
Lemma standing_landing m piece a victim moved p :
  board_ok (board a) → from m ≠ to m → getPiece (board a) (from m) = Some piece →
  standing (board (promote m piece (travel (from m) (to m) victim moved a))) p →
  (getId p = getId piece ∧ getCell p = landed (board a) m ∧ getState p = getState piece) ∨
  (standing (board a) p ∧ getCell p ≠ from m).
Proof.
  intros Hok Hne Hp Hs. set (b1 := movePiece (board a) (from m) (to m)).
  assert (board (travel (from m) (to m) victim moved a) = b1) as Hb1
    by (apply (travel_board _ _ _ _ piece); [apply Hok|done..]).
  assert (getCell piece = from m) as Hcell by (by apply (board_cell _ Hok)).
  assert (∀ q, standing b1 q →
    (getId q = getId piece ∧ getCell q = landed (board a) m ∧ getState q = getState piece) ∨
    (standing (board a) q ∧ getCell q ≠ from m)) as H1.
  { intros q Hq. apply (standing_movePiece _ _ _ piece) in Hq as [->|?]; [left|by right|done..].
    unfold landed. destruct (isWithinBounds (board a) (to m)); done. }
  revert Hs. unfold promote. cbv zeta. destruct (kindEqb _ _); [|rewrite Hb1; apply H1].
  destruct (row _ =? _); [|rewrite Hb1; apply H1].
  cbn [board onBoard]. rewrite Hb1. intros Hs.
  apply standing_updatePiece in Hs as [(p1 & Hp1 & ->)|[Hs _]]; [|by apply H1|by apply board_ok_movePiece].
  left. simpl. assert (p1 = (if isWithinBounds (board a) (to m) then setCell (to m) piece else piece)) as ->.
  { pose proof (getPiece_movePiece _ _ _ _ (board_grid _ Hok) Hne Hp) as Hm. fold b1 in Hm.
    unfold landed in Hp1. unfold b1 in Hp1 at 2. rewrite isWithinBounds_movePiece in Hp1. congruence. }
  unfold landed. destruct (isWithinBounds (board a) (to m)); done.
Qed.

Lemma resolve_clock coll s m :
  game_clock_ms (resolve coll s m).1 = game_clock_ms s.1 ∧
  active_motions (resolve coll s m).1 = active_motions s.1.
Proof.
  destruct s as [a kc]. unfold resolve, promote, captureArriver, captureTarget.
  repeat case_match; done.
Qed.

Lemma travel_cooldown f t v moved a : cooldown_until_ms (travel f t v moved a) = cooldown_until_ms a.
Proof. unfold travel. by destruct v as [[]|]. Qed.

Lemma promote_cooldown m piece a : cooldown_until_ms (promote m piece a) = cooldown_until_ms a.
Proof. unfold promote. cbv zeta. by repeat case_match. Qed.

Lemma board_ok_landing m piece a :
  board_ok (board a) → from m ≠ to m → getPiece (board a) (from m) = Some piece →
  board_ok (board (promote m piece (travel (from m) (to m)
    (victimOf m piece (getPiece (board a) (to m))) (setCell (landed (board a) m) piece) a))).
Proof.
  intros Hok Hne Hp.
  set (kc := match getPiece (board a) (to m) with Some t => kindEqb (getKind t) King | None => false end).
  refine (asteps_board_ok _ _ (landing_asteps m piece a false kc Hok Hne Hp _) Hok).
  unfold kc. destruct (getPiece (board a) (to m)) as [t|]; [rewrite kindEqb_true|]; naive_solver.
Qed.

Lemma lifecycle_landing t m l a piece u :
  lifecycle t (m :: l) a → isJump m = false → t < u →
  getPiece (board a) (from m) = Some piece → getId piece = piece_id m →
  let a2 := transitionAt LongRest (from m) (setCooldown (piece_id m) u a) in
  let piece' := transition LongRest piece in
  lifecycle t l (promote m piece' (travel (from m) (to m)
    (victimOf m piece' (getPiece (board a2) (to m))) (setCell (landed (board a2) m) piece') a2)).
Proof.
  intros Hl Hj Hu Hp Hid a2 piece'.
  pose proof (lc_board _ _ _ Hl) as Hok. pose proof (lifecycle_real _ _ _ _ _ Hl Hp Hid) as Hr.
  assert (board_ok (board a2)) as Hok2 by (by apply board_ok_transition).
  assert (getPiece (board a2) (from m) = Some piece') as Hp2
    by (apply (transitionAt_same LongRest (from m) piece); [apply Hok|done]).
  assert (from m ≠ to m) as Hne by (by apply posEq_false).
  assert (isBusyState (getState piece') = false) as Hnb.
  { unfold piece'. rewrite transition_state. case_match eqn:Hlt; [done|].
    destruct (isBusyState _) eqn:Hb; [|done].
    pose proof (lifecycle_own _ _ _ _ _ Hl (standing_at _ _ _ Hp Hr) Hid Hb) as Ho.
    rewrite Hj in Ho. by destruct (getState piece). }
  assert (getState piece' ≠ Idle) as Hni.
  { unfold piece'. rewrite transition_state. case_match; [done|].
    apply (lc_flight _ _ _ Hl m); [by left|by apply (standing_at _ (from m))|done]. }
  eapply (lifecycle_finish _ _ _ _ _ (landed (board a2) m)); [exact Hl| | |].
  - by apply board_ok_landing.
  - intros id Hid'. rewrite promote_cooldown, travel_cooldown. simpl.
    by rewrite lookup_insert_ne by congruence.
  - intros p Hs. apply standing_landing in Hs as [(Hi & Hc & Hst)|[Hs Hcell]]; [| |done..].
    + right. split_and!; [|done|congruence|congruence|].
      * rewrite Hi. unfold piece'. by rewrite transition_id.
      * exists u. rewrite promote_cooldown, travel_cooldown. simpl. by rewrite lookup_insert_eq.
    + left. apply standing_transitionAt in Hs as [(p0 & Hp0 & _ & ->)|[Hs Hn]]; [| |done].
      * rewrite transition_cell in Hcell. by rewrite (board_cell _ Hok _ _ Hp0) in Hcell.
      * split; [by apply standing_stoodIn|]. intros Hid'.
        by rewrite (lc_from _ _ _ Hl m p) in Hn by (done || by left).
Qed.

Lemma resolve_life coll t m l a kc :
  t ≤ game_clock_ms a → lifecycle t (m :: l) a → lifecycle t l (resolve coll (a, kc) m).1.
Proof.
  intros Ht Hl. unfold resolve. set (u := game_clock_ms a + _).
  assert (t < u) as Hu by (unfold u, SHORT_REST_MS, LONG_REST_MS; case_match; lia).
  clearbody u. pose proof (lc_board _ _ _ Hl) as Hok.
  change (board (setCooldown (piece_id m) u a)) with (board a).
  destruct (isJump m) eqn:Hj.
  { destruct (getPiece (board a) (from m)) as [p|] eqn:Hp.
    - destruct (Z.eqb_spec (getId p) (piece_id m)); simpl.
      + by eapply lifecycle_jump.
      + eapply lifecycle_elsewhere; [done|exact Hp|naive_solver].
    - eapply lifecycle_elsewhere; [done|exact Hp|done]. }
  destruct (getPiece (board a) (from m)) as [p|] eqn:Hp;
    [|eapply lifecycle_elsewhere; [done|exact Hp|done]].
  destruct (Z.eqb_spec (getId p) (piece_id m)) as [Hid|Hid]; simpl;
    [|eapply lifecycle_elsewhere; [done|exact Hp|naive_solver]].
  destruct (defended _).
  { apply (lifecycle_kill t m l a); [done..|].
    intros id Hid'. simpl. by rewrite lookup_insert_ne by congruence. }
  destruct (coll && _ && _); [by eapply lifecycle_rest|].
  assert (from m ≠ to m) as Hne by (by apply posEq_false).
  pose proof (resolve_tail m p (getPiece (board a) (to m)) (setCooldown (piece_id m) u a)) as Htail.
  cbv zeta in Htail. unfold wasCaptureOf in Htail. simpl in Htail |- *. rewrite Htail. clear Htail.
  pose proof (lifecycle_landing t m l a p u Hl Hj Hu Hp Hid) as Hland. cbv zeta in Hland.
  rewrite transitionAt_other in Hland by (done || apply Hok). exact Hland.
Qed.

Lemma resolves_life coll t l l' s :
  t ≤ game_clock_ms s.1 → lifecycle t (l ++ l') s.1 →
  lifecycle t l' (foldl (resolve coll) s l).1 ∧
  game_clock_ms (foldl (resolve coll) s l).1 = game_clock_ms s.1 ∧
  active_motions (foldl (resolve coll) s l).1 = active_motions s.1.
Proof.
  revert s. induction l as [|m l IH]; intros s Ht Hl; [done|]. simpl.
  destruct (resolve_clock coll s m) as [Hc Hm]. rewrite <-Hc, <-Hm.
  apply IH; [by rewrite Hc|]. destruct s as [a kc]. by apply resolve_life.
Qed.

(** ** Rests that end *)

Lemma updateFirst_first P f l i p :
  updateFirst P f l !! i = Some p →
  (l !! i = Some p ∧ (P p = true → ∃ j q, (j < i)%nat ∧ l !! j = Some q ∧ P q = true)) ∨
  (∃ q, l !! i = Some q ∧ P q = true ∧ p = f q).
Proof.
  revert i. induction l as [|x l IH]; intros i; simpl; [done|].
  destruct (P x) eqn:E, i as [|i]; simpl.
  - intros [= <-]. right. eauto.
  - intros ?. left. split; [done|]. intros _. exists 0%nat, x. auto with lia.
  - intros [= <-]. left. split; [done|congruence].
  - intros [[? Hf]|?]%IH; [left|by right]. split; [done|].
    intros (j & q & ? & ? & ?)%Hf. exists (S j), q. auto with lia.
Qed.

(** With distinct ids, the write goes to the piece that has the id. *)
Lemma standing_updatePieceById f b id p :
  board_ok b → (∀ x, isReal (f x) = isReal x) →
  (∀ x y, standing b x → standing b y → getId x = getId y → getCell x = getCell y) →
  (∀ x, standing b x → getId x ≠ 0) →
  standing (updatePieceById f b id) p →
  ∃ p0, standing b p0 ∧ p = if getId p0 =? id then f p0 else p0.
Proof.
  intros Hok Hf Huniq Hnz (Hr & pos & Hp). unfold getPiece in Hp.
  change (isWithinBounds (updatePieceById f b id) pos) with (isWithinBounds b pos) in Hp.
  change (idx (updatePieceById f b id) pos) with (idx b pos) in Hp. simpl in Hp.
  destruct (isWithinBounds b pos) eqn:Hb; [|done].
  assert (∀ q, grid b !! idx b pos = Some q → getPiece b pos = Some q) as Hget
    by (intros q Hq; unfold getPiece; by rewrite Hb).
  apply updateFirst_first in Hp as [[Hp Hfirst]|(q & Hq & Hid & ->)].
  - assert (standing b p) as Hs by (apply (standing_at _ pos); auto).
    exists p. split; [done|]. destruct (getId p =? id) eqn:Hid; [|done].
    destruct (Hfirst eq_refl) as (j & q & Hj & Hq & Hqid). b2p.
    assert (∃ pos', getPiece b pos' = Some q) as [pos' Hq'].
    { apply elem_of_grid; [apply Hok|]. by eapply list_elem_of_lookup_2. }
    assert (standing b q) as Hsq.
    { apply (standing_at _ pos'); [done|]. apply isReal_true. intros Hk.
      destruct (board_piece _ Hok _ _ Hq') as (_ & H0 & _). destruct (H0 Hk) as [? _].
      apply (Hnz p); [done|congruence]. }
    assert (getCell p = getCell q) as Hc by (apply Huniq; congruence).
    rewrite (board_cell _ Hok _ _ (Hget _ Hp)), (board_cell _ Hok _ _ Hq') in Hc. subst pos'.
    exfalso. pose proof Hq' as Hq''. unfold getPiece in Hq''. rewrite Hb in Hq''.
    assert (p = q) as <- by congruence. clear Hfirst Hsq.
    pose proof (grid_lookup_unique b j (idx b pos) p Hok Hq Hp). lia.
  - exists q. rewrite Hid. split; [|done]. rewrite Hf in Hr. apply (standing_at _ pos); auto.
Qed.

(** The entry's rest ends within the tick. *)
Definition due (prev clock u : Z) : Prop := prev < u ≤ clock.

(** [p] comes from [p0]; if its rest ended, an entry of [es] was due and now
    records the clock. *)
Definition rested (prev clock : Z) (es : list (Z * Z)) (a' : Arbiter) (p0 p : Piece) : Prop :=
  getId p0 = getId p ∧ getCell p0 = getCell p ∧
  (getState p0 = getState p ∨
   isBusyState (getState p0) = false ∧ getState p = Idle ∧
   cooldown_until_ms a' !! getId p = Some clock ∧
   ∃ u, (getId p, u) ∈ es ∧ due prev clock u).

Record idsOk (a : Arbiter) : Prop := {
  ids_board : board_ok (board a);
  ids_unique : ∀ p q, standing (board a) p → standing (board a) q →
    getId p = getId q → getCell p = getCell q;
  ids_nonzero : ∀ p, standing (board a) p → getId p ≠ 0
}.

Lemma getPieceById_standing a id p :
  standing (board a) p → idsOk a → getId p = id → ∃ q, getPieceById (board a) id = Some q.
Proof.
  intros Hp Hok Hid. unfold getPieceById. destruct (find _ _) eqn:E; [eauto|].
  assert (p ∈ grid (board a)) as Hin%list_elem_of_In
    by (apply elem_of_grid; [apply Hok|destruct Hp; done]).
  apply (find_none _ _ E) in Hin. b2p. congruence.
Qed.

Lemma endRest_effect prev a id u :
  idsOk a →
  let a' := endRest prev a (id, u) in
  (∀ p, standing (board a') p →
     ∃ p0, standing (board a) p0 ∧ rested prev (game_clock_ms a) [(id, u)] a' p0 p) ∧
  (due prev (game_clock_ms a) u → ∀ p, standing (board a') p → getId p = id →
     isRestingState (getState p) = false) ∧
  (∀ id', id' ≠ id ∨ ¬ due prev (game_clock_ms a) u →
     cooldown_until_ms a' !! id' = cooldown_until_ms a !! id') ∧
  game_clock_ms a' = game_clock_ms a ∧ active_motions a' = active_motions a ∧ board_ok (board a').
Proof.
  intros Hok a'. unfold a', endRest, due. clear a'. cbn [fst snd].
  assert (∀ x p, standing (board a) p →
    ∃ p0, standing (board a) p0 ∧ rested prev (game_clock_ms a) [(id, u)] x p0 p) as Hsame.
  { intros x p Hp. exists p. unfold rested. auto. }
  destruct (_ && _) eqn:Hr.
  2:{ split_and!; auto; [|by apply Hok]. intros Hd. exfalso.
      apply andb_false_iff in Hr as [Hr|Hr]; b2p; lia. }
  destruct (getPieceById (board a) id) as [q|] eqn:Hq.
  2:{ split_and!; auto; [|by apply Hok]. intros _ p Hp Hid. exfalso.
      destruct (getPieceById_standing a id p Hp Hok Hid). congruence. }
  b2p. cbn [board onBoard setCooldown cooldown_until_ms game_clock_ms active_motions].
  assert (∀ p, standing (updatePieceById (transition Idle) (board a) id) p →
    ∃ p0, standing (board a) p0 ∧ p = if getId p0 =? id then transition Idle p0 else p0) as Hst.
  { intros p Hp. apply standing_updatePieceById; [apply Hok|apply transition_isReal|apply Hok..|done]. }
  split_and!; [| | |done|done|].
  - intros p (p0 & Hp0 & ->)%Hst. exists p0. split; [done|]. case_match; [|unfold rested; auto].
    unfold rested. rewrite transition_id, transition_cell, transition_state.
    split_and!; [done..|]. b2p.
    assert (<[id:=game_clock_ms a]> (cooldown_until_ms a) !! getId p0 = Some (game_clock_ms a)) as Hcd
      by (subst id; by rewrite lookup_insert_eq).
    assert (∃ v, (getId p0, v) ∈ [(id, u)] ∧ due prev (game_clock_ms a) v) as Hdue.
    { exists u. split; [apply list_elem_of_singleton; congruence|]. unfold due. lia. }
    destruct (getState p0); simpl; auto 10.
  - intros _ p (p0 & Hp0 & ->)%Hst Hid. case_match eqn:Hi; b2p; [|congruence].
    rewrite transition_state. by destruct (getState p0).
  - intros id' [Hne|Hd]; [by rewrite lookup_insert_ne|]. lia.
  - apply board_ok_updatePieceById; [apply Hok|]. intros p Hp _.
    split; [apply transition_cell|by apply piece_ok_transition].
Qed.

Lemma idsOk_rested a a' :
  idsOk a → board_ok (board a') →
  (∀ p, standing (board a') p → ∃ p0, standing (board a) p0 ∧
     getId p0 = getId p ∧ getCell p0 = getCell p) → idsOk a'.
Proof.
  intros [H1 H2 H3] Hok Hst. split; [done| |].
  - intros p q (p0 & Hp0 & Hi & <-)%Hst (q0 & Hq0 & Hi' & <-)%Hst ?. apply H2; congruence.
  - intros p (p0 & Hp0 & <- & _)%Hst. auto.
Qed.

Lemma endRests_effect prev (es : list (Z * Z)) a :
  NoDup es.*1 → idsOk a →
  let a' := foldl (endRest prev) a es in
  (∀ p, standing (board a') p →
     ∃ p0, standing (board a) p0 ∧ rested prev (game_clock_ms a) es a' p0 p) ∧
  (∀ p u, (getId p, u) ∈ es → due prev (game_clock_ms a) u → standing (board a') p →
     isRestingState (getState p) = false) ∧
  (∀ id, (∀ u, (id, u) ∈ es → ¬ due prev (game_clock_ms a) u) →
     cooldown_until_ms a' !! id = cooldown_until_ms a !! id) ∧
  game_clock_ms a' = game_clock_ms a ∧ active_motions a' = active_motions a ∧ idsOk a'.
Proof.
  revert a. induction es as [|[id u] es IH]; intros a Hnd Hok.
  { simpl. split_and!; try done; [|set_solver]. intros p ?. exists p. unfold rested. auto. }
  simpl in *. apply NoDup_cons in Hnd as [Hni Hnd].
  destruct (endRest_effect prev a id u Hok) as (H1 & H2 & H3 & H4 & H5 & H6). cbv zeta in *.
  set (a1 := endRest prev a (id, u)) in *.
  assert (idsOk a1) as Hok1.
  { apply (idsOk_rested a); [done..|]. intros p (p0 & ? & ? & ? & _)%H1. eauto. }
  destruct (IH a1 Hnd Hok1) as (I1 & I2 & I3 & I4 & I5 & I6). cbv zeta in *.
  rewrite H4 in *. rewrite I5.
  assert (∀ v, (id, v) ∉ es) as Hnotin.
  { intros v Hin. apply Hni. apply list_elem_of_fmap. by exists (id, v). }
  split_and!; [| | |congruence|congruence|done].
  - intros p (p1 & (p0 & Hp0 & Hi0 & Hc0 & Hs0)%H1 & Hi1 & Hc1 & Hs1)%I1. exists p0.
    split; [done|]. unfold rested. split_and!; [congruence..|].
    destruct Hs1 as [Hs1|(Hb1 & Hidle & Hcd & v & Hin & Hd)].
    + destruct Hs0 as [Hs0|(Hb0 & Hidle & Hcd & v & Hin & Hd)]; [left; congruence|right].
      apply list_elem_of_singleton in Hin as [= Hid ->]. rewrite <-Hi1, Hid in *.
      split_and!; [done|congruence| |exists u; split; [by left|done]].
      rewrite I3; [done|]. intros w Hw. by destruct (Hnotin w).
    + right. split_and!; [|done|done|exists v; split; [by right|done]].
      destruct Hs0 as [->|(? & _)]; done.
  - intros p v [Heq|Hin]%elem_of_cons Hd Hs; [|by eapply I2].
    injection Heq as Hid ->. apply I1 in Hs as (p1 & Hs1 & Hi1 & _ & Hst).
    specialize (H2 Hd _ Hs1 ltac:(congruence)).
    destruct Hst as [<-|(_ & -> & _)]; done.
  - intros id' Hno. rewrite I3 by (intros v Hin; apply Hno; by right).
    apply H3. destruct (decide (id' = id)) as [->|?]; [right|by left]. apply Hno. by left.
Qed.

Lemma lifecycle_idsOk t l a : lifecycle t l a → idsOk a.
Proof. intros Hl. split; apply Hl. Qed.

Lemma endRests_late prev (es : list (Z * Z)) a id w :
  cooldown_until_ms (foldl (endRest prev) a es) !! id = Some w → game_clock_ms a < w →
  cooldown_until_ms a !! id = Some w.
Proof.
  revert a. induction es as [|e es IH]; intros a Hw Hlt; [done|]. simpl in Hw.
  assert (game_clock_ms (endRest prev a e) = game_clock_ms a) as Hk
    by (unfold endRest; by repeat case_match).
  apply IH in Hw; [|by rewrite Hk]. unfold endRest in Hw. repeat case_match; [|done..].
  simpl in Hw. rewrite lookup_insert in Hw. case_decide; [simplify_eq; lia|done].
Qed.

(** After the loop, rests are ended up to the clock. *)
Lemma endRests_life prev pend (es : list (Z * Z)) a :
  es ≡ₚ map_to_list (cooldown_until_ms a) → prev ≤ game_clock_ms a → lifecycle prev pend a →
  lifecycle (game_clock_ms a) pend (foldl (endRest prev) a es).
Proof.
  intros Hes Hprev Hl.
  assert (NoDup es.*1) as Hnd by (rewrite Hes; apply NoDup_fst_map_to_list).
  destruct (endRests_effect prev es a Hnd (lifecycle_idsOk _ _ _ Hl))
    as (H1 & H2 & H3 & H4 & H5 & [H6 H7 H8]). cbv zeta in *.
  set (a' := foldl (endRest prev) a es) in *.
  assert (∀ id u, (id, u) ∈ es ↔ cooldown_until_ms a !! id = Some u) as Hin
    by (intros; rewrite Hes; apply elem_of_map_to_list).
  pose proof (endRests_late prev es a) as Hback. fold a' in Hback.
  split; try done; [apply Hl..| | | | | | | |apply Hl].
  - intros m p Hm (p0 & Hp0 & Hi & <- & _)%H1 Hid. eapply lc_from; [done..|congruence].
  - intros p (p0 & Hp0 & Hi & _ & [Hs|(Hs & Hs' & _)])%H1 Hb; [|by rewrite Hs' in Hb].
    rewrite <-Hs, <-Hi in *. eapply lc_busy; done.
  - intros p Hp Hr. pose proof Hp as (p0 & Hp0 & Hi & _ & [Hs|(Hs & Hs' & _)])%H1; [|by rewrite Hs' in Hr].
    destruct (lc_rest _ _ _ Hl p0 Hp0) as [(u & Hu & Hlt)|?]; [congruence| |right; congruence].
    left. rewrite Hi in Hu. destruct (decide (u ≤ game_clock_ms a)) as [Hle|Hgt].
    + assert (due prev (game_clock_ms a) u) as Hd by (unfold due; lia).
      rewrite (H2 p u (proj2 (Hin _ _) Hu) Hd Hp) in Hr. done.
    + exists u. rewrite H3; [split; [done|lia]|]. intros v Hv%Hin. unfold due. simplify_eq. lia.
  - intros m p Hm (p0 & Hp0 & Hi & _ & [<-|(_ & _ & _ & u & Hu%Hin & Hd)])%H1 Hid.
    + eapply lc_flight; [done..|congruence].
    + destruct (lc_warm _ _ _ Hl m Hm). exists u. rewrite <-Hid. unfold due in Hd.
      split; [done|lia].
  - intros m Hm (u & Hu & Hlt). apply (lc_warm _ _ _ Hl m Hm). exists u.
    split; [by apply Hback|lia].
  - intros p (p0 & Hp0 & Hi & _ & [Hs|(_ & _ & Hcd & _)])%H1 Hidle (u & Hu & Hlt).
    + apply (lc_idle _ _ _ Hl p0); [done|congruence|]. exists u. rewrite Hi.
      split; [by apply Hback|lia].
    + rewrite Hcd in Hu. simplify_eq. lia.
  - intros p c (p0 & Hp0 & Hi & <- & _)%H1 Hh. eapply lc_home; [done..|congruence].
Qed.

(** ** Trips *)

Definition withinSpan (n : Z) (pos : Position) : Prop := 0 ≤ row pos < n ∧ 0 ≤ col pos < n.

(** A motion started by time [c], at the game's speed, on a board [n] wide. *)
Definition trip (c n : Z) (m : Motion) : Prop :=
  start_time_ms m ≤ c ∧
  arrival_time_ms m ≤ start_time_ms m + MS_PER_SQUARE_TRAVELED * Z.max 1 (pathSteps m) ∧
  pathSteps m ≤ n ∧ withinSpan n (from m) ∧ withinSpan n (to m).

(** A step of [i] squares on the way of [d] squares, of at most [s] a side. *)
Lemma step_between d s i : 1 ≤ i ≤ s → Z.abs d ≤ s → Z.min 0 d ≤ Z.quot d s * i ≤ Z.max 0 d.
Proof.
  intros Hi Hd. destruct (Z.eq_dec (Z.abs d) s) as [Hs|Hs].
  - destruct (Z.le_gt_cases 0 d).
    + replace d with s by lia. rewrite Z.quot_same by lia. lia.
    + replace d with (- s) by lia. rewrite Z.quot_opp_l, Z.quot_same by lia. lia.
  - replace (Z.quot d s) with 0; [lia|]. symmetry. destruct (Z.le_gt_cases 0 d).
    + by apply Z.quot_small; lia.
    + rewrite <-(Z.opp_involutive d), Z.quot_opp_l by lia. rewrite Z.quot_small by lia. done.
Qed.

Lemma trip_redirect c n m cp : cp ∈ pathCheckpoints m → trip c n m → trip c n (redirect m cp).
Proof.
  unfold pathCheckpoints, trip, MS_PER_SQUARE_TRAVELED. case_match; b2p; [by intros ?%elem_of_nil|].
  intros (i & -> & Hi%elem_of_seqZ)%list_elem_of_fmap (H1 & H2 & H3 & [Hfr Hfc] & [Htr Htc]). unfold pathSteps in *.
  simpl in *. set (s := Z.max _ _) in *.
  pose proof (step_between (row (to m) - row (from m)) s i ltac:(lia) ltac:(lia)) as Hbr.
  pose proof (step_between (col (to m) - col (from m)) s i ltac:(lia) ltac:(lia)) as Hbc.
  assert (Z.abs (Z.quot (row (to m) - row (from m)) s) ≤ 1 ∧
          Z.abs (Z.quot (col (to m) - col (from m)) s) ≤ 1 ∧
          (Z.abs (Z.quot (row (to m) - row (from m)) s) = 1 ∨
           Z.abs (Z.quot (col (to m) - col (from m)) s) = 1)) as (Hr & Hc & Ho).
  { assert (∀ z, Z.abs z ≤ s → Z.abs (Z.quot z s) ≤ 1) as Hq.
    { intros z Hz. rewrite <-(Z.quot_abs z s) by lia.
      rewrite (Z.abs_eq s) by lia. apply Z.quot_le_upper_bound; lia. }
    split_and!; [apply Hq; lia..|].
    assert (Z.abs (row (to m) - row (from m)) = s ∨ Z.abs (col (to m) - col (from m)) = s)
      as [Hs|Hs] by lia; [left|right]; rewrite quot_unit by lia; lia. }
  set (dr := Z.quot (row (to m) - row (from m)) s) in *.
  set (dc := Z.quot (col (to m) - col (from m)) s) in *.
  assert (Z.max (Z.abs (row (from m) + dr * i - row (from m)))
                (Z.abs (col (from m) + dc * i - col (from m))) = i) as ->.
  { replace (row (from m) + dr * i - row (from m)) with (dr * i) by lia.
    replace (col (from m) + dc * i - col (from m)) with (dc * i) by lia.
    rewrite !Z.abs_mul. nia. }
  split_and!; [done|nia|lia|done|unfold withinSpan; simpl; lia].
Qed.

Section Trips.
Context `{HashIter}.
Variables (c n : Z).

Definition trips (a : Arbiter) : Prop := ∀ m, m ∈ active_motions a → trip c n m.

Lemma survivors_subset ls ms m : m ∈ survivors ls ms → m ∈ ms.
Proof.
  unfold survivors. intros ([i m'] & -> & [_ Hin%elem_of_indexed]%list_elem_of_filter)%list_elem_of_fmap.
  by eapply list_elem_of_lookup_2.
Qed.

Lemma resolveCollisions_trips prev s : trips s.1 → trips (resolveCollisions prev s).1.
Proof.
  intros Ht m. rewrite (proj1 (resolveCollisions_motions _ _)). intros Hm%survivors_subset. auto.
Qed.

Lemma stopMotion_trips s e : trips s.1 → trips (stopMotion s e).1.
Proof.
  destruct s as [a te]. unfold stopMotion. intros Ht.
  destruct (active_motions a !! _) as [m|] eqn:Hm; [|done].
  destruct (getPiece _ _); [|done]. destruct (_ =? _); [done|].
  destruct (pathCheckpoints m !! _) as [cp|] eqn:Hcp; [|done].
  intros m' [i Hi]%list_elem_of_lookup. simpl in Hi.
  apply list_lookup_insert_Some in Hi as [(_ & <- & _)|(_ & Hi)].
  - apply trip_redirect; [by eapply list_elem_of_lookup_2|].
    apply Ht. by eapply list_elem_of_lookup_2.
  - apply Ht. by eapply list_elem_of_lookup_2.
Qed.

Lemma eraseAll_subset te (ms : list Motion) m : m ∈ eraseAll te ms → m ∈ ms.
Proof.
  unfold eraseAll. rewrite foldl_reverse. induction (merge_sort _ te) as [|i l IH]; simpl; [done|].
  intros Hm. apply IH. revert Hm. apply (sublist_subseteq _ _ (sublist_delete _ _)).
Qed.

Lemma resolveMovingFriendlyBlocks_trips prev a :
  trips a → trips (resolveMovingFriendlyBlocks prev a).
Proof.
  intros Ht. unfold resolveMovingFriendlyBlocks. destruct (foldl _ _ _) as [a' te] eqn:E.
  assert (trips a') as Ht'.
  { replace a' with (foldl stopMotion (a, []) (hash_iter
      (findStopAt (board a) (active_motions a) prev (game_clock_ms a)))).1 by by rewrite E.
    apply (foldl_ind (λ s, trips s.1)); [done|]. intros s e _. apply stopMotion_trips. }
  destruct te; [done|]. intros m Hm%eraseAll_subset. auto.
Qed.

Lemma stationaryLoop_trips prev dn todo a :
  (∀ m, m ∈ dn ++ todo → trip c n m) → trips (stationaryLoop prev dn todo a).
Proof.
  revert dn a. induction todo as [|m todo IH]; intros dn a Ht; simpl.
  { intros m Hm. apply Ht. by rewrite app_nil_r. }
  assert (∀ a', trips (stationaryLoop prev (dn ++ [m]) todo a')) as Hskip
    by (intros a'; apply IH; by rewrite <-app_assoc).
  destruct (isJump m); [done|]. destruct (getPiece _ _); [|done].
  destruct (kindEqb _ _); [done|].
  destruct (stationaryScan _ _ _ _ _ _ _ _) as [[|cp]|] eqn:Hs; [| |done].
  - apply IH. intros m' Hm'. apply Ht. set_solver.
  - apply IH. intros m' Hm'. apply stationaryScan_redirect in Hs as [Hs|?]; [|done].
    rewrite <-app_assoc in Hm'. apply elem_of_app in Hm' as [?|[->|?]%elem_of_cons];
      [apply Ht; set_solver| |apply Ht; set_solver].
    apply trip_redirect; [done|]. apply Ht. set_solver.
Qed.
End Trips.

(** ** Cooldowns are short *)

Definition coolBounded (a : Arbiter) : Prop :=
  ∀ id u, cooldown_until_ms a !! id = Some u → u ≤ game_clock_ms a + LONG_REST_MS.

Lemma coolBounded_set id u a :
  u ≤ game_clock_ms a + LONG_REST_MS → coolBounded a → coolBounded (setCooldown id u a).
Proof.
  intros Hu Hb id' v. simpl. rewrite lookup_insert. case_decide; [by intros [= <-]|apply Hb].
Qed.

Lemma coolBounded_ext a a' :
  cooldown_until_ms a' = cooldown_until_ms a → game_clock_ms a' = game_clock_ms a →
  coolBounded a → coolBounded a'.
Proof. unfold coolBounded. by intros -> ->. Qed.

Lemma captureLosers_cool ls ims s : coolBounded s.1 → coolBounded (foldl (captureLoser ls) s ims).1.
Proof.
  intros Hb. apply (foldl_ind (λ s, coolBounded s.1)); [done|]. intros [a kc] [i m] _ Hs.
  simpl. by repeat case_match.
Qed.

Lemma resolveCollisions_cool prev s : coolBounded s.1 → coolBounded (resolveCollisions prev s).1.
Proof.
  intros Hb. unfold resolveCollisions. set (ls := findLosses _ _ _ _).
  pose proof (captureLosers_cool ls (indexed (active_motions s.1)) s Hb) as Hc.
  destruct (foldl _ _ _) as [a kc]. by case_match.
Qed.

Lemma resolveMovingFriendlyBlocks_cool `{HashIter} prev a :
  coolBounded a → coolBounded (resolveMovingFriendlyBlocks prev a).
Proof.
  intros Hb. unfold resolveMovingFriendlyBlocks. destruct (foldl _ _ _) as [a' te] eqn:E.
  assert (coolBounded a') as Ha'.
  { replace a' with (foldl stopMotion (a, []) (hash_iter
      (findStopAt (board a) (active_motions a) prev (game_clock_ms a)))).1 by by rewrite E.
    apply (foldl_ind (λ s, coolBounded s.1)); [done|]. intros [x l] e _ Hs. unfold stopMotion.
    destruct (active_motions x !! _); [|done]. destruct (getPiece _ _); [|done].
    destruct (_ =? _); [|by case_match].
    apply (coolBounded_ext (setCooldown (piece_id m) (game_clock_ms x + LONG_REST_MS) x)); [done..|].
    by apply coolBounded_set. }
  by destruct te.
Qed.

Lemma stationaryLoop_cool prev dn todo a : coolBounded a → coolBounded (stationaryLoop prev dn todo a).
Proof.
  revert dn a. induction todo as [|m todo IH]; intros dn a Hb; simpl; [done|].
  destruct (isJump m); [auto|]. destruct (getPiece _ _); [|auto].
  destruct (kindEqb _ _); [auto|]. destruct (stationaryScan _ _ _ _ _ _ _ _) as [[|cp]|]; auto.
  apply IH. by apply (coolBounded_set (piece_id m) (game_clock_ms a + LONG_REST_MS)).
Qed.

Lemma resolve_cool coll s m : coolBounded s.1 → coolBounded (resolve coll s m).1.
Proof.
  destruct s as [a kc]. intros Hb. unfold resolve.
  set (u := game_clock_ms a + _).
  assert (coolBounded (setCooldown (piece_id m) u a)) as Hu.
  { apply coolBounded_set; [|done]. unfold u, SHORT_REST_MS, LONG_REST_MS. case_match; lia. }
  clearbody u. unfold promote, captureArriver, captureTarget. repeat case_match; done.
Qed.

Lemma endRest_cool prev a e : coolBounded a → coolBounded (endRest prev a e).
Proof.
  intros Hb. unfold endRest. destruct (_ && _); [|done]. case_match; [|done].
  apply coolBounded_set; [|done]. unfold LONG_REST_MS. simpl. lia.
Qed.

(** ** The invariant of the arbiter between two calls *)

Definition span (a : Arbiter) : Z := Z.max (width (board a)) (height (board a)).

Record arbiter_ok (a : Arbiter) : Prop := {
  ok_life : lifecycle (game_clock_ms a) (active_motions a) a;
  ok_trip : ∀ m, m ∈ active_motions a → trip (game_clock_ms a) (span a) m;
  ok_flying : ∀ m, m ∈ active_motions a → game_clock_ms a < arrival_time_ms m;
  ok_cool : coolBounded a
}.

Lemma astep_span s s' : astep s s' → span s'.1 = span s.1.
Proof.
  destruct 1; simpl; try done; unfold span; simpl;
    unfold updatePiece, removePiece, movePiece; try destruct victim as [[]|]; simpl;
    repeat case_match; try done; simpl; unfold updatePiece; repeat case_match; done.
Qed.

Lemma asteps_span s s' : asteps s s' → span s'.1 = span s.1.
Proof. induction 1; [done|]. etrans; [done|by apply astep_span]. Qed.

Section Tick.
Context `{HashIter}.
Variable coll : bool.

(** The collision phase of [tick]. *)
Definition collisionPhase (prev : Z) (a : Arbiter) : Arbiter * bool :=
  if coll then
    let '(a, kc) := resolveCollisions prev (a, false) in
    (resolveStationaryBlocks prev (resolveMovingFriendlyBlocks prev a), kc)
  else (a, false).

Lemma collisionPhase_ok prev c n a :
  prev ≤ game_clock_ms a → lifecycle prev (active_motions a) a → trips c n a → coolBounded a →
  let a' := (collisionPhase prev a).1 in
  lifecycle prev (active_motions a') a' ∧ trips c n a' ∧ coolBounded a' ∧
  game_clock_ms a' = game_clock_ms a.
Proof.
  intros Hp Hl Ht Hc. unfold collisionPhase. destruct coll; [|done].
  pose proof (resolveCollisions_life prev prev (a, false) Hl) as Hl1.
  pose proof (resolveCollisions_trips c n prev (a, false) Ht) as Ht1.
  pose proof (resolveCollisions_cool prev (a, false) Hc) as Hc1.
  destruct (resolveCollisions_motions prev (a, false)) as [_ Hk1].
  destruct (resolveCollisions prev (a, false)) as [a1 kc]. cbn [fst] in *.
  destruct (resolveMovingFriendlyBlocks_life prev prev a1) as [Hl2 Hk2]; [by rewrite Hk1|done|].
  pose proof (resolveMovingFriendlyBlocks_trips c n prev a1 Ht1) as Ht2.
  pose proof (resolveMovingFriendlyBlocks_cool prev a1 Hc1) as Hc2.
  unfold resolveStationaryBlocks.
  destruct (stationaryLoop_life prev prev [] (active_motions (resolveMovingFriendlyBlocks prev a1))
    (resolveMovingFriendlyBlocks prev a1)) as [Hl3 Hk3]; [by rewrite Hk2, Hk1|done|].
  split_and!; [done| | |congruence].
  - apply stationaryLoop_trips. exact Ht2.
  - by apply stationaryLoop_cool.
Qed.

Lemma tick_unfold ms a :
  tick coll ms a =
  (let '(a2, kc) := collisionPhase (game_clock_ms a) (setClock (game_clock_ms a + ms) a) in
   let '(a3, kc) := foldl (resolve coll) (a2, kc) (filter (arrived a2) (active_motions a2)) in
   let a4 := setMotions (filter (λ m, negb (arrived a3 m)) (active_motions a3)) a3 in
   (foldl (endRest (game_clock_ms a)) a4 (hash_iter (cooldown_until_ms a4)), kc)).
Proof. reflexivity. Qed.

Lemma filter_split (P : Motion → bool) l :
  filter P l ++ filter (λ m, negb (P m)) l ≡ₚ l.
Proof.
  induction l as [|m l IH]; [done|]. rewrite !filter_cons.
  destruct (P m); simpl; [by rewrite IH|]. rewrite <-Permutation_middle. by rewrite IH.
Qed.

Lemma lifecycle_clock t l a c : lifecycle t l a → lifecycle t l (setClock c a).
Proof. apply lifecycle_ext; done. Qed.

Lemma endRests_cool prev (es : list (Z * Z)) a :
  coolBounded a → coolBounded (foldl (endRest prev) a es).
Proof. intros Hb. apply (foldl_ind coolBounded); [done|]. intros x e _. apply endRest_cool. Qed.

Lemma tick_keeps_ok ms a :
  0 ≤ ms → arbiter_ok a → arbiter_ok (tick coll ms a).1.
Proof.
  intros Hms [Hl Ht Hf Hc]. pose proof (lc_board _ _ _ Hl) as Hok.
  pose proof (asteps_span _ _ (tick_asteps coll ms a Hok)) as Hspan. cbn [fst] in Hspan.
  set (clock := game_clock_ms a + ms). set (prev := game_clock_ms a) in *.
  destruct (collisionPhase_ok prev clock (span a) (setClock clock a))
    as (Hl2 & Ht2 & Hc2 & Hk2).
  { simpl. lia. }
  { by apply lifecycle_clock. }
  { intros m Hm. destruct (Ht m Hm) as [? ?]. split; [lia|done]. }
  { intros id u Hu. specialize (Hc id u Hu). simpl. lia. }
  simpl in Hk2. rewrite tick_unfold in *. fold prev clock in Hspan |- *.
  destruct (collisionPhase prev (setClock clock a)) as [a2 kc2]. cbn [fst] in *.
  destruct (resolves_life coll prev (filter (arrived a2) (active_motions a2))
    (filter (λ m, negb (arrived a2 m)) (active_motions a2)) (a2, kc2)) as (Hl3 & Hk3 & Hm3).
  { simpl. rewrite Hk2. lia. }
  { by apply (lifecycle_perm _ (active_motions a2)); [symmetry; apply filter_split|]. }
  pose proof (foldl_ind (λ s, coolBounded s.1) (resolve coll)
    (filter (arrived a2) (active_motions a2)) (a2, kc2) Hc2
    (λ s m _, resolve_cool coll s m)) as Hc3.
  cbn beta in Hc3. destruct (foldl (resolve coll) _ _) as [a3 kc3]. cbn [fst] in *.
  set (a4 := setMotions _ a3) in *.
  assert (game_clock_ms a4 = clock) as Hk4 by (simpl; congruence).
  assert (active_motions a4 = filter (λ m, negb (arrived a2 m)) (active_motions a2)) as Hm4.
  { unfold a4, arrived. simpl. by rewrite Hm3, Hk3. }
  assert (lifecycle prev (active_motions a4) a4) as Hl4
    by (rewrite Hm4; by apply (lifecycle_ext _ _ a3)).
  pose proof (lifecycle_idsOk _ _ _ Hl4) as Hids.
  destruct (endRests_effect prev (hash_iter (cooldown_until_ms a4)) a4
    (hash_iter_keys_NoDup _) Hids) as (_ & _ & _ & Hk5 & Hm5 & _). cbv zeta in *.
  pose proof (endRests_life prev (active_motions a4) _ a4 (hash_iter_perm _)
    ltac:(rewrite Hk4; lia) Hl4) as Hl5.
  pose proof (endRests_cool prev (hash_iter (cooldown_until_ms a4)) a4 Hc3) as Hc5.
  set (a5 := foldl (endRest prev) a4 _) in *. cbn [fst] in *.
  split; [by rewrite Hk5, Hm5| | |done].
  - intros m. rewrite Hm5, Hm4, Hk5, Hk4, Hspan. intros [_ Hm]%list_elem_of_filter. by apply Ht2.
  - intros m. rewrite Hm5, Hm4, Hk5, Hk4. intros [Hm _]%list_elem_of_filter.
    unfold arrived in Hm. destruct (arrival_time_ms m <=? game_clock_ms a2) eqn:E; [done|].
    b2p. lia.
Qed.

Lemma collisionPhase_trips prev c n a : trips c n a → trips c n (collisionPhase prev a).1.
Proof.
  intros Ht. unfold collisionPhase. destruct coll; [|done].
  pose proof (resolveCollisions_trips c n prev (a, false) Ht) as Ht1.
  destruct (resolveCollisions prev (a, false)) as [a1 kc]. cbn [fst] in *.
  apply stationaryLoop_trips. exact (resolveMovingFriendlyBlocks_trips c n prev a1 Ht1).
Qed.

Lemma endRests_motions prev (es : list (Z * Z)) a :
  active_motions (foldl (endRest prev) a es) = active_motions a ∧
  game_clock_ms (foldl (endRest prev) a es) = game_clock_ms a.
Proof.
  apply (foldl_ind (λ x, active_motions x = active_motions a ∧ game_clock_ms x = game_clock_ms a));
    [done|]. intros x e _ [<- <-]. unfold endRest. by repeat case_match.
Qed.

Lemma resolves_motions (l : list Motion) s :
  active_motions (foldl (resolve coll) s l).1 = active_motions s.1.
Proof.
  apply (foldl_ind (λ x, active_motions x.1 = active_motions s.1)); [done|].
  intros x m _ <-. apply resolve_clock.
Qed.

(** [tick] only shortens and removes motions. *)
Lemma tick_trips ms c n a : trips c n a → trips c n (tick coll ms a).1.
Proof.
  intros Ht. rewrite tick_unfold.
  pose proof (collisionPhase_trips (game_clock_ms a) c n (setClock (game_clock_ms a + ms) a) Ht) as H2.
  destruct (collisionPhase _ _) as [a2 kc2].
  pose proof (resolves_motions (filter (arrived a2) (active_motions a2)) (a2, kc2)) as H3.
  destruct (foldl (resolve coll) _ _) as [a3 kc3]. cbn [fst] in *. intros m.
  rewrite (proj1 (endRests_motions _ _ _)). intros [_ Hm]%list_elem_of_filter.
  rewrite H3 in Hm. by apply H2.
Qed.

Lemma tick_clock ms a : arbiter_ok a → 0 ≤ ms → game_clock_ms (tick coll ms a).1 = game_clock_ms a + ms.
Proof.
  intros [Hl Ht _ Hc] Hms. rewrite tick_unfold.
  destruct (collisionPhase_ok (game_clock_ms a) (game_clock_ms a + ms) (span a)
    (setClock (game_clock_ms a + ms) a)) as (_ & _ & _ & Hk2).
  { simpl. lia. }
  { by apply lifecycle_clock. }
  { intros m Hm. destruct (Ht m Hm) as [? ?]. split; [lia|done]. }
  { intros id u Hu. specialize (Hc id u Hu). simpl. lia. }
  destruct (collisionPhase _ _) as [a2 kc2]. cbn [fst] in Hk2. 
  pose proof (foldl_ind (λ s, game_clock_ms s.1 = game_clock_ms a + ms) (resolve coll)
    (filter (arrived a2) (active_motions a2)) (a2, kc2) Hk2
    (λ s m _ Hs, eq_trans (proj1 (resolve_clock coll s m)) Hs)) as Hk3. cbn beta in Hk3.
  destruct (foldl (resolve coll) _ _) as [a3 kc3]. cbn [fst] in *.
  by rewrite (proj2 (endRests_motions _ _ _)).
Qed.

Lemma collisionPhase_idle prev a : active_motions a = [] → (collisionPhase prev a).1 = a.
Proof.
  destruct a as [k ms cd cp b es]; simpl. intros ->.
  unfold collisionPhase, resolveCollisions, resolveMovingFriendlyBlocks, resolveStationaryBlocks,
    findStopAt. destruct coll; [|done]. simpl. by rewrite hash_iter_empty.
Qed.

(** C2 [tick] keeps the life cycle: every busy piece has its own motion of
    the right kind, every resting piece a cooldown that is still to run out
    or a motion, an idle piece neither; every motion started in the past,
    flies at the game's speed and ends in the future, no two motions are of
    the same piece, and no cooldown is longer than a long rest. *)
Theorem tick_arbiter_ok ms a :
  0 ≤ ms → arbiter_ok a → arbiter_ok (tick coll ms a).1.
Proof. apply tick_keeps_ok. Qed.

End Tick.
End Home.

(** ** Who survives a collision *)

Lemma beats_trans m1 m2 m3 : beats m1 m2 = true → beats m2 m3 = true → beats m1 m3 = true.
Proof.
  unfold beats.
  destruct (Z.eqb_spec (start_time_ms m1) (start_time_ms m2)),
    (Z.eqb_spec (start_time_ms m2) (start_time_ms m3)),
    (Z.eqb_spec (start_time_ms m1) (start_time_ms m3)); simpl; rewrite !Z.ltb_lt; lia.
Qed.

Lemma exists_unbeaten ms :
  ms ≠ [] → ∃ m, m ∈ ms ∧ ∀ m', m' ∈ ms → beats m' m = false.
Proof.
  induction ms as [|x ms IH]; [done|]. intros _.
  assert (beats x x = false) as Hxx.
  { destruct (beats x x) eqn:E; [|done]. pose proof (beats_asym _ _ E). congruence. }
  destruct ms as [|y ms]; [exists x; split; [by left|]; intros m' [->|?%elem_of_nil]%elem_of_cons; done|].
  destruct IH as (m & Hm & Hmin); [done|]. destruct (beats x m) eqn:Hb.
  - exists x. split; [by left|]. intros m' [->|Hm']%elem_of_cons; [done|].
    destruct (beats m' x) eqn:E; [|done]. rewrite <-(Hmin m' Hm'). symmetry. by eapply beats_trans.
  - exists m. split; [by right|]. intros m' [->|Hm']%elem_of_cons; auto.
Qed.

(** C6 A collision between enemies is decided by who started first, the lower
    id on a tie: exactly the motions that no meeting enemy motion beats
    survive, and some motion always does. *)
Theorem resolveCollisions_winner prev s :
  NoDup (piece_id <$> active_motions s.1) →
  (∀ m, m ∈ active_motions (resolveCollisions prev s).1 ↔
     m ∈ active_motions s.1 ∧
     ¬ beaten (board s.1) prev (game_clock_ms s.1) (active_motions s.1) m) ∧
  (active_motions s.1 ≠ [] → active_motions (resolveCollisions prev s).1 ≠ []).
Proof.
  intros Hnd. rewrite (proj1 (resolveCollisions_motions _ _)). split.
  - intros m. by apply elem_of_survivors.
  - intros (m & Hm & Hmin)%exists_unbeaten Hnil.
    assert (m ∈ survivors (findLosses (board s.1) (active_motions s.1) prev (game_clock_ms s.1))
      (active_motions s.1)) as Hin.
    { apply elem_of_survivors; [done|]. split; [done|]. intros (m' & Hm' & _ & _ & Hb%beats_earlier).
      rewrite Hmin in Hb by done. done. }
    rewrite Hnil in Hin. by apply elem_of_nil in Hin.
Qed.
