(* ===== verification/Engine.v ===== *)
(** * [GameEngine]

    The commands of a game: move and jump requests, queued premoves, the
    passage of time, and the snapshot sent to clients. *)
From S2P Require Import Prelude Model Rules Double Motion Collision Arrival Arbiter ArbiterSteps CollisionSpec Lifecycle.

Record MoveResult := mkResult { is_accepted : bool; mr_reason : string }.

Record Premove := mkPremove { pm_from : Position; pm_to : Position }.

(** [state.board] is the arbiter's board. *)
Record GameEngine := mkEngine {
  arbiter : Arbiter;
  game_over : bool;
  premoves : gmap Z Premove
}.

Definition newEngine (b : Board) : GameEngine := mkEngine (newArbiter b) false ∅.

Definition setArbiter (a : Arbiter) (e : GameEngine) : GameEngine :=
  mkEngine a (game_over e) (premoves e).
Definition setPremoves (pm : gmap Z Premove) (e : GameEngine) : GameEngine :=
  mkEngine (arbiter e) (game_over e) pm.

(** [SnapshotPiece], [GameSnapshot]. *)
Record SnapshotPiece := mkSnapshotPiece {
  sp_id : Z; sp_kind : Kind; sp_color : Color; sp_cell : Position; sp_state : State;
  elapsed_in_state_ms : Z; targetCell : Position; travelProgress : double; restProgress : double
}.
Record GameSnapshot := mkSnapshot {
  board_width : Z; board_height : Z; pieces : list SnapshotPiece; gs_over : bool;
  has_selection : bool; selected_cell : Position; legalMoves : list Position
}.

(** [std::min(1.0, x)]. *)
Definition dMin1 (x : double) : double := if dLt x d1 then x else d1.

Section Engine.
Context `{HashIter}.
Variable simultaneousMode : bool.

Definition hasMotionOnPath (a : Arbiter) (f t : Position) : bool :=
  existsb (λ m, posEq (from m) f || (negb (isJump m) && posEq (to m) t)) (active_motions a).

(** The tail of [requestMove]: validate and start the motion. *)
Definition startMove (f t : Position) (e : GameEngine) : GameEngine * MoveResult :=
  let b := board (arbiter e) in
  let validation := validateMove b f t simultaneousMode in
  if negb (is_valid validation) then (e, mkResult false (reason validation))
  else match getPiece b f with
  | None => (e, mkResult false "empty_source")
  | Some piece =>
    let '(a, started) := addMotion simultaneousMode f t (getId piece) (arbiter e) in
    if negb started then (setArbiter a e, mkResult false "friendly_blocked")
    else (setArbiter a e, mkResult true "ok")
  end.

Definition requestMove (f t : Position) (e : GameEngine) : GameEngine * MoveResult :=
  if game_over e then (e, mkResult false "game_over")
  else
    let b := board (arbiter e) in
    if simultaneousMode then
      match getPiece b f with
      | None => startMove f t e
      | Some piece =>
        if isBusyState (getState piece) then (e, mkResult false "motion_in_progress")
        else if isRestingState (getState piece) then
          let validation := validateMove b f t simultaneousMode in
          if negb (is_valid validation)
          then (setPremoves (delete (getId piece) (premoves e)) e,
                mkResult false (reason validation))
          else (setPremoves (<[getId piece := mkPremove f t]> (premoves e)) e,
                mkResult true "queued")
        else startMove f t e
      end
    else if hasMotionOnPath (arbiter e) f t then (e, mkResult false "motion_in_progress")
    else startMove f t e.

Definition requestJump (pos : Position) (e : GameEngine) : GameEngine * MoveResult :=
  if game_over e then (e, mkResult false "game_over")
  else
    let b := board (arbiter e) in
    let busy := match getPiece b pos with
                | Some piece => isPieceBusy (arbiter e) (getId piece)
                | None => false end in
    if busy then (e, mkResult false "motion_in_progress")
    else
      let validation := validateJump b pos in
      if negb (is_valid validation) then (e, mkResult false (reason validation))
      else match getPiece b pos with
      | None => (e, mkResult false "empty_source")
      | Some piece => (setArbiter (addJump pos (getId piece) (arbiter e)) e, mkResult true "ok")
      end.

Definition isReady (b : Board) (id : Z) : bool :=
  match getPieceById b id with Some piece => stateEqb (getState piece) Idle | None => false end.

(** One iteration of the second loop of [firePremoves]. *)
Definition firePremove (e : GameEngine) (id : Z) : GameEngine :=
  match premoves e !! id with
  | None => e
  | Some pm =>
    let e := setPremoves (delete id (premoves e)) e in
    let b := board (arbiter e) in
    if negb (is_valid (validateMove b (pm_from pm) (pm_to pm) simultaneousMode)) then e
    else match getPiece b (pm_from pm) with
    | None => e
    | Some piece =>
      setArbiter (addMotion simultaneousMode (pm_from pm) (pm_to pm) (getId piece) (arbiter e)).1 e
    end
  end.

Definition firePremoves (e : GameEngine) : GameEngine :=
  let readyPieceIds := filter (isReady (board (arbiter e))) (hash_iter (premoves e)).*1 in
  foldl firePremove e readyPieceIds.

Definition wait (ms : Z) (e : GameEngine) : GameEngine :=
  let '(a, kingCaptured) := tick simultaneousMode ms (arbiter e) in
  firePremoves (mkEngine a (if kingCaptured then true else game_over e) (premoves e)).

Definition legalDestinationsFrom (pos : Position) (e : GameEngine) : list Position :=
  match getPiece (board (arbiter e)) pos with
  | None => []
  | Some piece => if colorEqb (getColor piece) NoColor then []
                  else legalDestinations (board (arbiter e)) piece simultaneousMode
  end.

(** One entry of [snap.pieces]. *)
Definition snapshotPiece (a : Arbiter) (cell : Position) (piece : Piece) : SnapshotPiece :=
  let '(target, progress) :=
    match find (λ m, piece_id m =? getId piece) (active_motions a) with
    | Some m =>
      let duration := arrival_time_ms m - start_time_ms m in
      (to m, if 0 <? duration then dRatio (game_clock_ms a - start_time_ms m) duration else d0)
    | None => (cell, d0)
    end in
  let elapsed := game_clock_ms a - getStateStartMs a (getId piece) (getState piece) in
  let rest := match getState piece with
              | ShortRest => dMin1 (dRatio elapsed SHORT_REST_MS)
              | LongRest => dMin1 (dRatio elapsed LONG_REST_MS)
              | _ => d0 end in
  mkSnapshotPiece (getId piece) (getKind piece) (getColor piece) cell (getState piece) elapsed
    target progress rest.

Definition snapshot (e : GameEngine) : GameSnapshot :=
  let b := board (arbiter e) in
  let ps := flat_map (λ cell, match getPieceAt b (row cell) (col cell) with
              | None => []
              | Some piece => if kindEqb (getKind piece) NoKind then []
                              else [snapshotPiece (arbiter e) cell piece]
              end) (allCells (width b) (height b)) in
  mkSnapshot (width b) (height b) ps (game_over e) false (mkPos 0 0) [].
End Engine.
