(* ===== verification/EngineSpec.v ===== *)
(** * The contract of [GameEngine]

    What each command answers and does, on every branch, in terms of the
    rules of chess; the invariant of a game and that every command keeps it;
    the end of the game; the snapshot. *)
From S2P Require Import Prelude Model Rules Double Motion Collision Arrival Arbiter ArbiterSteps CollisionSpec Lifecycle Engine.

(** ** Starting a motion *)

Lemma standing_real b p : standing b p → isReal p = true.
Proof. by intros []. Qed.

(** A step that replaces the piece of one cell, as [transitionAt] does. *)
Lemma standing_transitionAt_other s pos a p :
  board_ok (board a) → standing (board a) p → getCell p ≠ pos →
  standing (board (transitionAt s pos a)) p.
Proof.
  intros Hok Hp Hne. apply (standing_at _ (getCell p)); [|by destruct Hp].
  rewrite transitionAt_other by (done || apply Hok). by apply standing_cell.
Qed.

Lemma lifecycle_begin home t pend a m s p ms :
  lifecycle home t pend a → getPiece (board a) (from m) = Some p → isReal p = true →
  getState p = Idle → piece_id m = getId p → home !! getId p = None →
  (s = Moving ∧ isJump m = false ∨ s = Jump ∧ isJump m = true) →
  lifecycle home t (m :: pend) (transitionAt s (from m) (setMotions ms a)).
Proof.
  intros [H1 H2 H3 H4 H5 H6 H7 H8 H9 H10 H11 H12 H13] Hp Hr Hi Hid Hh Hs.
  pose proof (standing_at _ _ _ Hp Hr) as Hsp.
  assert (isLegalTransition (getState p) s = true) as Hlt by (rewrite Hi; by destruct Hs as [[-> _]|[-> _]]).
  assert (∀ q, standing (board (transitionAt s (from m) (setMotions ms a))) q →
    (q = transition s p) ∨ (standing (board a) q ∧ getId q ≠ getId p)) as Hst.
  { intros q Hq. apply standing_transitionAt in Hq as [(p0 & Hp0 & _ & ->)|[Hq Hne]]; [| |done].
    - left. simpl in Hp0. congruence.
    - right. split; [done|]. intros Heq. apply Hne. simpl in Hq.
      rewrite (H2 q p) by done. by apply (board_cell _ H1). }
  assert (getState (transition s p) = s) as Hss by (rewrite transition_state; by rewrite Hlt).
  assert (∀ q, standing (board (transitionAt s (from m) (setMotions ms a))) q → ∃ q0,
    standing (board a) q0 ∧ getId q0 = getId q ∧ getCell q0 = getCell q) as Hst'.
  { intros q [->|[Hq _]]%Hst; [|eauto]. exists p. by rewrite transition_id, transition_cell. }
  split.
  - simpl. apply board_ok_updatePiece; [done|]. intros q Hq Hqo. simplify_eq.
    split; [apply transition_cell|]. apply piece_ok_transition_real; [naive_solver| |done].
    by apply isReal_true.
  - intros q q' (x & ? & ? & <-)%Hst' (y & ? & ? & <-)%Hst' ?. apply H2; congruence.
  - intros q (x & ? & <- & _)%Hst'. auto.
  - intros m' [->|?]%elem_of_cons; [rewrite Hid; auto|auto].
  - simpl. apply NoDup_cons. split; [|done]. intros (m' & ? & Hm')%list_elem_of_fmap.
    destruct (H9 m' p Hm' Hsp); congruence.
  - intros m' q Hm' (x & Hx & Hi1 & <-)%Hst' Hq. apply elem_of_cons in Hm' as [->|Hm'].
    + rewrite (H2 x p) by congruence. by apply (board_cell _ H1).
    + apply (H6 m' x); congruence.
  - intros q Hq Hb. apply Hst in Hq as [->|[Hq Hne]].
    + exists m. rewrite transition_id, Hss. split_and!; [by left|done|].
      by destruct Hs as [[-> ->]|[-> ->]].
    + destruct (H7 q Hq Hb) as (m' & ? & ?). exists m'. split; [by right|done].
  - intros q Hq Hb. apply Hst in Hq as [->|[Hq Hne]].
    + rewrite Hss in Hb. by destruct Hs as [[-> _]|[-> _]].
    + destruct (H8 q Hq Hb) as [?|?]; [by left|right]. simpl. by right.
  - intros m' q Hm' Hq Hq'. apply Hst in Hq as [->|[Hq Hne]].
    + rewrite Hss. by destruct Hs as [[-> _]|[-> _]].
    + apply elem_of_cons in Hm' as [->|Hm']; [congruence|]. by apply (H9 m').
  - intros m' [->|Hm']%elem_of_cons; [|by apply H10]. rewrite Hid. by apply H11.
  - intros q Hq Hqi. apply Hst in Hq as [->|[Hq Hne]]; [|by apply H11].
    rewrite Hss in Hqi. by destruct Hs as [[-> _]|[-> _]].
  - intros q c (x & ? & ? & <-)%Hst' ?. apply H12; [done|congruence].
  - intros m' [->|Hm']%elem_of_cons; [congruence|auto].
Qed.

(** Fewer expectations, and one more. *)
Lemma lifecycle_home home home' t l a :
  home' ⊆ home → lifecycle home t l a → lifecycle home' t l a.
Proof.
  intros Hsub [H1 H2 H3 H4 H5 H6 H7 H8 H9 H10 H11 H12 H13]. split; try done.
  - intros p c Hp Hc. apply H12; [done|]. by eapply lookup_weaken.
  - intros m Hm. eapply lookup_weaken_None; [by apply H13|done].
Qed.

Lemma lifecycle_home_insert home t l a p :
  lifecycle home t l a → standing (board a) p → getId p ∉ piece_id <$> l →
  lifecycle (<[getId p := getCell p]> home) t l a.
Proof.
  intros Hl Hp Hni. pose proof Hl as [H1 H2 H3 H4 H5 H6 H7 H8 H9 H10 H11 H12 H13].
  split; try done.
  - intros q c Hq. rewrite lookup_insert. case_decide as Hd; [intros [= <-]; auto|by apply H12].
  - intros m Hm. rewrite lookup_insert_ne; [by apply H13|]. intros Heq. apply Hni.
    apply list_elem_of_fmap. by exists m.
Qed.

Lemma arbiter_ok_home home home' a : home' ⊆ home → arbiter_ok home a → arbiter_ok home' a.
Proof. intros Hsub [Hl Ht Hf Hc]. split; try done. by eapply lifecycle_home. Qed.

Lemma shape_ok_ne b p f t r : shape_ok b p f t r → f ≠ t.
Proof.
  unfold shape_ok. intros Hs ->. destruct (getKind p); unfold dist in *; try lia; try tauto.
  unfold forward in Hs. repeat case_match; intuition lia.
Qed.

Lemma legal_move_ne b f t r : legal_move b f t r → f ≠ t.
Proof. intros (_ & _ & p & _ & _ & _ & Hs). by eapply shape_ok_ne. Qed.

Lemma steps_in_board b m :
  isWithinBounds b (from m) = true → isWithinBounds b (to m) = true →
  pathSteps m ≤ Z.max (width b) (height b).
Proof. rewrite !isWithinBounds_spec. unfold pathSteps. lia. Qed.

(** What [applyNearMiss] lets through: the motion, or the motion shortened to
    one of its checkpoints. *)
Lemma applyNearMiss_cases b ms m m' :
  applyNearMiss b ms m = Some m' → m' = m ∨ ∃ cp, cp ∈ pathCheckpoints m ∧ m' = redirect m cp.
Proof.
  unfold applyNearMiss. destruct (getPiece b (from m)); [|intros [= <-]; by left].
  destruct (kindEqb _ _); [intros [= <-]; by left|]. cbv zeta. set (n := foldl _ _ _). clearbody n.
  destruct (n =? 0); [done|]. destruct (0 <? n); [|intros [= <-]; by left].
  destruct (pathCheckpoints m !! _) as [cp|] eqn:E; intros [= <-]; [right|by left].
  exists cp. split; [by eapply list_elem_of_lookup_2|done].
Qed.

Lemma checkpoint_time m cp : cp ∈ pathCheckpoints m → start_time_ms m < cp.2.
Proof.
  unfold pathCheckpoints. case_match; b2p; [by intros ?%elem_of_nil|].
  intros (i & -> & Hi%elem_of_seqZ)%list_elem_of_fmap. simpl. unfold MS_PER_SQUARE_TRAVELED. lia.
Qed.

Lemma arbiter_ok_addMotion coll home f t a p :
  arbiter_ok home a → legal_move (board a) f t coll → getPiece (board a) f = Some p →
  getState p = Idle → home !! getId p = None →
  arbiter_ok home (addMotion coll f t (getId p) a).1.
Proof.
  intros [Hl Ht Hf Hc] Hlegal Hp Hidle Hh.
  pose proof (legal_move_ne _ _ _ _ Hlegal) as Hne.
  pose proof Hlegal as (Hbf & Hbt & p' & Hp' & Hcol & _ & _). simplify_eq.
  assert (isReal p = true) as Hr.
  { apply isReal_true. intros Hk. apply Hcol.
    by apply (board_piece _ (lc_board _ _ _ _ Hl) _ _ Hp). }
  unfold addMotion. set (m := mkMotion f t (game_clock_ms a) _ (getId p)).
  assert (trip (game_clock_ms a) (span a) m) as Htrip.
  { pose proof (steps_in_board (board a) m Hbf Hbt) as Hs. unfold span.
    apply isWithinBounds_spec in Hbf as Hbf', Hbt as Hbt'. split_and!; [simpl; lia| |done|unfold withinSpan; simpl; lia..].
    unfold m, calcTravelTime, pathSteps; simpl. unfold MS_PER_SQUARE_TRAVELED. lia. }
  assert (isJump m = false) as Hj by (by apply posEq_false).
  set (acc := if coll then _ else _).
  assert (∀ m', acc = Some m' → from m' = f ∧ piece_id m' = getId p ∧ isJump m' = false ∧
    trip (game_clock_ms a) (span a) m' ∧ game_clock_ms a < arrival_time_ms m') as Hacc.
  { intros m' Hm'. assert (m' = m ∨ ∃ cp, cp ∈ pathCheckpoints m ∧ m' = redirect m cp) as Hcase.
    { unfold acc in Hm'. destruct coll; [by eapply applyNearMiss_cases|left; congruence]. }
    destruct Hcase as [->|(cp & Hcp & ->)].
    - split_and!; try done. pose proof (isJump_steps m) as Hz. pose proof (pathSteps_pos m).
      assert (pathSteps m ≠ 0) by (by rewrite <-Hz, Hj).
      unfold m, calcTravelTime; simpl. fold (pathSteps m) in *. unfold pathSteps in *; simpl in *.
      unfold MS_PER_SQUARE_TRAVELED. lia.
    - pose proof (checkpoint_ne _ _ Hcp). pose proof (checkpoint_time _ _ Hcp).
      split_and!; [done|done|by apply redirect_isJump|by apply trip_redirect|done]. }
  destruct acc as [m'|]; [|done]. destruct (Hacc m' eq_refl) as (Hff & Hid & Hj' & Htr & Hfl).
  cbn [fst]. rewrite <-Hff in Hp |- *.
  assert (span (transitionAt Moving (from m') (setMotions (active_motions a ++ [m']) a)) = span a) as Hspan.
  { unfold span, transitionAt; simpl. unfold updatePiece. by case_match. }
  split.
  - simpl. apply (lifecycle_perm _ _ (m' :: active_motions a)); [apply Permutation_cons_append|].
    apply (lifecycle_begin _ _ _ _ _ _ p); try done. by left.
  - intros x. rewrite Hspan. simpl. intros [?|Hx]%elem_of_app; [by apply Ht|].
    by apply list_elem_of_singleton in Hx as ->.
  - intros x. simpl. intros [?|Hx]%elem_of_app; [by apply Hf|].
    by apply list_elem_of_singleton in Hx as ->.
  - done.
Qed.

Lemma arbiter_ok_addJump home pos a p :
  arbiter_ok home a → getPiece (board a) pos = Some p → isReal p = true →
  getState p = Idle → home !! getId p = None →
  arbiter_ok home (addJump pos (getId p) a).
Proof.
  intros [Hl Ht Hf Hc] Hp Hr Hidle Hh. unfold addJump.
  set (m := mkMotion pos pos _ _ (getId p)).
  assert (span (transitionAt Jump pos (setMotions (active_motions a ++ [m]) a)) = span a) as Hspan.
  { unfold span, transitionAt; simpl. unfold updatePiece. by case_match. }
  split.
  - simpl. apply (lifecycle_perm _ _ (m :: active_motions a)); [apply Permutation_cons_append|].
    apply (lifecycle_begin _ _ _ _ m _ p); try done. right. split; [done|]. by apply posEq_spec.
  - intros x. rewrite Hspan. simpl. intros [?|Hx]%elem_of_app; [by apply Ht|].
    apply list_elem_of_singleton in Hx as ->. unfold trip, m, pathSteps; simpl.
    rewrite !Z.sub_diag. unfold JUMP_DURATION_MS, MS_PER_SQUARE_TRAVELED.
    pose proof (isWithinBounds_spec (board a) pos) as [Hb _].
    specialize (Hb (getPiece_bounds _ _ _ Hp)). unfold withinSpan, span; simpl. lia.
  - intros x. simpl. intros [?|Hx]%elem_of_app; [by apply Hf|].
    apply list_elem_of_singleton in Hx as ->. simpl. unfold JUMP_DURATION_MS. lia.
  - done.
Qed.

(** ** The invariant of a game *)

(** A queued premove is of a piece that is on its square and waits there. *)
Definition homes (pm : gmap Z Premove) : gmap Z Position := pm_from <$> pm.

Record engine_ok (e : GameEngine) : Prop := {
  eng_arbiter : arbiter_ok (homes (premoves e)) (arbiter e);
  eng_key : ∀ id pm, premoves e !! id = Some pm → id ≠ 0;
  eng_waiting : ∀ p, standing (board (arbiter e)) p → is_Some (premoves e !! getId p) →
    getState p ≠ Idle
}.

Lemma homes_None pm id : pm !! id = None → homes pm !! id = None.
Proof. unfold homes. rewrite lookup_fmap. by intros ->. Qed.

Lemma homes_delete pm id : homes (delete id pm) ⊆ homes pm.
Proof. unfold homes. rewrite fmap_delete. apply delete_subseteq. Qed.

Lemma eng_board e : engine_ok e → board_ok (board (arbiter e)).
Proof. intros He. apply (ok_life _ _ (eng_arbiter _ He)). Qed.

Lemma legal_standing b f t r p :
  board_ok b → legal_move b f t r → getPiece b f = Some p → standing b p.
Proof.
  intros Hok (_ & _ & p' & Hp' & Hcol & _) Hp. assert (p' = p) as -> by congruence. apply (standing_at _ f); [done|].
  apply isReal_true. intros Hk. apply Hcol. by apply (board_piece _ Hok _ _ Hp).
Qed.

Lemma not_busy_resting_idle s :
  s ≠ Captured → isBusyState s = false → isRestingState s = false → s = Idle.
Proof. by destruct s. Qed.

(** After a motion starts, only pieces that were idle before are idle. *)
Lemma addMotion_idle coll f t id a p :
  board_ok (board a) → standing (board (addMotion coll f t id a).1) p → getState p = Idle →
  standing (board a) p.
Proof.
  intros Hok. unfold addMotion. case_match; [|done]. intros Hp Hi.
  apply standing_transitionAt in Hp as [(p0 & Hp0 & Hr & ->)|[Hp _]]; [|done|done].
  exfalso. rewrite transition_state in Hi. simpl in Hp0. destruct (getState p0); done.
Qed.

Lemma addMotion_stays coll f t id a p :
  board_ok (board a) → standing (board a) p → getCell p ≠ f →
  standing (board (addMotion coll f t id a).1) p.
Proof.
  intros Hok Hp Hne. unfold addMotion. case_match; [|done].
  by apply standing_transitionAt_other.
Qed.

Section Commands.
Context `{HashIter}.
Variable sim : bool.

Lemma startMove_cases f t e :
  board_ok (board (arbiter e)) →
  (¬ legal_move (board (arbiter e)) f t sim ∧
     startMove sim f t e = (e, mkResult false (reason (validateMove (board (arbiter e)) f t sim)))) ∨
  (∃ p, legal_move (board (arbiter e)) f t sim ∧ getPiece (board (arbiter e)) f = Some p ∧
     let am := addMotion sim f t (getId p) (arbiter e) in
     startMove sim f t e =
       (setArbiter am.1 e, if am.2 then mkResult true "ok" else mkResult false "friendly_blocked")).
Proof.
  intros Hok. unfold startMove.
  destruct (validateMove_answer (board (arbiter e)) f t sim Hok) as
    [[Ho|Ho]|Ht He|p Hp Hc Ht Hd Hk Hr|p Hp Hc Ht Hf Hs|Hl]; simpl.
  1-2: left; split; [|done]; intros (? & ? & _); congruence.
  - left. split; [|done]. intros (_ & _ & p & Hp & Hcol & _).
    by apply (board_cell_empty _ _ _ Hok Hp) in He.
  - left. split; [|done]. intros Hl. destruct (legal_move_piece _ _ _ _ _ Hl Hp) as (_ & Hx & _).
    naive_solver.
  - left. split; [|done]. intros Hl.
    by destruct (legal_move_piece _ _ _ _ _ Hl Hp) as (_ & _ & ?).
  - right. pose proof Hl as (Hb & _ & p & Hp & _). exists p. split_and!; [done..|].
    rewrite Hp. destruct (addMotion _ _ _ _ _) as [a []]; done.
Qed.

Lemma engine_ok_startMove f t e p :
  engine_ok e → legal_move (board (arbiter e)) f t sim →
  getPiece (board (arbiter e)) f = Some p → getState p = Idle →
  engine_ok (setArbiter (addMotion sim f t (getId p) (arbiter e)).1 e).
Proof.
  intros He Hl Hp Hi. pose proof (eng_board _ He) as Hok.
  pose proof (legal_standing _ _ _ _ _ Hok Hl Hp) as Hs.
  assert (premoves e !! getId p = None) as Hnone.
  { destruct (premoves e !! getId p) eqn:E; [|done]. exfalso.
    apply (eng_waiting _ He p Hs); [by rewrite E|done]. }
  split; simpl.
  - apply arbiter_ok_addMotion; [apply He|done..|by apply homes_None].
  - apply He.
  - intros q Hq Hpm Hqi. apply addMotion_idle in Hq; [|done..]. by apply (eng_waiting _ He q).
Qed.

(** A piece at rest that still flies: only a meeting with the leftover motion
    of a captured piece brings this about. *)
Definition restingFlyer (e : GameEngine) (pos : Position) : bool :=
  match getPiece (board (arbiter e)) pos with
  | Some p => isRestingState (getState p) && isPieceBusy (arbiter e) (getId p)
  | None => false
  end.

Lemma isPieceBusy_spec a id : isPieceBusy a id = true ↔ id ∈ piece_id <$> active_motions a.
Proof.
  unfold isPieceBusy. rewrite existsb_exists, list_elem_of_fmap.
  setoid_rewrite <-list_elem_of_In. setoid_rewrite Z.eqb_eq. naive_solver.
Qed.

Lemma engine_ok_requestMove f t e :
  sim = true → engine_ok e → restingFlyer e f = false →
  engine_ok (requestMove sim f t e).1.
Proof.
  intros Hsim He Hfly. pose proof (eng_board _ He) as Hok. unfold requestMove. rewrite Hsim.
  destruct (game_over e); [done|].
  assert (∀ p, getPiece (board (arbiter e)) f = Some p → isBusyState (getState p) = false →
    isRestingState (getState p) = false → engine_ok (startMove sim f t e).1) as Hstart.
  { intros p Hp Hb Hr. destruct (startMove_cases f t e Hok) as [[_ ->]|(q & Hl & Hq & Heq)]; [done|].
    cbv zeta in Heq. rewrite Heq. assert (q = p) as -> by congruence. apply engine_ok_startMove; [done..|].
    apply not_busy_resting_idle; [|done..]. by apply (board_piece _ Hok _ _ Hp). }
  rewrite Hsim in Hstart.
  destruct (getPiece (board (arbiter e)) f) as [p|] eqn:Hp.
  2:{ unfold startMove. rewrite Hp. by case_match. }
  destruct (isBusyState (getState p)) eqn:Hb; [done|].
  destruct (isRestingState (getState p)) eqn:Hr; [|by eapply Hstart].
  assert (∀ id pm, delete (getId p) (premoves e) !! id = Some pm → premoves e !! id = Some pm) as Hdel
    by (intros id pm [_ ?]%lookup_delete_Some; done).
  destruct (negb (is_valid _)) eqn:Hv; simpl.
  - split; simpl; [|by intros id pm ?%Hdel; apply (eng_key _ He id pm)|].
    + eapply arbiter_ok_home; [apply homes_delete|apply He].
    + intros q Hq [pm Hpm%Hdel]. apply (eng_waiting _ He q Hq). by exists pm.
  - b2p. apply validateMove_decides in Hv; [|done].
    pose proof (legal_standing _ _ _ _ _ Hok Hv Hp) as Hs.
    assert (getId p ≠ 0) as Hnz by (by apply (lc_nonzero _ _ _ _ (ok_life _ _ (eng_arbiter _ He)))).
    assert (getCell p = f) as Hcell by (by apply (board_cell _ Hok)).
    split; simpl.
    + unfold homes. rewrite fmap_insert. simpl. rewrite <-Hcell.
      destruct (eng_arbiter _ He) as [Hl Ht Hf Hc]. split; [|done..].
      apply lifecycle_home_insert; [done..|]. rewrite <-isPieceBusy_spec.
      unfold restingFlyer in Hfly. rewrite Hp, Hr in Hfly. simpl in Hfly. by rewrite Hfly.
    + intros id pm. rewrite lookup_insert. case_decide; [by subst|apply He].
    + intros q Hq. rewrite lookup_insert. case_decide as Hd; [|by apply He].
      intros _ Hqi. assert (q = p) as -> by (by eapply lifecycle_eq; [apply He|..]).
      by rewrite Hqi in Hr.
Qed.

Lemma engine_ok_requestJump pos e :
  engine_ok e →
  (∀ p, getPiece (board (arbiter e)) pos = Some p → isRestingState (getState p) = false) →
  engine_ok (requestJump pos e).1.
Proof.
  intros He Hnr. pose proof (eng_board _ He) as Hok. unfold requestJump.
  destruct (game_over e); [done|].
  destruct (getPiece (board (arbiter e)) pos) as [p|] eqn:Hp; [|by case_match].
  destruct (isPieceBusy (arbiter e) (getId p)) eqn:Hbusy; [done|].
  unfold validateJump. rewrite (getPiece_bounds _ _ _ Hp), Hp. simpl.
  destruct (colorEqb (getColor p) NoColor) eqn:Hc; [done|]. simpl. apply colorEqb_false in Hc.
  assert (isReal p = true) as Hr.
  { apply isReal_true. intros Hk. apply Hc. by apply (board_piece _ Hok _ _ Hp). }
  pose proof (standing_at _ _ _ Hp Hr) as Hs.
  assert (getState p = Idle) as Hi.
  { apply not_busy_resting_idle; [by apply (board_piece _ Hok _ _ Hp)| |by apply Hnr].
    destruct (isBusyState (getState p)) eqn:Hb; [|done].
    destruct (lc_busy _ _ _ _ (ok_life _ _ (eng_arbiter _ He)) p Hs Hb) as (m & Hm & Hid & _).
    rewrite <-Hbusy. symmetry. apply isPieceBusy_spec, list_elem_of_fmap. eauto. }
  assert (premoves e !! getId p = None) as Hnone.
  { destruct (premoves e !! getId p) eqn:E; [|done]. exfalso.
    apply (eng_waiting _ He p Hs); [by rewrite E|done]. }
  split; simpl; [|apply He|].
  - apply arbiter_ok_addJump; [apply He|done..|by apply homes_None].
  - intros q Hq Hpm Hqi. unfold addJump in Hq.
    apply standing_transitionAt in Hq as [(p0 & Hp0 & _ & ->)|[Hq _]]; [| |done].
    + rewrite transition_state in Hqi. simpl in Hp0. by destruct (getState p0).
    + by apply (eng_waiting _ He q).
Qed.

(** ** Premoves *)

(** The part of the invariant that holds while the loop runs; [ids] are the
    pieces still to be fired. *)
Record firing (ids : list Z) (e : GameEngine) : Prop := {
  fr_arbiter : arbiter_ok (homes (premoves e)) (arbiter e);
  fr_key : ∀ id pm, premoves e !! id = Some pm → id ≠ 0;
  fr_ids : NoDup ids;
  fr_ready : ∀ id, id ∈ ids → ∃ p, standing (board (arbiter e)) p ∧ getId p = id ∧ getState p = Idle;
  fr_waiting : ∀ p, standing (board (arbiter e)) p → is_Some (premoves e !! getId p) →
    getState p = Idle → getId p ∈ ids
}.

Lemma firePremove_firing id ids e : firing (id :: ids) e → firing ids (firePremove sim e id).
Proof.
  intros [Ha Hk [Hni Hnd]%NoDup_cons Hr Hw]. unfold firePremove.
  destruct (Hr id) as (p & Hp & Hid & Hidle); [by left|].
  assert (∀ id', id' ∈ ids → ∃ p, standing (board (arbiter e)) p ∧ getId p = id' ∧ getState p = Idle)
    as Hr' by (intros; apply Hr; by right).
  destruct (premoves e !! id) as [pm|] eqn:Hpm.
  2:{ split; [done..|]. intros q Hq Hs Hqi. specialize (Hw q Hq Hs Hqi).
      apply elem_of_cons in Hw as [Heq|?]; [|done]. rewrite Heq, Hpm in Hs. by destruct Hs. }
  set (e1 := setPremoves (delete id (premoves e)) e).
  pose proof (lc_board _ _ _ _ (ok_life _ _ Ha)) as Hok.
  assert (firing ids e1) as He1.
  { split; simpl.
    - eapply arbiter_ok_home; [apply homes_delete|done].
    - intros id' pm' [_ ?]%lookup_delete_Some. eauto.
    - done.
    - done.
    - intros q Hq [pm' [Hne Hpm']%lookup_delete_Some] Hqi.
      specialize (Hw q Hq ltac:(by rewrite Hpm') Hqi).
      apply elem_of_cons in Hw as [?|?]; [congruence|done]. }
  destruct (negb (is_valid _)) eqn:Hv; [done|]. b2p.
  change (board (arbiter e1)) with (board (arbiter e)) in *.
  apply validateMove_decides in Hv; [|done].
  destruct (getPiece (board (arbiter e)) (pm_from pm)) as [q|] eqn:Hq; [|done].
  assert (getCell p = pm_from pm) as Hcell.
  { apply (lc_home _ _ _ _ (ok_life _ _ Ha) p); [done|]. unfold homes.
    by rewrite lookup_fmap, Hid, Hpm. }
  assert (q = p) as ->.
  { apply standing_cell in Hp; [|done]. rewrite Hcell in Hp. congruence. }
  destruct He1 as [Ha1 Hk1 _ Hr1 Hw1]. split; simpl.
  - apply arbiter_ok_addMotion; [done..|]. apply homes_None. simpl. rewrite Hid.
    apply lookup_delete_eq.
  - done.
  - done.
  - intros id' Hid'. destruct (Hr1 id' Hid') as (x & Hx & Hxi & Hxs). exists x.
    split_and!; [|done..]. apply addMotion_stays; [done..|]. rewrite <-Hcell. intros Heq.
    assert (x = p) as ->; [|congruence].
    apply standing_cell in Hx, Hp; [|done..]. rewrite Heq in Hx.
    change (board (arbiter e1)) with (board (arbiter e)) in Hx. congruence.
  - intros x Hx Hs Hxi. apply addMotion_idle in Hx; [|done..]. by apply Hw1.
Qed.

Lemma firePremoves_firing ids e : firing ids e → firing [] (foldl (firePremove sim) e ids).
Proof.
  revert e. induction ids as [|id ids IH]; intros e He; [done|].
  apply IH. by apply firePremove_firing.
Qed.

Lemma isReady_standing e id :
  board_ok (board (arbiter e)) → id ≠ 0 → isReady (board (arbiter e)) id = true →
  ∃ p, standing (board (arbiter e)) p ∧ getId p = id ∧ getState p = Idle.
Proof.
  intros Hok Hnz. unfold isReady, getPieceById. destruct (find _ _) as [p|] eqn:E; [|done].
  intros Hi%bool_decide_eq_true. apply find_some in E as [Hin Hid]. b2p.
  apply list_elem_of_In, elem_of_grid in Hin as [pos Hpos]; [|apply Hok].
  exists p. split_and!; [|done..]. apply (standing_at _ pos); [done|]. apply isReal_true.
  intros Hk. destruct (board_piece _ Hok _ _ Hpos) as (_ & H0 & _). destruct (H0 Hk); congruence.
Qed.

Lemma standing_isReady home t l a p :
  lifecycle home t l a → standing (board a) p → getState p = Idle →
  isReady (board a) (getId p) = true.
Proof.
  intros Hl Hp Hi. unfold isReady.
  destruct (getPieceById_standing a (getId p) p Hp (lifecycle_idsOk _ _ _ _ Hl) eq_refl) as [q Hq].
  rewrite Hq. unfold getPieceById in Hq. apply find_some in Hq as [Hin Hid]. b2p.
  pose proof (lc_board _ _ _ _ Hl) as Hok.
  apply list_elem_of_In, elem_of_grid in Hin as [pos Hpos]; [|apply Hok].
  assert (standing (board a) q) as Hq.
  { apply (standing_at _ pos); [done|]. apply isReal_true. intros Hk.
    destruct (board_piece _ Hok _ _ Hpos) as (_ & H0 & _). destruct (H0 Hk).
    apply (lc_nonzero _ _ _ _ Hl p Hp). congruence. }
  rewrite (lifecycle_eq _ _ _ _ q p Hl Hq Hp Hid). by apply bool_decide_eq_true.
Qed.

Lemma engine_ok_firePremoves e :
  arbiter_ok (homes (premoves e)) (arbiter e) →
  (∀ id pm, premoves e !! id = Some pm → id ≠ 0) → engine_ok (firePremoves sim e).
Proof.
  intros Ha Hk. pose proof (lc_board _ _ _ _ (ok_life _ _ Ha)) as Hok.
  assert (∀ id, id ∈ (hash_iter (premoves e)).*1 ↔ is_Some (premoves e !! id)) as Hkeys.
  { intros id. rewrite list_elem_of_fmap. split.
    - intros ([k v] & -> & Hin%elem_of_hash_iter). simpl. eauto.
    - intros [v Hv]. exists (id, v). by rewrite elem_of_hash_iter. }
  assert (firing (filter (isReady (board (arbiter e))) (hash_iter (premoves e)).*1) e) as Hf.
  { split; [done|done| | |].
    - apply NoDup_filter, hash_iter_keys_NoDup.
    - intros id [Hr [pm Hpm]%Hkeys]%list_elem_of_filter. apply Is_true_true in Hr.
      apply isReady_standing; [done|by eapply Hk|done].
    - intros p Hp Hs Hi. apply list_elem_of_filter. rewrite Hkeys, Is_true_true.
      split; [|done]. eapply standing_isReady; [apply Ha|done..]. }
  destruct (firePremoves_firing _ _ Hf) as [Ha' Hk' _ _ Hw']. unfold firePremoves.
  split; [done..|]. intros p Hp Hs Hi. by apply (elem_of_nil (getId p)), Hw'.
Qed.

Lemma engine_ok_wait ms e : 0 ≤ ms → engine_ok e → engine_ok (wait sim ms e).
Proof.
  intros Hms [Ha Hk Hw]. unfold wait.
  pose proof (tick_keeps_ok (homes (premoves e)) sim ms (arbiter e) Hms Ha) as Ht.
  destruct (tick _ _ _) as [a kc]. cbn [fst] in Ht. by apply engine_ok_firePremoves.
Qed.
End Commands.
