(* ===== verification/EngineTheorems.v ===== *)
(** * The theorems about a game

    Commands of players and the clock as one type, runs of them, and what every
    command and every run keeps: the invariant, the pieces, the end of the game;
    the answers of [requestMove]; the snapshot. *)
From S2P Require Import Prelude Model Rules Double Motion Collision Arrival Arbiter ArbiterSteps CollisionSpec Lifecycle Engine EngineSpec.

(** A command a client or the clock gives to the engine. *)
Inductive Command := CMove (f t : Position) | CJump (pos : Position) | CWait (ms : Z).

Section Game.
Context `{HashIter}.
Variable sim : bool.

Definition exec (e : GameEngine) (c : Command) : GameEngine :=
  match c with
  | CMove f t => (requestMove sim f t e).1
  | CJump pos => (requestJump pos e).1
  | CWait ms => wait sim ms e
  end.

(** The commands under which the life cycle is kept: no jump of a piece at
    rest, no move of a piece that rests while flying, no negative time. *)
Definition admissible (e : GameEngine) (c : Command) : Prop :=
  match c with
  | CMove f _ => restingFlyer e f = false
  | CJump pos => ∀ p, getPiece (board (arbiter e)) pos = Some p →
      isRestingState (getState p) = false
  | CWait ms => 0 ≤ ms
  end.

(** C3 In the real-time mode every command keeps the invariant of a game:
    the board, the life cycle of every piece and motion, and the queue of
    premoves (each of a piece that rests on the premove's square). *)
Theorem exec_engine_ok e c :
  sim = true → engine_ok e → admissible e c → engine_ok (exec e c).
Proof.
  intros Hs He Ha. destruct c; simpl in *.
  - by apply engine_ok_requestMove.
  - by apply engine_ok_requestJump.
  - by apply engine_ok_wait.
Qed.

(** ** What [requestMove] answers *)

Definition requested (e : GameEngine) (f t : Position) (p : Piece) : Motion :=
  mkMotion f t (game_clock_ms (arbiter e)) (game_clock_ms (arbiter e) + calcTravelTime f t) (getId p).

Definition begin (m : Motion) (e : GameEngine) : GameEngine :=
  setArbiter (transitionAt Moving (from m)
    (setMotions (active_motions (arbiter e) ++ [m]) (arbiter e))) e.

(** Nothing flies or rests on [f]. *)
Definition awake (e : GameEngine) (f : Position) : Prop :=
  ∀ p, getPiece (board (arbiter e)) f = Some p →
    isBusyState (getState p) = false ∧ isRestingState (getState p) = false.

(** What becomes of a requested slide when friends are under way: a knight's and
    one whose squares nobody claims are kept whole, another one ends on the
    square before the first that is claimed. *)
Inductive shortened (b : Board) (ms : list Motion) (p : Piece) (m : Motion) : Motion → Prop :=
  | sh_whole : getKind p = Knight ∨ (∀ i, ¬ claimed b ms p m i) → shortened b ms p m m
  | sh_cut i cp : getKind p ≠ Knight → claimed b ms p m (S i) → (∀ j, (j ≤ i)%nat → ¬ claimed b ms p m j) →
      pathCheckpoints m !! i = Some cp → shortened b ms p m (redirect m cp).

(** The seven answers, each with the state it leaves. *)
Inductive move_outcome (e : GameEngine) (f t : Position) : GameEngine * MoveResult → Prop :=
  | mo_over : game_over e = true →
      move_outcome e f t (e, mkResult false "game_over")
  | mo_flying p : game_over e = false →
      getPiece (board (arbiter e)) f = Some p → isBusyState (getState p) = true →
      move_outcome e f t (e, mkResult false "motion_in_progress")
  | mo_queued p : game_over e = false →
      getPiece (board (arbiter e)) f = Some p → isRestingState (getState p) = true →
      legal_move (board (arbiter e)) f t true →
      move_outcome e f t
        (setPremoves (<[getId p := mkPremove f t]> (premoves e)) e, mkResult true "queued")
  | mo_cancelled p why : game_over e = false →
      getPiece (board (arbiter e)) f = Some p → isRestingState (getState p) = true →
      move_answer (board (arbiter e)) f t true (mkValidation false why) →
      move_outcome e f t (setPremoves (delete (getId p) (premoves e)) e, mkResult false why)
  | mo_illegal why : game_over e = false → awake e f →
      move_answer (board (arbiter e)) f t true (mkValidation false why) →
      move_outcome e f t (e, mkResult false why)
  | mo_blocked p : game_over e = false → getPiece (board (arbiter e)) f = Some p → getState p = Idle →
      legal_move (board (arbiter e)) f t true → getKind p ≠ Knight →
      claimed (board (arbiter e)) (active_motions (arbiter e)) p (requested e f t p) 0 →
      move_outcome e f t (e, mkResult false "friendly_blocked")
  | mo_started p m : game_over e = false → getPiece (board (arbiter e)) f = Some p → getState p = Idle →
      legal_move (board (arbiter e)) f t true →
      shortened (board (arbiter e)) (active_motions (arbiter e)) p (requested e f t p) m →
      move_outcome e f t (begin m e, mkResult true "ok").

Lemma setArbiter_same e : setArbiter (arbiter e) e = e.
Proof. by destruct e. Qed.

Lemma idle_state s : s = Idle → isBusyState s = false ∧ isRestingState s = false.
Proof. by intros ->. Qed.

Lemma shortened_near_miss b ms p m m' :
  getPiece b (from m) = Some p → shortened b ms p m m' → applyNearMiss b ms m = Some m' ∧ from m' = from m.
Proof.
  intros Hp Hm. destruct (nearMiss_cases b ms m p Hp) as [Hkn Hother].
  destruct Hm as [Hw|i cp Hk Hc Hno Hcp].
  - split; [|done]. destruct (decide (getKind p = Knight)) as [Hk|Hk]; [by apply Hkn|].
    destruct Hw as [?|Hw]; [done|]. by apply (Hother Hk).
  - split; [|done]. destruct (Hother Hk) as (_ & Hcut & _). destruct (Hcut i Hc Hno) as (cp' & Hcp' & ->).
    congruence.
Qed.

Lemma blocked_near_miss b ms p m :
  getPiece b (from m) = Some p → getKind p ≠ Knight → claimed b ms p m 0 → applyNearMiss b ms m = None.
Proof. intros Hp Hk Hc. by apply (proj2 (nearMiss_cases b ms m p Hp) Hk). Qed.

(** Every slide is refused or one of these. *)
Lemma shortened_total b ms p m :
  (getKind p ≠ Knight ∧ claimed b ms p m 0) ∨ ∃ m', shortened b ms p m m'.
Proof.
  destruct (decide (getKind p = Knight)) as [Hk|Hk]; [right; exists m; constructor; by left|].
  destruct (claimed_first b ms p m) as [Hn|([|i] & Hi & Hno)]; [right; exists m; constructor; by right|by left|].
  assert (is_Some (pathCheckpoints m !! i)) as [cp Hcp].
  { destruct Hi as (o & _ & _ & c & x & y & Hx & _). apply lookup_lt_is_Some.
    apply lookup_lt_Some in Hx. lia. }
  right. exists (redirect m cp). apply (sh_cut _ _ _ _ i); [done..| |done]. intros j Hj. apply Hno. lia.
Qed.

(** What [validateMove] says of a request. *)
Lemma answer_refused b f t r why :
  board_ok b → move_answer b f t r (mkValidation false why) → validateMove b f t r = mkValidation false why.
Proof. intros Hok Ha. eapply move_answer_unique; [done|by apply validateMove_answer|done]. Qed.

Lemma answer_legal b f t r : board_ok b → legal_move b f t r → validateMove b f t r = mkValidation true "ok".
Proof. intros Hok Hl. eapply move_answer_unique; [done|by apply validateMove_answer|by constructor]. Qed.

Lemma startMove_refused f t e why :
  board_ok (board (arbiter e)) → move_answer (board (arbiter e)) f t sim (mkValidation false why) →
  startMove sim f t e = (e, mkResult false why).
Proof. intros Hok Ha. unfold startMove. by rewrite (answer_refused _ _ _ _ why). Qed.

Lemma startMove_legal f t e p :
  sim = true → board_ok (board (arbiter e)) → legal_move (board (arbiter e)) f t true →
  getPiece (board (arbiter e)) f = Some p →
  startMove sim f t e =
    match applyNearMiss (board (arbiter e)) (active_motions (arbiter e)) (requested e f t p) with
    | Some m => (setArbiter (transitionAt Moving f (setMotions (active_motions (arbiter e) ++ [m]) (arbiter e))) e,
                 mkResult true "ok")
    | None => (e, mkResult false "friendly_blocked")
    end.
Proof.
  intros Hs Hok Hl Hp. unfold startMove. rewrite Hs, (answer_legal _ _ _ _ Hok Hl), Hp. cbn [is_valid negb].
  unfold addMotion. fold (requested e f t p). destruct (applyNearMiss _ _ _); [done|]. by rewrite setArbiter_same.
Qed.

(** Each outcome is what [requestMove] gives. *)
Lemma outcome_requested f t e r :
  sim = true → board_ok (board (arbiter e)) → move_outcome e f t r → requestMove sim f t e = r.
Proof.
  intros Hs Hok Hr. unfold requestMove. rewrite Hs.
  destruct Hr as [->|p -> Hp Hb|p -> Hp Hr Hl|p why -> Hp Hr Ha|why -> Haw Ha|p -> Hp Hi Hl Hk Hc|p m -> Hp Hi Hl Hm];
    [done|rewrite Hp|rewrite Hp|rewrite Hp| |rewrite Hp|rewrite Hp].
  - by rewrite Hb.
  - rewrite (answer_legal _ _ _ _ Hok Hl), Hr. by destruct (getState p).
  - rewrite (answer_refused _ _ _ _ _ Hok Ha), Hr. by destruct (getState p).
  - rewrite <-Hs in *. destruct (getPiece _ f) as [p|] eqn:Hp; [|by apply startMove_refused].
    destruct (Haw p Hp) as [-> ->]. by apply startMove_refused.
  - destruct (idle_state _ Hi) as [-> ->]. rewrite <-Hs at 1. rewrite (startMove_legal f t e p) by done.
    by rewrite (blocked_near_miss _ _ p).
  - destruct (idle_state _ Hi) as [-> ->]. rewrite <-Hs at 1. rewrite (startMove_legal f t e p) by done.
    destruct (shortened_near_miss _ _ p (requested e f t p) m Hp Hm) as [-> Hf]. unfold begin. by rewrite Hf.
Qed.

(** Some outcome always fits. *)
Lemma outcome_total f t e : board_ok (board (arbiter e)) → ∃ r, move_outcome e f t r.
Proof.
  intros Hok. destruct (game_over e) eqn:Ho; [eexists; by apply mo_over|].
  pose proof (validateMove_answer (board (arbiter e)) f t true Hok) as Ha.
  pose proof (validateMove_decides (board (arbiter e)) f t true Hok) as Hv.
  destruct (validateMove _ _ _ _) as [ok why]. cbn [is_valid] in Hv.
  destruct (getPiece (board (arbiter e)) f) as [p|] eqn:Hp.
  2: { destruct ok; [pose proof (proj1 Hv eq_refl) as Hl; destruct Hl as (_ & _ & q & Hq & _); congruence|].
       eexists. apply (mo_illegal _ _ _ why); [done|unfold awake; by rewrite Hp|done]. }
  destruct (isBusyState (getState p)) eqn:Hb; [eexists; by eapply mo_flying|].
  destruct (isRestingState (getState p)) eqn:Hr.
  { destruct ok; eexists; [eapply mo_queued; [done..|by apply Hv]|by eapply mo_cancelled]. }
  destruct ok; [|eexists; apply (mo_illegal _ _ _ why); [done| |done]; intros q Hq; by simplify_eq].
  assert (getState p = Idle) as Hi by (apply not_busy_resting_idle; [by apply (board_piece _ Hok _ _ Hp)|done..]).
  pose proof (proj1 Hv eq_refl) as Hl.
  destruct (shortened_total (board (arbiter e)) (active_motions (arbiter e)) p (requested e f t p)) as [[Hk Hc]|[m Hm]];
    eexists; [by eapply mo_blocked|by eapply mo_started].
Qed.

(** C4 [requestMove] in the real-time mode gives one of seven answers, each in
    exactly its situation and with exactly its effect: refused after the end of
    the game or while the piece flies, queued or cancelled while it rests, refused
    when illegal or when a friend claims its first square, and otherwise started,
    whole or up to the square before the first one a friend claims.  The
    situations exclude each other, and one of them always holds. *)
Theorem requestMove_outcome f t e r :
  sim = true → board_ok (board (arbiter e)) → move_outcome e f t r ↔ r = requestMove sim f t e.
Proof.
  intros Hs Hok. split; [by intros ?%outcome_requested|]. intros ->.
  destruct (outcome_total f t e Hok) as [r Hr]. by rewrite (outcome_requested f t e r).
Qed.

(** ** Whole games *)

Lemma exec_asteps e c :
  board_ok (board (arbiter e)) → ∃ k, asteps (arbiter e, false) (arbiter (exec e c), k).
Proof.
  intros Hok.
  assert (∀ e' f t p, arbiter e' = arbiter e → legal_move (board (arbiter e)) f t sim →
    getPiece (board (arbiter e)) f = Some p →
    asteps (arbiter e, false) ((addMotion sim f t (getId p) (arbiter e)).1, false)) as Hadd.
  { intros e' f t p _ Hl Hp. eapply addMotion_asteps; [done|].
    eapply standing_real. by eapply legal_standing. }
  assert (∀ f t, ∃ k, asteps (arbiter e, false) (arbiter (startMove sim f t e).1, k)) as Hstart.
  { intros f t. exists false. destruct (startMove_cases sim f t e Hok) as [[_ ->]|(p & Hl & Hp & ->)];
      [done|]. simpl. by eapply (Hadd e). }
  destruct c as [f t|pos|ms]; simpl.
  - unfold requestMove. repeat case_match; try (by exists false); auto.
  - exists false. unfold requestJump. destruct (game_over e); [done|].
    destruct (getPiece (board (arbiter e)) pos) as [p|] eqn:Hp; [|by case_match].
    destruct (isPieceBusy _ _); [done|]. unfold validateJump.
    rewrite (getPiece_bounds _ _ _ Hp), Hp. simpl.
    destruct (colorEqb _ _) eqn:Hc; [done|]. apply colorEqb_false in Hc. simpl.
    eapply addJump_asteps; [done|]. apply isReal_true. intros Hk. apply Hc.
    by apply (board_piece _ Hok _ _ Hp).
  - unfold wait. pose proof (tick_asteps sim ms (arbiter e) Hok) as Ht.
    destruct (tick _ _ _) as [a kc]. exists kc. etrans; [exact Ht|].
    pose proof (asteps_board_ok _ _ Ht Hok) as Hoka. cbn [fst] in Hoka.
    unfold firePremoves. set (e1 := mkEngine a _ _).
    apply (foldl_ind (λ x, asteps (a, kc) (arbiter x, kc))); [done|].
    intros x id _ Hx. pose proof (asteps_board_ok _ _ Hx Hoka) as Hokx. cbn [fst] in Hokx.
    etrans; [exact Hx|]. unfold firePremove. destruct (premoves x !! id) as [pm|]; [|done].
    destruct (negb _) eqn:Hv; [done|]. b2p. apply validateMove_decides in Hv; [|done].
    simpl in *. destruct (getPiece (board (arbiter x)) (pm_from pm)) as [p|] eqn:Hp; [|done].
    eapply addMotion_asteps; [done|]. eapply standing_real. by eapply legal_standing.
Qed.

Definition play (e : GameEngine) (cs : list Command) : GameEngine := foldl exec e cs.

Lemma play_kept cs e :
  board_ok (board (arbiter e)) →
  board_ok (board (arbiter (play e cs))) ∧ material (arbiter (play e cs)) ≡ₚ material (arbiter e).
Proof.
  intros Hok. unfold play. apply (foldl_ind (λ x, board_ok (board (arbiter x)) ∧
    material (arbiter x) ≡ₚ material (arbiter e))); [done|].
  intros x c _ [Hx Hm]. destruct (exec_asteps x c Hx) as [k Hs]. split.
  - exact (asteps_board_ok _ _ Hs Hx).
  - rewrite <-Hm. exact (asteps_material _ _ Hs Hx).
Qed.

(** C7 Whatever commands are given in whatever order, admissible or not: the
    board stays well formed and no piece is ever lost or duplicated, every
    id is on the board or among the captured. *)
Theorem play_material cs e :
  board_ok (board (arbiter e)) →
  board_ok (board (arbiter (play e cs))) ∧ material (arbiter (play e cs)) ≡ₚ material (arbiter e).
Proof. apply play_kept. Qed.

Lemma startMove_over s f t e : game_over (startMove s f t e).1 = game_over e.
Proof. unfold startMove. repeat case_match; done. Qed.

Lemma request_over f t e : game_over (requestMove sim f t e).1 = game_over e.
Proof. unfold requestMove. repeat case_match; simpl; rewrite ?startMove_over; congruence. Qed.

Lemma jump_over pos e : game_over (requestJump pos e).1 = game_over e.
Proof. unfold requestJump. cbv zeta. repeat case_match; simpl; congruence. Qed.

Lemma firePremoves_over e : game_over (firePremoves sim e) = game_over e.
Proof.
  unfold firePremoves. apply (foldl_ind (λ x, game_over x = game_over e)); [done|].
  intros x id _ <-. unfold firePremove. repeat case_match; done.
Qed.

Lemma exec_over e c : game_over e = true → game_over (exec e c) = true.
Proof.
  intros Ho. destruct c as [f t|pos|ms]; simpl.
  - unfold requestMove. by rewrite Ho.
  - unfold requestJump. by rewrite Ho.
  - unfold wait. destruct (tick _ _ _) as [a kc]. rewrite firePremoves_over. simpl.
    by destruct kc.
Qed.

(** C31 The end of the game is final: once over it stays over whatever is
    requested, every later request is refused and changes nothing. *)
Theorem game_over_final cs e :
  game_over e = true →
  game_over (play e cs) = true ∧
  (∀ f t, requestMove sim f t (play e cs) = (play e cs, mkResult false "game_over")) ∧
  (∀ pos, requestJump pos (play e cs) = (play e cs, mkResult false "game_over")).
Proof.
  intros Ho. assert (game_over (play e cs) = true) as Hp.
  { unfold play. apply (foldl_ind (λ x, game_over x = true)); [done|].
    intros x c _. apply exec_over. }
  split_and!; [done|intros f t; unfold requestMove; by rewrite Hp
                   |intros pos; unfold requestJump; by rewrite Hp].
Qed.

(** The game only ends by a king's capture: when a command turns
    [game_over] on, a king is among the pieces captured by it. *)
Theorem game_over_king e c :
  board_ok (board (arbiter e)) → game_over e = false → game_over (exec e c) = true →
  ∃ new p, captured_pieces (arbiter (exec e c)) = captured_pieces (arbiter e) ++ new ∧
    p ∈ new ∧ getKind p = King ∧ getState p = Captured.
Proof.
  intros Hok Ho. destruct c as [f t|pos|ms]; simpl.
  - rewrite request_over. congruence.
  - rewrite jump_over. congruence.
  - unfold wait. destruct (asteps_reports _ _ (tick_asteps sim ms (arbiter e) Hok))
      as (es & _ & Hc & Hst & _ & Hk).
    destruct (tick _ _ _) as [a kc]. cbn [fst snd] in *. rewrite firePremoves_over. simpl.
    destruct kc; [|congruence]. intros _.
    destruct (Hk eq_refl) as [?|(p & Hp & Hpk)]; [done|].
    exists (capturedOf es), p. split_and!; [|done|done|by apply Hst]. rewrite <-Hc.
    unfold firePremoves. set (e1 := mkEngine a _ _).
    apply (foldl_ind (λ x, captured_pieces (arbiter x) = captured_pieces a)); [done|].
    intros x id _ <-. unfold firePremove, addMotion. repeat case_match; done.
Qed.
End Game.

(** ** New games *)

Lemma standing_live b p : grid_ok b → standing b p → p ∈ livePieces b.
Proof. intros Hg [Hr Hp]. by apply elem_of_livePieces. Qed.

Lemma fmap_NoDup_inj {A B} (f : A → B) (l : list A) x y :
  NoDup (f <$> l) → x ∈ l → y ∈ l → f x = f y → x = y.
Proof.
  intros Hnd [i Hi]%list_elem_of_lookup [j Hj]%list_elem_of_lookup Heq.
  assert (i = j) as ->; [|congruence].
  eapply NoDup_lookup; [done| |]; rewrite list_lookup_fmap, ?Hi, ?Hj; simpl; [done|congruence].
Qed.

Lemma newEngine_invariant b :
  board_ok b → NoDup (liveIds b) → 0 ∉ liveIds b →
  (∀ p, p ∈ livePieces b → getState p = Idle) → engine_ok (newEngine b).
Proof.
  intros Hok Hnd H0 Hi. pose proof (board_grid _ Hok) as Hg.
  assert (∀ p, standing b p → p ∈ livePieces b) as Hlive by (intros; by apply standing_live).
  assert (∀ p, standing b p → getState p = Idle) as Hidle by auto.
  split; simpl; [split; simpl|..].
  - split; simpl; try (by intros ? ?%elem_of_nil); try done.
    + intros p q Hp Hq Heq. f_equal. by eapply (fmap_NoDup_inj getId); auto.
    + intros p Hp Heq. apply H0. rewrite <-Heq. apply list_elem_of_fmap. eauto.
    + constructor.
    + by intros m p ?%elem_of_nil.
    + intros p Hp Hb. by rewrite (Hidle p Hp) in Hb.
    + intros p Hp Hb. by rewrite (Hidle p Hp) in Hb.
    + by intros m p ?%elem_of_nil.
    + intros p _ _ (u & Hu & _). simpl in Hu. by rewrite lookup_empty in Hu.
  - by intros m ?%elem_of_nil.
  - by intros m ?%elem_of_nil.
  - intros id u Hu. simpl in Hu. by rewrite lookup_empty in Hu.
  - intros id pm Hpm. by rewrite lookup_empty in Hpm.
  - intros p _ [pm Hpm]. by rewrite lookup_empty in Hpm.
Qed.

(** A game set up on a board of idle pieces with distinct non-zero ids
    satisfies the invariant. *)
Theorem newEngine_ok b :
  board_ok b → NoDup (liveIds b) → 0 ∉ liveIds b →
  (∀ p, p ∈ livePieces b → getState p = Idle) → engine_ok (newEngine b).
Proof. apply newEngine_invariant. Qed.

(** ** The snapshot *)

Lemma flat_map_map {A B C} (f : A → B) (g : B → list C) l :
  flat_map (λ x, g (f x)) l = flat_map g (map f l).
Proof. induction l as [|x l IH]; simpl; [done|]. by rewrite IH. Qed.

Section Snapshot.
Context `{HashIter}.

Lemma flat_map_ext_in {A B} (f g : A → list B) l :
  (∀ x, x ∈ l → f x = g x) → flat_map f l = flat_map g l.
Proof.
  induction l as [|x l IH]; intros Hf; simpl; [done|].
  rewrite Hf by left. rewrite IH; [done|]. intros y Hy. apply Hf. by right.
Qed.

Lemma snapshotPiece_elapsed a c p :
  elapsed_in_state_ms (snapshotPiece a c p) =
  game_clock_ms a - getStateStartMs a (getId p) (getState p).
Proof. unfold snapshotPiece. by destruct (find (λ m, piece_id m =? getId p) (active_motions a)). Qed.

Lemma getStateStartMs_past home a id s :
  arbiter_ok home a → 0 ≤ game_clock_ms a → getStateStartMs a id s ≤ game_clock_ms a.
Proof.
  intros Ha Hc. unfold getStateStartMs.
  destruct (find _ _) as [m|] eqn:Hf.
  - apply find_some in Hf as [Hm%list_elem_of_In _]. by destruct (ok_trip _ _ Ha m Hm).
  - destruct (cooldown_until_ms a !! id); [|done]. apply Z.le_min_r.
Qed.

Lemma snapshot_listed e :
  board_ok (board (arbiter e)) →
  pieces (snapshot e) = map (λ p, snapshotPiece (arbiter e) (getCell p) p) (livePieces (board (arbiter e))).
Proof.
  intros Hok. pose proof (board_grid _ Hok) as Hg.
  set (a := arbiter e) in *. set (b := board a) in *.
  transitivity (flat_map (λ o, match o with
    | None => [] | Some p => if kindEqb (getKind p) NoKind then []
                             else [snapshotPiece a (getCell p) p] end)
    (map (getPiece b) (allCells (width b) (height b)))).
  - rewrite <-flat_map_map. unfold snapshot. fold a b. apply flat_map_ext_in.
    intros [r c] _. rewrite getPieceAt_getPiece. simpl.
    destruct (getPiece b (mkPos r c)) as [p|] eqn:Hp; [|done].
    by rewrite (board_cell _ Hok _ _ Hp).
  - rewrite grid_allCells by done. rewrite <-flat_map_map. unfold livePieces.
    induction (grid b) as [|p l IH]; simpl; [done|]. rewrite filter_cons, IH.
    destruct (isReal p) eqn:Hr; unfold isReal in Hr;
      destruct (kindEqb (getKind p) NoKind); done.
Qed.

(** The snapshot lists every piece on the board exactly once, in board
    order, with its own cell and state; a flying piece is shown heading for
    its motion's end; and no piece is in its state for a negative time. *)
Theorem snapshot_pieces e :
  engine_ok e → 0 ≤ game_clock_ms (arbiter e) →
  pieces (snapshot e) =
    map (λ p, snapshotPiece (arbiter e) (getCell p) p) (livePieces (board (arbiter e))) ∧
  (∀ sp, sp ∈ pieces (snapshot e) → 0 ≤ elapsed_in_state_ms sp) ∧
  (∀ p m, standing (board (arbiter e)) p → m ∈ active_motions (arbiter e) →
     piece_id m = getId p → targetCell (snapshotPiece (arbiter e) (getCell p) p) = to m).
Proof.
  intros He Hclk. pose proof (eng_arbiter _ He) as [Hl Ht _ _]. pose proof (lc_board _ _ _ _ Hl) as Hok.
  split_and!; [by apply snapshot_listed| |].
  - intros sp. rewrite snapshot_listed by done. intros (p & -> & _)%list_elem_of_fmap. rewrite snapshotPiece_elapsed.
    pose proof (getStateStartMs_past _ (arbiter e) (getId p) (getState p) (eng_arbiter _ He) Hclk). lia.
  - intros p m Hp Hm Hid. unfold snapshotPiece.
    destruct (find _ _) as [m'|] eqn:Hf.
    + simpl. apply find_some in Hf as [Hm'%list_elem_of_In Hid']. b2p. f_equal.
      eapply (fmap_NoDup_inj piece_id); [apply Hl|done..|congruence].
    + apply list_elem_of_In in Hm. apply (find_none _ _ Hf) in Hm. b2p. congruence.
Qed.
End Snapshot.
