(* ===== verification/Settling.v ===== *)
(** * Every game comes to rest

    When no more commands arrive, the premoves still queued are played or dropped,
    every motion ends, every rest runs out — however the time that passes is cut
    into ticks. *)
From S2P Require Import Prelude Model Rules Double Motion Collision Arrival Arbiter ArbiterSteps CollisionSpec Lifecycle Engine EngineSpec EngineTheorems.

(** ** The cooldowns of a tick

    A tick writes a cooldown for the pieces in flight, and the current time for
    those whose rest ends; the other cooldowns stay. *)
Section Frame.
Context `{HashIter}.
Variables (ids : list Z) (cd : gmap Z Z).

(** Only pieces of [ids] fly, and the cooldowns of the others are those of [cd]. *)
Record framed (a : Arbiter) : Prop := {
  fr_own : ∀ m, m ∈ active_motions a → piece_id m ∈ ids;
  fr_cool : ∀ id, id ∉ ids → cooldown_until_ms a !! id = cd !! id
}.

Lemma framed_ext a a' :
  active_motions a' = active_motions a → cooldown_until_ms a' = cooldown_until_ms a → framed a → framed a'.
Proof. intros Hm Hc [H1 H2]. split; by rewrite ?Hm, ?Hc. Qed.

Lemma framed_subset a ms : (∀ m, m ∈ ms → piece_id m ∈ ids) → framed a → framed (setMotions ms a).
Proof. intros Hm [_ H2]. by split. Qed.

Lemma framed_set m u a : piece_id m ∈ ids → framed a → framed (setCooldown (piece_id m) u a).
Proof. intros Hm [H1 H2]. split; [done|]. intros id Hid. simpl. rewrite lookup_insert_ne; [auto|congruence]. Qed.

Lemma resolveCollisions_framed prev s : framed s.1 → framed (resolveCollisions prev s).1.
Proof.
  intros Hf. unfold resolveCollisions. set (ls := findLosses _ _ _ _).
  assert (framed (foldl (captureLoser ls) s (indexed (active_motions s.1))).1) as Hc.
  { apply (foldl_ind (λ s, framed s.1)); [done|]. intros [a kc] [i m] _ Hs. simpl. repeat case_match; try done.
    all: by eapply framed_ext; [| |exact Hs]. }
  destruct (foldl _ _ _) as [a kc]. cbn [fst] in *. case_match; [|done].
  apply framed_subset; [|done]. intros m Hm%survivors_subset. by apply Hf.
Qed.

Lemma stopMotion_framed s e : framed s.1 → framed (stopMotion s e).1.
Proof.
  destruct s as [a te]. intros Hf. unfold stopMotion.
  destruct (active_motions a !! _) as [m|] eqn:Hm; [|done]. apply list_elem_of_lookup_2 in Hm as Hin.
  pose proof (fr_own _ Hf m Hin) as Hid. destruct (getPiece _ _); [|done]. destruct (_ =? _).
  - eapply framed_ext; [| |by apply (framed_set m (game_clock_ms a + LONG_REST_MS) a)]; done.
  - case_match; [|done]. apply framed_subset; [|done]. intros x [i Hi]%list_elem_of_lookup.
    apply list_lookup_insert_Some in Hi as [(_ & <- & _)|(_ & Hi)]; [done|]. eapply fr_own; [done|].
    by eapply list_elem_of_lookup_2.
Qed.

Lemma resolveMovingFriendlyBlocks_framed prev a : framed a → framed (resolveMovingFriendlyBlocks prev a).
Proof.
  intros Hf. unfold resolveMovingFriendlyBlocks. destruct (foldl _ _ _) as [a' te] eqn:E.
  assert (framed a') as Hf'.
  { replace a' with (foldl stopMotion (a, []) (hash_iter
      (findStopAt (board a) (active_motions a) prev (game_clock_ms a)))).1 by by rewrite E.
    apply (foldl_ind (λ s, framed s.1)); [done|]. intros s e _. apply stopMotion_framed. }
  destruct te; [done|]. apply framed_subset; [|done]. intros m Hm%eraseAll_subset. by apply Hf'.
Qed.

Lemma stationaryLoop_framed prev dn todo a :
  (∀ m, m ∈ dn ++ todo → piece_id m ∈ ids) → framed a → framed (stationaryLoop prev dn todo a).
Proof.
  revert dn a. induction todo as [|m todo IH]; intros dn a Hm Hf; simpl.
  { apply framed_subset; [|done]. intros x Hx. apply Hm. by rewrite app_nil_r. }
  assert (framed (stationaryLoop prev (dn ++ [m]) todo a)) as Hskip by (apply IH; [by rewrite <-app_assoc|done]).
  assert (piece_id m ∈ ids) as Hid by (apply Hm; set_solver).
  destruct (isJump m); [done|]. destruct (getPiece _ _); [|done].
  destruct (kindEqb _ _); [done|].
  destruct (stationaryScan _ _ _ _ _ _ _ _) as [[|cp]|]; [| |done].
  - apply IH; [intros x Hx; apply Hm; set_solver|].
    eapply framed_ext; [| |by apply (framed_set m (game_clock_ms a + LONG_REST_MS) a)]; done.
  - apply IH; [|done]. intros x. rewrite <-app_assoc, elem_of_app, elem_of_app, list_elem_of_singleton.
    intros [?|[->|?]]; [apply Hm; set_solver|done|apply Hm; set_solver].
Qed.

Lemma resolve_framed coll s m : piece_id m ∈ ids → framed s.1 → framed (resolve coll s m).1.
Proof.
  destruct s as [a kc]. intros Hm Hf. unfold resolve. set (u := game_clock_ms a + _).
  pose proof (framed_set m u a Hm Hf) as Hu. clearbody u.
  unfold promote, captureArriver, captureTarget. repeat case_match; try done;
    by eapply framed_ext; [| |exact Hu].
Qed.
End Frame.

Section Ticks.
Context `{HashIter}.
Variable coll : bool.
Variable home : gmap Z Position.
Notation arbiter_ok := (arbiter_ok home).

Lemma collisionPhase_framed ids cd prev a : framed ids cd a → framed ids cd (collisionPhase coll prev a).1.
Proof.
  intros Hf. unfold collisionPhase. destruct coll; [|done].
  pose proof (resolveCollisions_framed ids cd prev (a, false) Hf) as Hf1.
  destruct (resolveCollisions prev (a, false)) as [a1 kc]. cbn [fst] in *.
  apply (resolveMovingFriendlyBlocks_framed ids cd prev) in Hf1.
  apply stationaryLoop_framed; [by apply Hf1|done].
Qed.

(** What still cools after a tick and was not in flight, cooled before it. *)
Lemma tick_cool ms a id w :
  arbiter_ok a → 0 ≤ ms → id ∉ piece_id <$> active_motions a →
  cooldown_until_ms (tick coll ms a).1 !! id = Some w → game_clock_ms a + ms < w →
  cooldown_until_ms a !! id = Some w.
Proof.
  intros Hok Hms Hid. pose proof (tick_clock _ coll ms a Hok Hms) as Hclk. revert Hclk. rewrite tick_unfold.
  set (ids := piece_id <$> active_motions a).
  assert (framed ids (cooldown_until_ms a) (setClock (game_clock_ms a + ms) a)) as Hf.
  { split; [|done]. intros m Hm. apply list_elem_of_fmap. by exists m. }
  apply (collisionPhase_framed _ _ (game_clock_ms a)) in Hf.
  destruct (collisionPhase coll _ _) as [a2 kc2]. cbn [fst] in *.
  assert (framed ids (cooldown_until_ms a) (foldl (resolve coll) (a2, kc2) (filter (arrived a2) (active_motions a2))).1) as Hf3.
  { apply (foldl_ind (λ s, framed ids (cooldown_until_ms a) s.1)); [done|].
    intros s m [_ Hm]%list_elem_of_filter Hs. apply resolve_framed; [by apply Hf|done]. }
  destruct (foldl (resolve coll) _ _) as [a3 kc3]. cbn [fst] in *.
  rewrite (proj2 (endRests_motions _ _ _)). intros Hclk Hw Hlt.
  apply endRests_late in Hw; [|by rewrite Hclk]. simpl in Hw. by rewrite (fr_cool _ _ _ Hf3) in Hw.
Qed.

(** A tick brings no piece onto the board. *)
Lemma tick_ids ms a p :
  board_ok (board a) → standing (board (tick coll ms a).1) p → ∃ p0, standing (board a) p0 ∧ getId p0 = getId p.
Proof.
  intros Hok Hp. pose proof (tick_asteps coll ms a Hok) as Hs.
  pose proof (asteps_material _ _ Hs Hok) as Hm. pose proof (asteps_board_ok _ _ Hs Hok) as Hok'.
  destruct (asteps_reports _ _ Hs) as (es & _ & Hc & _). cbn [fst] in *.
  unfold material in Hm. rewrite Hc in Hm. unfold capturedIds in Hm. rewrite filter_app, fmap_app in Hm.
  rewrite (Permutation_app_comm (getId <$> filter _ (captured_pieces a))), app_assoc in Hm.
  apply Permutation_app_inv_r in Hm. assert (getId p ∈ liveIds (board a)) as Hin.
  { rewrite <-Hm. apply elem_of_app. left. unfold liveIds. apply list_elem_of_fmap. exists p. split; [done|].
    apply standing_live; [apply Hok'|done]. }
  unfold liveIds in Hin. apply list_elem_of_fmap in Hin as (p0 & Hid & Hp0). exists p0. split; [|done].
  apply (elem_of_livePieces _ _ (board_grid _ Hok)) in Hp0 as [? ?]. by split.
Qed.

(** Nothing cools longer than until [B]. *)
Definition coolUntil (B : Z) (a : Arbiter) : Prop :=
  ∀ id u, cooldown_until_ms a !! id = Some u → game_clock_ms a < u → u ≤ B.

(** Some time, tick after tick. *)
Definition ticks (l : list Z) (a : Arbiter) : Arbiter := foldl (λ a ms, (tick coll ms a).1) a l.
Definition elapsed (l : list Z) : Z := foldr Z.add 0 l.

Lemma elapsed_app l1 l2 : elapsed (l1 ++ l2) = elapsed l1 + elapsed l2.
Proof. induction l1 as [|x l1 IH]; simpl; [done|]. rewrite IH. lia. Qed.

Lemma elapsed_nonneg l : Forall (Z.le 0) l → 0 ≤ elapsed l.
Proof. induction 1; simpl; lia. Qed.

(** What a tick keeps, ticks keep. *)
Lemma ticks_ind (P : Arbiter → Prop) l a :
  (∀ ms a, 0 ≤ ms → P a → P (tick coll ms a).1) → Forall (Z.le 0) l → P a → P (ticks l a).
Proof.
  intros Hstep Hl. revert a. induction Hl as [|ms l Hms _ IH]; intros a Ha; [done|]. by apply IH, Hstep.
Qed.

Lemma ticks_ok l a : Forall (Z.le 0) l → arbiter_ok a → arbiter_ok (ticks l a).
Proof. intros Hl. apply ticks_ind; [|done]. intros ms x. apply tick_keeps_ok. Qed.

Lemma ticks_clock l a : Forall (Z.le 0) l → arbiter_ok a → game_clock_ms (ticks l a) = game_clock_ms a + elapsed l.
Proof.
  intros Hl. revert a. induction Hl as [|ms l Hms _ IH]; intros a Ha; simpl; [lia|].
  rewrite IH by by apply tick_keeps_ok. rewrite (tick_clock _ _ _ _ Ha Hms). lia.
Qed.

(** Long enough after the last motion was started nothing flies. *)
Lemma ticks_land l a :
  arbiter_ok a → Forall (Z.le 0) l → MS_PER_SQUARE_TRAVELED * Z.max 1 (span a) ≤ elapsed l →
  active_motions (ticks l a) = [].
Proof.
  intros Hok Hl Hlong. pose proof (ticks_ok l a Hl Hok) as Hok'.
  assert (trips (game_clock_ms a) (span a) (ticks l a)) as Ht.
  { apply ticks_ind; [|done|exact (ok_trip _ _ Hok)]. intros ms x _. apply tick_trips. }
  destruct (active_motions (ticks l a)) as [|m l'] eqn:Hm; [done|].
  assert (m ∈ active_motions (ticks l a)) as Hin by (rewrite Hm; by left).
  pose proof (ok_flying _ _ Hok' m Hin) as Hf. destruct (Ht m Hin) as (H1 & H2 & H3 & _).
  rewrite ticks_clock in Hf by done. unfold MS_PER_SQUARE_TRAVELED in *. lia.
Qed.

Lemma tick_still ms a : active_motions a = [] → active_motions (tick coll ms a).1 = [].
Proof.
  intros Hm. assert (trips 0 (-1) a) as Ht by (intros m Hin; rewrite Hm in Hin; by apply elem_of_nil in Hin).
  apply (tick_trips coll ms) in Ht. destruct (active_motions (tick coll ms a).1) as [|m l] eqn:E; [done|].
  destruct (Ht m) as (_ & _ & Hneg & _); [rewrite E; by left|]. pose proof (pathSteps_pos m). lia.
Qed.

Lemma ticks_still l a : Forall (Z.le 0) l → active_motions a = [] → active_motions (ticks l a) = [].
Proof. intros Hl. apply (ticks_ind (λ x, active_motions x = [])); [|done]. intros ms x _. apply tick_still. Qed.

(** With nothing in flight the rests run out. *)
Lemma ticks_rest B l a :
  arbiter_ok a → Forall (Z.le 0) l → active_motions a = [] → coolUntil B a → coolUntil B (ticks l a).
Proof.
  intros Hok Hl Hm Hc.
  assert (arbiter_ok (ticks l a) ∧ active_motions (ticks l a) = [] ∧ coolUntil B (ticks l a)) as (_ & _ & ?); [|done].
  apply (ticks_ind (λ x, arbiter_ok x ∧ active_motions x = [] ∧ coolUntil B x)); [|done|done].
  intros ms x Hms (Hx & Hxm & Hxc).
  split_and!; [by apply tick_keeps_ok|by apply tick_still|]. intros id u Hu Hlt.
  rewrite (tick_clock _ _ _ _ Hx Hms) in Hlt. eapply Hxc; [|assert (game_clock_ms x < u) by lia; done].
  eapply tick_cool; [done|done| |done|done]. rewrite Hxm. apply not_elem_of_nil.
Qed.

Lemma at_rest a :
  arbiter_ok a → active_motions a = [] → coolUntil (game_clock_ms a) a →
  ∀ p, standing (board a) p → getState p = Idle.
Proof.
  intros Hok Hm Hc p Hp. pose proof (ok_life _ _ Hok) as Hl. pose proof (lc_board _ _ _ _ Hl) as Hb.
  pose proof (board_piece _ Hb _ _ (standing_cell _ _ Hb Hp)) as (_ & _ & Hcap).
  apply not_busy_resting_idle; [done|apply not_true_is_false; intros Hs..].
  - destruct (lc_busy _ _ _ _ Hl p Hp Hs) as (m & Hin & _). rewrite Hm in Hin. by apply elem_of_nil in Hin.
  - destruct (lc_rest _ _ _ _ Hl p Hp Hs) as [(u & Hu & Hlt)|Hin]; [specialize (Hc _ _ Hu Hlt); lia|].
    rewrite Hm in Hin. by apply elem_of_nil in Hin.
Qed.

Lemma ticks_settle l1 l2 a :
  arbiter_ok a → Forall (Z.le 0) l1 → Forall (Z.le 0) l2 →
  MS_PER_SQUARE_TRAVELED * Z.max 1 (span a) ≤ elapsed l1 → LONG_REST_MS ≤ elapsed l2 →
  let a' := ticks (l1 ++ l2) a in
  active_motions a' = [] ∧ ∀ p, standing (board a') p → getState p = Idle.
Proof.
  intros Hok H1 H2 Hs Hr. unfold ticks. rewrite foldl_app. cbv zeta. fold (ticks l1 a). fold (ticks l2 (ticks l1 a)).
  pose proof (ticks_ok l1 a H1 Hok) as Hok1. pose proof (ticks_land l1 a Hok H1 Hs) as Hm1.
  pose proof (ticks_still l2 _ H2 Hm1) as Hm2. split; [done|]. apply at_rest; [by apply ticks_ok|done|].
  intros id u Hu Hlt.
  pose proof (ticks_rest (game_clock_ms (ticks l1 a) + LONG_REST_MS) l2 _ Hok1 H2 Hm1
    (λ id u Hu _, ok_cool _ _ Hok1 id u Hu) id u Hu Hlt). rewrite (ticks_clock l2) by done. lia.
Qed.
End Ticks.

(** ** The game *)
Section Game.
Context `{HashIter}.
Notation wait := (wait true).
Notation play := (play true).

(** No piece on the board has a premove. *)
Definition quiet (e : GameEngine) : Prop := ∀ p, standing (board (arbiter e)) p → premoves e !! getId p = None.

(** The pieces with a premove cool at most until [B]. *)
Definition queuedUntil (B : Z) (e : GameEngine) : Prop :=
  ∀ id u, is_Some (premoves e !! id) → cooldown_until_ms (arbiter e) !! id = Some u →
    game_clock_ms (arbiter e) < u → u ≤ B.

Lemma firePremoves_frame e :
  premoves (firePremoves true e) ⊆ premoves e ∧
  cooldown_until_ms (arbiter (firePremoves true e)) = cooldown_until_ms (arbiter e) ∧
  game_clock_ms (arbiter (firePremoves true e)) = game_clock_ms (arbiter e).
Proof.
  unfold firePremoves. apply (foldl_ind (λ x, premoves x ⊆ premoves e ∧
    cooldown_until_ms (arbiter x) = cooldown_until_ms (arbiter e) ∧ game_clock_ms (arbiter x) = game_clock_ms (arbiter e))); [done|].
  intros x id _ (Hp & <- & <-). unfold firePremove, addMotion.
  assert (delete id (premoves x) ⊆ premoves e) by (etrans; [apply delete_subseteq|done]).
  repeat case_match; done.
Qed.

Lemma wait_clock ms e : engine_ok e → 0 ≤ ms → game_clock_ms (arbiter (wait ms e)) = game_clock_ms (arbiter e) + ms.
Proof.
  intros He Hms. rewrite <-(tick_clock _ true ms _ (eng_arbiter _ He) Hms). unfold Engine.wait.
  destruct (tick true ms (arbiter e)) as [a kc]. apply firePremoves_frame.
Qed.

Lemma wait_queued B ms e : engine_ok e → 0 ≤ ms → queuedUntil B e → queuedUntil B (wait ms e).
Proof.
  intros He Hms Hq id u Hpm Hu Hlt. rewrite wait_clock in Hlt by done.
  assert (is_Some (premoves e !! id) ∧ cooldown_until_ms (tick true ms (arbiter e)).1 !! id = Some u) as [[pm Hpm'] Hu'].
  { unfold Engine.wait in Hpm, Hu. destruct (tick true ms (arbiter e)) as [a kc].
    destruct (firePremoves_frame (mkEngine a (if kc then true else game_over e) (premoves e))) as (Hs & Hc & _).
    rewrite Hc in Hu. split; [|done]. destruct Hpm as [pm Hpm]. exists pm. by eapply lookup_weaken. }
  eapply Hq; [by exists pm| |assert (game_clock_ms (arbiter e) < u) by lia; done].
  eapply (tick_cool true _ ms); [apply He|done| |done|done]. intros (m & -> & Hm)%list_elem_of_fmap.
  pose proof (lc_away _ _ _ _ (ok_life _ _ (eng_arbiter _ He)) m Hm) as Hh. unfold homes in Hh.
  by rewrite lookup_fmap, Hpm' in Hh.
Qed.

(** Once they should have cooled no premove is left on the board. *)
Lemma queued_quiet B e : engine_ok e → queuedUntil B e → B ≤ game_clock_ms (arbiter e) → quiet e.
Proof.
  intros He Hq HB p Hp. destruct (premoves e !! getId p) as [pm|] eqn:Hpm; [exfalso|done].
  pose proof (ok_life _ _ (eng_arbiter _ He)) as Hl. pose proof (lc_board _ _ _ _ Hl) as Hb.
  pose proof (board_piece _ Hb _ _ (standing_cell _ _ Hb Hp)) as (_ & _ & Hcap).
  assert (getId p ∉ piece_id <$> active_motions (arbiter e)) as Hno.
  { intros (m & Hid & Hm)%list_elem_of_fmap. pose proof (lc_away _ _ _ _ Hl m Hm) as Hh. unfold homes in Hh.
    by rewrite lookup_fmap, <-Hid, Hpm in Hh. }
  assert (is_Some (premoves e !! getId p)) as Hsome by by exists pm.
  apply (eng_waiting _ He p Hp Hsome), not_busy_resting_idle; [done|apply not_true_is_false; intros Hs..].
  - destruct (lc_busy _ _ _ _ Hl p Hp Hs) as (m & Hin & Hid & _). apply Hno, list_elem_of_fmap. by exists m.
  - destruct (lc_rest _ _ _ _ Hl p Hp Hs) as [(u & Hu & Hlt)|?]; [|done]. specialize (Hq _ _ Hsome Hu Hlt). lia.
Qed.

(** A quiet game only ticks. *)
Lemma waits_quiet ms e :
  engine_ok e → quiet e → 0 ≤ ms → arbiter (wait ms e) = (tick true ms (arbiter e)).1 ∧ quiet (wait ms e).
Proof.
  intros He Hq Hms. pose proof (eng_board _ He) as Hok. pose proof (tick_ids true ms (arbiter e)) as Hids.
  pose proof (asteps_board_ok _ _ (tick_asteps true ms _ Hok) Hok) as Hok'.
  unfold Engine.wait. destruct (tick true ms (arbiter e)) as [a kc]. cbn [fst] in *.
  assert (∀ p, standing (board a) p → premoves e !! getId p = None) as Hqa.
  { intros p Hp. destruct (Hids p Hok Hp) as (p0 & Hp0 & <-). by apply Hq. }
  assert (∀ e', premoves e' = premoves e → arbiter e' = a → firePremoves true e' = e') as Hnone.
  { intros e' Hpm <-. unfold firePremoves. set (l := filter _ _). assert (l = []) as ->; [|done].
    apply elem_of_nil_inv. intros id [Hr Hid]%list_elem_of_filter. rewrite Hpm in Hid.
    assert (is_Some (premoves e !! id)) as [pm Hsome].
    { apply list_elem_of_fmap in Hid as ([i pm] & -> & Hin%elem_of_hash_iter). eauto. }
    unfold isReady, getPieceById in Hr. destruct (find _ _) as [p|] eqn:Hf; [|done].
    apply find_some in Hf as [Hin%list_elem_of_In Hpid%Z.eqb_eq]. apply elem_of_grid in Hin as [pos Hpos]; [|apply Hok'].
    assert (standing (board (arbiter e')) p) as Hst.
    { apply (standing_at _ pos); [done|]. apply isReal_true. intros Hk.
      destruct (board_piece _ Hok' _ _ Hpos) as (_ & H0 & _). destruct (H0 Hk) as [Hz _].
      apply (eng_key _ He id pm Hsome). congruence. }
    apply Hqa in Hst. congruence. }
  rewrite Hnone by done. split; [done|]. exact Hqa.
Qed.

Lemma waits_ok l e : Forall (Z.le 0) l → engine_ok e → engine_ok (play e (CWait <$> l)).
Proof.
  intros Hl. revert e. induction Hl as [|ms l Hms _ IH]; intros e He; [done|]. by apply IH, engine_ok_wait.
Qed.

Lemma waits_clock l e :
  Forall (Z.le 0) l → engine_ok e → game_clock_ms (arbiter (play e (CWait <$> l))) = game_clock_ms (arbiter e) + elapsed l.
Proof.
  intros Hl. revert e. induction Hl as [|ms l Hms _ IH]; intros e He; simpl; [lia|].
  rewrite IH by by apply engine_ok_wait. rewrite wait_clock by done. lia.
Qed.

Lemma waits_queued B l e : Forall (Z.le 0) l → engine_ok e → queuedUntil B e → queuedUntil B (play e (CWait <$> l)).
Proof.
  intros Hl. revert e. induction Hl as [|ms l Hms _ IH]; intros e He Hq; [done|].
  apply IH; [by apply engine_ok_wait|by apply wait_queued].
Qed.

Lemma waits_tick l e :
  Forall (Z.le 0) l → engine_ok e → quiet e →
  arbiter (play e (CWait <$> l)) = ticks true l (arbiter e) ∧ quiet (play e (CWait <$> l)).
Proof.
  intros Hl. revert e. induction Hl as [|ms l Hms _ IH]; intros e He Hq; [done|]. simpl.
  destruct (waits_quiet ms e He Hq Hms) as [Ha Hq']. rewrite <-Ha. apply IH; [by apply engine_ok_wait|done].
Qed.

(** Enough time can be split off the front, up to the length of a tick. *)
Lemma split_elapsed d x l :
  0 ≤ x → 0 ≤ d → Forall (λ ms, 0 ≤ ms ≤ d) l → x ≤ elapsed l → ∃ l1 l2, l = l1 ++ l2 ∧ x ≤ elapsed l1 ≤ x + d.
Proof.
  intros Hx Hd Hl. revert x Hx. induction Hl as [|ms l Hms Hl IH]; intros x Hx Hle; simpl in Hle.
  { exists [], []. simpl. split; [done|lia]. }
  destruct (decide (ms < x)) as [Hlt|Hge]; [|exists [ms], l; simpl; split; [done|lia]].
  destruct (IH (x - ms)) as (l1 & l2 & -> & ?); [lia..|]. exists (ms :: l1), l2. simpl. split; [done|lia].
Qed.

Lemma play_span cs e : board_ok (board (arbiter e)) → span (arbiter (play e cs)) = span (arbiter e).
Proof.
  revert e. induction cs as [|c cs IH]; intros e Hok; [done|]. simpl.
  destruct (exec_asteps true e c Hok) as [k Hs]. rewrite IH by exact (asteps_board_ok _ _ Hs Hok).
  exact (asteps_span _ _ Hs).
Qed.

(** C30 Liveness: no piece is ever stuck.  Once commands stop coming, in ticks of
    whatever lengths up to [d], and after the time of two long rests, the longest
    slide of the board and two ticks at most, every premove has been played or
    dropped, nothing is in flight, and every piece still standing is [Idle]. *)
Theorem game_settles d l e :
  engine_ok e → 0 ≤ d → Forall (λ ms, 0 ≤ ms ≤ d) l →
  2 * LONG_REST_MS + MS_PER_SQUARE_TRAVELED * Z.max 1 (span (arbiter e)) + 2 * d ≤ elapsed l →
  let e' := play e (CWait <$> l) in
  active_motions (arbiter e') = [] ∧
  ∀ p, standing (board (arbiter e')) p → getState p = Idle ∧ premoves e' !! getId p = None.
Proof.
  intros He Hd Hl Hlong. assert (LONG_REST_MS = 1000 ∧ MS_PER_SQUARE_TRAVELED = 1000) as [HL HM] by done.
  destruct (split_elapsed d LONG_REST_MS l) as (l0 & l' & -> & H0); [lia|done|done|lia|].
  rewrite elapsed_app in Hlong. apply Forall_app in Hl as [Hl0 Hl'].
  destruct (split_elapsed d (MS_PER_SQUARE_TRAVELED * Z.max 1 (span (arbiter e))) l') as (l1 & l2 & -> & H1); [lia|done|done|lia|].
  rewrite elapsed_app in Hlong.
  assert (∀ l, Forall (λ ms, 0 ≤ ms ≤ d) l → Forall (Z.le 0) l) as Hnn by (intros l Hf; eapply Forall_impl; [exact Hf|simpl; lia]).
  pose proof (Hnn _ Hl0) as Hn0. pose proof (Hnn _ Hl') as Hn. apply Forall_app in Hn as [Hn1 Hn2].
  intros e'. subst e'. rewrite fmap_app. unfold EngineTheorems.play. rewrite foldl_app. fold (play e (CWait <$> l0)).
  set (e0 := play e (CWait <$> l0)). fold (play e0 (CWait <$> l1 ++ l2)).
  assert (engine_ok e0) as He0 by by apply waits_ok.
  assert (quiet e0) as Hq.
  { apply (queued_quiet (game_clock_ms (arbiter e) + LONG_REST_MS)); [done| |unfold e0; rewrite waits_clock by done; lia].
    apply waits_queued; [done..|]. intros id u _ Hu _. by apply (ok_cool _ _ (eng_arbiter _ He) id). }
  destruct (waits_tick (l1 ++ l2) e0 (Hnn _ Hl') He0 Hq) as [Ht Hqe].
  destruct (ticks_settle true _ l1 l2 (arbiter e0) (eng_arbiter _ He0) Hn1 Hn2) as [Hm Hi];
    [unfold e0; rewrite play_span by (by apply eng_board); lia|lia|].
  rewrite Ht. split; [done|]. intros p Hp. split; [by apply Hi|apply Hqe; by rewrite Ht].
Qed.
End Game.
