(* ===== verification/Overflow.v ===== *)
(** * The engine's arithmetic fits its integers

    Times, squares and durations are [int] in the code and integers in the model.
    Here are the values that the arithmetic of each operation takes, and a bound
    on how long a game may run before one of them leaves the type. *)
From S2P Require Import Prelude Model Rules Double Motion Collision Arrival Arbiter ArbiterSteps CollisionSpec Lifecycle Engine EngineSpec EngineTheorems.

(** ** The values *)

(** [calcTravelTime], [pathCheckpoints] and the comparisons of squares. *)
Definition travelInts (f t : Position) : list Z :=
  [row t - row f; col t - col f; Z.abs (row t - row f); Z.abs (col t - col f); calcTravelTime f t].

(** A motion: its fields, its duration and its checkpoints. *)
Definition motionInts (m : Motion) : list Z :=
  travelInts (from m) (to m) ++ [start_time_ms m; arrival_time_ms m; arrival_time_ms m - start_time_ms m] ++
  flat_map (λ cp, [row cp.1; col cp.1; cp.2; cp.2 - start_time_ms m]) (pathCheckpoints m).

(** A cooldown: [getStateStartMs] subtracts the rest from its end. *)
Definition cooldownInts (clock u : Z) : list Z :=
  flat_map (λ duration, [u - duration; clock - Z.min (u - duration) clock]) [0; SHORT_REST_MS; LONG_REST_MS].

(** What an arbiter holds and what is computed from it at its time. *)
Definition arbiterInts (a : Arbiter) : list Z :=
  let clock := game_clock_ms a in
  [clock; clock + SHORT_REST_MS; clock + LONG_REST_MS; clock + JUMP_DURATION_MS] ++
  flat_map (λ m, (clock - start_time_ms m) :: motionInts m) (active_motions a) ++
  flat_map (λ e, e.2 :: cooldownInts clock e.2) (map_to_list (cooldown_until_ms a)).

(** What a command adds to the time; a move is looked at when its squares are
    known to be on the board. *)
Definition commandInts (a : Arbiter) (c : Command) : list Z :=
  match c with
  | CMove f t =>
    if isWithinBounds (board a) f && isWithinBounds (board a) t
    then travelInts f t ++ [game_clock_ms a + calcTravelTime f t] else []
  | CJump _ => [game_clock_ms a + JUMP_DURATION_MS]
  | CWait ms => let now := game_clock_ms a + ms in [now; now + SHORT_REST_MS; now + LONG_REST_MS]
  end.

(** ** What bounds them *)

Definition flight (c n : Z) (m : Motion) : Prop := trip c n m ∧ 0 ≤ start_time_ms m ≤ arrival_time_ms m.

(** At the time [c], on a board [n] wide. *)
Record timely (c n : Z) (a : Arbiter) : Prop := {
  tm_clock : game_clock_ms a = c;
  tm_motion : ∀ m, m ∈ active_motions a → flight c n m;
  tm_cool : ∀ id u, cooldown_until_ms a !! id = Some u → 0 ≤ u ≤ c + LONG_REST_MS
}.

Lemma flight_redirect c n m cp : cp ∈ pathCheckpoints m → flight c n m → flight c n (redirect m cp).
Proof.
  intros Hcp [Ht H0]. split; [by apply trip_redirect|]. simpl. apply checkpoint_time in Hcp. lia.
Qed.

Lemma flight_later c c' n m : c ≤ c' → flight c n m → flight c' n m.
Proof. intros Hc [(H1 & H2) H0]. split; [|done]. split; [lia|done]. Qed.

Lemma timely_ext c n a a' :
  game_clock_ms a' = game_clock_ms a → active_motions a' = active_motions a → cooldown_until_ms a' = cooldown_until_ms a →
  timely c n a → timely c n a'.
Proof. intros H1 H2 H3 [Hc Hm Hu]. by split; rewrite ?H1, ?H2, ?H3. Qed.

Lemma timely_motions c n a ms : timely c n a → (∀ m, m ∈ ms → flight c n m) → timely c n (setMotions ms a).
Proof. by intros [Hc Hm Hu] Hms; split. Qed.

Lemma timely_cooldown c n a id u : timely c n a → 0 ≤ u ≤ c + LONG_REST_MS → timely c n (setCooldown id u a).
Proof.
  intros [Hc Hm Hu] Hr. split; [done..|]. intros id' v. simpl. rewrite lookup_insert. case_decide; [by intros [= <-]|apply Hu].
Qed.

Section Timely.
Context `{HashIter}.
Variables (c n : Z).
Hypothesis c_pos : 0 ≤ c.
#[local] Set Default Proof Using "Type*".

Lemma timely_rest a id : timely c n a → timely c n (setCooldown id (game_clock_ms a + LONG_REST_MS) a).
Proof. intros Ha. apply timely_cooldown; [done|]. rewrite (tm_clock _ _ _ Ha). unfold LONG_REST_MS. lia. Qed.

Lemma resolveCollisions_timely prev s : timely c n s.1 → timely c n (resolveCollisions prev s).1.
Proof.
  intros Hs. destruct (resolveCollisions_motions prev s) as [Hm Hc]. split.
  - rewrite Hc. apply Hs.
  - intros m. rewrite Hm. intros Hin%survivors_subset. by apply (tm_motion _ _ _ Hs).
  - unfold resolveCollisions. set (ls := findLosses _ _ _ _).
    assert (cooldown_until_ms (foldl (captureLoser ls) s (indexed (active_motions s.1))).1 = cooldown_until_ms s.1) as E.
    { apply (foldl_ind (λ x, cooldown_until_ms x.1 = cooldown_until_ms s.1)); [done|].
      intros [a kc] [i m] _ <-. simpl. by repeat case_match. }
    destruct (foldl _ _ _) as [a kc]. simpl in E |- *. intros id u Hu. apply (tm_cool _ _ _ Hs id). rewrite <-E. by case_match.
Qed.

Lemma stopMotion_timely s e : timely c n s.1 → timely c n (stopMotion s e).1.
Proof.
  destruct s as [a te]. unfold stopMotion. intros Ha. destruct (active_motions a !! _) as [m|] eqn:Hm; [|done].
  destruct (getPiece _ _); [|done]. destruct (_ =? _).
  { eapply timely_ext; [..|by apply (timely_rest a (piece_id m))]; done. }
  destruct (pathCheckpoints m !! _) as [cp|] eqn:Hcp; [|done]. apply timely_motions; [done|].
  intros m' [i Hi]%list_elem_of_lookup. apply list_lookup_insert_Some in Hi as [(_ & <- & _)|(_ & Hi)].
  - apply flight_redirect; [by eapply list_elem_of_lookup_2|]. apply (tm_motion _ _ _ Ha). by eapply list_elem_of_lookup_2.
  - apply (tm_motion _ _ _ Ha). by eapply list_elem_of_lookup_2.
Qed.

Lemma resolveMovingFriendlyBlocks_timely prev a : timely c n a → timely c n (resolveMovingFriendlyBlocks prev a).
Proof.
  intros Ha. unfold resolveMovingFriendlyBlocks. destruct (foldl _ _ _) as [a' te] eqn:E.
  assert (timely c n a') as Ha'.
  { replace a' with (foldl stopMotion (a, []) (hash_iter
      (findStopAt (board a) (active_motions a) prev (game_clock_ms a)))).1 by by rewrite E.
    apply (foldl_ind (λ s, timely c n s.1)); [done|]. intros s e _. apply stopMotion_timely. }
  destruct te; [done|]. apply timely_motions; [done|]. intros m Hm%eraseAll_subset. by apply (tm_motion _ _ _ Ha').
Qed.

Lemma stationaryLoop_timely prev dn todo a :
  timely c n a → (∀ m, m ∈ dn ++ todo → flight c n m) → timely c n (stationaryLoop prev dn todo a).
Proof.
  revert dn a. induction todo as [|m todo IH]; intros dn a Ha Ht; simpl.
  { apply timely_motions; [done|]. intros m Hm. apply Ht. by rewrite app_nil_r. }
  assert (timely c n (stationaryLoop prev (dn ++ [m]) todo a)) as Hskip by (apply IH; [done|by rewrite <-app_assoc]).
  destruct (isJump m); [done|]. destruct (getPiece _ _); [|done]. destruct (kindEqb _ _); [done|].
  destruct (stationaryScan _ _ _ _ _ _ _ _) as [[|cp]|] eqn:Hs; [| |done].
  - apply IH; [|intros m' Hm'; apply Ht; set_solver].
    eapply timely_ext; [..|by apply (timely_rest a (piece_id m))]; done.
  - apply stationaryScan_redirect in Hs as [Hs|Hs]; [|done]. apply IH; [done|]. intros m' Hm'.
    rewrite <-app_assoc in Hm'. apply elem_of_app in Hm' as [?|[->|?]%elem_of_cons]; [apply Ht; set_solver| |apply Ht; set_solver].
    apply flight_redirect; [done|]. apply Ht. set_solver.
Qed.

Lemma resolve_timely coll s m : timely c n s.1 → timely c n (resolve coll s m).1.
Proof.
  destruct s as [a kc]. cbn [fst]. intros Ha. unfold resolve. set (u := game_clock_ms a + _).
  assert (timely c n (setCooldown (piece_id m) u a)) as Hu.
  { apply timely_cooldown; [done|]. unfold u. rewrite (tm_clock _ _ _ Ha). unfold SHORT_REST_MS, LONG_REST_MS. case_match; lia. }
  clearbody u. unfold promote, captureArriver, captureTarget. repeat case_match; try done; by eapply timely_ext; [..|exact Hu].
Qed.

Lemma endRest_timely prev a e : timely c n a → timely c n (endRest prev a e).
Proof.
  intros Ha. unfold endRest. destruct (_ && _); [|done]. case_match; [|done].
  apply timely_cooldown; [by eapply timely_ext; [..|exact Ha]|]. rewrite (tm_clock _ _ _ Ha). unfold LONG_REST_MS. lia.
Qed.
End Timely.

(** Time passes. *)
Lemma timely_clock c c' n a : c ≤ c' → timely c n a → timely c' n (setClock c' a).
Proof.
  intros Hc [_ Hm Hu]. split; [done| |].
  - intros m Hin. by eapply flight_later, Hm.
  - intros id u Hin. specialize (Hu id u Hin). lia.
Qed.

Section Game.
Context `{HashIter}.
Variables (sim : bool) (n : Z).

Lemma tick_timely c ms a : 0 ≤ c → 0 ≤ ms → timely c n a → timely (c + ms) n (tick sim ms a).1.
Proof.
  intros Hc Hms Ha. assert (0 ≤ c + ms) as Hc' by lia. unfold tick.
  assert (timely (c + ms) n (setClock (game_clock_ms a + ms) a)) as Ha0.
  { rewrite (tm_clock _ _ _ Ha). by apply (timely_clock c); [lia|]. }
  set (prev := game_clock_ms a) in *. set (a0 := setClock _ a) in *. set (r := if sim then _ else _).
  assert (timely (c + ms) n r.1) as Hr.
  { unfold r. destruct sim; [|done]. pose proof (resolveCollisions_timely (c + ms) n Hc' prev (a0, false) Ha0) as H1.
    destruct (resolveCollisions _ _) as [a1 kc1]. cbn [fst] in *.
    pose proof (resolveMovingFriendlyBlocks_timely (c + ms) n Hc' prev a1 H1) as H2.
    apply stationaryLoop_timely; [done|done|]. apply (tm_motion _ _ _ H2). }
  destruct r as [a1 kc]. cbn [fst] in Hr.
  pose proof (foldl_ind (λ s, timely (c + ms) n s.1) (resolve sim) (filter (arrived a1) (active_motions a1)) (a1, kc) Hr
    (λ s m _ Hs, resolve_timely (c + ms) n Hc' sim s m Hs)) as H2. cbn beta in H2.
  destruct (foldl (resolve sim) _ _) as [a2 kc2]. cbn [fst] in *.
  apply (foldl_ind (timely (c + ms) n)).
  - apply timely_motions; [done|]. intros m [_ Hm]%list_elem_of_filter. by apply (tm_motion _ _ _ H2).
  - intros x e _ Hx. by apply endRest_timely.
Qed.

Lemma timely_transitionAt c s pos a : timely c n a → timely c n (transitionAt s pos a).
Proof. by apply timely_ext. Qed.

Lemma timely_add c a m : timely c n a → flight c n m → timely c n (setMotions (active_motions a ++ [m]) a).
Proof.
  intros Ha Hm. apply timely_motions; [done|]. intros x [Hx|Hx]%elem_of_app; [by apply (tm_motion _ _ _ Ha)|].
  by apply list_elem_of_singleton in Hx as ->.
Qed.

Lemma addMotion_timely c f t id a :
  0 ≤ c → timely c n a → isWithinBounds (board a) f = true → isWithinBounds (board a) t = true → span a = n →
  timely c n (addMotion sim f t id a).1.
Proof.
  intros Hc Ha Hf Ht Hn. unfold addMotion. set (m := mkMotion f t (game_clock_ms a) _ id).
  assert (flight c n m) as Hm.
  { pose proof (steps_in_board (board a) m Hf Ht) as Hs. rewrite isWithinBounds_spec in Hf, Ht. unfold span in Hn.
    assert (arrival_time_ms m = start_time_ms m + MS_PER_SQUARE_TRAVELED * pathSteps m) as E.
    { unfold m, calcTravelTime, pathSteps; simpl. lia. }
    pose proof (pathSteps_pos m). assert (start_time_ms m = c) as E0 by exact (tm_clock _ _ _ Ha).
    unfold flight, trip, withinSpan, MS_PER_SQUARE_TRAVELED in *. split_and!; simpl in *; lia. }
  set (acc := if sim then _ else _).
  assert (∀ m', acc = Some m' → flight c n m') as Hacc.
  { intros m' Hm'. assert (m' = m ∨ ∃ cp, cp ∈ pathCheckpoints m ∧ m' = redirect m cp) as [->|(cp & Hcp & ->)]; [|done|by apply flight_redirect].
    unfold acc in Hm'. destruct sim; [by eapply applyNearMiss_cases|left; congruence]. }
  destruct acc as [m'|]; [|done]. apply timely_transitionAt, timely_add; auto.
Qed.

Lemma addJump_timely c pos id a :
  0 ≤ c → timely c n a → isWithinBounds (board a) pos = true → span a = n → timely c n (addJump pos id a).
Proof.
  intros Hc Ha Hp Hn. apply timely_transitionAt, timely_add; [done|].
  rewrite isWithinBounds_spec in Hp. unfold span in Hn. pose proof (tm_clock _ _ _ Ha).
  unfold flight, trip, withinSpan, pathSteps, JUMP_DURATION_MS, MS_PER_SQUARE_TRAVELED; simpl. split_and!; lia.
Qed.

(** ** Whole games *)

Definition waited (c : Command) : Z := match c with CWait ms => ms | _ => 0 end.

(** The time that commands take together. *)
Definition totalWait (cs : list Command) : Z := foldr (λ c t, waited c + t) 0 cs.

Lemma totalWait_app cs cs' : totalWait (cs ++ cs') = totalWait cs + totalWait cs'.
Proof. induction cs as [|c cs IH]; simpl; [done|]. fold (totalWait (cs ++ cs')) (totalWait cs). lia. Qed.

Lemma totalWait_nonneg cs : Forall (λ c, 0 ≤ waited c) cs → 0 ≤ totalWait cs.
Proof. induction 1; simpl; lia. Qed.

Lemma exec_span e c : board_ok (board (arbiter e)) → span (arbiter (exec sim e c)) = span (arbiter e).
Proof. intros Hok. destruct (exec_asteps sim e c Hok) as [k Hs]. exact (asteps_span _ _ Hs). Qed.

Lemma astep_size s s' : astep s s' → width (board s'.1) = width (board s.1) ∧ height (board s'.1) = height (board s.1).
Proof.
  destruct 1; simpl; try done;
    unfold updatePiece, removePiece, movePiece; try destruct victim as [[]|]; simpl;
    repeat case_match; try done; simpl; unfold updatePiece; repeat case_match; done.
Qed.

Lemma play_size e cs : board_ok (board (arbiter e)) →
  width (board (arbiter (play sim e cs))) = width (board (arbiter e)) ∧
  height (board (arbiter (play sim e cs))) = height (board (arbiter e)).
Proof.
  revert e. induction cs as [|c cs IH]; intros e Hok; [done|]. simpl. destruct (exec_asteps sim e c Hok) as [k Hs].
  destruct (IH (exec sim e c)) as [-> ->]; [exact (asteps_board_ok _ _ Hs Hok)|].
  assert (∀ s s', asteps s s' → width (board s'.1) = width (board s.1) ∧ height (board s'.1) = height (board s.1)) as Hall.
  { induction 1 as [|x y z Hxy _ [IH1 IH2]]; [done|]. destruct (astep_size _ _ Hxy). split; congruence. }
  exact (Hall _ _ Hs).
Qed.

Lemma startMove_timely c f t e :
  0 ≤ c → board_ok (board (arbiter e)) → span (arbiter e) = n → timely c n (arbiter e) →
  timely c n (arbiter (startMove sim f t e).1).
Proof.
  intros Hc Hok Hn He. destruct (startMove_cases sim f t e Hok) as [[_ ->]|(p & (Hf & Ht & _) & _ & ->)]; [done|].
  simpl. by apply addMotion_timely.
Qed.

Lemma firePremove_timely c e id :
  0 ≤ c → board_ok (board (arbiter e)) ∧ span (arbiter e) = n ∧ timely c n (arbiter e) →
  board_ok (board (arbiter (firePremove sim e id))) ∧ span (arbiter (firePremove sim e id)) = n ∧
  timely c n (arbiter (firePremove sim e id)).
Proof.
  intros Hc (Hok & Hn & He). unfold firePremove. destruct (premoves e !! id) as [pm|]; [|done].
  destruct (negb _) eqn:Hv; [done|]. b2p. apply validateMove_decides in Hv; [|done]. simpl in *.
  destruct (getPiece (board (arbiter e)) (pm_from pm)) as [p|] eqn:Hp; [|done]. simpl.
  assert (asteps (arbiter e, false) ((addMotion sim (pm_from pm) (pm_to pm) (getId p) (arbiter e)).1, false)) as Hs.
  { eapply addMotion_asteps; [done|]. eapply standing_real. by eapply legal_standing. }
  split_and!; [exact (asteps_board_ok _ _ Hs Hok)|etrans; [exact (asteps_span _ _ Hs)|done]|].
  destruct Hv as (Hf & Ht & _). by apply addMotion_timely.
Qed.

Lemma exec_timely c e cmd :
  0 ≤ c → 0 ≤ waited cmd → board_ok (board (arbiter e)) → span (arbiter e) = n → timely c n (arbiter e) →
  timely (c + waited cmd) n (arbiter (exec sim e cmd)).
Proof.
  intros Hc Hw Hok Hn He. destruct cmd as [f t|pos|ms]; simpl in *; rewrite ?Z.add_0_r.
  - pose proof (startMove_timely c f t e Hc Hok Hn He) as Hst.
    unfold requestMove. by repeat (case_match; try done).
  - unfold requestJump. destruct (game_over e); [done|]. cbv zeta.
    destruct (match getPiece _ _ with Some _ => _ | None => _ end); [done|]. destruct (negb _); [done|].
    destruct (getPiece (board (arbiter e)) pos) as [p|] eqn:Hp; [|done]. simpl.
    apply addJump_timely; [done..|by eapply getPiece_bounds|done].
  - unfold wait. pose proof (tick_timely c ms (arbiter e) Hc Hw He) as Ht.
    pose proof (tick_asteps sim ms (arbiter e) Hok) as Hs. destruct (tick _ _ _) as [a kc]. cbn [fst] in Ht.
    unfold firePremoves. set (e1 := mkEngine a _ _).
    apply (foldl_ind (λ x, board_ok (board (arbiter x)) ∧ span (arbiter x) = n ∧ timely (c + ms) n (arbiter x))).
    + split_and!; [exact (asteps_board_ok _ _ Hs Hok)|etrans; [exact (asteps_span _ _ Hs)|done]|done].
    + intros x id _. apply firePremove_timely. lia.
Qed.

Lemma play_timely cs e c :
  0 ≤ c → Forall (λ cmd, 0 ≤ waited cmd) cs → board_ok (board (arbiter e)) → span (arbiter e) = n → timely c n (arbiter e) →
  let e' := play sim e cs in
  board_ok (board (arbiter e')) ∧ span (arbiter e') = n ∧ timely (c + totalWait cs) n (arbiter e').
Proof.
  intros Hc Hcs. revert e c Hc. induction Hcs as [|cmd cs Hw Hcs IH]; intros e c Hc Hok Hn He; simpl; [by rewrite Z.add_0_r|].
  rewrite Z.add_assoc. apply IH; [lia| | |by apply exec_timely].
  - destruct (exec_asteps sim e cmd Hok) as [k Hs]. exact (asteps_board_ok _ _ Hs Hok).
  - by rewrite exec_span.
Qed.

(** ** What flies has not arrived *)
Definition aloft (a : Arbiter) : Prop := ∀ m, m ∈ active_motions a → game_clock_ms a < arrival_time_ms m.

Lemma tick_aloft ms a : aloft (tick sim ms a).1.
Proof.
  rewrite tick_unfold. destruct (collisionPhase _ _ _) as [a2 kc2].
  destruct (foldl (resolve sim) _ _) as [a3 kc3]. cbn [fst].
  set (a4 := setMotions _ a3). intros m. destruct (endRests_motions (game_clock_ms a) (hash_iter (cooldown_until_ms a4)) a4) as [-> ->].
  unfold a4. simpl. intros [Hm _]%list_elem_of_filter. unfold arrived in Hm.
  destruct (Z.leb_spec (arrival_time_ms m) (game_clock_ms a3)); [done|lia].
Qed.

Lemma addMotion_aloft f t id a : f ≠ t → aloft a → aloft (addMotion sim f t id a).1.
Proof.
  intros Hne Ha. unfold addMotion. set (m := mkMotion f t (game_clock_ms a) _ id).
  assert (game_clock_ms a < arrival_time_ms m) as Hm.
  { assert (0 < calcTravelTime f t); [|unfold m; simpl; lia]. unfold calcTravelTime, MS_PER_SQUARE_TRAVELED.
    destruct f as [r c], t as [r' c']; simpl. assert (r ≠ r' ∨ c ≠ c') by (destruct (decide (r = r')); [right; congruence|by left]). lia. }
  set (acc := if sim then _ else _).
  assert (∀ m', acc = Some m' → game_clock_ms a < arrival_time_ms m') as Hacc.
  { intros m' Hm'. assert (m' = m ∨ ∃ cp, cp ∈ pathCheckpoints m ∧ m' = redirect m cp) as [->|(cp & Hcp & ->)]; [|done|].
    - unfold acc in Hm'. destruct sim; [by eapply applyNearMiss_cases|left; congruence].
    - apply checkpoint_time in Hcp. exact Hcp. }
  destruct acc as [m'|]; [|done]. intros x [Hx|Hx]%elem_of_app; [by apply Ha|].
  apply list_elem_of_singleton in Hx as ->. by apply Hacc.
Qed.

Lemma exec_aloft e cmd : board_ok (board (arbiter e)) → aloft (arbiter e) → aloft (arbiter (exec sim e cmd)).
Proof.
  intros Hok He. destruct cmd as [f t|pos|ms]; simpl.
  - assert (aloft (arbiter (startMove sim f t e).1)) as Hst.
    { destruct (startMove_cases sim f t e Hok) as [[_ ->]|(p & Hl & _ & ->)]; [done|].
      apply addMotion_aloft; [by eapply legal_move_ne|done]. }
    unfold requestMove. by repeat (case_match; try done).
  - unfold requestJump. destruct (game_over e); [done|]. cbv zeta.
    destruct (match getPiece _ _ with Some _ => _ | None => _ end); [done|]. destruct (negb _); [done|].
    destruct (getPiece (board (arbiter e)) pos) as [p|]; [|done]. simpl.
    intros x [Hx|Hx]%elem_of_app; [by apply He|]. apply list_elem_of_singleton in Hx as ->. simpl. unfold JUMP_DURATION_MS. lia.
  - unfold wait. pose proof (tick_aloft ms (arbiter e)) as Ht.
    pose proof (tick_asteps sim ms (arbiter e) Hok) as Hs. destruct (tick _ _ _) as [a kc]. cbn [fst] in Ht.
    unfold firePremoves. set (e1 := mkEngine a _ _).
    apply (foldl_ind (λ x, board_ok (board (arbiter x)) ∧ aloft (arbiter x))).
    + split; [exact (asteps_board_ok _ _ Hs Hok)|exact Ht].
    + intros x id _ [Hbx Hx]. unfold firePremove. destruct (premoves x !! id) as [pm|]; [|done].
      destruct (negb _) eqn:Hv; [done|]. b2p. apply validateMove_decides in Hv; [|done]. simpl in *.
      destruct (getPiece (board (arbiter x)) (pm_from pm)) as [p|] eqn:Hp; [|done]. simpl.
      split; [|apply addMotion_aloft; [by eapply legal_move_ne|done]].
      assert (asteps (arbiter x, false) ((addMotion sim (pm_from pm) (pm_to pm) (getId p) (arbiter x)).1, false)) as Hs'.
      { eapply addMotion_asteps; [done|]. eapply standing_real. by eapply legal_standing. }
      exact (asteps_board_ok _ _ Hs' Hbx).
Qed.

(** Whatever is commanded, nothing is late and nothing is early. *)
Lemma play_flies b cs :
  board_ok b → Forall (λ cmd, 0 ≤ waited cmd) cs → n = Z.max (width b) (height b) →
  let a := arbiter (play sim (newEngine b) cs) in
  board_ok (board a) ∧ timely (totalWait cs) n a ∧ aloft a.
Proof.
  intros Hok Hcs Hn. assert (timely 0 n (arbiter (newEngine b))) as Ht0.
  { split; [done|by intros m ?%elem_of_nil|intros id u; simpl; by rewrite lookup_empty]. }
  destruct (play_timely cs (newEngine b) 0 ltac:(lia) Hcs Hok (eq_sym Hn) Ht0) as (Hb & _ & Ht).
  split; [done|]. split; [exact Ht|]. unfold play.
  apply (foldl_ind (λ x, board_ok (board (arbiter x)) ∧ aloft (arbiter x))).
  - split; [done|]. by intros m ?%elem_of_nil.
  - intros x c _ [Hbx Hx]. split; [|by apply exec_aloft].
    destruct (exec_asteps sim x c Hbx) as [k Hs]. exact (asteps_board_ok _ _ Hs Hbx).
Qed.
End Game.

(** ** They fit *)

Lemma checkpoint_inside c n m cp :
  flight c n m → cp ∈ pathCheckpoints m →
  withinSpan n cp.1 ∧ start_time_ms m < cp.2 ≤ start_time_ms m + MS_PER_SQUARE_TRAVELED * n.
Proof.
  intros [Htrip _] Hcp. pose proof (checkpoint_time _ _ Hcp) as Hlo.
  pose proof (trip_redirect c n m cp Hcp Htrip) as (_ & _ & _ & _ & Hin). split; [exact Hin|]. split; [done|].
  destruct Htrip as (_ & _ & Hn & _). revert Hcp. unfold pathCheckpoints. case_match; [by intros ?%elem_of_nil|].
  intros (i & -> & Hi%elem_of_seqZ)%list_elem_of_fmap. unfold pathSteps in Hn. simpl. unfold MS_PER_SQUARE_TRAVELED. lia.
Qed.

Lemma travel_fit n f t :
  1000 * n ≤ INT_MAX → withinSpan n f → withinSpan n t → Forall int_range (travelInts f t) ∧ 0 ≤ calcTravelTime f t ≤ 1000 * n.
Proof.
  unfold withinSpan, travelInts, calcTravelTime, MS_PER_SQUARE_TRAVELED. intros Hn Hf Ht. split; [|lia].
  repeat constructor; unfold INT_MAX, INT_MIN in *; lia.
Qed.

Lemma motion_fit c n m :
  0 ≤ c → c + 1000 * Z.max 1 n ≤ INT_MAX → flight c n m → Forall int_range ((c - start_time_ms m) :: motionInts m).
Proof.
  intros Hc Hn Hm. pose proof Hm as [(H1 & H2 & H3 & Hf & Ht) H0]. unfold MS_PER_SQUARE_TRAVELED in H2.
  assert (0 ≤ n) as Hn0 by (unfold withinSpan in Hf; lia).
  constructor; [unfold int_range, INT_MIN, INT_MAX in *; lia|]. unfold motionInts. apply Forall_app. split.
  { apply (travel_fit n); [lia|done..]. }
  apply Forall_app. split; [repeat constructor; unfold INT_MIN, INT_MAX in *; lia|].
  rewrite Forall_forall. intros x (cp & Hcp & Hx)%elem_of_flat_map.
  destruct (checkpoint_inside c n m cp Hm Hcp) as [Hin Ht']. unfold withinSpan, MS_PER_SQUARE_TRAVELED in *.
  revert x Hx. rewrite <-Forall_forall. repeat constructor; unfold INT_MIN, INT_MAX in *; lia.
Qed.

Lemma cooldown_fit c u :
  0 ≤ c → c + LONG_REST_MS ≤ INT_MAX → 0 ≤ u ≤ c + LONG_REST_MS → Forall int_range (u :: cooldownInts c u).
Proof.
  unfold cooldownInts, SHORT_REST_MS, LONG_REST_MS. intros Hc Hm Hu. repeat constructor; unfold INT_MIN, INT_MAX in *; lia.
Qed.

(** The room that an arbiter of span [n] needs above its time. *)
Definition headroom (n : Z) : Z := MS_PER_SQUARE_TRAVELED * (Z.max 1 n + 1) + LONG_REST_MS.

Lemma arbiter_fit c n a : 0 ≤ c → c + headroom n ≤ INT_MAX → timely c n a → Forall int_range (arbiterInts a).
Proof.
  unfold headroom. intros Hc Hn [Ec Hm Hu]. unfold arbiterInts. rewrite Ec.
  assert (c + LONG_REST_MS ≤ INT_MAX ∧ c + 1000 * Z.max 1 n ≤ INT_MAX) as [H1 H2]
    by (unfold MS_PER_SQUARE_TRAVELED, LONG_REST_MS in *; lia).
  repeat (apply Forall_app; split).
  - repeat constructor; unfold MS_PER_SQUARE_TRAVELED, LONG_REST_MS, SHORT_REST_MS, JUMP_DURATION_MS, INT_MIN, INT_MAX in *; lia.
  - rewrite Forall_forall. intros x (m & Hin & Hx)%elem_of_flat_map. revert x Hx. rewrite <-Forall_forall.
    eapply motion_fit; [done..|by apply Hm].
  - rewrite Forall_forall. intros x ([id u] & Hin%elem_of_map_to_list & Hx)%elem_of_flat_map. revert x Hx.
    rewrite <-Forall_forall. by eapply cooldown_fit, Hu.
Qed.

Lemma command_fit c a cmd :
  0 ≤ c → 0 ≤ waited cmd → c + waited cmd + headroom (span a) ≤ INT_MAX → game_clock_ms a = c →
  Forall int_range (commandInts a cmd).
Proof.
  unfold headroom, span, MS_PER_SQUARE_TRAVELED, LONG_REST_MS. intros Hc Hw Hn Ec. destruct cmd as [f t|pos|ms]; simpl in *; rewrite Ec.
  - destruct (isWithinBounds (board a) f) eqn:Hf, (isWithinBounds (board a) t) eqn:Ht; [|done..]. simpl. rewrite isWithinBounds_spec in Hf, Ht.
    destruct (travel_fit (span a) f t) as [Hfit Htime]; [unfold span; lia|unfold withinSpan, span; lia..|].
    unfold span in Htime. apply (Forall_app int_range (travelInts f t) [_]). split; [done|].
    repeat constructor; unfold INT_MIN, INT_MAX in *; lia.
  - repeat constructor; unfold JUMP_DURATION_MS, INT_MIN, INT_MAX in *; lia.
  - repeat (apply Forall_cons; split); [..|done]; unfold int_range, SHORT_REST_MS, LONG_REST_MS, INT_MIN, INT_MAX in *; lia.
Qed.

(** C8 The engine's [int] arithmetic does not overflow. In a game played from a
    newly built engine on any well-formed board with waits that are not
    negative, whose total time leaves [headroom] below [INT_MAX] (ten seconds on
    a chess board), every time, square and difference that the arbiter computes from its
    state (motions, checkpoints, cooldowns, clock) fits an [int], and so do the
    sums of the next command. *)
Theorem ints_fit `{HashIter} sim b cs cmd :
  board_ok b → Forall (λ x, 0 ≤ waited x) (cs ++ [cmd]) →
  totalWait (cs ++ [cmd]) + headroom (Z.max (width b) (height b)) ≤ INT_MAX →
  let a := arbiter (play sim (newEngine b) cs) in
  Forall int_range (arbiterInts a) ∧ Forall int_range (commandInts a cmd).
Proof.
  intros Hok [Hcs [Hw _]%Forall_cons]%Forall_app Hroom. rewrite totalWait_app in Hroom. simpl in Hroom.
  set (n := Z.max _ _) in Hroom. cbv zeta.
  assert (0 ≤ totalWait cs) as H0 by by apply totalWait_nonneg.
  destruct (play_timely sim n cs (newEngine b) 0) as (_ & Hn & Ht); [done..| |].
  { split; [done|by intros m ?%elem_of_nil|intros id u; simpl; by rewrite lookup_empty]. }
  simpl in Ht. set (a := arbiter _) in *. split.
  - eapply arbiter_fit; [exact H0| |exact Ht]. lia.
  - eapply command_fit; [exact H0|done| |exact (tm_clock _ _ _ Ht)]. rewrite Hn. lia.
Qed.
