(* ===== verification/LoneMove.v ===== *)
(** * One move on a quiet board

    A piece that is the only one in flight, with nothing in its way: whatever the
    lengths of the ticks, the move is done in the first one that reaches its time,
    and until then the board shows what it showed. *)
From S2P Require Import Prelude Model Rules Double Motion Collision Arrival Arbiter ArbiterSteps CollisionSpec Lifecycle Engine EngineSpec EngineTheorems Overflow.

(** ** What a board shows: who stands where, whatever the states *)

Definition face (p : Piece) : Z * Color * Kind := (getId p, getColor p, getKind p).
Definition faces (b : Board) : Z * Z * list (Z * Color * Kind) := (width b, height b, face <$> grid b).
Definition who (b : Board) (pos : Position) : option (Z * Color * Kind) := face <$> getPiece b pos.

Lemma face_transition s p : face (transition s p) = face p.
Proof. unfold face. by autorewrite with kfc. Qed.

Lemma faces_who b b' pos : faces b = faces b' → who b pos = who b' pos.
Proof.
  intros [= Hw Hh Hg]. unfold who, getPiece, isWithinBounds, idx, index. rewrite Hw, Hh.
  destruct (_ && _); [|done]. by rewrite <-!list_lookup_fmap, Hg.
Qed.

Lemma who_piece b pos p : getPiece b pos = Some p → who b pos = Some (face p).
Proof. unfold who. by intros ->. Qed.

Lemma who_Some b pos x : who b pos = Some x → ∃ p, getPiece b pos = Some p ∧ face p = x.
Proof. unfold who. intros (p & -> & Hp)%fmap_Some. eauto. Qed.

Lemma faces_transitionAt s pos a : faces (board (transitionAt s pos a)) = faces (board a).
Proof.
  unfold transitionAt, onBoard, updatePiece; simpl. destruct (getPiece (board a) pos) as [p|] eqn:Hp; [|done].
  unfold getPiece in Hp. destruct (isWithinBounds _ _); [|done]. unfold faces; simpl. f_equal.
  rewrite list_fmap_insert, face_transition. apply list_insert_id. by rewrite list_lookup_fmap, Hp.
Qed.

Lemma updateFirst_fmap {B} (g : Piece → B) P f l : (∀ p, g (f p) = g p) → g <$> updateFirst P f l = g <$> l.
Proof. intros Hf. induction l as [|p l IH]; [done|]. simpl. destruct (P p); rewrite !fmap_cons, ?Hf, ?IH; done. Qed.

Lemma faces_byId s b id : faces (updatePieceById (transition s) b id) = faces b.
Proof. unfold faces, updatePieceById; simpl. by rewrite updateFirst_fmap by apply face_transition. Qed.

(** What the end of the rests leaves alone. *)
Definition untouched (pos : Position) (a a' : Arbiter) : Prop :=
  faces (board a') = faces (board a) ∧ captured_pieces a' = captured_pieces a ∧
  active_motions a' = active_motions a ∧ game_clock_ms a' = game_clock_ms a ∧
  (defended (getPiece (board a) pos) = false → defended (getPiece (board a') pos) = false).

Lemma endRest_untouched pos prev a e : untouched pos a (endRest prev a e).
Proof.
  unfold untouched, endRest. destruct (_ && _); [|done]. case_match; [|done]. simpl.
  split_and!; [apply faces_byId|done..|]. intros Hd.
  destruct (getPiece (updatePieceById _ _ _) pos) as [x|] eqn:Hp; [|done].
  apply getPiece_updatePieceById in Hp as [Hq|(q & Hq & _ & ->)]; rewrite Hq in Hd; simpl in *; [done|].
  rewrite transition_state. by case_match.
Qed.

Lemma untouched_trans pos a1 a2 a3 : untouched pos a1 a2 → untouched pos a2 a3 → untouched pos a1 a3.
Proof. intros (H1 & H2 & H3 & H4 & H5) (G1 & G2 & G3 & G4 & G5). unfold untouched. split_and!; try congruence. auto. Qed.

Lemma endRests_untouched pos prev es a : untouched pos a (foldl (endRest prev) a es).
Proof.
  apply (foldl_ind (untouched pos a)); [done|]. intros x e _ Hx. eapply untouched_trans; [done|apply endRest_untouched].
Qed.

(** ** One motion does not collide *)

Lemma foldl_same {A S} (f : S → A → S) l s : (∀ x, x ∈ l → f s x = s) → foldl f s l = s.
Proof. intros Hf. apply (foldl_ind (λ s', s' = s)); [done|]. intros s' x Hx ->. by apply Hf. Qed.

Section Lone.
Context `{HashIter}.
Variables (b : Board) (m : Motion) (prev clock : Z).

Lemma lone_occ x y : (x, y) ∈ pairs (collect b [m] prev clock).1 → occMeet x y = false.
Proof.
  intros [(m1 & j & H1 & _)%elem_of_collect_occ (m2 & j' & H2 & _)%elem_of_collect_occ]%elem_of_pairs_both.
  apply list_lookup_singleton_Some in H1 as [H1 _], H2 as [H2 _]. unfold occMeet. by rewrite H1, H2.
Qed.

Lemma lone_step x y : (x, y) ∈ pairs (collect b [m] prev clock).2 → stepMeet x y = false.
Proof.
  intros [(m1 & j & H1 & _)%elem_of_collect_step (m2 & j' & H2 & _)%elem_of_collect_step]%elem_of_pairs_both.
  apply list_lookup_singleton_Some in H1 as [H1 _], H2 as [H2 _]. unfold stepMeet. by rewrite H1, H2.
Qed.

Lemma findLosses_lone : findLosses b [m] prev clock = mkLosses [false] ∅.
Proof.
  unfold findLosses. rewrite (foldl_same (markOcc b [m])); [rewrite foldl_same; [done|]|].
  - intros [x y] Hxy. simpl. by rewrite lone_step.
  - intros [x y] Hxy. simpl. by rewrite lone_occ.
Qed.

Lemma findStopAt_lone : findStopAt b [m] prev clock = ∅.
Proof.
  unfold findStopAt. rewrite (foldl_same (blockOcc b [m])); [rewrite foldl_same; [done|]|].
  - intros [x y] Hxy. simpl. by rewrite lone_step.
  - intros [x y] Hxy. simpl. by rewrite lone_occ.
Qed.
End Lone.

Lemma setMotions_same a : setMotions (active_motions a) a = a.
Proof. by destruct a. Qed.

Lemma stationaryScan_clear b sl m mover prev clock pcp cps :
  (∀ cp, cp ∈ cps → cp.1 = to m ∨ ∃ i d, who b cp.1 = Some (i, d, NoKind)) →
  stationaryScan b sl m mover prev clock pcp cps = None.
Proof.
  revert pcp. induction cps as [|[cell t] cps IH]; intros pcp Hc; [done|]. cbn [stationaryScan].
  rewrite IH by (intros cp Hcp; apply Hc; by right). destruct (_ || _); [done|].
  destruct (Hc (cell, t)) as [Heq|(i & d & (p & Hp & Hf)%who_Some)]; [by left|simpl in Heq; subst cell; by rewrite posEq_refl|].
  simpl in Hp. rewrite Hp. injection Hf as _ _ ->. by case_match.
Qed.

Lemma who_movePiece b f t p pos :
  grid_ok b → f ≠ t → getPiece b f = Some p → isWithinBounds b t = true →
  who (movePiece b f t) pos =
    if decide (pos = f) then Some (face (makeEmpty f)) else if decide (pos = t) then Some (face p) else who b pos.
Proof.
  intros Hg Hft Hp Ht. unfold who. rewrite (movePiece_eq _ _ _ p) by done.
  pose proof (getPiece_bounds _ _ _ Hp). rewrite getPiece_setGrid by (try done; by apply grid_ok_setGrid).
  case_decide; [done|]. rewrite getPiece_setGrid by done. by case_decide.
Qed.

(** What an arriving piece becomes. *)
Definition promotedKind (b : Board) (pos : Position) (c : Color) (k : Kind) : Kind :=
  if kindEqb k Pawn && (row pos =? (if colorEqb c White then 0 else height b - 1)) then Queen else k.

Lemma who_promote m piece a y pos :
  grid_ok (board a) → isWithinBounds (board a) (to m) = true → getPiece (board a) (to m) = Some y → face y = face piece →
  who (board (promote m piece a)) pos =
    if decide (pos = to m)
    then Some (getId y, getColor y, promotedKind (board a) (to m) (getColor y) (getKind y)) else who (board a) pos.
Proof.
  intros Hg Hb Hy [= Hi Hc Hk]. unfold promote, promotedKind. cbv zeta. rewrite <-Hc, <-Hk.
  assert (∀ pos, who (board a) pos = if decide (pos = to m) then Some (face y) else who (board a) pos) as Hsame.
  { intros q. case_decide; [subst q; by apply who_piece|done]. }
  destruct (kindEqb (getKind y) Pawn); cbn [andb]; [|apply Hsame].
  destruct (row (to m) =? _); [|apply Hsame]. unfold who; simpl. unfold landed. rewrite Hb.
  rewrite (updatePiece_eq _ _ _ y), getPiece_setGrid by done. by case_decide.
Qed.

(** A landing that nothing prevents, as one [travel]. *)
Lemma resolve_landing m a p t :
  isJump m = false → getPiece (board a) (from m) = Some p → getId p = piece_id m →
  getPiece (board a) (to m) = Some t → defended (Some t) = false → getKind p = Knight ∨ getColor t ≠ getColor p →
  let a2 := transitionAt LongRest (from m) (setCooldown (piece_id m) (game_clock_ms a + LONG_REST_MS) a) in
  let p2 := transition LongRest p in
  resolve true (a, false) m =
    (promote m p2 (travel (from m) (to m) (victimOf m p2 (Some t)) (setCell (landed (board a2) m) p2) a2),
     kindEqb (getKind t) King).
Proof.
  intros Hj Hp Hid Ht Hd Hk a2 p2. unfold resolve. rewrite Hj. cbv zeta. subst a2.
  set (a1 := setCooldown _ _ a). change (board a1) with (board a). rewrite Hp, Hid, Z.eqb_refl, Ht, Hd. cbn [negb].
  replace (true && colorEqb (getColor t) (getColor p) && negb (kindEqb (getKind p) Knight)) with false.
  2:{ symmetry. destruct Hk as [-> |Hk]; [by rewrite andb_false_r|]. by rewrite (proj2 (colorEqb_false _ _)). }
  pose proof (resolve_tail m p (Some t) a1) as Htail. cbv zeta in Htail. unfold wasCaptureOf in Htail. rewrite Htail.
  by destruct (kindEqb (getKind t) King).
Qed.

Section Move.
Context `{HashIter}.
(** [m] is the motion of a piece of colour [c] and kind [k], on what [b0] shows. *)
Variables (m : Motion) (b0 : Board) (c : Color) (k : Kind).
Hypothesis goes : isJump m = false.
Hypothesis mover : who b0 (from m) = Some (piece_id m, c, k).
Hypothesis way : k = Knight ∨ ∀ cp, cp ∈ pathCheckpoints m → cp.1 = to m ∨ ∃ i d, who b0 cp.1 = Some (i, d, NoKind).
Hypothesis inside : isWithinBounds b0 (to m) = true.
Hypothesis target : k = Knight ∨ ∀ i d x, who b0 (to m) = Some (i, d, x) → d ≠ c.
#[local] Set Default Proof Using "Type*".

(** In flight; [dead] has been captured. *)
Record approaching (dead : list Piece) (a : Arbiter) : Prop := {
  ap_board : board_ok (board a);
  ap_faces : faces (board a) = faces b0;
  ap_motions : active_motions a = [m];
  ap_dead : captured_pieces a = dead;
  ap_open : defended (getPiece (board a) (to m)) = false
}.

Lemma approaching_mover dead a :
  approaching dead a → ∃ p, getPiece (board a) (from m) = Some p ∧ getId p = piece_id m ∧ getColor p = c ∧ getKind p = k.
Proof.
  intros Ha. assert (who (board a) (from m) = Some (piece_id m, c, k)) as (p & Hp & [= H1 H2 H3])%who_Some; [|eauto].
  rewrite <-mover. apply faces_who, Ha.
Qed.

Lemma collisionPhase_lone prev dead a : approaching dead a → collisionPhase true prev a = (a, false).
Proof.
  intros Ha. destruct (approaching_mover dead a Ha) as (p & Hp & _ & _ & Hk). pose proof (ap_motions _ _ Ha) as Hm.
  unfold collisionPhase, resolveCollisions. simpl. rewrite Hm, findLosses_lone. simpl.
  unfold resolveMovingFriendlyBlocks. rewrite Hm, findStopAt_lone, hash_iter_empty. simpl.
  unfold resolveStationaryBlocks. rewrite Hm. cbn [stationaryLoop]. rewrite goes, Hp.
  assert (setMotions ([] ++ [m]) a = a) as Hsame by (simpl; rewrite <-Hm; apply setMotions_same).
  rewrite Hk. destruct (kindEqb k Knight) eqn:Hn; [by rewrite Hsame|]. apply kindEqb_false in Hn.
  destruct way as [?|Hw]; [done|]. rewrite stationaryScan_clear; [by rewrite Hsame|].
  intros cp Hcp. rewrite (faces_who _ b0) by apply Ha. by apply Hw.
Qed.

(** The rests that end in a tick, and then nothing. *)
Definition rests (prev : Z) (a : Arbiter) : Arbiter := foldl (endRest prev) a (hash_iter (cooldown_until_ms a)).

Lemma tick_lone ms dead a :
  approaching dead a →
  let a0 := setClock (game_clock_ms a + ms) a in
  tick true ms a =
    if arrival_time_ms m <=? game_clock_ms a + ms
    then (rests (game_clock_ms a) (setMotions [] (resolve true (a0, false) m).1), (resolve true (a0, false) m).2)
    else (rests (game_clock_ms a) a0, false).
Proof.
  intros Ha a0. assert (approaching dead a0) as Ha0 by (destruct Ha; by split).
  rewrite tick_unfold, (collisionPhase_lone _ dead) by done. fold a0. rewrite (ap_motions _ _ Ha0).
  unfold arrived. rewrite filter_cons, filter_nil. change (game_clock_ms a0) with (game_clock_ms a + ms).
  destruct (arrival_time_ms m <=? _) eqn:E.
  - rewrite decide_True by done. cbn [foldl]. destruct (resolve_clock true (a0, false) m) as [Hc Hm].
    destruct (resolve true (a0, false) m) as [a3 kc]. cbn [fst snd] in *. rewrite Hm, (ap_motions _ _ Ha0), Hc.
    rewrite filter_cons, filter_nil. change (game_clock_ms a0) with (game_clock_ms a + ms). rewrite E. by rewrite decide_False by auto.
  - rewrite decide_False by auto. cbn [foldl]. rewrite (ap_motions _ _ Ha0), filter_cons, filter_nil.
    change (game_clock_ms a0) with (game_clock_ms a + ms). rewrite E, decide_True by done.
    by rewrite <-(ap_motions _ _ Ha0), setMotions_same.
Qed.

Lemma tick_before ms dead a :
  approaching dead a → game_clock_ms a + ms < arrival_time_ms m →
  approaching dead (tick true ms a).1 ∧ (tick true ms a).2 = false ∧ game_clock_ms (tick true ms a).1 = game_clock_ms a + ms.
Proof.
  intros Ha Hms. pose proof (asteps_board_ok _ _ (tick_asteps true ms a (ap_board _ _ Ha)) (ap_board _ _ Ha)) as Hok.
  pose proof (tick_lone ms dead a Ha) as Ht. cbv zeta in Ht. rewrite (proj2 (Z.leb_gt _ _)) in Ht by done.
  rewrite Ht in *. cbn [fst snd] in *. set (a0 := setClock _ a) in *.
  destruct (endRests_untouched (to m) (game_clock_ms a) (hash_iter (cooldown_until_ms a0)) a0) as (H1 & H2 & H3 & H4 & H5).
  split_and!; [|done|exact H4]. destruct Ha as [A1 A2 A3 A4 A5]. split; [done|etrans; [exact H1|done]|etrans; [exact H3|done]|etrans; [exact H2|done]|by apply H5].
Qed.

(** Landed: where everything is now, and whether a king was taken. *)
Definition afterwards (pos : Position) : option (Z * Color * Kind) :=
  if decide (pos = from m) then Some (0, NoColor, NoKind)
  else if decide (pos = to m) then Some (piece_id m, c, promotedKind b0 (to m) c k) else who b0 pos.
Definition taken : list Z :=
  match who b0 (to m) with Some (i, _, NoKind) => [] | Some (i, _, _) => [i] | None => [] end.
Definition kingTaken : bool := match who b0 (to m) with Some (_, _, King) => true | _ => false end.

Record arrivedBoard (dead : list Piece) (a : Arbiter) : Prop := {
  ab_board : board_ok (board a);
  ab_who : ∀ pos, who (board a) pos = afterwards pos;
  ab_motions : active_motions a = [];
  ab_dead : getId <$> captured_pieces a = (getId <$> dead) ++ taken
}.

Lemma landing_who a2 p2 v moved pos :
  grid_ok (board a2) → faces (board a2) = faces b0 → getPiece (board a2) (from m) = Some p2 → face p2 = (piece_id m, c, k) →
  who (board (promote m p2 (travel (from m) (to m) v moved a2))) pos = afterwards pos.
Proof.
  intros Hg2 Hf2 Hp2 Hface. assert (from m ≠ to m) as Hne by (by apply posEq_false).
  pose proof (travel_board (from m) (to m) v moved p2 a2 Hg2 Hne Hp2) as Hb. pose proof Hf2 as [= Hw Hh _].
  set (y := setCell (to m) p2). set (a3 := travel _ _ _ _ a2) in *.
  assert (isWithinBounds (board a2) (to m) = true) as Hin2 by (rewrite <-inside; unfold isWithinBounds; by rewrite Hw, Hh).
  assert (getPiece (board a3) (to m) = Some y) as Hy.
  { rewrite Hb. pose proof (getPiece_movePiece _ _ _ _ Hg2 Hne Hp2) as Hm. by rewrite Hin2 in Hm. }
  assert (height (board a3) = height b0) as Hh3 by (rewrite Hb; unfold movePiece; repeat case_match; exact Hh).
  rewrite (who_promote m p2 a3 y); [|rewrite Hb, (movePiece_eq _ _ _ p2) by done; by repeat apply grid_ok_setGrid
    |by rewrite Hb, isWithinBounds_movePiece|done|done].
  unfold promotedKind. rewrite Hh3, Hb, (who_movePiece _ _ _ p2) by done. rewrite (faces_who _ b0) by done.
  unfold afterwards. injection Hface as Hi2 Hc2 Hk2.
  change (getId y) with (getId p2). change (getColor y) with (getColor p2). change (getKind y) with (getKind p2).
  rewrite Hi2, Hc2, Hk2. destruct (decide (pos = to m)) as [->|]; [by rewrite decide_False by done|by destruct (decide (pos = from m))].
Qed.

Lemma resolve_lands dead a :
  approaching dead a →
  let r := resolve true (a, false) m in
  board_ok (board r.1) ∧ (∀ pos, who (board r.1) pos = afterwards pos) ∧
  (getId <$> captured_pieces r.1 = (getId <$> dead) ++ taken) ∧ r.2 = kingTaken.
Proof.
  intros Ha r. pose proof (ap_board _ _ Ha) as Hok. pose proof (board_grid _ Hok) as Hg.
  split; [exact (asteps_board_ok _ _ (resolve_asteps true (a, false) m Hok) Hok)|].
  destruct (approaching_mover dead a Ha) as (p & Hp & Hid & Hcol & Hkind).
  pose proof (ap_faces _ _ Ha) as Hf. injection Hf as Hw Hh Hgr.
  assert (isWithinBounds (board a) (to m) = true) as Hin by (rewrite <-inside; unfold isWithinBounds; by rewrite Hw, Hh).
  destruct (getPiece_is_Some _ _ Hg Hin) as [t Ht].
  assert (who b0 (to m) = Some (face t)) as Hwho.
  { rewrite <-(faces_who (board a)) by apply Ha. by apply who_piece. }
  assert (from m ≠ to m) as Hne by (by apply posEq_false).
  assert (getKind p = Knight ∨ getColor t ≠ getColor p) as Hland.
  { destruct target as [->|Htg]; [by left|right]. rewrite Hcol. by eapply Htg. }
  assert (defended (Some t) = false) as Hopen by (rewrite <-Ht; apply Ha).
  unfold r. rewrite (resolve_landing m a p t) by done. cbv zeta. cbn [fst snd].
  set (a1 := setCooldown _ _ a). set (a2 := transitionAt LongRest (from m) a1). set (p2 := transition LongRest p).
  assert (grid_ok (board a2)) as Hg2 by exact (board_grid _ (board_ok_transition (board a) (from m) LongRest ltac:(done) ltac:(done) ltac:(done) Hok)).
  assert (getPiece (board a2) (from m) = Some p2) as Hp2 by by apply transitionAt_same.
  assert (faces (board a2) = faces b0) as Hf2 by (unfold a2; rewrite faces_transitionAt; apply Ha).
  split_and!.
  - intros pos. by apply landing_who; [..|unfold p2; rewrite face_transition; unfold face; congruence].
  - assert (captured_pieces a2 = dead) as Hd by apply Ha.
    unfold promote. cbv zeta. unfold taken, victimOf, isReal. rewrite Hwho. unfold face.
    repeat case_match; simpl; rewrite ?fmap_app, ?Hd, ?app_nil_r; simpl; rewrite ?transition_id; try done.
    all: by rewrite (ap_dead _ _ Ha).
  - unfold kingTaken. rewrite Hwho. unfold face. by destruct (getKind t).
Qed.

Lemma tick_arrives ms dead a :
  approaching dead a → arrival_time_ms m ≤ game_clock_ms a + ms →
  arrivedBoard dead (tick true ms a).1 ∧ (tick true ms a).2 = kingTaken ∧ game_clock_ms (tick true ms a).1 = game_clock_ms a + ms.
Proof.
  intros Ha Hms. pose proof (asteps_board_ok _ _ (tick_asteps true ms a (ap_board _ _ Ha)) (ap_board _ _ Ha)) as Hok.
  pose proof (tick_lone ms dead a Ha) as Ht. cbv zeta in Ht. rewrite (proj2 (Z.leb_le _ _)) in Ht by done.
  set (a0 := setClock _ a) in *. assert (approaching dead a0) as Ha0 by (destruct Ha; by split).
  destruct (resolve_lands dead a0 Ha0) as (_ & Hwho & Hdead & Hk). destruct (resolve_clock true (a0, false) m) as [Hc _].
  rewrite Ht in *. cbn [fst snd] in *. set (a3 := setMotions [] _) in *.
  destruct (endRests_untouched (to m) (game_clock_ms a) (hash_iter (cooldown_until_ms a3)) a3) as (H1 & H2 & H3 & H4 & _).
  split_and!; [|exact Hk|etrans; [exact H4|exact Hc]]. split; [done| |exact H3|unfold rests; by rewrite H2].
  intros pos. rewrite <-Hwho. by apply faces_who.
Qed.

Lemma tick_after ms dead a :
  arrivedBoard dead a → arrivedBoard dead (tick true ms a).1 ∧ (tick true ms a).2 = false ∧
  game_clock_ms (tick true ms a).1 = game_clock_ms a + ms.
Proof.
  intros Ha. pose proof (asteps_board_ok _ _ (tick_asteps true ms a (ab_board _ _ Ha)) (ab_board _ _ Ha)) as Hok.
  set (a0 := setClock (game_clock_ms a + ms) a). assert (tick true ms a = (rests (game_clock_ms a) a0, false)) as Ht.
  { rewrite tick_unfold. fold a0. assert (active_motions a0 = []) as Hm by apply Ha.
    pose proof (collisionPhase_idle true (game_clock_ms a) a0 Hm) as Hc.
    assert ((collisionPhase true (game_clock_ms a) a0).2 = false) as Hk.
    { unfold collisionPhase, resolveCollisions. simpl. change (active_motions a) with (active_motions a0). by rewrite Hm. }
    destruct (collisionPhase _ _ _) as [a2 kc]. cbn [fst snd] in *. subst a2 kc. rewrite Hm, filter_nil. cbn [foldl].
    assert (setMotions (filter (λ m, negb (arrived a0 m)) (active_motions a0)) a0 = a0) as ->; [|done].
    rewrite Hm, filter_nil, <-Hm. apply setMotions_same. }
  rewrite Ht in *. cbn [fst snd] in *.
  destruct (endRests_untouched (to m) (game_clock_ms a) (hash_iter (cooldown_until_ms a0)) a0) as (H1 & H2 & H3 & H4 & _).
  split_and!; [|done|exact H4]. destruct Ha as [A1 A2 A3 A4]. split; [done| |by etrans; [exact H3|]|unfold rests; by rewrite H2].
  intros pos. rewrite <-A2. by apply faces_who.
Qed.
End Move.

(** ** The engine *)
Section Engine.
Context `{HashIter}.

(** Nothing flies and nothing is queued. *)
Record quiet (e : GameEngine) : Prop := {
  qt_board : board_ok (board (arbiter e));
  qt_over : game_over e = false;
  qt_motions : active_motions (arbiter e) = [];
  qt_premoves : premoves e = ∅
}.

(** A move with free squares on its way to a square of nobody or of an enemy. *)
Record freeMove (b : Board) (f t : Position) (p q : Piece) : Prop := {
  fm_legal : legal_move b f t true;
  fm_mover : getPiece b f = Some p;
  fm_idle : getState p = Idle;
  fm_way : getKind p = Knight ∨ clearPath b f t;
  fm_target : getPiece b t = Some q;
  fm_open : defended (Some q) = false;
  fm_enemy : getKind p = Knight ∨ getColor q ≠ getColor p
}.

(** Who stands where once [p] has gone from [f] to [t]. *)
Definition afterMove (b : Board) (f t : Position) (p : Piece) (pos : Position) : option (Z * Color * Kind) :=
  if decide (pos = f) then Some (0, NoColor, NoKind)
  else if decide (pos = t) then Some (getId p, getColor p, promotedKind b t (getColor p) (getKind p)) else who b pos.

Lemma legal_straight b f t p : legal_move b f t true → getPiece b f = Some p → getKind p ≠ Knight →
  ∀ s a i, straight (mkMotion f t s a i).
Proof.
  intros Hl Hp Hk s a i. destruct (legal_move_piece _ _ _ _ _ Hl Hp) as (_ & _ & Hs). unfold straight; simpl.
  unfold shape_ok, dist, forward in Hs. destruct (getKind p); try destruct (colorEqb _ _); try done; lia.
Qed.

Lemma free_way b f t p q s a i :
  freeMove b f t p q → getKind p = Knight ∨
  ∀ cp, cp ∈ pathCheckpoints (mkMotion f t s a i) → cp.1 = t ∨ ∃ i d, who b cp.1 = Some (i, d, NoKind).
Proof.
  intros Hf. destruct (decide (getKind p = Knight)) as [?|Hk]; [by left|right].
  destruct (fm_way _ _ _ _ _ Hf) as [?|Hw]; [done|].
  pose proof (legal_straight _ _ _ _ (fm_legal _ _ _ _ _ Hf) (fm_mover _ _ _ _ _ Hf) Hk s a i) as Hst.
  intros cp [n Hn]%list_elem_of_lookup. rewrite pathCheckpoints_lookup in Hn by done.
  case_decide as Hlt; [|done]. injection Hn as <-. simpl. unfold pathSteps in Hlt; simpl in Hlt.
  destruct (decide (Z.of_nat n + 1 = dist f t)) as [Heq|Hne].
  - left. clear -Hst Heq. unfold straight, dist, between, along, offset in *; simpl in *.
    destruct f as [r x], t as [r' x']; simpl in *. f_equal; lia.
  - right. specialize (Hw (Z.of_nat n + 1) ltac:(unfold dist in *; lia)). apply isCellEmpty_spec in Hw as (y & Hy & Hk').
    exists (getId y), (getColor y). rewrite (who_piece _ _ y) by done. unfold face. by rewrite Hk'.
Qed.

Lemma requestMove_free e f t p q :
  quiet e → freeMove (board (arbiter e)) f t p q →
  let m := requested e f t p in
  requestMove true f t e = (setArbiter (transitionAt Moving f (setMotions [m] (arbiter e))) e, mkResult true "ok").
Proof.
  intros [Hok Ho Hm Hpm] Hf m. pose proof (fm_mover _ _ _ _ _ Hf) as Hp. pose proof (fm_legal _ _ _ _ _ Hf) as Hl.
  unfold requestMove. rewrite Ho, Hp, (fm_idle _ _ _ _ _ Hf). cbn [isBusyState isRestingState].
  destruct (startMove_cases true f t e Hok) as [[Hn _]|(p' & _ & Hp' & Hs)]; [done|]. assert (p' = p) as -> by congruence.
  rewrite Hs. unfold addMotion, applyNearMiss. simpl. rewrite Hp, Hm. by destruct (kindEqb (getKind p) Knight).
Qed.

Lemma wait_quiet ms e :
  premoves e = ∅ →
  wait true ms e = mkEngine (tick true ms (arbiter e)).1 (if (tick true ms (arbiter e)).2 then true else game_over e) ∅.
Proof.
  intros Hp. unfold wait, firePremoves. destruct (tick _ _ _) as [a kc]. simpl. by rewrite Hp, hash_iter_empty.
Qed.

Section Waits.
Variables (m : Motion) (b0 : Board) (c : Color) (k : Kind).
Hypothesis goes : isJump m = false.
Hypothesis mover : who b0 (from m) = Some (piece_id m, c, k).
Hypothesis way : k = Knight ∨ ∀ cp, cp ∈ pathCheckpoints m → cp.1 = to m ∨ ∃ i d, who b0 cp.1 = Some (i, d, NoKind).
Hypothesis inside : isWithinBounds b0 (to m) = true.
Hypothesis target : k = Knight ∨ ∀ i d x, who b0 (to m) = Some (i, d, x) → d ≠ c.
#[local] Set Default Proof Using "Type*".

Definition waits (e : GameEngine) (ws : list Z) : GameEngine := play true e (CWait <$> ws).

Lemma waits_landed ws dead e :
  premoves e = ∅ → arrivedBoard m b0 c k dead (arbiter e) →
  arrivedBoard m b0 c k dead (arbiter (waits e ws)) ∧ game_over (waits e ws) = game_over e.
Proof.
  revert e. induction ws as [|ms ws IH]; intros e Hp Ha; [done|].
  destruct (tick_after m b0 c k goes mover way inside target ms dead _ Ha) as (H1 & H2 & _).
  change (waits e (ms :: ws)) with (waits (wait true ms e) ws). rewrite wait_quiet by done. rewrite H2.
  apply (IH (mkEngine _ (game_over e) ∅)); done.
Qed.

Lemma waits_flying ws dead e :
  premoves e = ∅ → game_over e = false → approaching m b0 dead (arbiter e) →
  game_clock_ms (arbiter e) < arrival_time_ms m → Forall (λ ms, 0 ≤ ms) ws →
  let e' := waits e ws in
  if arrival_time_ms m <=? game_clock_ms (arbiter e) + totalWait (CWait <$> ws)
  then arrivedBoard m b0 c k dead (arbiter e') ∧ game_over e' = kingTaken m b0
  else approaching m b0 dead (arbiter e') ∧ game_over e' = false.
Proof.
  revert e. induction ws as [|ms ws IH]; intros e Hp Ho Ha Hlt Hws; cbv zeta.
  { simpl. by rewrite Z.add_0_r, (proj2 (Z.leb_gt _ _)). }
  apply Forall_cons in Hws as [Hms Hws]. change (waits e (ms :: ws)) with (waits (wait true ms e) ws).
  rewrite wait_quiet by done. change (totalWait (CWait <$> ms :: ws)) with (ms + totalWait (CWait <$> ws)). rewrite Z.add_assoc.
  assert (0 ≤ totalWait (CWait <$> ws)) as H0 by (apply totalWait_nonneg; by apply Forall_fmap).
  destruct (arrival_time_ms m <=? game_clock_ms (arbiter e) + ms) eqn:E; b2p.
  - destruct (tick_arrives m b0 c k goes mover way inside target ms dead _ Ha E) as (H1 & H2 & _).
    rewrite (proj2 (Z.leb_le _ _)) by lia. rewrite H2, Ho.
    destruct (waits_landed ws dead (mkEngine (tick true ms (arbiter e)).1 (if kingTaken m b0 then true else false) ∅)) as [H3 H4]; [done..|].
    split; [done|]. rewrite H4. simpl. by case_match.
  - destruct (tick_before m b0 c k goes mover way inside target ms dead _ Ha E) as (H1 & H2 & H3). rewrite H2, Ho.
    pose proof (IH (mkEngine (tick true ms (arbiter e)).1 false ∅) eq_refl eq_refl H1 ltac:(simpl; lia) Hws) as Hi.
    cbn [arbiter] in Hi. by rewrite H3 in Hi.
Qed.
End Waits.

Lemma begin_approaching e f t p q :
  quiet e → freeMove (board (arbiter e)) f t p q →
  let m := requested e f t p in
  approaching m (board (arbiter e)) (captured_pieces (arbiter e)) (transitionAt Moving f (setMotions [m] (arbiter e))).
Proof using H.
  intros Hq Hf m. destruct (exec_asteps true e (CMove f t) (qt_board _ Hq)) as [kc Hs]. unfold exec in Hs.
  rewrite (requestMove_free e f t p q) in Hs by done. cbn [fst setArbiter arbiter] in Hs.
  split; [exact (asteps_board_ok _ _ Hs (qt_board _ Hq))|by rewrite faces_transitionAt|done..|].
  rewrite transitionAt_other; [|apply (board_grid _ (qt_board _ Hq))|].
  - simpl. rewrite (fm_target _ _ _ _ _ Hf). apply Hf.
  - pose proof (legal_move_ne _ _ _ _ (fm_legal _ _ _ _ _ Hf)) as Hne. simpl. by intros ->.
Qed.

Lemma taken_at m b q :
  getPiece b (to m) = Some q →
  taken m b = (if isReal q then [getId q] else []) ∧ kingTaken m b = kindEqb (getKind q) King.
Proof. intros Hq. unfold taken, kingTaken. rewrite (who_piece _ _ q) by done. unfold face, isReal. by destruct (getKind q). Qed.

Lemma travel_positive f t : f ≠ t → 0 < calcTravelTime f t.
Proof.
  intros Hne. unfold calcTravelTime, MS_PER_SQUARE_TRAVELED. destruct f as [r x], t as [r' x']; simpl.
  assert (r ≠ r' ∨ x ≠ x') by (destruct (decide (r = r')) as [->|]; [right; congruence|by left]). lia.
Qed.

(** C5 A move on a quiet board, end to end: when nothing flies and nothing is
    queued, a legal move of an idle piece with free squares on its way, to a
    square that is empty or an undefended enemy's (for a knight, anyone's), is
    accepted, and what follows depends on the time passed alone, however it is
    cut into ticks.  Before the move's travel time every square shows what it
    showed; from then on the source is empty, the piece stands on the
    destination (a pawn on its last row as a queen), exactly the piece that stood
    there is captured, all other squares show what they showed, and the game is
    over exactly when that was a king. *)
Theorem free_move_lands e f t p q ws :
  quiet e → freeMove (board (arbiter e)) f t p q → Forall (λ ms, 0 ≤ ms) ws →
  let b := board (arbiter e) in
  let landed := calcTravelTime f t <=? totalWait (CWait <$> ws) in
  let e' := waits (requestMove true f t e).1 ws in
  (requestMove true f t e).2 = mkResult true "ok" ∧
  (∀ pos, who (board (arbiter e')) pos = if landed then afterMove b f t p pos else who b pos) ∧
  getId <$> captured_pieces (arbiter e') =
    (getId <$> captured_pieces (arbiter e)) ++ (if landed && isReal q then [getId q] else []) ∧
  game_over e' = landed && kindEqb (getKind q) King ∧
  (active_motions (arbiter e') = [] ↔ landed = true).
Proof.
  intros Hq Hf Hws b landed e'. pose proof (requestMove_free e f t p q Hq Hf) as Hr. cbv zeta in Hr. unfold e'. rewrite Hr.
  cbn [fst snd]. split; [done|]. pose proof (fm_legal _ _ _ _ _ Hf) as Hl.
  pose proof (legal_move_ne _ _ _ _ Hl) as Hne. pose proof (fm_target _ _ _ _ _ Hf) as Ht.
  pose proof (waits_flying (requested e f t p) b (getColor p) (getKind p)) as Hw.
  specialize (Hw ltac:(by apply posEq_false) (who_piece _ _ _ (fm_mover _ _ _ _ _ Hf)) (free_way _ _ _ _ _ _ _ _ Hf)
    (getPiece_bounds _ _ _ Ht)).
  assert (getKind p = Knight ∨ ∀ i d x, who b t = Some (i, d, x) → d ≠ getColor p) as Hen.
  { destruct (fm_enemy _ _ _ _ _ Hf) as [?|He]; [by left|right]. intros i d x. rewrite (who_piece _ _ q) by done. by intros [= _ <- _]. }
  specialize (Hw Hen ws (captured_pieces (arbiter e)) _ (qt_premoves _ Hq : premoves (setArbiter _ e) = ∅) (qt_over _ Hq)
    (begin_approaching e f t p q Hq Hf)).
  pose proof (travel_positive f t Hne). specialize (Hw ltac:(simpl; lia) Hws). cbv zeta in Hw. simpl in Hw.
  fold (totalWait (CWait <$> ws)) in Hw.
  assert (∀ x y z, (x + y <=? x + z) = (y <=? z)) as Hshift by (intros x y z; destruct (Z.leb_spec (x + y) (x + z)), (Z.leb_spec y z); lia || done).
  rewrite Hshift in Hw. fold landed in Hw.
  destruct (taken_at (requested e f t p) b q Ht) as [Htk Hkt]. destruct landed; destruct Hw as [Ha Ho].
  - split_and!; [apply Ha| | |by split; [|intros; apply Ha]].
    + by rewrite (ab_dead _ _ _ _ _ _ Ha), Htk.
    + by rewrite Ho, Hkt.
  - split_and!.
    + intros pos. apply faces_who, Ha.
    + by rewrite (ap_dead _ _ _ _ Ha), app_nil_r.
    + done.
    + by rewrite (ap_motions _ _ _ _ Ha).
Qed.
End Engine.
