(* ===== verification/Json.v ===== *)
(** * JSON values

    The part of [nlohmann::json] the code uses, as its documentation states it:
    a value is null, a boolean, an integer, a floating-point number, a string,
    an array, or an object ordered by key; [at], [value], [get] and iteration
    throw on a value of the wrong type.  Text ([dump], [parse]) stays a
    parameter of the components that need it. *)
From S2P Require Import Prelude Double Text.
From Stdlib Require Import SpecFloat String.

#[global] Open Scope Z_scope.

Inductive json :=
  | JNull
  | JBool (b : bool)
  | JInt (z : Z)
  | JDouble (d : double)
  | JString (s : string)
  | JArray (l : list json)
  | JObject (fields : list (string * json)).

Definition type_name (j : json) : string :=
  match j with
  | JNull => "null" | JBool _ => "boolean" | JInt _ => "number" | JDouble _ => "number"
  | JString _ => "string" | JArray _ => "array" | JObject _ => "object"
  end.

(** ** Objects *)

(** [std::map::operator[]] assignment: the fields stay sorted by key. *)
Fixpoint insertField (key : string) (v : json) (fields : list (string * json)) : list (string * json) :=
  match fields with
  | [] => [(key, v)]
  | (k, w) :: fields =>
    match String.compare key k with
    | Lt => (key, v) :: (k, w) :: fields
    | Eq => (key, v) :: fields
    | Gt => (k, w) :: insertField key v fields
    end
  end.

Fixpoint findField (key : string) (fields : list (string * json)) : option json :=
  match fields with
  | [] => None
  | (k, v) :: fields => if String.eqb k key then Some v else findField key fields
  end.

(** An object written as a braced list (no key is written twice). *)
Definition jObj (fields : list (string * json)) : json :=
  JObject (foldl (λ acc kv, insertField kv.1 kv.2 acc) [] fields).

(** [j.at(key)]. *)
Definition jAt (key : string) (j : json) : result json :=
  match j with
  | JObject fields =>
    of_option ("[json.exception.out_of_range.403] key '" +:+ key +:+ "' not found") (findField key fields)
  | _ => Throw ("[json.exception.type_error.304] cannot use at() with " +:+ type_name j)
  end.

(** [j[key] = v] (a null becomes an object first). *)
Definition jSet (key : string) (v : json) (j : json) : result json :=
  match j with
  | JObject fields => Ok (JObject (insertField key v fields))
  | JNull => Ok (JObject [(key, v)])
  | _ => Throw ("[json.exception.type_error.305] cannot use operator[] with a string argument with " +:+ type_name j)
  end.

(** [j.contains(key)]. *)
Definition jContains (key : string) (j : json) : bool :=
  match j with JObject fields => bool_decide (is_Some (findField key fields)) | _ => false end.

(** [j.value(key, default)] with the conversion of the default's type. *)
Definition jValue {A} (get : json → result A) (key : string) (default : A) (j : json) : result A :=
  match j with
  | JObject fields => match findField key fields with Some v => get v | None => Ok default end
  | _ => Throw ("[json.exception.type_error.306] cannot use value() with " +:+ type_name j)
  end.

(** [for (const auto& x : j)]. *)
Definition jItems (j : json) : list json :=
  match j with
  | JArray l => l
  | JObject fields => map snd fields
  | JNull => []
  | _ => [j]
  end.

(** ** Conversions *)

Definition wrongType (expected : string) (j : json) : string :=
  "[json.exception.type_error.302] type must be " +:+ expected +:+ ", but is " +:+ type_name j.

Definition getString (j : json) : result string :=
  match j with JString s => Ok s | _ => Throw (wrongType "string" j) end.

Definition getBool (j : json) : result bool :=
  match j with JBool b => Ok b | _ => Throw (wrongType "boolean" j) end.

Definition getJson (j : json) : result json := Ok j.

(** [static_cast] of an integer to 32 and to 64 bits. *)
Definition wrap32 (z : Z) : Z := (z + 2147483648) mod 4294967296 - 2147483648.
Definition wrap64 (z : Z) : Z := (z + 9223372036854775808) mod 18446744073709551616 - 9223372036854775808.

(** [get<int>]: booleans convert too.  A double that no [int] holds is undefined
    behaviour there; here it wraps, and the theorems ask for integers that fit. *)
Definition getInt (j : json) : result Z :=
  match j with
  | JInt z => Ok (wrap32 z)
  | JDouble d => Ok (wrap32 (dTrunc d))
  | JBool b => Ok (if b then 1 else 0)
  | _ => Throw (wrongType "number" j)
  end.

(** [get<long long>]: the integer type of the library, no booleans. *)
Definition getLong (j : json) : result Z :=
  match j with
  | JInt z => Ok (wrap64 z)
  | JDouble d => Ok (wrap64 (dTrunc d))
  | _ => Throw (wrongType "number" j)
  end.

(** [get<double>]. *)
Definition getDouble (j : json) : result double :=
  match j with
  | JInt z => Ok (dOfInt z)
  | JDouble d => Ok d
  | _ => Throw (wrongType "number" j)
  end.

Definition jEmpty : json := JObject [].
Definition jStr (key : string) (j : json) : result string := v ← jAt key j; getString v.
Definition jInt (key : string) (j : json) : result Z := v ← jAt key j; getInt v.

(** ** Lemmas *)

Lemma wrap32_id z : int_range z → wrap32 z = z.
Proof.
  unfold int_range, INT_MIN, INT_MAX, wrap32. intros Hz. rewrite Z.mod_small; lia.
Qed.

Lemma wrap32_range z : int_range (wrap32 z).
Proof.
  unfold int_range, INT_MIN, INT_MAX, wrap32.
  pose proof (Z.mod_pos_bound (z + 2147483648) 4294967296). lia.
Qed.

Lemma getInt_JInt z : int_range z → getInt (JInt z) = Ok z.
Proof. intros Hz. simpl. by rewrite wrap32_id. Qed.

Lemma compare_refl s : String.compare s s = Eq.
Proof. induction s as [|c s IH]; simpl; [done|]. unfold Ascii.compare. by rewrite N.compare_refl. Qed.

Lemma findField_insert key v fields :
  findField key (insertField key v fields) = Some v.
Proof.
  induction fields as [|[k w] fields IH]; simpl; [by rewrite String.eqb_refl|].
  destruct (String.compare key k) eqn:Hc; simpl; [by rewrite String.eqb_refl|by rewrite String.eqb_refl|].
  destruct (String.eqb_spec k key) as [->|]; [|done]. by rewrite compare_refl in Hc.
Qed.

Lemma findField_insert_ne key key' v fields :
  key' ≠ key → findField key' (insertField key v fields) = findField key' fields.
Proof.
  intros Hne. induction fields as [|[k w] fields IH]; simpl.
  - by destruct (String.eqb_spec key key').
  - destruct (String.compare key k) eqn:Hc; simpl.
    + apply String.compare_eq_iff in Hc as ->. by destruct (String.eqb_spec k key').
    + by destruct (String.eqb_spec key key').
    + by rewrite IH.
Qed.

Lemma jAt_Ok key j v : jAt key j = Ok v ↔ ∃ fields, j = JObject fields ∧ findField key fields = Some v.
Proof.
  split.
  - destruct j as [| | | | | |fields]; try done. simpl. intros Hf. exists fields. split; [done|].
    unfold of_option in Hf. destruct (findField key fields); [by injection Hf as ->|done].
  - intros (fields & -> & Hf). simpl. by rewrite Hf.
Qed.

(** The value of a key of a braced object: the entry written for it. *)
Lemma findField_foldl key fields acc :
  findField key (foldl (λ acc kv, insertField kv.1 kv.2 acc) acc fields) =
  match findField key (reverse fields) with Some v => Some v | None => findField key acc end.
Proof.
  assert (∀ l1 l2, findField key (l1 ++ l2) =
    match findField key l1 with Some v => Some v | None => findField key l2 end) as Happ.
  { intros l1 l2. induction l1 as [|[k w] l1 IH]; simpl; [done|].
    by destruct (String.eqb k key). }
  revert acc. induction fields as [|[k v] fields IH]; intros acc; simpl; [done|].
  rewrite IH, reverse_cons, Happ. destruct (findField key (reverse fields)); [done|]. simpl.
  destruct (String.eqb_spec k key) as [->|Hne]; [apply findField_insert|].
  by apply findField_insert_ne.
Qed.

Lemma jAt_obj key fields :
  jAt key (jObj fields) =
  of_option ("[json.exception.out_of_range.403] key '" +:+ key +:+ "' not found")
    (findField key (reverse fields)).
Proof. unfold jObj, jAt. rewrite findField_foldl. by destruct (findField _ _). Qed.

Lemma jValue_obj {A} (get : json → result A) key d fields :
  jValue get key d (jObj fields) =
  match findField key (reverse fields) with Some v => get v | None => Ok d end.
Proof. unfold jObj, jValue. rewrite findField_foldl. by destruct (findField _ _). Qed.

Lemma jContains_obj key fields :
  jContains key (jObj fields) = bool_decide (is_Some (findField key (reverse fields))).
Proof.
  unfold jObj, jContains. rewrite findField_foldl. apply bool_decide_ext.
  destruct (findField _ _); [done|]. simpl. split; intros [? ?]; done.
Qed.

(** The fields of concrete objects. *)
Ltac jfields :=
  unfold jStr, jInt;
  repeat (rewrite ?jAt_obj, ?jValue_obj, ?jContains_obj, ?result_bind_Ok; cbn [of_option findField reverse rev_append
    String.eqb Ascii.eqb Bool.eqb fst snd mbind result_bind mret result_ret]).

(** ** Text

    [dump] and [parse] are the library's.  What the code relies on: a value
    whose strings are UTF-8 and whose numbers are finite is read back from its
    text.  (The library refuses to write other strings, and writes [null] for
    other numbers.) *)

Definition finite (d : double) : bool :=
  match d with S754_zero _ => true | S754_finite _ _ _ => true | _ => false end.

Fixpoint jsonText (utf8 : string → bool) (j : json) : bool :=
  match j with
  | JNull | JBool _ | JInt _ => true
  | JDouble d => finite d
  | JString s => utf8 s
  | JArray l => forallb (jsonText utf8) l
  | JObject fields => forallb (λ kv, utf8 kv.1 && jsonText utf8 kv.2) fields
  end.

(** What [dump] accepts: it throws on a string that is not UTF-8. *)
Fixpoint jsonStrings (utf8 : string → bool) (j : json) : bool :=
  match j with
  | JString s => utf8 s
  | JArray l => forallb (jsonStrings utf8) l
  | JObject fields => forallb (λ kv, utf8 kv.1 && jsonStrings utf8 kv.2) fields
  | _ => true
  end.

Definition ascii7 (s : string) : bool := allChars (λ c, Nat.ltb (Ascii.nat_of_ascii c) 128) s.

Class JsonText := {
  dump : json → string;
  parse : string → result json;
  utf8 : string → bool;
  utf8_ascii7 : ∀ s, ascii7 s = true → utf8 s = true;
  parse_dump : ∀ j, jsonText utf8 j = true → parse (dump j) = Ok j;
  (** Control characters are escaped, NUL among them. *)
  dump_c_str : ∀ j, c_str (dump j) = dump j
}.

(** [j.dump()], exceptions included. *)
Definition dumpR `{JsonText} (j : json) : result string :=
  if jsonStrings utf8 j then Ok (dump j)
  else Throw "[json.exception.type_error.316] invalid UTF-8 byte".

Lemma forallb_insertField (P : string * json → bool) key v fields :
  P (key, v) = true → forallb P fields = true → forallb P (insertField key v fields) = true.
Proof.
  intros Hv. induction fields as [|[k w] fields IH]; simpl; [by rewrite Hv|].
  intros [Hw Hf]%andb_true_iff. destruct (String.compare key k); simpl; rewrite ?Hv, ?Hw, ?Hf; auto.
Qed.

Lemma jsonText_obj f fields :
  forallb (λ kv, f kv.1 && jsonText f kv.2) fields = true → jsonText f (jObj fields) = true.
Proof.
  unfold jObj. cut (∀ acc, forallb (λ kv, f kv.1 && jsonText f kv.2) acc = true →
    forallb (λ kv, f kv.1 && jsonText f kv.2) fields = true →
    jsonText f (JObject (foldl (λ acc kv, insertField kv.1 kv.2 acc) acc fields)) = true).
  { intros Hc. by apply (Hc []). }
  induction fields as [|[k v] fields IH]; intros acc Hacc; [done|].
  cbn [forallb fst snd]. intros [Hv Hf]%andb_true_iff. simpl. apply IH; [|done].
  by apply forallb_insertField.
Qed.

Lemma jsonStrings_obj f fields :
  forallb (λ kv, f kv.1 && jsonStrings f kv.2) fields = true → jsonStrings f (jObj fields) = true.
Proof.
  unfold jObj. cut (∀ acc, forallb (λ kv, f kv.1 && jsonStrings f kv.2) acc = true →
    forallb (λ kv, f kv.1 && jsonStrings f kv.2) fields = true →
    jsonStrings f (JObject (foldl (λ acc kv, insertField kv.1 kv.2 acc) acc fields)) = true).
  { intros Hc. by apply (Hc []). }
  induction fields as [|[k v] fields IH]; intros acc Hacc; [done|].
  cbn [forallb fst snd]. intros [Hv Hf]%andb_true_iff. simpl. apply IH; [|done].
  by apply forallb_insertField.
Qed.
