(* ===== verification/Redis.v ===== *)
(** * Redis

    The store behind the matchmaker, the allocator and the gateways is not part
    of the repository: it is an interface, with the commands the code sends and
    what the documentation of Redis says each does to the value under its key
    and leaves alone elsewhere.  A command on a key of another type is an error
    and changes nothing.  Every command, and a script as a whole, is one atomic
    step of the server.

    The stores of [shared/db] that are thin wrappers of these commands follow. *)
From S2P Require Import Prelude Text Scan Double Json.

Inductive RedisValue :=
  | RStr (s : string)
  | RHash (fields : gmap string string)
  | RZset (scores : gmap string Z).

Definition hsetV (fields : gmap string string) (v : option RedisValue) : option RedisValue :=
  match v with
  | None => Some (RHash fields)
  | Some (RHash m) => Some (RHash (fields ∪ m))
  | Some v => Some v
  end.

Definition zaddV (score : Z) (member : string) (v : option RedisValue) : option RedisValue :=
  match v with
  | None => Some (RZset {[member := score]})
  | Some (RZset z) => Some (RZset (<[member := score]> z))
  | Some v => Some v
  end.

(** A sorted set or a hash that has become empty is no longer there. *)
Definition zremV (member : string) (v : option RedisValue) : option RedisValue :=
  match v with
  | Some (RZset z) => let z' := delete member z in if decide (z' = ∅) then None else Some (RZset z')
  | v => v
  end.

Definition LLONG_MAX : Z := 9223372036854775807.

(** INCR: an absent key counts as 0; a value that is no 64-bit integer, or the
    largest of them, is an error. *)
Definition incrV (v : option RedisValue) : option RedisValue * option Z :=
  match v with
  | None => (Some (RStr "1"), Some 1)
  | Some (RStr s) =>
    match scanSigned s with
    | Some (n, "") =>
      if n <? LLONG_MAX then (Some (RStr (showInt (n + 1))), Some (n + 1)) else (v, None)
    | _ => (v, None)
    end
  | v => (v, None)
  end.

Definition zsetOf (v : option RedisValue) : gmap string Z := match v with Some (RZset z) => z | _ => ∅ end.
Definition hashOf (v : option RedisValue) : gmap string string := match v with Some (RHash h) => h | _ => ∅ end.
Definition strOf (v : option RedisValue) : option string := match v with Some (RStr s) => Some s | _ => None end.

Class Redis := {
  rdb : Type;
  value : rdb → string → option RedisValue;
  HSET : string → gmap string string → rdb → rdb;
  ZADD : string → Z → string → rdb → rdb;
  ZREM : string → string → rdb → rdb;
  DEL : string → rdb → rdb;
  SET : string → string → rdb → rdb;
  INCR : string → rdb → rdb * option Z;
  (** [ZRANGEBYSCORE key lo hi LIMIT 0 1] *)
  zfirst : string → Z → Z → rdb → option string;
  (** [KEYS prefix*] *)
  keysOf : string → rdb → list string;
  value_HSET k fs d k' : value (HSET k fs d) k' = if decide (k' = k) then hsetV fs (value d k) else value d k';
  value_ZADD k s m d k' : value (ZADD k s m d) k' = if decide (k' = k) then zaddV s m (value d k) else value d k';
  value_ZREM k m d k' : value (ZREM k m d) k' = if decide (k' = k) then zremV m (value d k) else value d k';
  value_DEL k d k' : value (DEL k d) k' = if decide (k' = k) then None else value d k';
  value_SET k s d k' : value (SET k s d) k' = if decide (k' = k) then Some (RStr s) else value d k';
  value_INCR k d k' : value (INCR k d).1 k' = if decide (k' = k) then (incrV (value d k)).1 else value d k';
  reply_INCR k d : (INCR k d).2 = (incrV (value d k)).2;
  (** The lowest score of the range first. *)
  zfirst_Some k lo hi d m :
    zfirst k lo hi d = Some m → ∃ s, zsetOf (value d k) !! m = Some s ∧ lo ≤ s ≤ hi ∧
      ∀ m' s', zsetOf (value d k) !! m' = Some s' → lo ≤ s' ≤ hi → s ≤ s';
  zfirst_None k lo hi d m s :
    zfirst k lo hi d = None → zsetOf (value d k) !! m = Some s → ¬ lo ≤ s ≤ hi;
  keysOf_spec p d : ∀ k, k ∈ keysOf p d ↔ (∃ n, k = p +:+ n) ∧ is_Some (value d k)
}.

(** ** A sorted association list of the commands, for concrete runs *)
Definition minBy (lo hi : Z) (acc : option (string * Z)) (e : string * Z) : option (string * Z) :=
  if (lo <=? e.2) && (e.2 <=? hi) then
    match acc with
    | Some (m, s) => if s <=? e.2 then acc else Some e
    | None => Some e
    end
  else acc.

Definition zfirstM (z : gmap string Z) (lo hi : Z) : option string :=
  fst <$> foldl (minBy lo hi) None (map_to_list z).

Lemma minBy_fold lo hi l acc :
  (∀ m s, acc = Some (m, s) → lo ≤ s ≤ hi) →
  match foldl (minBy lo hi) acc l with
  | Some (m, s) => (acc = Some (m, s) ∨ (m, s) ∈ l) ∧ lo ≤ s ≤ hi ∧
      (∀ m' s', acc = Some (m', s') → s ≤ s') ∧ ∀ m' s', (m', s') ∈ l → lo ≤ s' ≤ hi → s ≤ s'
  | None => acc = None ∧ ∀ m' s', (m', s') ∈ l → ¬ lo ≤ s' ≤ hi
  end.
Proof.
  revert acc. induction l as [|[m0 s0] l IH]; intros acc Hacc; simpl.
  - destruct acc as [[m s]|]; [|split; [done|by intros ?? ?%elem_of_nil]].
    split_and!; [by left|by apply (Hacc m s)|by apply (Hacc m s)|by intros ?? [= <- <-]|by intros ?? ?%elem_of_nil].
  - assert (∀ m s, minBy lo hi acc (m0, s0) = Some (m, s) → lo ≤ s ≤ hi) as Hacc'.
    { unfold minBy. simpl. intros m s. destruct (lo <=? s0) eqn:E1, (s0 <=? hi) eqn:E2; simpl; b2p; eauto.
      destruct acc as [[m1 s1]|]; [|intros [= <- <-]; lia].
      destruct (s1 <=? s0); intros [= <- <-]; [eauto|lia]. }
    specialize (IH _ Hacc'). revert IH.
    assert ((minBy lo hi acc (m0, s0) = acc ∧ (lo ≤ s0 ≤ hi → ∃ m s, acc = Some (m, s) ∧ s ≤ s0)) ∨
      (minBy lo hi acc (m0, s0) = Some (m0, s0) ∧ lo ≤ s0 ≤ hi ∧ ∀ m s, acc = Some (m, s) → s0 ≤ s)) as Hm.
    { unfold minBy. simpl. destruct (lo <=? s0) eqn:E1, (s0 <=? hi) eqn:E2; simpl; b2p; [|left; split; [done|lia]..].
      destruct acc as [[m1 s1]|]; [|by right].
      destruct (s1 <=? s0) eqn:E3; b2p; [left; split; [done|]; eauto|right].
      split_and!; [done|lia..|]. intros ?? [= <- <-]. lia. }
    destruct Hm as [[-> Hm]|(-> & Hr & Hm)]; destruct (foldl (minBy lo hi) _ l) as [[m s]|].
    + intros ([Ha|Ha] & Hs & Hle & Hl); split_and!; eauto; try (right; by right); try lia.
      all: intros m' s' [[= -> ->]|Hin]%elem_of_cons ?; eauto.
      all: destruct Hm as (m2 & s2 & E & ?); [done|]; specialize (Hle _ _ E); lia.
    + intros [-> Hl]. split; [done|]. intros m' s' [[= -> ->]|Hin]%elem_of_cons ?; [|by eapply Hl].
      destruct Hm as (? & ? & ? & ?); done.
    + intros (Ha & Hs & Hle & Hl). specialize (Hle m0 s0 eq_refl). split; [|split; [done|split]].
      * right. destruct Ha as [[= -> ->]|Ha]; [by left|by right].
      * intros m' s' Hx. specialize (Hm _ _ Hx). lia.
      * intros m' s' [[= -> ->]|Hin]%elem_of_cons ?; [done|by eapply Hl].
    + by intros [? _].
Qed.

Lemma zfirstM_Some z lo hi m :
  zfirstM z lo hi = Some m → ∃ s, z !! m = Some s ∧ lo ≤ s ≤ hi ∧
    ∀ m' s', z !! m' = Some s' → lo ≤ s' ≤ hi → s ≤ s'.
Proof.
  unfold zfirstM. pose proof (minBy_fold lo hi (map_to_list z) None ltac:(done)) as H.
  destruct (foldl _ _ _) as [[m' s]|]; [|done]. destruct H as ([|Hin] & Hs & _ & Hl); [done|].
  intros [= ->]. exists s. split; [by apply elem_of_map_to_list|]. split; [done|].
  intros m' s' Hm. apply (Hl m' s'). by apply elem_of_map_to_list.
Qed.

Lemma zfirstM_None z lo hi m s : zfirstM z lo hi = None → z !! m = Some s → ¬ lo ≤ s ≤ hi.
Proof.
  unfold zfirstM. pose proof (minBy_fold lo hi (map_to_list z) None ltac:(done)) as H.
  destruct (foldl _ _ _) as [[m' s']|]; [done|]. destruct H as [_ H]. intros _ Hm.
  eapply H, elem_of_map_to_list, Hm.
Qed.

(** A Redis that keeps its values in a map, for concrete runs. *)
Definition mapRedis : Redis.
Proof.
  refine {|
    rdb := gmap string RedisValue;
    value := λ d k, d !! k;
    HSET := λ k fs d, partial_alter (hsetV fs) k d;
    ZADD := λ k s m d, partial_alter (zaddV s m) k d;
    ZREM := λ k m d, partial_alter (zremV m) k d;
    DEL := λ k d, delete k d;
    SET := λ k s d, <[k := RStr s]> d;
    INCR := λ k d, (partial_alter (λ v, (incrV v).1) k d, (incrV (d !! k)).2);
    zfirst := λ k lo hi d, zfirstM (zsetOf (d !! k)) lo hi;
    keysOf := λ p d, filter (λ k, String.prefix p k = true) (map_to_list d).*1
  |}.
  all: try (intros; cbn [fst]; case_decide as Hk; [subst; by rewrite ?lookup_partial_alter_eq, ?lookup_delete_eq, ?lookup_insert_eq
    |by rewrite ?lookup_partial_alter_ne, ?lookup_delete_ne, ?lookup_insert_ne by done]).
  - done.
  - intros. by apply zfirstM_Some.
  - intros. by eapply zfirstM_None.
  - intros p d k. rewrite list_elem_of_filter, list_elem_of_fmap. split.
    + intros [Hp ([k' v] & -> & Hd%elem_of_map_to_list)]. split; [|by eexists].
      revert Hp. simpl. clear. revert k'. induction p as [|c p IH]; intros k; [by exists k|].
      destruct k as [|c' k]; simpl; [done|]. destruct (Ascii.ascii_dec c c'); [subst|done].
      intros [n ->]%IH. by exists n.
    + intros [[n ->] [v Hv]]. split.
      * clear. induction p as [|c p IH]; simpl; [by destruct n|]. by destruct (Ascii.ascii_dec c c).
      * exists (p +:+ n, v). split; [done|]. by apply elem_of_map_to_list.
Defined.
