(* ===== verification/Nats.v ===== *)
(** * The bus ([shared/bus/NatsClient])

    Services talk in JSON; the bus carries text.  A callback parses what arrives,
    calls the handler that was subscribed and, for a request, publishes what it
    returned; it runs on a thread of the C library, which an exception cannot
    leave.  Which subscriptions a message reaches is the NATS server's choice. *)
From S2P Require Import Prelude Text Json.
#[local] Open Scope Z_scope.

Section Nats.
Context `{JsonText} {S : Type}.

(** A handler changes the service's state, and may throw. *)
Definition MessageHandler : Type := json → S → S * option string.
Definition RequestHandler : Type := json → S → S * result json.

Inductive Callback := OnMessage (handler : MessageHandler) | OnRequest (handler : RequestHandler).

(** How a callback ends; [Escaped] ends the process. *)
Inductive CallbackEnd := Silent | Replied (replySubject body : string) | Escaped (what : string).

Record Subscription := mkSub { subject : string; queueGroup : option string; callback : Callback }.

Definition onMessage (handler : MessageHandler) (data : string) (s : S) : S :=
  match parse data with Ok payload => (handler payload s).1 | Throw _ => s end.

Definition errorReply (what : string) : json := jObj [("success", JBool false); ("message", JString what)].

(** Without a reply subject the handler is not called. *)
Definition onRequest (handler : RequestHandler) (reply : option string) (data : string) (s : S) : S * CallbackEnd :=
  match reply with
  | None => (s, Silent)
  | Some replySubject =>
    let '(s, r) := match parse data with Ok payload => handler payload s | Throw what => (s, Throw what) end in
    let replyPayload := match r with Ok j => j | Throw what => errorReply what end in
    match dumpR replyPayload with
    | Ok body => (s, Replied replySubject body)
    | Throw what => (s, Escaped what)
    end
  end.

(** [NatsClient]: its subscriptions, and what was published on its connection. *)
Record NatsClient := mkNats { subs_ : list Subscription; published : list (string * string) }.

Definition addSub (sub : Subscription) (c : NatsClient) : NatsClient := mkNats (subs_ c ++ [sub]) (published c).
Definition subscribe (subj : string) (handler : MessageHandler) : NatsClient → NatsClient :=
  addSub (mkSub subj None (OnMessage handler)).
Definition subscribeQueue (subj queue : string) (handler : MessageHandler) : NatsClient → NatsClient :=
  addSub (mkSub subj (Some queue) (OnMessage handler)).
Definition subscribeRequest (subj : string) (handler : RequestHandler) : NatsClient → NatsClient :=
  addSub (mkSub subj None (OnRequest handler)).
Definition subscribeRequestQueue (subj queue : string) (handler : RequestHandler) : NatsClient → NatsClient :=
  addSub (mkSub subj (Some queue) (OnRequest handler)).

Definition publish (subj : string) (payload : json) (c : NatsClient) : result NatsClient :=
  body ← dumpR payload; Ok (mkNats (subs_ c) (published c ++ [(c_str subj, body)])).

(** [natsConnection_Request] ends with a reply or without one. *)
Definition request (payload : json) (answer : string → option string) : result (option json) :=
  body ← dumpR payload;
  match answer body with
  | None => Ok None
  | Some text => Ok (match parse text with Ok j => Some j | Throw _ => None end)
  end.

(** ** The server *)

(** A message reaches every subscription of the subject that is in no group, and
    one of each group. *)
Record routes (subj : string) (subs : list Subscription) (chosen : list nat) : Prop := {
  ro_once : NoDup chosen;
  ro_subject : ∀ i, i ∈ chosen → ∃ sub, subs !! i = Some sub ∧ subject sub = subj;
  ro_plain : ∀ i sub, subs !! i = Some sub → subject sub = subj → queueGroup sub = None → i ∈ chosen;
  ro_group : ∀ q, (∃ i sub, subs !! i = Some sub ∧ subject sub = subj ∧ queueGroup sub = Some q) →
    ∃ i, i ∈ chosen ∧ (∃ sub, subs !! i = Some sub ∧ queueGroup sub = Some q) ∧
      ∀ j sub, j ∈ chosen → subs !! j = Some sub → queueGroup sub = Some q → j = i
}.

(** A text is delivered to one subscription. *)
Definition deliver (subs : list Subscription) (reply : option string) (data : string) (s : S * list CallbackEnd) (i : nat) : S * list CallbackEnd :=
  match subs !! i with
  | None => s
  | Some sub =>
    match callback sub with
    | OnMessage h => (onMessage h data s.1, s.2)
    | OnRequest h => let '(s', e) := onRequest h reply data s.1 in (s', s.2 ++ [e])
    end
  end.

(** ** What the services rely on: the bus in terms of JSON *)

(** A message handled by one subscription, were the payload handed over as it is. *)
Definition handles (subs : list Subscription) (payload : json) (s : S) (i : nat) : S :=
  match subs !! i with
  | Some (mkSub _ _ (OnMessage h)) => (h payload s).1
  | _ => s
  end.

(** A published message is handled as sent: every subscription the server
    chooses runs its handler on the very payload that was published, in the
    order of delivery; request handlers are not run by a message without a reply
    subject, and nothing is replied. *)
Theorem publish_handled subj payload c c' chosen s :
  publish subj payload c = Ok c' → jsonText utf8 payload = true → c_str subj = subj →
  routes subj (subs_ c') chosen →
  ∃ body, published c' = published c ++ [(subj, body)] ∧
    (foldl (deliver (subs_ c') None body) (s, []) chosen).1 = foldl (handles (subs_ c) payload) s chosen ∧
    (∀ i sub, subs_ c !! i = Some sub → subject sub = subj → queueGroup sub = None → i ∈ chosen) ∧
    Forall (λ e, e = Silent) (foldl (deliver (subs_ c') None body) (s, []) chosen).2.
Proof.
  unfold publish. destruct (dumpR payload) as [body|] eqn:Hd; [|done]. rewrite result_bind_Ok. intros [= <-] Ht Hsub Hr.
  assert (body = dump payload) as ->.
  { unfold dumpR in Hd. case_match; [by simplify_eq|done]. }
  exists (dump payload). cbn [published subs_] in *. rewrite Hsub. split; [done|].
  assert (∀ st : S * list CallbackEnd, Forall (λ e, e = Silent) st.2 →
    (foldl (deliver (subs_ c) None (dump payload)) st chosen).1 = foldl (handles (subs_ c) payload) st.1 chosen ∧
    Forall (λ e, e = Silent) (foldl (deliver (subs_ c) None (dump payload)) st chosen).2) as Hall.
  { clear Hr. induction chosen as [|i l IH]; intros st Hst; simpl; [done|].
    replace (handles (subs_ c) payload st.1 i) with (deliver (subs_ c) None (dump payload) st i).1.
    - apply IH. unfold deliver. destruct (subs_ c !! i) as [[sj q [h|h]]|]; simpl; [done| |done].
      by apply Forall_app_2, Forall_singleton.
    - unfold deliver, handles, onMessage. destruct (subs_ c !! i) as [[sj q [h|h]]|]; simpl; [by rewrite parse_dump|done..]. }
  destruct (Hall (s, []) (Forall_nil_2 _)) as [H1 H2]. split_and!; [done| |done]. intros. by eapply ro_plain.
Qed.

(** C24 A request is a call of the handler of the subscription the server chose.
    The payload arrives as it was sent (if it is not UTF-8 nothing is sent and the
    caller gets the exception); the handler runs once, on that payload; the
    requester is given what it returned, or, if it threw, an object that says
    [success: false] with the exception's text — provided that this reply is
    UTF-8: if it is not, writing it throws on the library's thread, no reply is
    published and the service ends.  (A number that JSON cannot write, an
    infinity, arrives as something else: [jsonText] excludes it.) *)
Theorem request_answered subs i sj q h inbox payload s :
  subs !! i = Some (mkSub sj q (OnRequest h)) →
  (jsonStrings utf8 payload = false → ∀ answer,
     request payload answer = Throw "[json.exception.type_error.316] invalid UTF-8 byte") ∧
  (jsonStrings utf8 payload = true → jsonText utf8 payload = true →
   let reply := match (h payload s).2 with
                | Ok j => j
                | Throw what => JObject [("message", JString what); ("success", JBool false)]
                end in
   if jsonStrings utf8 reply
   then ∃ body, deliver subs (Some inbox) (dump payload) (s, []) i = ((h payload s).1, [Replied inbox body]) ∧
     (jsonText utf8 reply = true →
      request payload (λ text, if String.eqb text (dump payload) then Some body else None) = Ok (Some reply))
   else deliver subs (Some inbox) (dump payload) (s, []) i =
     ((h payload s).1, [Escaped "[json.exception.type_error.316] invalid UTF-8 byte"])).
Proof.
  intros Hi. split; [intros Hu answer; unfold request, dumpR; by rewrite Hu|]. intros Hu Ht reply.
  assert (deliver subs (Some inbox) (dump payload) (s, []) i = ((h payload s).1,
    [match dumpR reply with Ok body => Replied inbox body | Throw what => Escaped what end])) as Hd.
  { unfold deliver. rewrite Hi. simpl. unfold onRequest. rewrite parse_dump by done. unfold reply.
    destruct (h payload s) as [s' r]. cbn [fst snd]. change errorReply with (λ what, JObject [("message", JString what); ("success", JBool false)]).
    cbv beta. by destruct (dumpR _). }
  rewrite Hd. unfold dumpR. destruct (jsonStrings utf8 reply); [|done]. exists (dump reply). split; [done|].
  intros Hr. unfold request, dumpR. rewrite Hu, result_bind_Ok, String.eqb_refl. by rewrite parse_dump.
Qed.

(** A request that is not JSON is refused without a call, when the parser's
    message can itself be sent; when it cannot, and whenever a handler throws or
    returns text that is not UTF-8, the exception leaves the callback and the
    service ends. *)
Theorem request_malformed subs i sj q h inbox data what s :
  subs !! i = Some (mkSub sj q (OnRequest h)) → parse data = Throw what →
  deliver subs (Some inbox) data (s, []) i =
    (s, [if utf8 what then Replied inbox (dump (errorReply what))
         else Escaped "[json.exception.type_error.316] invalid UTF-8 byte"]).
Proof.
  intros Hi Hp. unfold deliver. rewrite Hi. simpl. unfold onRequest. rewrite Hp.
  assert (jsonStrings utf8 (errorReply what) = utf8 what) as Hs.
  { change (errorReply what) with (JObject [("message", JString what); ("success", JBool false)]). cbn -[utf8].
    rewrite (utf8_ascii7 "success"), (utf8_ascii7 "message") by reflexivity. by destruct (utf8 what). }
  unfold dumpR. rewrite Hs. by destruct (utf8 what).
Qed.
End Nats.
