(* ===== verification/Matchmaking.v ===== *)
(** * The matchmaker ([matchmaker/matchmaker_main], [shared/matchmaking])

    Any number of matchmaker replicas share one waiting pool in Redis.  A replica
    handles requests, cancellations and assignments on threads of NATS and runs
    one detached thread per timer, so the state is the Redis database, the
    threads with the command each is about to send, and what every replica keeps
    for itself; a step is one command or one critical section.  Time is not
    modelled: a sleeping thread may wake at any moment, which only adds runs. *)
From S2P Require Import Prelude Text Scan Double Json Redis.
From stdpp Require Import relations.
#[local] Open Scope Z_scope.

(** ** [Matchmaker]: the pool of a single process *)
Definition kEloRange : Z := 100.

Section Matchmaker.
Definition addToPool (ticketId : string) (elo : Z) (pool : gmap string Z) : gmap string Z := <[ticketId := elo]> pool.
Definition remove (ticketId : string) (pool : gmap string Z) : gmap string Z := delete ticketId pool.
(** The first entry of the walk over the map that is close enough. *)
Definition findMatchIn (elo : Z) (entries : list (string * Z)) : option string :=
  fst <$> find (λ e, Z.abs (e.2 - elo) <=? kEloRange) entries.
Definition isWaitingIn (ticketId : string) (pool : gmap string Z) : bool := bool_decide (is_Some (pool !! ticketId)).
End Matchmaker.

(** ** [RedisMatchPool] *)
Definition kPoolKey : string := "matchpool".
Definition ticketInfoKey (ticketId : string) : string := "ticket:" +:+ ticketId.

Record MatchCandidate := mkCandidate { mc_ticketId : string; mc_username : string; mc_elo : Z }.

#[export] Instance MatchCandidate_eq_dec : EqDecision MatchCandidate.
Proof. solve_decision. Defined.

Section Pool.
Context `{Redis}.

Definition infoFields (username : string) (elo : Z) : gmap string string :=
  <["username" := c_str username]> {["elo" := showInt elo]}.

(** [addToPool] is two commands, in this order. *)
Definition addInfo (ticketId username : string) (elo : Z) (d : rdb) : rdb :=
  HSET (c_str (ticketInfoKey ticketId)) (infoFields username elo) d.
Definition addMember (ticketId : string) (elo : Z) (d : rdb) : rdb := ZADD kPoolKey elo (c_str ticketId) d.

(** And so is [remove]. *)
Definition removeMember (ticketId : string) (d : rdb) : rdb := ZREM kPoolKey (c_str ticketId) d.
Definition removeInfo (ticketId : string) (d : rdb) : rdb := DEL (c_str (ticketInfoKey ticketId)) d.

(** [kFindAndRemoveScript], with the two fields it may not find. *)
Definition kFindAndRemoveScript (lo hi : Z) (d : rdb) : rdb * option (string * option string * option string) :=
  match zfirst kPoolKey lo hi d with
  | None => (d, None)
  | Some ticketId =>
    let d := ZREM kPoolKey ticketId d in
    let infoKey := ticketInfoKey ticketId in
    let username := hashOf (value d infoKey) !! "username" in
    let elo := hashOf (value d infoKey) !! "elo" in
    (DEL infoKey d, Some (ticketId, username, elo))
  end.

Definition findMatch (elo eloRange : Z) (d : rdb) : rdb * result (option MatchCandidate) :=
  match kFindAndRemoveScript (elo - eloRange) (elo + eloRange) d with
  | (d, Some (ticketId, Some username, Some eloStr)) =>
    (d, e ← stoi eloStr; Ok (Some (mkCandidate ticketId username e)))
  | (d, _) => (d, Ok None)
  end.

Definition isWaiting (ticketId : string) (d : rdb) : bool :=
  bool_decide (is_Some (zsetOf (value d kPoolKey) !! c_str ticketId)).

(** ** The service *)

(** A thread of some replica, by what it does next. *)
Inductive MmThread :=
  | AddInfo (ticket user : string) (elo : Z)
  | AddMember (ticket user : string) (elo : Z)
  | Timer (ticket : string)
  | TimerZrem (ticket : string)
  | TimerDel (ticket : string)
  | TimerPublish (ticket : string)
  | CancelZrem (ticket : string)
  | CancelDel (ticket : string)
  | Arm (replica : nat) (ticketA ticketB : string)
  | Watchdog (replica : nat) (ticketA ticketB : string).

#[export] Instance MmThread_eq_dec : EqDecision MmThread.
Proof. solve_decision. Defined.

Record Replica := mkReplica {
  pendingAssignment : gset string;
  matchesFoundTotal : Z;
  assignmentTimeoutsTotal : Z
}.
Definition newReplica : Replica := mkReplica ∅ 0 0.

(** [published] is everything sent to NATS so far.  [requested], [withdrawn]
    and [matches] only record history: the tickets asked for, those somebody
    cancelled or whose timer decided to give up, the pairs made. *)
Record World := mkWorld {
  redis : rdb;
  threads : list MmThread;
  replicas : gmap nat Replica;
  published : list (string * json);
  requested : list MatchCandidate;
  withdrawn : gset string;
  matches : list (MatchCandidate * MatchCandidate)
}.

Definition replicaOf (r : nat) (w : World) : Replica := default newReplica (replicas w !! r).

Definition setRedis (d : rdb) (w : World) : World :=
  mkWorld d (threads w) (replicas w) (published w) (requested w) (withdrawn w) (matches w).
Definition setThreads (ts : list MmThread) (w : World) : World :=
  mkWorld (redis w) ts (replicas w) (published w) (requested w) (withdrawn w) (matches w).
Definition setReplica (r : nat) (x : Replica) (w : World) : World :=
  mkWorld (redis w) (threads w) (<[r := x]> (replicas w)) (published w) (requested w) (withdrawn w) (matches w).
Definition natsPublish (subject : string) (data : json) (w : World) : World :=
  mkWorld (redis w) (threads w) (replicas w) (published w ++ [(subject, data)]) (requested w) (withdrawn w) (matches w).
Definition withdraw (ticket : string) (w : World) : World :=
  mkWorld (redis w) (threads w) (replicas w) (published w) (requested w) ({[c_str ticket]} ∪ withdrawn w) (matches w).
Definition recordMatch (a b : MatchCandidate) (w : World) : World :=
  mkWorld (redis w) (threads w) (replicas w) (published w) (requested w) (withdrawn w) (matches w ++ [(a, b)]).
Definition recordRequest (c : MatchCandidate) (w : World) : World :=
  mkWorld (redis w) (threads w) (replicas w) (published w) (requested w ++ [c]) (withdrawn w) (matches w).

Definition timeoutJson (ticket : string) : json := jObj [("ticketId", JString ticket)].
Definition requestJson (c : MatchCandidate) : json :=
  jObj [("ticketId", JString (mc_ticketId c)); ("username", JString (mc_username c)); ("elo", JInt (mc_elo c))].
Definition matchedJson (a b : MatchCandidate) : json :=
  jObj [("ticketA", JString (mc_ticketId a)); ("usernameA", JString (mc_username a)); ("eloA", JInt (mc_elo a));
        ("ticketB", JString (mc_ticketId b)); ("usernameB", JString (mc_username b)); ("eloB", JInt (mc_elo b))].

(** The watchdog, for one of its tickets. *)
Definition giveUp (r : nat) (ticket : string) (w : World) : World :=
  let x := replicaOf r w in
  if decide (ticket ∈ pendingAssignment x) then
    natsPublish "matchmaking.timeout" (timeoutJson ticket)
      (setReplica r (mkReplica (pendingAssignment x ∖ {[ticket]}) (matchesFoundTotal x)
        (assignmentTimeoutsTotal x + 1)) w)
  else w.

(** What a thread does in its next step, and what it goes on with. *)
Definition threadStep (th : MmThread) (w : World) : World * list MmThread :=
  match th with
  | AddInfo t u e => (setRedis (addInfo t u e (redis w)) w, [AddMember t u e])
  | AddMember t u e => (setRedis (addMember t e (redis w)) w, [Timer t])
  | Timer t => if isWaiting t (redis w) then (withdraw t w, [TimerZrem t]) else (w, [])
  | TimerZrem t => (setRedis (removeMember t (redis w)) w, [TimerDel t])
  | TimerDel t => (setRedis (removeInfo t (redis w)) w, [TimerPublish t])
  | TimerPublish t => (natsPublish "matchmaking.timeout" (timeoutJson t) w, [])
  | CancelZrem t => (setRedis (removeMember t (redis w)) w, [CancelDel t])
  | CancelDel t => (setRedis (removeInfo t (redis w)) w, [])
  | Arm r a b =>
    let x := replicaOf r w in
    (setReplica r (mkReplica ({[a]} ∪ ({[b]} ∪ pendingAssignment x)) (matchesFoundTotal x)
       (assignmentTimeoutsTotal x)) w, [Watchdog r a b])
  | Watchdog r a b => (giveUp r b (giveUp r a w), [])
  end.

Definition parseRequest (request : json) : result MatchCandidate :=
  t ← jStr "ticketId" request; u ← jStr "username" request; e ← jInt "elo" request; Ok (mkCandidate t u e).

(** The handler of [matchmaking.request]. *)
Definition onRequest (r : nat) (request : json) (w : World) : World :=
  match parseRequest request with
  | Throw _ => w
  | Ok c =>
    let '(d, opponent) := findMatch (mc_elo c) kEloRange (redis w) in
    let w := setRedis d w in
    match opponent with
    | Throw _ => w
    | Ok (Some o) =>
      let x := replicaOf r w in
      let w := setReplica r (mkReplica (pendingAssignment x) (matchesFoundTotal x + 1) (assignmentTimeoutsTotal x)) w in
      let w := natsPublish "matchmaking.matched" (matchedJson o c) w in
      setThreads (threads w ++ [Arm r (mc_ticketId o) (mc_ticketId c)]) (recordMatch o c w)
    | Ok None => setThreads (threads w ++ [AddInfo (mc_ticketId c) (mc_username c) (mc_elo c)]) w
    end
  end.

(** The handler of [matchmaking.assigned]: the first ticket is erased before
    the second is read. *)
Definition eraseAssigned (r : nat) (ticket : string) (w : World) : World :=
  let x := replicaOf r w in
  setReplica r (mkReplica (pendingAssignment x ∖ {[ticket]}) (matchesFoundTotal x) (assignmentTimeoutsTotal x)) w.

Definition onAssigned (r : nat) (event : json) (w : World) : World :=
  match jStr "ticketA" event with
  | Throw _ => w
  | Ok a =>
    let w := eraseAssigned r a w in
    match jStr "ticketB" event with Throw _ => w | Ok b => eraseAssigned r b w end
  end.

(** The handler of [matchmaking.cancel]. *)
Definition onCancel (event : json) (w : World) : World :=
  match jStr "ticketId" event with
  | Throw _ => w
  | Ok t => setThreads (threads w ++ [CancelZrem t]) (withdraw t w)
  end.

(** Tickets are minted once ([makeToken], [MatchTicketRegistry]), of characters
    a C string can hold; a rating is not near the ends of [int], where the
    bounds of the search would overflow. *)
Definition fresh_request (c : MatchCandidate) (w : World) : Prop :=
  mc_ticketId c ∉ map mc_ticketId (requested w) ∧ c_str (mc_ticketId c) = mc_ticketId c ∧
  c_str (mc_username c) = mc_username c ∧
  int_range (mc_elo c - kEloRange) ∧ int_range (mc_elo c + kEloRange).

(** A request reaches one replica (the queue group), a cancellation and an
    assignment any number of them. *)
Inductive mm_step : World → World → Prop :=
  | MmRequest r c w : fresh_request c w → mm_step w (onRequest r (requestJson c) (recordRequest c w))
  | MmAssigned r event w : mm_step w (onAssigned r event w)
  | MmCancel event w : mm_step w (onCancel event w)
  | MmThreadStep th before after w :
      threads w = before ++ th :: after →
      mm_step w (let '(w', next) := threadStep th w in setThreads (before ++ next ++ after) w').

Definition newWorld (d : rdb) : World := mkWorld d [] ∅ [] [] ∅ [].
End Pool.
