(* ===== verification/MatchmakingTheorems.v ===== *)
(** * What the matchmaker promises

    For any number of replicas and any interleaving of their Redis commands:
    every ticket is matched at most once, with an opponent in range, under the
    name and rating it was requested with; and a ticket nobody withdraws is
    always somewhere: about to enter the pool, in it with its timer running, or
    matched. *)
From S2P Require Import Prelude Text Scan Double Json Redis Matchmaking.
From stdpp Require Import relations.
#[local] Open Scope Z_scope.

Section MatchmakingTheorems.
Context `{Redis}.

Definition addingOf (th : MmThread) : option string :=
  match th with AddInfo t _ _ | AddMember t _ _ => Some t | _ => None end.
Definition removingOf (th : MmThread) : option string :=
  match th with TimerZrem t | TimerDel t | CancelZrem t | CancelDel t => Some t | _ => None end.
Definition matchedTickets (ms : list (MatchCandidate * MatchCandidate)) : list string :=
  ms ≫= λ p, [mc_ticketId p.1; mc_ticketId p.2].
Definition poolOf (d : rdb) : gmap string Z := zsetOf (value d kPoolKey).
Definition infoValue (c : MatchCandidate) : option RedisValue :=
  Some (RHash (infoFields (mc_username c) (mc_elo c))).

(** ** The keys *)

Lemma keys_differ t : kPoolKey ≠ ticketInfoKey t.
Proof. done. Qed.

Lemma ticketInfoKey_inj t u : ticketInfoKey t = ticketInfoKey u → t = u.
Proof. apply (inj (String.append "ticket:")). Qed.

Lemma c_str_infoKey t : c_str (ticketInfoKey t) = ticketInfoKey (c_str t).
Proof. done. Qed.

Lemma poolOf_info t fs d : poolOf (HSET (ticketInfoKey t) fs d) = poolOf d.
Proof. unfold poolOf. by rewrite value_HSET, decide_False. Qed.

Lemma poolOf_DEL t d : poolOf (DEL (ticketInfoKey t) d) = poolOf d.
Proof. unfold poolOf. by rewrite value_DEL, decide_False. Qed.

Definition pool_typed (d : rdb) : Prop := value d kPoolKey = None ∨ ∃ z, value d kPoolKey = Some (RZset z).

Lemma poolOf_ZADD t e d : pool_typed d → poolOf (ZADD kPoolKey e t d) = <[t := e]> (poolOf d).
Proof. unfold poolOf. intros [E|[z E]]; by rewrite value_ZADD, decide_True, E. Qed.

Lemma poolOf_ZREM t d : pool_typed d → poolOf (ZREM kPoolKey t d) = delete t (poolOf d).
Proof.
  unfold poolOf. intros [E|[z E]]; rewrite value_ZREM, decide_True, E by done; simpl.
  - by rewrite delete_empty.
  - by case_decide as Hz; [rewrite Hz|].
Qed.

Lemma pool_typed_ZADD t e d : pool_typed d → pool_typed (ZADD kPoolKey e t d).
Proof. unfold pool_typed. intros [E|[z E]]; rewrite value_ZADD, decide_True, E by done; simpl; eauto. Qed.

Lemma pool_typed_ZREM t d : pool_typed d → pool_typed (ZREM kPoolKey t d).
Proof.
  unfold pool_typed. intros [E|[z E]]; rewrite value_ZREM, decide_True, E by done; simpl; [auto|].
  case_decide; eauto.
Qed.

Lemma pool_typed_HSET t fs d : pool_typed d → pool_typed (HSET (ticketInfoKey t) fs d).
Proof. unfold pool_typed. by rewrite value_HSET, decide_False. Qed.

Lemma pool_typed_DEL t d : pool_typed d → pool_typed (DEL (ticketInfoKey t) d).
Proof. unfold pool_typed. by rewrite value_DEL, decide_False. Qed.

Lemma info_ZADD t e m d : value (ZADD kPoolKey e m d) (ticketInfoKey t) = value d (ticketInfoKey t).
Proof. by rewrite value_ZADD, decide_False. Qed.

Lemma info_ZREM t m d : value (ZREM kPoolKey m d) (ticketInfoKey t) = value d (ticketInfoKey t).
Proof. by rewrite value_ZREM, decide_False. Qed.

Lemma info_DEL t u d :
  value (DEL (ticketInfoKey u) d) (ticketInfoKey t) = if decide (t = u) then None else value d (ticketInfoKey t).
Proof.
  rewrite value_DEL. destruct (decide (t = u)) as [->|Hne]; [by rewrite decide_True|].
  rewrite decide_False; [done|]. by intros ?%ticketInfoKey_inj.
Qed.

Lemma info_HSET t u fs d :
  value (HSET (ticketInfoKey u) fs d) (ticketInfoKey t) =
  if decide (t = u) then hsetV fs (value d (ticketInfoKey t)) else value d (ticketInfoKey t).
Proof.
  rewrite value_HSET. destruct (decide (t = u)) as [->|Hne]; [by rewrite decide_True|].
  rewrite decide_False; [done|]. by intros ?%ticketInfoKey_inj.
Qed.

(** ** The invariant *)
Record mm_ok (w : World) : Prop := {
  ok_requested : NoDup (map mc_ticketId (requested w));
  ok_wf c : c ∈ requested w → c_str (mc_ticketId c) = mc_ticketId c ∧ c_str (mc_username c) = mc_username c ∧
    int_range (mc_elo c);
  ok_once : NoDup (omap addingOf (threads w) ++ matchedTickets (matches w));
  ok_adding t u e : AddInfo t u e ∈ threads w ∨ AddMember t u e ∈ threads w → mkCandidate t u e ∈ requested w;
  ok_pool t s : poolOf (redis w) !! t = Some s →
    (∃ c, c ∈ requested w ∧ mc_ticketId c = t ∧ mc_elo c = s) ∧
    t ∉ omap addingOf (threads w) ++ matchedTickets (matches w) ∧
    (Timer t ∈ threads w ∨ t ∈ withdrawn w);
  ok_matched a b : (a, b) ∈ matches w → a ∈ requested w ∧ b ∈ requested w ∧ Z.abs (mc_elo a - mc_elo b) ≤ kEloRange;
  ok_typed : pool_typed (redis w);
  ok_info c : c ∈ requested w → value (redis w) (ticketInfoKey (mc_ticketId c)) = None ∨
    value (redis w) (ticketInfoKey (mc_ticketId c)) = infoValue c;
  ok_unknown t : t ∉ map mc_ticketId (requested w) → value (redis w) (ticketInfoKey t) = None;
  ok_ready c : c ∈ requested w → mc_ticketId c ∉ withdrawn w →
    (∃ u e, AddMember (mc_ticketId c) u e ∈ threads w) ∨ is_Some (poolOf (redis w) !! mc_ticketId c) →
    value (redis w) (ticketInfoKey (mc_ticketId c)) = infoValue c;
  ok_removing th t : th ∈ threads w → removingOf th = Some t → c_str t ∈ withdrawn w;
  ok_kept c : c ∈ requested w → mc_ticketId c ∉ withdrawn w →
    mc_ticketId c ∈ omap addingOf (threads w) ∨ is_Some (poolOf (redis w) !! mc_ticketId c) ∨
    mc_ticketId c ∈ matchedTickets (matches w);
  ok_published : filter (λ p, p.1 = "matchmaking.matched") (published w) =
    map (λ p, ("matchmaking.matched", matchedJson p.1 p.2)) (matches w)
}.

Lemma requested_same w c c' :
  mm_ok w → c ∈ requested w → c' ∈ requested w → mc_ticketId c = mc_ticketId c' → c = c'.
Proof.
  intros Hok [i Hi]%list_elem_of_lookup [j Hj]%list_elem_of_lookup E.
  assert (i = j) as ->; [|congruence].
  eapply (NoDup_lookup (map mc_ticketId (requested w))); [apply ok_requested, Hok|by rewrite list_lookup_fmap, Hi|].
  rewrite list_lookup_fmap, Hj. simpl. by rewrite E.
Qed.

(** The order of the threads does not matter, nor what the replicas keep. *)
Lemma mm_ok_frame w w' :
  mm_ok w → redis w' = redis w → requested w' = requested w → withdrawn w' = withdrawn w →
  matches w' = matches w → threads w' ≡ₚ threads w →
  filter (λ p, p.1 = "matchmaking.matched") (published w') =
    filter (λ p, p.1 = "matchmaking.matched") (published w) → mm_ok w'.
Proof.
  intros [] Er Eq Ew Em Et Ep. split; rewrite ?Er, ?Eq, ?Ew, ?Em, ?Ep; try done.
  all: try setoid_rewrite Et; try done.
Qed.

(** ** One thread *)

Lemma merge_fields (fs : gmap string string) : fs ∪ fs = fs.
Proof. apply map_union_idemp. Qed.

Ltac threads_in H := rewrite H; set_solver.

Lemma addInfo_ok w t u e rest :
  mm_ok w → threads w = AddInfo t u e :: rest →
  mm_ok (setThreads (AddMember t u e :: rest) (setRedis (addInfo t u e (redis w)) w)).
Proof.
  intros Hok Et. pose proof Hok as [].
  assert (mkCandidate t u e ∈ requested w) as Hreq by (apply ok_adding0; rewrite Et; set_solver).
  destruct (ok_wf0 _ Hreq) as (Ht & Hu & He). simpl in *.
  assert (addInfo t u e (redis w) = HSET (ticketInfoKey t) (infoFields u e) (redis w)) as Ed
    by (unfold addInfo; by rewrite c_str_infoKey, Ht).
  assert (value (addInfo t u e (redis w)) (ticketInfoKey t) = infoValue (mkCandidate t u e)) as Hinfo.
  { rewrite Ed, info_HSET, decide_True by done.
    pose proof (ok_info0 _ Hreq) as Hi. simpl in Hi. destruct Hi as [-> | ->]; [done|]. unfold infoValue. simpl. by rewrite merge_fields. }
  assert (∀ t', t' ≠ t → value (addInfo t u e (redis w)) (ticketInfoKey t') = value (redis w) (ticketInfoKey t')) as Hother.
  { intros t' ?. by rewrite Ed, info_HSET, decide_False. }
  assert (poolOf (addInfo t u e (redis w)) = poolOf (redis w)) as Hp by (by rewrite Ed, poolOf_info).
  assert (∀ c, c ∈ requested w → mc_ticketId c = t → c = mkCandidate t u e) as Hsame
    by (intros c Hc Hid; eapply requested_same; eauto).
  rewrite Et in *. split; simpl; rewrite ?Hp; try done.
  - intros t' u' e' [|]; apply ok_adding0; set_solver.
  - intros t' s Hs. destruct (ok_pool0 t' s Hs) as (? & ? & [?%elem_of_cons|?]); split_and!; try done; [|by right].
    left. set_solver.
  - rewrite Ed. by apply pool_typed_HSET.
  - intros c Hc. destruct (decide (mc_ticketId c = t)) as [E|Hne].
    + right. rewrite E, Hinfo. by rewrite (Hsame c Hc E).
    + rewrite Hother by done. auto.
  - intros t' Ht'. rewrite Hother; [auto|]. intros ->. apply Ht'. apply list_elem_of_fmap. by exists (mkCandidate t u e).
  - intros c Hc Hw Hor. destruct (decide (mc_ticketId c = t)) as [E|Hne].
    + rewrite E, Hinfo. by rewrite (Hsame c Hc E).
    + rewrite Hother by done. apply ok_ready0; [done..|]. destruct Hor as [(u' & e' & Hin)|]; [left|by right].
      exists u', e'. set_solver.
  - intros th t' Hin Hr. apply (ok_removing0 th); [|done]. destruct th; set_solver.
Qed.

Lemma addMember_ok w t u e rest :
  mm_ok w → threads w = AddMember t u e :: rest →
  mm_ok (setThreads (Timer t :: rest) (setRedis (addMember t e (redis w)) w)).
Proof.
  intros Hok Et. pose proof Hok as [].
  assert (mkCandidate t u e ∈ requested w) as Hreq by (apply ok_adding0; rewrite Et; set_solver).
  destruct (ok_wf0 _ Hreq) as (Ht & _). simpl in *.
  assert (addMember t e (redis w) = ZADD kPoolKey e t (redis w)) as -> by (unfold addMember; by rewrite Ht).
  pose proof (poolOf_ZADD t e (redis w) ok_typed0) as Hp.
  rewrite Et in *. cbn [omap list_omap addingOf app] in ok_once0. apply NoDup_cons in ok_once0 as [Hnew Honce].
  split; simpl; rewrite ?Hp; try done.
  - intros t' u' e' [|]; apply ok_adding0; set_solver.
  - intros t' s. rewrite lookup_insert_Some. intros [[<- <-]|[Hne Hs]].
    + split_and!; [by exists (mkCandidate t u e)|done|left; left].
    + destruct (ok_pool0 t' s Hs) as (? & ? & Htm). split_and!; [done|set_solver|].
      destruct Htm as [?%elem_of_cons|?]; [left; set_solver|by right].
  - by apply pool_typed_ZADD.
  - intros c Hc. rewrite info_ZADD. auto.
  - intros t' Ht'. rewrite info_ZADD. auto.
  - intros c Hc Hw Hor. rewrite info_ZADD. apply ok_ready0; [done..|].
    destruct Hor as [(u' & e' & Hin)|Hs]; [left; exists u', e'; set_solver|].
    destruct (decide (mc_ticketId c = t)) as [E|Hne].
    + left. exists u, e. rewrite E. left.
    + rewrite lookup_insert_ne in Hs by done. by right.
  - intros th t' Hin Hr. apply (ok_removing0 th); [|done]. destruct th; set_solver.
  - intros c Hc Hw. destruct (decide (mc_ticketId c = t)) as [E|Hne].
    + right. left. rewrite E, lookup_insert_eq. eauto.
    + rewrite lookup_insert_ne by done. destruct (ok_kept0 c Hc Hw) as [Hin|[|]]; [|tauto..].
      left. cbn [omap list_omap addingOf] in Hin. set_solver.
Qed.

Lemma timer_fires_ok w t rest :
  mm_ok w → threads w = Timer t :: rest → isWaiting t (redis w) = true →
  mm_ok (setThreads (TimerZrem t :: rest) (withdraw t w)).
Proof.
  intros Hok Et Hw. pose proof Hok as []. rewrite Et in *.
  split; simpl; try done.
  - intros t' u' e' [|]; apply ok_adding0; set_solver.
  - intros t' s Hs. destruct (ok_pool0 t' s Hs) as ((c & Hc & Hid & He) & ? & Htm). split_and!; [eauto|done|].
    destruct Htm as [[[= ->]|?]%elem_of_cons|?]; [right|left; set_solver|right; set_solver].
    destruct (ok_wf0 c Hc) as [Hcs _]. rewrite <-Hid, Hcs. set_solver.
  - intros c Hc Hn Hor. apply ok_ready0; [done|set_solver|].
    destruct Hor as [(u' & e' & Hin)|]; [left; exists u', e'; set_solver|by right].
  - intros th t' [->|Hin]%elem_of_cons Hr; [simpl in Hr; simplify_eq; set_solver|].
    apply elem_of_union. right. apply (ok_removing0 th); [by right|done].
  - intros c Hc Hn. apply ok_kept0; [done|set_solver].
Qed.

(** A thread that ends, or goes on to a step that is none of the pool's. *)
Definition neutral (th : MmThread) : Prop := addingOf th = None ∧ removingOf th = None ∧ ∀ t, th ≠ Timer t.

Lemma drop_thread_ok w th rest next :
  mm_ok w → threads w = th :: rest → addingOf th = None → Forall neutral next →
  (∀ t, th = Timer t → poolOf (redis w) !! t = None) →
  mm_ok (setThreads (next ++ rest) w).
Proof.
  intros Hok Et Ha Hn Htm. pose proof Hok as []. rewrite Et in *. rewrite Forall_forall in Hn.
  assert (omap addingOf (next ++ rest) = omap addingOf (th :: rest)) as Ho.
  { rewrite omap_app. simpl. rewrite Ha. replace (omap addingOf next) with (@nil string); [done|].
    clear -Hn. induction next as [|x next IH]; [done|]. simpl. destruct (Hn x) as [-> _]; [left|].
    apply IH. intros y Hy. apply Hn. by right. }
  assert (∀ x, x ∈ next ++ rest → x ∈ th :: rest ∨ neutral x) as Hin by (intros x [|]%elem_of_app; [right; auto|left; by right]).
  split; simpl; rewrite ?Ho; try done.
  - intros t u e [Hx|Hx]; destruct (Hin _ Hx) as [?|[]]; naive_solver.
  - intros t s Hs. destruct (ok_pool0 t s Hs) as (? & ? & [Ht|?]); split_and!; try done; [|by right].
    apply elem_of_cons in Ht as [<-|?]; [by rewrite (Htm t eq_refl) in Hs|left; set_solver].
  - intros c Hc Hw Hor. apply ok_ready0; [done..|]. destruct Hor as [(u & e & Hx)|]; [left|by right].
    exists u, e. by destruct (Hin _ Hx) as [?|[]].
  - intros x t Hx Hr. destruct (Hin _ Hx) as [?|(_ & ? & _)]; [by eapply ok_removing0|congruence].
Qed.

Lemma timer_moot_ok w t rest :
  mm_ok w → threads w = Timer t :: rest → isWaiting t (redis w) = false →
  mm_ok (setThreads rest w).
Proof.
  intros Hok Et Hw. apply (drop_thread_ok w (Timer t) rest []); [done..| |constructor|].
  - done.
  - intros t' [= <-]. destruct (poolOf (redis w) !! t) as [s|] eqn:Hs; [|done]. exfalso.
    destruct (ok_pool w Hok t s Hs) as ((c & Hc & Hid & _) & _).
    destruct (ok_wf w Hok c Hc) as [Hcs _]. unfold isWaiting in Hw. apply bool_decide_eq_false in Hw. apply Hw.
    unfold poolOf in Hs. rewrite <-Hid, Hcs, Hid, Hs. eauto.
Qed.

(** ZREM and DEL of a ticket that has been withdrawn. *)
Lemma zrem_ok w t th th' rest :
  mm_ok w → threads w = th :: rest → removingOf th = Some t → removingOf th' = Some t →
  addingOf th = None → addingOf th' = None →
  mm_ok (setThreads (th' :: rest) (setRedis (removeMember t (redis w)) w)).
Proof.
  intros Hok Et Hr Hr' Ha Ha'. pose proof Hok as []. rewrite Et in *.
  assert (c_str t ∈ withdrawn w) as Hwd by (apply (ok_removing0 th); [left|done]).
  assert (omap addingOf (th' :: rest) = omap addingOf (th :: rest)) as Ho by (simpl; by rewrite Ha, Ha').
  pose proof (poolOf_ZREM (c_str t) (redis w) ok_typed0) as Hp. unfold removeMember.
  split; cbn [setThreads setRedis threads redis requested withdrawn matches published]; rewrite ?Hp, ?Ho; try done.
  - intros t' u' e' [[<-|?]%elem_of_cons|[<-|?]%elem_of_cons]; try done; apply ok_adding0; set_solver.
  - intros t' s [Hne Hs]%lookup_delete_Some. destruct (ok_pool0 t' s Hs) as (? & ? & Ht). split_and!; [done..|].
    destruct Ht as [[<-|?]%elem_of_cons|?]; [done|left; set_solver|by right].
  - by apply pool_typed_ZREM.
  - intros c Hc. rewrite info_ZREM. auto.
  - intros t' Ht'. rewrite info_ZREM. auto.
  - intros c Hc Hn Hor. rewrite info_ZREM. apply ok_ready0; [done..|].
    destruct Hor as [(u & e & [<-|?]%elem_of_cons)|[s [_ Hs]%lookup_delete_Some]]; [done|left; exists u, e; by right|right; eauto].
  - intros x t' [->|Hx]%elem_of_cons Hrx; [congruence|]. apply (ok_removing0 x); [by right|done].
  - intros c Hc Hn. destruct (ok_kept0 c Hc Hn) as [|[[s Hs]|]]; [tauto| |tauto].
    right. left. exists s. apply lookup_delete_Some. split; [|done]. intros E. by rewrite E in Hwd.
Qed.

Lemma del_ok w t th next rest :
  mm_ok w → threads w = th :: rest → removingOf th = Some t → addingOf th = None → Forall neutral next →
  mm_ok (setThreads (next ++ rest) (setRedis (removeInfo t (redis w)) w)).
Proof.
  intros Hok Et Hr Ha Hn. pose proof Hok as [].
  assert (c_str t ∈ withdrawn w) as Hwd by (apply (ok_removing0 th); [rewrite Et; left|done]).
  change (setThreads (next ++ rest) (setRedis (removeInfo t (redis w)) w))
    with (setThreads (next ++ rest) (setThreads (threads w) (setRedis (removeInfo t (redis w)) w))).
  apply (drop_thread_ok _ th rest next); try done; [|intros t' ->; done].
  unfold removeInfo. rewrite c_str_infoKey. split; simpl; rewrite ?poolOf_DEL; try done.
  - by apply pool_typed_DEL.
  - intros c Hc. rewrite info_DEL. case_decide; auto.
  - intros t' Ht'. rewrite info_DEL. case_decide; auto.
  - intros c Hc Hnw Hor. rewrite info_DEL, decide_False; [auto|]. intros E. congruence.
Qed.

Lemma published_ok w s data : mm_ok w → s ≠ "matchmaking.matched" → mm_ok (natsPublish s data w).
Proof.
  intros Hok Hs. apply (mm_ok_frame w); try done. simpl.
  rewrite filter_app, filter_cons, decide_False by done. by rewrite app_nil_r.
Qed.

Lemma giveUp_ok r t w : mm_ok w → mm_ok (giveUp r t w) ∧ threads (giveUp r t w) = threads w.
Proof.
  intros Hok. unfold giveUp. case_decide; [|done]. split; [|done]. apply published_ok; [|done].
  by apply (mm_ok_frame w).
Qed.

Lemma threadStep_ok w th rest :
  mm_ok w → threads w = th :: rest →
  mm_ok (let '(w', next) := threadStep th w in setThreads (next ++ rest) w').
Proof.
  intros Hok Et. destruct th as [t u e|t u e|t|t|t|t|t|t|r a b|r a b]; cbn [threadStep].
  - by apply addInfo_ok.
  - by eapply addMember_ok.
  - destruct (isWaiting t (redis w)) eqn:E; [by apply timer_fires_ok|by eapply timer_moot_ok].
  - by eapply zrem_ok.
  - apply (del_ok w t (TimerDel t) [TimerPublish t] rest); try done. repeat constructor; done.
  - apply (drop_thread_ok _ (TimerPublish t) rest []); try done; by apply published_ok.
  - by eapply zrem_ok.
  - by apply (del_ok w t (CancelDel t) [] rest).
  - apply (drop_thread_ok _ (Arm r a b) rest [Watchdog r a b]); try done;
      first [by apply (mm_ok_frame w)|repeat constructor; done].
  - destruct (giveUp_ok r a w Hok) as [H1 E1]. destruct (giveUp_ok r b _ H1) as [H2 E2].
    apply (drop_thread_ok _ (Watchdog r a b) rest []); try done; by rewrite E2, E1.
Qed.

(** ** A request *)

Definition popTicket (t : string) (d : rdb) : rdb := DEL (ticketInfoKey t) (ZREM kPoolKey t d).

Lemma poolOf_pop t d : pool_typed d → poolOf (popTicket t d) = delete t (poolOf d).
Proof. intros Hd. unfold popTicket. by rewrite poolOf_DEL, poolOf_ZREM. Qed.

Lemma info_pop t u d :
  value (popTicket u d) (ticketInfoKey t) = if decide (t = u) then None else value d (ticketInfoKey t).
Proof. unfold popTicket. rewrite info_DEL, info_ZREM. done. Qed.

Lemma pool_typed_pop t d : pool_typed d → pool_typed (popTicket t d).
Proof. intros Hd. by apply pool_typed_DEL, pool_typed_ZREM. Qed.

(** What the search of a request can find. *)
Lemma findMatch_cases w elo :
  mm_ok w →
  (findMatch elo kEloRange (redis w) = (redis w, Ok None) ∧
   ∀ t s, poolOf (redis w) !! t = Some s → ¬ Z.abs (s - elo) ≤ kEloRange) ∨
  ∃ o, o ∈ requested w ∧ poolOf (redis w) !! mc_ticketId o = Some (mc_elo o) ∧
    Z.abs (mc_elo o - elo) ≤ kEloRange ∧
    (∀ t s, poolOf (redis w) !! t = Some s → Z.abs (s - elo) ≤ kEloRange → mc_elo o ≤ s) ∧
    (findMatch elo kEloRange (redis w) = (popTicket (mc_ticketId o) (redis w), Ok (Some o)) ∨
     findMatch elo kEloRange (redis w) = (popTicket (mc_ticketId o) (redis w), Ok None) ∧
     mc_ticketId o ∈ withdrawn w).
Proof.
  intros Hok. pose proof Hok as []. unfold findMatch, kFindAndRemoveScript.
  destruct (zfirst kPoolKey (elo - kEloRange) (elo + kEloRange) (redis w)) as [t|] eqn:Hz.
  - right. apply zfirst_Some in Hz as (s & Hs & Hr & Hmin). fold (poolOf (redis w)) in Hs, Hmin.
    destruct (ok_pool0 t s Hs) as ((o & Ho & <- & <-) & _). exists o.
    split; [done|]. split; [done|]. split; [unfold kEloRange in *; lia|].
    split; [intros t s Ht ?; apply (Hmin t s Ht); unfold kEloRange in *; lia|].
    rewrite info_ZREM. fold (popTicket (mc_ticketId o) (redis w)).
    destruct (ok_wf0 o Ho) as (_ & Hu & He).
    destruct (ok_info0 o Ho) as [Hi|Hi]; rewrite Hi; simpl; unfold infoFields.
    + right. split; [by rewrite lookup_empty|]. apply dec_stable. intros Hnw.
      rewrite (ok_ready0 o Ho Hnw) in Hi by (right; rewrite Hs; eauto). done.
    + left. rewrite lookup_insert_eq, lookup_insert_ne, lookup_singleton_eq, Hu by done.
      rewrite stoi_showInt by done. by destruct o.
  - left. split; [done|]. intros t s Hs. pose proof (zfirst_None _ _ _ _ t s Hz Hs). unfold kEloRange in *. lia.
Qed.

(** A ticket not asked for yet is nowhere. *)
Lemma fresh_nowhere w c :
  mm_ok w → mc_ticketId c ∉ map mc_ticketId (requested w) →
  (∀ t s, poolOf (redis w) !! t = Some s → t ≠ mc_ticketId c) ∧
  mc_ticketId c ∉ omap addingOf (threads w) ++ matchedTickets (matches w).
Proof.
  intros [] Hf. split.
  - intros t s Hs ->. destruct (ok_pool0 _ s Hs) as ((c' & Hc' & Hid & _) & _). apply Hf. rewrite <-Hid.
    apply list_elem_of_fmap. eauto.
  - intros [(th & Hth & Ha)%list_elem_of_omap|Hin]%elem_of_app.
    + apply Hf. destruct th; simplify_eq/=; apply list_elem_of_fmap;
        (eexists; split; [|apply ok_adding0; eauto]; simpl; congruence).
    + unfold matchedTickets in Hin. apply list_elem_of_bind in Hin as ([a b] & Hx & Hin).
      destruct (ok_matched0 a b Hin) as (Ha & Hb & _). apply Hf. apply list_elem_of_fmap. simpl in Hx.
      set_solver.
Qed.

Lemma request_waits_ok w c :
  mm_ok w → fresh_request c w →
  mm_ok (setThreads (threads w ++ [AddInfo (mc_ticketId c) (mc_username c) (mc_elo c)]) (recordRequest c w)).
Proof.
  intros Hok (Hf & Ht & Hu & He1 & He2). pose proof Hok as [].
  destruct (fresh_nowhere w c Hok Hf) as [Hpc Hnew].
  assert (omap addingOf (threads w ++ [AddInfo (mc_ticketId c) (mc_username c) (mc_elo c)]) =
    omap addingOf (threads w) ++ [mc_ticketId c]) as Ho by (by rewrite omap_app).
  split; cbn [setThreads recordRequest threads redis requested withdrawn matches published]; rewrite ?Ho; try done.
  - rewrite map_app. apply NoDup_app. split_and!; [done| |apply NoDup_singleton].
    intros x Hx ->%list_elem_of_singleton. done.
  - intros c' [Hc'| ->%list_elem_of_singleton]%elem_of_app; [auto|]. split_and!; [done..|].
    unfold int_range, kEloRange in *. lia.
  - rewrite <-app_assoc, (Permutation_app_comm [_]), app_assoc. apply NoDup_app.
    split_and!; [done| |apply NoDup_singleton]. intros x Hx ->%list_elem_of_singleton. done.
  - intros t u e Hor. apply elem_of_app. rewrite !elem_of_app, !list_elem_of_singleton in Hor.
    destruct Hor as [[Hin|Hin]|[Hin|Hin] ]; [left; auto|right; injection Hin as -> -> ->|left; auto|done].
    apply list_elem_of_singleton. by destruct c.
  - intros t s Hs. destruct (ok_pool0 t s Hs) as ((c' & ? & ? & ?) & Hn & Htm). pose proof (Hpc t s Hs).
    split_and!; [exists c'; split; [apply elem_of_app; by left|done]|set_solver|set_solver].
  - intros a b Hab. destruct (ok_matched0 a b Hab) as (? & ? & ?). set_solver.
  - intros c' [Hc'| ->%list_elem_of_singleton]%elem_of_app; auto.
  - intros t Hn. apply ok_unknown0. rewrite map_app in Hn. set_solver.
  - intros c' Hc' Hnw Hor.
    assert (c' = c ∨ c' ∈ requested w) as [->|Hc] by set_solver.
    + exfalso. destruct Hor as [(u & e & Hin)|[s Hs]]; [|by eapply Hpc].
      apply Hnew, elem_of_app. left. apply list_elem_of_omap. exists (AddMember (mc_ticketId c) u e). split; [|done]. set_solver.
    + apply ok_ready0; [done..|]. destruct Hor as [(u & e & Hin)|]; [left; exists u, e; set_solver|by right].
  - intros th t [Hin| ->%list_elem_of_singleton]%elem_of_app Hr; [by eapply ok_removing0|done].
  - intros c' [Hc'| ->%list_elem_of_singleton]%elem_of_app Hnw; [|left; set_solver].
    destruct (ok_kept0 c' Hc' Hnw) as [|[|]]; [left; apply elem_of_app; by left|right; by left|right; by right].
Qed.

(** A ticket popped without its info was withdrawn before. *)
Lemma popped_ok w t : mm_ok w → t ∈ withdrawn w → mm_ok (setRedis (popTicket t (redis w)) w).
Proof.
  intros Hok Ht. pose proof Hok as []. pose proof (poolOf_pop t (redis w) ok_typed0) as Hp.
  split; cbn [setRedis threads redis requested withdrawn matches published]; rewrite ?Hp; try done.
  - intros t' s [_ Hs]%lookup_delete_Some. auto.
  - by apply pool_typed_pop.
  - intros c Hc. rewrite info_pop. case_decide; auto.
  - intros t' Ht'. rewrite info_pop. case_decide; auto.
  - intros c Hc Hn Hor. rewrite info_pop, decide_False by congruence. apply ok_ready0; [done..|].
    destruct Hor as [?|[s [_ Hs]%lookup_delete_Some]]; [by left|right; eauto].
  - intros c Hc Hn. destruct (ok_kept0 c Hc Hn) as [|[[s Hs]|]]; [tauto| |tauto].
    right. left. exists s. apply lookup_delete_Some. split; [congruence|done].
Qed.

Lemma omap_arm ts r a b : omap addingOf (ts ++ [Arm r a b]) = omap addingOf ts.
Proof. rewrite omap_app. apply app_nil_r. Qed.

Lemma matchedTickets_app ms o c :
  matchedTickets (ms ++ [(o, c)]) = matchedTickets ms ++ [mc_ticketId o; mc_ticketId c].
Proof. unfold matchedTickets. by rewrite bind_app. Qed.

Lemma request_matches_ok w r c o x :
  mm_ok w → fresh_request c w → o ∈ requested w →
  poolOf (redis w) !! mc_ticketId o = Some (mc_elo o) → Z.abs (mc_elo o - mc_elo c) ≤ kEloRange →
  mm_ok (setThreads (threads w ++ [Arm r (mc_ticketId o) (mc_ticketId c)])
    (recordMatch o c (natsPublish "matchmaking.matched" (matchedJson o c)
      (setReplica r x (setRedis (popTicket (mc_ticketId o) (redis w)) (recordRequest c w)))))).
Proof.
  intros Hok (Hf & Ht & Hu & He1 & He2) Ho Hpo Hr. pose proof Hok as [].
  destruct (fresh_nowhere w c Hok Hf) as [Hpc Hnew].
  destruct (ok_pool0 _ _ Hpo) as (_ & Hopool & _). pose proof (Hpc _ _ Hpo) as Hne.
  pose proof (poolOf_pop (mc_ticketId o) (redis w) ok_typed0) as Hp.
  split; cbn [setThreads recordRequest recordMatch natsPublish setReplica setRedis threads redis requested withdrawn matches published];
    rewrite ?omap_arm, ?matchedTickets_app, ?Hp; try done.
  - rewrite map_app. apply NoDup_app. split_and!; [done| |apply NoDup_singleton].
    intros y Hy ->%list_elem_of_singleton. done.
  - intros c' [Hc'| ->%list_elem_of_singleton]%elem_of_app; [auto|]. split_and!; [done..|].
    unfold int_range, kEloRange in *. lia.
  - rewrite app_assoc. apply NoDup_app. split_and!; [done|set_solver|].
    apply NoDup_cons. split; [set_solver|apply NoDup_singleton].
  - intros t u e Hor. apply elem_of_app. left. apply ok_adding0. set_solver.
  - intros t s [Hne' Hs]%lookup_delete_Some. destruct (ok_pool0 t s Hs) as ((c' & ? & ? & ?) & Hn & Htm).
    pose proof (Hpc t s Hs). split_and!; [exists c'; split; [apply elem_of_app; by left|done]|set_solver|set_solver].
  - intros a b [Hab|[= -> ->]%list_elem_of_singleton]%elem_of_app.
    + destruct (ok_matched0 a b Hab) as (? & ? & ?). set_solver.
    + split_and!; [set_solver..|done].
  - by apply pool_typed_pop.
  - intros c' Hc'. rewrite info_pop. case_decide; [by left|].
    apply elem_of_app in Hc' as [Hc'| ->%list_elem_of_singleton]; auto.
  - intros t Hn. rewrite info_pop. case_decide; [done|]. apply ok_unknown0. rewrite map_app in Hn. set_solver.
  - intros c' Hc' Hnw Hor.
    assert (c' = c ∨ c' ∈ requested w) as [->|Hc] by set_solver.
    + exfalso. destruct Hor as [(u & e & Hin)|[s [_ Hs]%lookup_delete_Some]]; [|by eapply Hpc].
      apply Hnew, elem_of_app. left. apply list_elem_of_omap. exists (AddMember (mc_ticketId c) u e). set_solver.
    + assert (mc_ticketId c' ≠ mc_ticketId o) as Hne'.
      { intros E. destruct Hor as [(u & e & Hin)|[s [? _]%lookup_delete_Some]]; [|congruence].
        apply Hopool, elem_of_app. left. apply list_elem_of_omap. exists (AddMember (mc_ticketId o) u e).
        rewrite <-E. set_solver. }
      rewrite info_pop, decide_False by done. apply ok_ready0; [done..|].
      destruct Hor as [(u & e & Hin)|[s [_ Hs]%lookup_delete_Some]]; [left; exists u, e; set_solver|right; eauto].
  - intros th t [Hin| ->%list_elem_of_singleton]%elem_of_app Hrm; [by eapply ok_removing0|done].
  - intros c' [Hc'| ->%list_elem_of_singleton]%elem_of_app Hnw; [|right; right; set_solver].
    destruct (decide (mc_ticketId c' = mc_ticketId o)) as [E|Hne']; [right; right; rewrite E; set_solver|].
    destruct (ok_kept0 c' Hc' Hnw) as [|[[s Hs]|]]; [tauto| |right; right; set_solver].
    right. left. exists s. apply lookup_delete_Some. split; [congruence|done].
  - rewrite filter_app, ok_published0, map_app. done.
Qed.

Lemma parseRequest_json c :
  int_range (mc_elo c - kEloRange) → int_range (mc_elo c + kEloRange) → parseRequest (requestJson c) = Ok c.
Proof.
  intros He1 He2.
  transitivity (e ← getInt (JInt (mc_elo c)); Ok (mkCandidate (mc_ticketId c) (mc_username c) e)); [done|].
  rewrite getInt_JInt by (unfold int_range, kEloRange in *; lia). by destruct c.
Qed.

Lemma onRequest_ok r c w :
  mm_ok w → fresh_request c w → mm_ok (onRequest r (requestJson c) (recordRequest c w)).
Proof.
  intros Hok Hfresh. pose proof Hfresh as (_ & _ & _ & He1 & He2).
  unfold onRequest.
  rewrite parseRequest_json by done.
  cbn [recordRequest redis].
  destruct (findMatch_cases w (mc_elo c) Hok) as [[-> _]|(o & Ho & Hpo & Hr & _ & [-> |[-> Hw]])].
  - apply (mm_ok_frame _ _ (request_waits_ok w c Hok Hfresh)); done.
  - apply (mm_ok_frame _ _ (request_matches_ok w r c o newReplica Hok Hfresh Ho Hpo Hr)); done.
  - pose proof (popped_ok w _ Hok Hw) as Hok'.
    apply (mm_ok_frame _ _ (request_waits_ok _ c Hok' Hfresh)); done.
Qed.

(** ** Every step *)
Lemma mm_step_ok w w' : mm_ok w → mm_step w w' → mm_ok w'.
Proof.
  intros Hok Hs. destruct Hs as [r c w Hf|r event w|event w|th before after w Et].
  - by apply onRequest_ok.
  - apply (mm_ok_frame w); try done; unfold onAssigned; destruct (jStr "ticketA" event); try done;
      destruct (jStr "ticketB" event); done.
  - unfold onCancel. destruct (jStr "ticketId" event) as [t|]; [|done]. pose proof Hok as [].
    assert (omap addingOf (threads w ++ [CancelZrem t]) = omap addingOf (threads w)) as Ho
      by (rewrite omap_app; apply app_nil_r).
    split; cbn [setThreads withdraw threads redis requested withdrawn matches published]; rewrite ?Ho; try done.
    + intros t' u e Hor. apply ok_adding0. set_solver.
    + intros t' s Hs. destruct (ok_pool0 t' s Hs) as (? & ? & ?). split_and!; [done..|set_solver].
    + intros c Hc Hn Hor. apply ok_ready0; [done|set_solver|].
      destruct Hor as [(u & e & Hin)|]; [left; exists u, e; set_solver|by right].
    + intros th t' [Hin| ->%list_elem_of_singleton]%elem_of_app Hr.
      * apply elem_of_union. right. by eapply ok_removing0.
      * simpl in Hr. simplify_eq. set_solver.
    + intros c Hc Hn. apply ok_kept0; [done|set_solver].
  - assert (mm_ok (setThreads (th :: before ++ after) w)) as Hok1.
    { apply (mm_ok_frame w); try done. simpl. rewrite Et. solve_Permutation. }
    pose proof (threadStep_ok _ th (before ++ after) Hok1 eq_refl) as Hok2.
    assert (threadStep th (setThreads (th :: before ++ after) w) =
      let '(w', next) := threadStep th w in (setThreads (th :: before ++ after) w', next)) as E.
    { destruct th; simpl; try done; try (by destruct (isWaiting _ _)).
      unfold giveUp, replicaOf. simpl. repeat (case_decide; simpl); done. }
    rewrite E in Hok2. destruct (threadStep th w) as [w' next].
    apply (mm_ok_frame _ _ Hok2); try done. simpl. solve_Permutation.
Qed.

Lemma newWorld_ok d : (∀ k, value d k = None) → mm_ok (newWorld d).
Proof.
  intros Hd. assert (poolOf d = ∅) as Hp by (unfold poolOf; by rewrite Hd).
  split; simpl; rewrite ?Hp; try done; try constructor; try (intros; set_solver); try apply Hd.
Qed.

Lemma reachable_ok d w : (∀ k, value d k = None) → rtc mm_step (newWorld d) w → mm_ok w.
Proof. intros Hd Hr. eapply (rtc_ind_r mm_ok); eauto using newWorld_ok, mm_step_ok. Qed.

(** ** The promises *)

Lemma pairs_fair_aux d w :
  (∀ k, value d k = None) → rtc mm_step (newWorld d) w →
  NoDup (matchedTickets (matches w)) ∧
  filter (λ p, p.1 = "matchmaking.matched") (published w) =
    map (λ p, ("matchmaking.matched", matchedJson p.1 p.2)) (matches w) ∧
  ∀ a b, (a, b) ∈ matches w → a ∈ requested w ∧ b ∈ requested w ∧ Z.abs (mc_elo a - mc_elo b) ≤ kEloRange.
Proof.
  intros Hd Hr. destruct (reachable_ok d w Hd Hr). split_and!; [|done..].
  by apply NoDup_app in ok_once0 as (_ & _ & ?).
Qed.

Lemma tickets_kept_aux d w c :
  (∀ k, value d k = None) → rtc mm_step (newWorld d) w →
  c ∈ requested w → mc_ticketId c ∉ withdrawn w →
  mc_ticketId c ∈ omap addingOf (threads w) ∨ mc_ticketId c ∈ matchedTickets (matches w) ∨
  poolOf (redis w) !! mc_ticketId c = Some (mc_elo c) ∧ Timer (mc_ticketId c) ∈ threads w ∧
    value (redis w) (ticketInfoKey (mc_ticketId c)) = infoValue c.
Proof.
  intros Hd Hr Hc Hn. pose proof (reachable_ok d w Hd Hr) as Hok. pose proof Hok as [].
  destruct (ok_kept0 c Hc Hn) as [|[[s Hs]|]]; [tauto| |tauto]. right. right.
  destruct (ok_pool0 _ _ Hs) as ((c' & Hc' & Hid & He) & _ & Ht).
  assert (c' = c) as -> by (by apply (requested_same w)). split_and!; [by rewrite Hs, He|tauto|]. apply ok_ready0; [done..|eauto].
Qed.

Lemma request_outcome_aux d w r c :
  (∀ k, value d k = None) → rtc mm_step (newWorld d) w → fresh_request c w →
  let w' := onRequest r (requestJson c) (recordRequest c w) in
  (matches w' = matches w ∧ AddInfo (mc_ticketId c) (mc_username c) (mc_elo c) ∈ threads w' ∧
   ∀ o, o ∈ requested w → is_Some (poolOf (redis w) !! mc_ticketId o) → mc_ticketId o ∉ withdrawn w →
     Z.abs (mc_elo o - mc_elo c) ≤ kEloRange →
     ∃ o', mc_ticketId o' ∈ withdrawn w ∧ poolOf (redis w) !! mc_ticketId o' = Some (mc_elo o') ∧ mc_elo o' ≤ mc_elo o) ∨
  ∃ o, o ∈ requested w ∧ poolOf (redis w) !! mc_ticketId o = Some (mc_elo o) ∧
    matches w' = matches w ++ [(o, c)] ∧ poolOf (redis w') = delete (mc_ticketId o) (poolOf (redis w)) ∧
    ∀ t s, poolOf (redis w) !! t = Some s → Z.abs (s - mc_elo c) ≤ kEloRange → mc_elo o ≤ s.
Proof.
  intros Hd Hrt Hf. pose proof (reachable_ok d w Hd Hrt) as Hok. pose proof Hok as [].
  pose proof Hf as (_ & _ & _ & He1 & He2).
  cbv zeta. unfold onRequest.
  rewrite parseRequest_json by done.
  cbn [recordRequest redis].
  assert (∀ o, o ∈ requested w → is_Some (poolOf (redis w) !! mc_ticketId o) →
    poolOf (redis w) !! mc_ticketId o = Some (mc_elo o)) as Hscore.
  { intros o Ho [s Hs]. destruct (ok_pool0 _ _ Hs) as ((o' & Ho' & Hid & Hel) & _).
    assert (o' = o) as -> by (by apply (requested_same w)). by rewrite Hs, Hel. }
  destruct (findMatch_cases w (mc_elo c) Hok) as [[-> Hno]|(o & Ho & Hpo & Hr & Hmin & [-> |[-> Hw]])].
  - left. simpl. split_and!; [done|set_solver|]. intros o Ho Hs _ Hr. by destruct (Hno _ _ (Hscore o Ho Hs)).
  - right. exists o. simpl. split_and!; [done..| |done]. by apply poolOf_pop.
  - left. simpl. split_and!; [done|set_solver|]. intros o' Ho' Hs _ Hr'. exists o. split_and!; [done..|].
    by apply (Hmin (mc_ticketId o')); [apply Hscore|].
Qed.

(** C13 However many replicas run and however their Redis commands interleave, no
    ticket is ever matched twice or with itself, every published match pairs two
    requested tickets under the names and ratings they asked with, and the
    ratings are within 100 of each other. *)
Theorem pairs_fair d w :
  (∀ k, value d k = None) → rtc mm_step (newWorld d) w →
  NoDup (matchedTickets (matches w)) ∧
  filter (λ p, p.1 = "matchmaking.matched") (published w) =
    map (λ p, ("matchmaking.matched", matchedJson p.1 p.2)) (matches w) ∧
  ∀ a b, (a, b) ∈ matches w → a ∈ requested w ∧ b ∈ requested w ∧ Z.abs (mc_elo a - mc_elo b) ≤ kEloRange.
Proof. exact (pairs_fair_aux d w). Qed.

(** C32 No ticket is lost: one that nobody cancelled and whose timer has not given
    up is on its way into the pool, matched, or in the pool under its own rating
    with its name written and its timer still running. *)
Theorem tickets_kept d w c :
  (∀ k, value d k = None) → rtc mm_step (newWorld d) w →
  c ∈ requested w → mc_ticketId c ∉ withdrawn w →
  mc_ticketId c ∈ omap addingOf (threads w) ∨ mc_ticketId c ∈ matchedTickets (matches w) ∨
  poolOf (redis w) !! mc_ticketId c = Some (mc_elo c) ∧ Timer (mc_ticketId c) ∈ threads w ∧
    value (redis w) (ticketInfoKey (mc_ticketId c)) = infoValue c.
Proof. exact (tickets_kept_aux d w c). Qed.

(** A request is answered at once when an opponent in range waits: it is
    paired with the lowest-rated one, which leaves the pool with it; only a
    withdrawn ticket, whose name is gone, can get in the way, and otherwise the
    request goes on to wait. *)
Theorem request_outcome d w r c :
  (∀ k, value d k = None) → rtc mm_step (newWorld d) w → fresh_request c w →
  let w' := onRequest r (requestJson c) (recordRequest c w) in
  (matches w' = matches w ∧ AddInfo (mc_ticketId c) (mc_username c) (mc_elo c) ∈ threads w' ∧
   ∀ o, o ∈ requested w → is_Some (poolOf (redis w) !! mc_ticketId o) → mc_ticketId o ∉ withdrawn w →
     Z.abs (mc_elo o - mc_elo c) ≤ kEloRange →
     ∃ o', mc_ticketId o' ∈ withdrawn w ∧ poolOf (redis w) !! mc_ticketId o' = Some (mc_elo o') ∧ mc_elo o' ≤ mc_elo o) ∨
  ∃ o, o ∈ requested w ∧ poolOf (redis w) !! mc_ticketId o = Some (mc_elo o) ∧
    matches w' = matches w ++ [(o, c)] ∧ poolOf (redis w') = delete (mc_ticketId o) (poolOf (redis w)) ∧
    ∀ t s, poolOf (redis w) !! t = Some s → Z.abs (s - mc_elo c) ≤ kEloRange → mc_elo o ≤ s.
Proof. exact (request_outcome_aux d w r c). Qed.
End MatchmakingTheorems.

(** ** Concrete runs *)

(** The steps as a function. *)
Inductive MmOp := OpRequest (r : nat) (c : MatchCandidate) | OpCancel (event : json) | OpThread (i : nat).

Section Runs.
Context `{Redis}.

#[export] Instance fresh_request_dec c w : Decision (fresh_request c w).
Proof. unfold fresh_request. apply _. Defined.

Definition mmOp (o : MmOp) (w : World) : option World :=
  match o with
  | OpRequest r c => if decide (fresh_request c w) then Some (onRequest r (requestJson c) (recordRequest c w)) else None
  | OpCancel event => Some (onCancel event w)
  | OpThread i =>
    match threads w !! i with
    | None => None
    | Some th =>
      let '(w', next) := threadStep th w in
      Some (setThreads (take i (threads w) ++ next ++ drop (S i) (threads w)) w')
    end
  end.

Fixpoint mmOps (os : list MmOp) (w : World) : option World :=
  match os with [] => Some w | o :: os => w ← mmOp o w; mmOps os w end.

Lemma mmOps_reach os w w' : mmOps os w = Some w' → rtc mm_step w w'.
Proof.
  revert w. induction os as [|o os IH]; intros w; simpl; [by intros [= ->]|].
  intros (w1 & Ho & Hw)%bind_Some. apply rtc_l with w1; [|by apply IH].
  destruct o as [r c|event|i]; simpl in Ho.
  - case_decide; simplify_eq. by apply MmRequest.
  - simplify_eq. apply MmCancel.
  - destruct (threads w !! i) as [th|] eqn:Hi; [|done].
    pose proof (MmThreadStep th (take i (threads w)) (drop (S i) (threads w)) w) as Hs.
    rewrite (take_drop_middle (threads w) i th Hi) in Hs. specialize (Hs eq_refl).
    destruct (threadStep th w). by simplify_eq.
Qed.

(** A run that comes to an end, by a test that computes to a boolean. *)
Definition comesToEnd {A} (o : option A) : bool := match o with Some _ => true | None => false end.

Lemma mmOps_run os w : comesToEnd (mmOps os w) = true → rtc mm_step w (default w (mmOps os w)).
Proof. destruct (mmOps os w) as [w'|] eqn:E; [|done]. intros _. by apply (mmOps_reach os). Qed.
End Runs.
