(* ===== verification/Allocator.v ===== *)
(** * The game allocator ([allocator/allocator_main])

    Picks the least loaded shard for a matched pair, asks it for a room under a
    name minted from a counter in Redis, and tells both players.  The shard's
    answer to the NATS request is a parameter here; [Seating] puts the shard's
    own handler in its place. *)
From S2P Require Import Prelude Text Scan Double Json Redis Matchmaking MatchmakingTheorems.
#[local] Open Scope Z_scope.

(** [SubjectSafe.h] *)
Fixpoint subjectSafe (raw : string) : string :=
  match raw with
  | EmptyString => ""
  | String c rest => String (if isalnum c then c else Ascii.ascii_of_nat 95) (subjectSafe rest)
  end.

Record Allocator := mkAllocator { shardLoad : gmap string Z; allocationsTotal : Z }.
Definition newAllocator : Allocator := mkAllocator ∅ 0.

(** [shard.heartbeat] *)
Definition onHeartbeat (event : json) (a : Allocator) : Allocator :=
  match (s ← jStr "shard" event; n ← (v ← jAt "roomCount" event; getLong v); Ok (s, n)) with
  | Throw _ => a
  | Ok (shard, roomCount) => mkAllocator (<[shard := roomCount]> (shardLoad a)) (allocationsTotal a)
  end.

(** [pickLeastLoadedShard]: the walk over the hash map, in whatever order. *)
Definition lessLoaded (acc : Z * string) (e : string * Z) : Z * string :=
  if e.2 <? acc.1 then (e.2, e.1) else acc.
Definition pickLeastLoadedShard (entries : list (string * Z)) : string :=
  (foldl lessLoaded (LLONG_MAX, "") entries).2.

(** [reply->value("success", false)] *)
Definition succeeded (reply : json) : result bool := jValue getBool "success" false reply.

Definition allocateSubject (shard : string) : string := "shard." +:+ subjectSafe shard +:+ ".allocate".
Definition allocateJson (roomName whiteUsername blackUsername : string) : json :=
  jObj [("roomName", JString roomName); ("whiteUsername", JString whiteUsername); ("blackUsername", JString blackUsername)].

Definition assignedJson (event : json) (roomName shard white black : string) : result json :=
  ta ← jAt "ticketA" event; tb ← jAt "ticketB" event; ea ← jAt "eloA" event; eb ← jAt "eloB" event;
  Ok (jObj [("ticketA", ta); ("roleA", JString "White"); ("ticketB", tb); ("roleB", JString "Black");
    ("roomName", JString roomName); ("shard", JString shard);
    ("whiteName", JString white); ("whiteElo", ea); ("blackName", JString black); ("blackElo", eb)]).

Section Allocator.
Context `{Redis}.
(** The order the load map is walked in. *)
Variable order : gmap string Z → list (string * Z).

Definition kRoomCounter : string := "matchmaking:nextRoomId".

(** [RedisSequence::next]: an error reply counts as 0. *)
Definition next (key : string) (d : rdb) : rdb * Z := let '(d, reply) := INCR (c_str key) d in (d, default 0 reply).

(** [matchmaking.matched]: the state, and what was published. *)
Definition onMatched (ask : string → json → option json) (event : json) (a : Allocator) (d : rdb)
    : rdb * Allocator * list (string * json) :=
  let chosenShard := pickLeastLoadedShard (order (shardLoad a)) in
  if String.eqb chosenShard "" then (d, a, [])
  else
    let '(d, n) := next kRoomCounter d in
    let roomName := "match-" +:+ showInt n in
    match (w ← jStr "usernameA" event; b ← jStr "usernameB" event; Ok (w, b)) with
    | Throw _ => (d, a, [])
    | Ok (white, black) =>
      match (match ask (allocateSubject chosenShard) (allocateJson roomName white black) with
             | None => Ok false | Some reply => succeeded reply end) with
      | Ok true =>
        let a := mkAllocator (shardLoad a) (allocationsTotal a + 1) in
        (d, a, match assignedJson event roomName chosenShard white black with
               | Ok data => [("matchmaking.assigned", data)] | Throw _ => [] end)
      | _ => (d, a, [])
      end
    end.

(** [allocation.request]: the answer, or what is thrown into the NATS client,
    which answers with the text. *)
Definition onAllocationRequest (ask : string → json → option json) (request : json) (a : Allocator)
    : Allocator * result json :=
  let answer success message := jObj [("success", JBool success); ("message", JString message)] in
  match jStr "roomName" request with
  | Throw what => (a, Throw what)
  | Ok roomName =>
    let chosenShard := pickLeastLoadedShard (order (shardLoad a)) in
    if String.eqb chosenShard "" then (a, Ok (answer false "no game-server shard available"))
    else
      match ask (allocateSubject chosenShard) (jObj [("roomName", JString roomName)]) with
      | None => (a, Ok (answer false "shard unavailable"))
      | Some reply =>
        match succeeded reply with
        | Throw what => (a, Throw what)
        | Ok false => (a, Ok reply)
        | Ok true =>
          (mkAllocator (shardLoad a) (allocationsTotal a + 1),
           Ok (jObj [("success", JBool true); ("message", JString "room created");
             ("roomName", JString roomName); ("shard", JString chosenShard)]))
        end
      end
  end.
End Allocator.

(** ** The least loaded shard *)

Lemma lessLoaded_fold l acc :
  let r := foldl lessLoaded acc l in
  (r = acc ∨ (r.2, r.1) ∈ l ∧ r.1 < acc.1) ∧ (∀ s n, (s, n) ∈ l → r.1 ≤ n) ∧ r.1 ≤ acc.1.
Proof.
  revert acc. induction l as [|[s0 n0] l IH]; intros acc; simpl.
  - split_and!; [by left|set_solver|lia].
  - destruct (IH (lessLoaded acc (s0, n0))) as (H1 & H2 & H3).
    assert (lessLoaded acc (s0, n0) = acc ∧ acc.1 ≤ n0 ∨ lessLoaded acc (s0, n0) = (n0, s0) ∧ n0 < acc.1) as Hl.
    { unfold lessLoaded. simpl. destruct (n0 <? acc.1) eqn:E; b2p; [right|left]; split; done || lia. }
    destruct Hl as [[E ?]|[E ?]]; rewrite E in *; simpl in *.
    + split_and!; [|intros s n [[= -> ->]|]%elem_of_cons; [lia|eauto]|lia].
      destruct H1 as [H1|[Hin ?]]; [by left|right]. split; [by right|lia].
    + split_and!; [right|intros s n [[= -> ->]|]%elem_of_cons; [lia|eauto]|lia].
      destruct H1 as [H1|[Hin ?]]; [rewrite H1; simpl; split; [left|lia]|split; [by right|lia]].
Qed.

(** A room goes to a shard with as few rooms as any other, in whatever order the
    map is walked; none is found only when every shard is unnamed or full. *)
Lemma pick_least entries loads :
  entries ≡ₚ map_to_list loads →
  let chosen := pickLeastLoadedShard entries in
  (chosen ≠ "" → ∃ n, loads !! chosen = Some n ∧ ∀ s m, loads !! s = Some m → n ≤ m) ∧
  (chosen = "" → ∀ s m, loads !! s = Some m → s ≠ "" → loads !! "" = None → LLONG_MAX ≤ m).
Proof.
  intros Hp. destruct (lessLoaded_fold entries (LLONG_MAX, "")) as (H1 & H2 & _).
  unfold pickLeastLoadedShard. simpl.
  assert (∀ s n, (s, n) ∈ entries ↔ loads !! s = Some n) as Hin by (intros; rewrite Hp; apply elem_of_map_to_list).
  setoid_rewrite Hin in H2. rewrite Hin in H1. split.
  - intros Hne. destruct H1 as [E|[E _]]; [by rewrite E in Hne|]. eauto.
  - intros He s m Hs Hne Hn. destruct H1 as [E|[E _]]; [rewrite E in H2; by eapply (H2 s)|].
    rewrite He in E. congruence.
Qed.

(** ** Room names *)
Section Names.
Context `{Redis}.

(** What the counter stands at. *)
Definition counterAt (n : Z) (d : rdb) : Prop :=
  value d kRoomCounter = (if n =? 0 then None else Some (RStr (showInt n))).

Lemma next_counter n d :
  counterAt n d → 0 ≤ n < LLONG_MAX → (next kRoomCounter d).2 = n + 1 ∧ counterAt (n + 1) (next kRoomCounter d).1.
Proof.
  unfold counterAt, next. intros Hv Hn. destruct (INCR (c_str kRoomCounter) d) as [d' r] eqn:E.
  pose proof (reply_INCR (c_str kRoomCounter) d) as Hr. pose proof (value_INCR (c_str kRoomCounter) d kRoomCounter) as Hd.
  change (c_str kRoomCounter) with kRoomCounter in *. rewrite decide_True in Hd by done.
  rewrite E in Hr, Hd. cbn [fst snd] in *. rewrite Hd, Hr, Hv.
  destruct (n + 1 =? 0) eqn:E1; b2p; [lia|]. destruct (n =? 0) eqn:E0; b2p; [subst n; done|].
  simpl. rewrite <-(append_nil_r (showInt n)), scanSigned_showInt by done.
  by destruct (n <? LLONG_MAX) eqn:El; b2p; [|lia].
Qed.

(** Matched events as the replicas of the queue group take them up. *)
Record AllocTurn := mkTurn {
  t_order : gmap string Z → list (string * Z);
  t_ask : string → json → option json;
  t_allocator : Allocator;
  t_event : json
}.

Fixpoint turns (ts : list AllocTurn) (d : rdb) : rdb * list (string * json) :=
  match ts with
  | [] => (d, [])
  | t :: ts =>
    let '(d, _, out) := onMatched (t_order t) (t_ask t) (t_event t) (t_allocator t) d in
    let '(d, outs) := turns ts d in (d, out ++ outs)
  end.

(** The rooms named in what was published. *)
Definition roomNamesOf (out : list (string * json)) : list json :=
  omap (λ p, match jAt "roomName" p.2 with Ok j => Some j | Throw _ => None end) out.

Lemma roomNamesOf_cons p out :
  roomNamesOf (p :: out) = match jAt "roomName" p.2 with Ok j => j :: roomNamesOf out | Throw _ => roomNamesOf out end.
Proof. unfold roomNamesOf. csimpl. by destruct (jAt "roomName" p.2). Qed.

Lemma onMatched_out order ask event a d n :
  counterAt n d → 0 ≤ n < LLONG_MAX →
  let '(d', _, out) := onMatched order ask event a d in
  (counterAt n d' ∧ out = [] ∨ counterAt (n + 1) d' ∧
    (out = [] ∨ ∃ data, out = [("matchmaking.assigned", data)] ∧
      jAt "roomName" data = Ok (JString ("match-" +:+ showInt (n + 1))))).
Proof.
  intros Hc Hn. unfold onMatched. destruct (String.eqb _ ""); [by left|].
  pose proof (next_counter n d Hc Hn) as [Hr Hc']. destruct (next kRoomCounter d) as [d' k]. simpl in *. subst k.
  destruct (w ← jStr "usernameA" event; _) as [[white black]|]; [|right; auto].
  destruct (match ask _ _ with Some _ => _ | None => _ end) as [[|]|]; [|right; auto..].
  right. split; [done|]. unfold assignedJson.
  destruct (jAt "ticketA" event) as [ta|]; [|by left]. simpl. destruct (jAt "ticketB" event) as [tb|]; [|by left]. simpl.
  destruct (jAt "eloA" event) as [ea|]; [|by left]. simpl. destruct (jAt "eloB" event) as [eb|]; [|by left]. simpl.
  right. eexists. split; reflexivity.
Qed.

Lemma turns_names ts d n :
  counterAt n d → 0 ≤ n → n + Z.of_nat (length ts) ≤ LLONG_MAX →
  ∃ ks, roomNamesOf (turns ts d).2 = map (λ k, JString ("match-" +:+ showInt k)) ks ∧
    NoDup ks ∧ Forall (λ k, n < k) ks.
Proof.
  revert d n. induction ts as [|t ts IH]; intros d n Hc Hn Hlen; simpl in *; [exists []; repeat constructor|].
  pose proof (onMatched_out (t_order t) (t_ask t) (t_event t) (t_allocator t) d n Hc ltac:(lia)) as Ho.
  destruct (onMatched _ _ _ _ d) as [[d1 a1] out]. destruct (turns ts d1) as [d2 outs] eqn:Et. simpl.
  assert (∀ m, counterAt m d1 → n ≤ m ≤ n + 1 → ∃ ks,
    roomNamesOf outs = map (λ k, JString ("match-" +:+ showInt k)) ks ∧ NoDup ks ∧ Forall (λ k, m < k) ks) as Hrest.
  { intros m Hm Hr. destruct (IH d1 m Hm ltac:(lia) ltac:(lia)) as (ks & Hks). exists ks. by rewrite Et in Hks. }
  destruct Ho as [[Hc1 ->]|[Hc1 [-> |(data & -> & Hd)]]].
  - apply (Hrest n Hc1). lia.
  - destruct (Hrest (n + 1) Hc1) as (ks & Hk & Hnd & Hf); [lia|]. exists ks. split_and!; [done..|].
    eapply Forall_impl; [exact Hf|]. simpl. lia.
  - destruct (Hrest (n + 1) Hc1) as (ks & Hk & Hnd & Hf); [lia|]. exists (n + 1 :: ks).
    cbn [app]. rewrite roomNamesOf_cons. cbn [snd]. rewrite Hd, Hk. rewrite Forall_forall in Hf. split_and!; [done| |].
    + constructor; [|done]. intros Hin. specialize (Hf _ Hin). simpl in Hf. lia.
    + constructor; [lia|]. rewrite Forall_forall. intros k Hin. specialize (Hf k Hin). simpl in Hf. lia.
Qed.
End Names.

(** A room goes to a shard with as few rooms as any other, in whatever order
    the load map is walked; no shard is found only when none has reported. *)
Theorem pick_least_loaded entries loads :
  entries ≡ₚ map_to_list loads → loads !! "" = None → (∀ s m, loads !! s = Some m → m < LLONG_MAX) →
  let chosen := pickLeastLoadedShard entries in
  (loads = ∅ → chosen = "") ∧
  (loads ≠ ∅ → ∃ n, loads !! chosen = Some n ∧ ∀ s m, loads !! s = Some m → n ≤ m).
Proof.
  intros Hp Hn Hmax. destruct (pick_least entries loads Hp) as [H1 H2]. split.
  - intros ->. rewrite map_to_list_empty in Hp. apply Permutation_nil_r in Hp. by subst entries.
  - intros Hne. apply H1. intros He. apply map_choose in Hne as (s & m & Hs).
    pose proof (Hmax s m Hs). specialize (H2 He s m Hs). destruct (decide (s = "")) as [->|]; [congruence|].
    specialize (H2 ltac:(done) Hn). lia.
Qed.

Lemma pick_least_loaded_witness :
  pickLeastLoadedShard [("ws://b", 4); ("ws://a", 2)] = "ws://a" ∧
  ∃ n, (<["ws://a" := 2]> {["ws://b" := 4]} : gmap string Z) !! pickLeastLoadedShard [("ws://b", 4); ("ws://a", 2)] = Some n ∧
    ∀ s m, (<["ws://a" := 2]> {["ws://b" := 4]} : gmap string Z) !! s = Some m → n ≤ m.
Proof.
  split; [reflexivity|].
  refine (proj2 (pick_least_loaded [("ws://b", 4); ("ws://a", 2)] (<["ws://a" := 2]> {["ws://b" := 4]}) _ _ _) _).
  - apply (bool_decide_unpack _). vm_compute. exact I.
  - reflexivity.
  - intros s m [[_ <-]|[_ [_ <-]%lookup_singleton_Some]]%lookup_insert_Some; reflexivity.
  - apply (bool_decide_unpack _). vm_compute. exact I.
Defined.

(** C35 Two matches never share a room: whichever replicas take up the matched
    events, and whatever shards answer, the rooms announced are named after
    distinct numbers of the one counter. *)
Theorem rooms_unique `{Redis} ts d :
  value d kRoomCounter = None → Z.of_nat (length ts) ≤ LLONG_MAX →
  ∃ ks, roomNamesOf (turns ts d).2 = map (λ k, JString ("match-" +:+ showInt k)) ks ∧ NoDup ks.
Proof.
  intros Hd Hl. destruct (turns_names ts d 0) as (ks & Hk & Hnd & _); [done|lia..|]. eauto.
Qed.
