(* ===== verification/Observers.v ===== *)
(** * The observers of a game ([server/engine])

    [ScoreObserver], [MoveLogObserver] and [CaptureEventObserver] listen to the
    notifications of the arbiter.  A notification is an [Event] of the
    arbiter's trace; an observer is a state folded over the trace. *)
From S2P Require Import Prelude Model Text Rules Double Motion Arbiter ArbiterSteps Lifecycle Engine EngineSpec EngineTheorems.
From Stdlib Require Import Ascii.

(** ** [ScoreObserver] *)

Definition PAWN_VALUE : Z := 1.
Definition KNIGHT_VALUE : Z := 3.
Definition BISHOP_VALUE : Z := 3.
Definition ROOK_VALUE : Z := 5.
Definition QUEEN_VALUE : Z := 9.

Definition pieceValue (kind : Kind) : Z :=
  match kind with
  | Pawn => PAWN_VALUE
  | Knight => KNIGHT_VALUE
  | Bishop => BISHOP_VALUE
  | Rook => ROOK_VALUE
  | Queen => QUEEN_VALUE
  | _ => 0
  end.

Record ScoreObserver := mkScore { whiteScore : Z; blackScore : Z }.
Definition newScore : ScoreObserver := mkScore 0 0.

Definition ScoreObserver_onPieceCaptured (captured : Piece) (s : ScoreObserver) : ScoreObserver :=
  let value := pieceValue (getKind captured) in
  if colorEqb (getColor captured) White then mkScore (whiteScore s) (blackScore s + value)
  else if colorEqb (getColor captured) Black then mkScore (whiteScore s + value) (blackScore s)
  else s.

Definition getScore (color : Color) (s : ScoreObserver) : Z :=
  match color with White => whiteScore s | Black => blackScore s | NoColor => 0 end.

(** ** [MoveLogObserver] *)

Record MoveEntry := mkEntry { timestamp : string; notation : string }.

Definition pieceLetter (kind : Kind) : string :=
  match kind with
  | King => "K" | Queen => "Q" | Rook => "R" | Bishop => "B" | Knight => "N"
  | _ => ""
  end.

(** [static_cast<char>('a' + col)]: the low byte. *)
Definition fileLetter (col : Z) : string :=
  String (ascii_of_nat (Z.to_nat ((97 + col) `mod` 256))) "".

Record MoveLogObserver := mkLog {
  whiteMoves : list MoveEntry;
  blackMoves : list MoveEntry;
  boardHeight : Z
}.
Definition newLog (boardHeight : Z) : MoveLogObserver := mkLog [] [] boardHeight.

Definition describe (s : MoveLogObserver) (mover : Piece) (from to : Position) (wasCapture : bool) : string :=
  pieceLetter (getKind mover) +:+
  (if kindEqb (getKind mover) Pawn && wasCapture then fileLetter (col from) else "") +:+
  (if wasCapture then "x" else "") +:+
  fileLetter (col to) +:+ showInt (boardHeight s - row to).

Definition formatElapsed (gameClockMs : Z) : string :=
  let totalMs := gameClockMs in
  let minutes := Z.quot totalMs 60000 in
  let seconds := Z.rem (Z.quot totalMs 1000) 60 in
  let millis := Z.rem totalMs 1000 in
  zeroPad 2 (showInt minutes) +:+ ":" +:+ zeroPad 2 (showInt seconds) +:+ "." +:+
  zeroPad 3 (showInt millis).

(** The log afterwards, and what [onNewEntry] is called with. *)
Definition MoveLogObserver_onMoveCompleted (mover : Piece) (from to : Position) (wasCapture : bool)
    (gameClockMs : Z) (s : MoveLogObserver) : MoveLogObserver * option (Color * MoveEntry) :=
  let entry := mkEntry (formatElapsed gameClockMs) (describe s mover from to wasCapture) in
  match getColor mover with
  | White => (mkLog (whiteMoves s ++ [entry]) (blackMoves s) (boardHeight s), Some (White, entry))
  | Black => (mkLog (whiteMoves s) (blackMoves s ++ [entry]) (boardHeight s), Some (Black, entry))
  | NoColor => (s, None)
  end.

Definition getMoves (color : Color) (s : MoveLogObserver) : list MoveEntry :=
  match color with White => whiteMoves s | Black => blackMoves s | NoColor => [] end.

(** ** [CaptureEventObserver] *)

Record CaptureEvent := mkCaptureEvent {
  ce_kind : Kind; ce_color : Color; ce_cell : Position; ce_capturedPieceId : Z;
  ce_capturingPieceId : Z; ce_collisionCell : Position; ce_impactProgress : double
}.

(** What [onNewCapture] is called with. *)
Definition CaptureEventObserver_onPieceCaptured (captured : Piece) (impact : CaptureImpact) : CaptureEvent :=
  mkCaptureEvent (getKind captured) (getColor captured) (getCell captured) (getId captured)
    (capturingPieceId impact) (collisionCell impact) (impactProgress impact).

(** ** The trace of a game *)

Definition scoreEvent (s : ScoreObserver) (e : Event) : ScoreObserver :=
  match e with
  | onPieceCaptured p _ => ScoreObserver_onPieceCaptured p s
  | onMoveCompleted _ _ _ _ _ => s
  end.

Definition logEvent (s : MoveLogObserver) (e : Event) : MoveLogObserver :=
  match e with
  | onPieceCaptured _ _ => s
  | onMoveCompleted p f t c ms => (MoveLogObserver_onMoveCompleted p f t c ms s).1
  end.

(** The pushes a trace causes, in order. *)
Inductive Push := PushMove (color : Color) (entry : MoveEntry) | PushCapture (event : CaptureEvent).

Definition pushEvent (s : MoveLogObserver) (e : Event) : list Push :=
  match e with
  | onPieceCaptured p im => [PushCapture (CaptureEventObserver_onPieceCaptured p im)]
  | onMoveCompleted p f t c ms =>
    match (MoveLogObserver_onMoveCompleted p f t c ms s).2 with
    | Some (color, entry) => [PushMove color entry]
    | None => []
    end
  end.

Fixpoint pushes (s : MoveLogObserver) (es : list Event) : list Push :=
  match es with
  | [] => []
  | e :: es => pushEvent s e ++ pushes (logEvent s e) es
  end.

Definition score (es : list Event) : ScoreObserver := foldl scoreEvent newScore es.
Definition moveLog (boardHeight : Z) (es : list Event) : MoveLogObserver :=
  foldl logEvent (newLog boardHeight) es.

Example describe_examples :
  let log := newLog 8 in
  describe log (mkPiece 1 White Knight (mkPos 7 1) Moving) (mkPos 7 1) (mkPos 5 2) false = "Nc3" ∧
  describe log (mkPiece 2 Black Pawn (mkPos 3 3) Moving) (mkPos 3 4) (mkPos 4 3) true = "exd4" ∧
  formatElapsed 754032 = "12:34.032".
Proof. by vm_compute. Qed.

(** ** The score *)

(** Counted from scratch: the values of the captured pieces of one colour. *)
Definition valueOf (color : Color) (ps : list Piece) : Z :=
  foldr (λ p acc, (if colorEqb (getColor p) color then pieceValue (getKind p) else 0) + acc) 0 ps.

Lemma valueOf_app c l l' : valueOf c (l ++ l') = valueOf c l + valueOf c l'.
Proof. induction l as [|p l IH]; simpl; [done|]. rewrite IH. lia. Qed.

Lemma score_fold es s :
  whiteScore (foldl scoreEvent s es) = whiteScore s + valueOf Black (capturedOf es) ∧
  blackScore (foldl scoreEvent s es) = blackScore s + valueOf White (capturedOf es).
Proof.
  revert s. induction es as [|[p im|] es IH]; intros s; simpl; [lia| |apply IH].
  destruct (IH (ScoreObserver_onPieceCaptured p s)) as [-> ->].
  unfold ScoreObserver_onPieceCaptured, colorEqb. destruct (getColor p); simpl; lia.
Qed.

Section Play.
Context `{HashIter}.
Variable sim : bool.

Lemma exec_reports e c :
  board_ok (board (arbiter e)) → ∃ es,
    events (arbiter (exec sim e c)) = events (arbiter e) ++ es ∧
    captured_pieces (arbiter (exec sim e c)) = captured_pieces (arbiter e) ++ capturedOf es.
Proof.
  intros Hok. destruct (exec_asteps sim e c Hok) as [k Hs].
  destruct (asteps_reports _ _ Hs) as (es & He & Hc & _). by exists es.
Qed.

Lemma play_reports e cs :
  board_ok (board (arbiter e)) → captured_pieces (arbiter e) = capturedOf (events (arbiter e)) →
  captured_pieces (arbiter (play sim e cs)) = capturedOf (events (arbiter (play sim e cs))).
Proof.
  revert e. induction cs as [|c cs IH]; intros e Hok Hc; simpl; [done|].
  destruct (exec_reports e c Hok) as (es & He & Hcap). apply IH.
  - destruct (exec_asteps sim e c Hok) as [k Hs]. exact (asteps_board_ok _ _ Hs Hok).
  - by rewrite Hcap, He, capturedOf_app, Hc.
Qed.

(** Over a whole game, whatever commands were given, each side's score is
    the value of the enemy pieces it has captured: pawn 1, knight and bishop 3,
    rook 5, queen 9, king 0. *)
Theorem score_play b cs :
  board_ok b →
  let a := arbiter (play sim (newEngine b) cs) in
  getScore White (score (events a)) = valueOf Black (captured_pieces a) ∧
  getScore Black (score (events a)) = valueOf White (captured_pieces a).
Proof.
  intros Hok a. unfold a. rewrite play_reports by done. unfold score, getScore.
  destruct (score_fold (events a) newScore) as [Hw Hb]. simpl. fold a. by rewrite Hw, Hb.
Qed.
End Play.

(** ** The move log *)

Definition pushedMoves (color : Color) (ps : list Push) : list MoveEntry :=
  omap (λ p, match p with PushMove c e => if colorEqb c color then Some e else None
                        | PushCapture _ => None end) ps.

Definition pushedCaptures (ps : list Push) : list CaptureEvent :=
  omap (λ p, match p with PushMove _ _ => None | PushCapture e => Some e end) ps.

(** One completed move of the trace, as the log records it. *)
Definition entryOf (h : Z) (color : Color) (e : Event) : option MoveEntry :=
  match e with
  | onPieceCaptured _ _ => None
  | onMoveCompleted p f t c ms =>
    if colorEqb (getColor p) color
    then Some (mkEntry (formatElapsed ms) (describe (newLog h) p f t c)) else None
  end.

(** The log of a side holds exactly its completed moves, in the order they
    completed; and a listener that starts from the log it was given and appends
    every pushed move has the server's log at all times, while the pushed
    captures are the captures of the trace. *)
Theorem moveLog_pushes color es s :
  color ≠ NoColor →
  getMoves color (foldl logEvent s es) = getMoves color s ++ omap (entryOf (boardHeight s) color) es ∧
  getMoves color (foldl logEvent s es) = getMoves color s ++ pushedMoves color (pushes s es) ∧
  map ce_capturedPieceId (pushedCaptures (pushes s es)) = map getId (capturedOf es).
Proof.
  intros Hc. revert s. induction es as [|e es IH]; intros s; simpl.
  { by rewrite !app_nil_r. }
  destruct (IH (logEvent s e)) as (H1 & H2 & H3).
  unfold pushedMoves, pushedCaptures in *. rewrite !omap_app, map_app, H3.
  assert (boardHeight (logEvent s e) = boardHeight s) as Hh.
  { destruct e as [|p f t c ms]; [done|]. simpl. unfold MoveLogObserver_onMoveCompleted.
    by destruct (getColor p). }
  rewrite Hh in H1. destruct e as [p im|p f t c ms]; [done|]. split_and!; [rewrite H1|rewrite H2|];
    simpl; unfold MoveLogObserver_onMoveCompleted, colorEqb;
    change (describe (newLog (boardHeight s)) p f t c) with (describe s p f t c);
    by destruct (getColor p), color; simpl; rewrite <-?app_assoc.
Qed.

(** ** Timestamps *)

Lemma pretty_N_go_length x s : (0 < x)%N → (S (String.length s) ≤ String.length (pretty_N_go x s))%nat.
Proof.
  revert s. induction (N.lt_wf_0 x) as [x _ IH]. intros s Hx.
  rewrite pretty_N_go_step by done.
  destruct (decide (0 < x `div` 10)%N) as [Hd|Hd].
  - assert (x `div` 10 < x)%N as Hlt by (apply N.div_lt; lia).
    specialize (IH _ Hlt (String (pretty_N_char (x `mod` 10)) s) Hd). cbn [String.length] in IH.
    etrans; [|exact IH]. lia.
  - rewrite (proj1 (N.le_0_r _) (proj1 (N.nlt_ge _ _) Hd)). rewrite pretty_N_go_0. done.
Qed.

Lemma showInt_long n : 100 ≤ n → (3 ≤ String.length (showInt n))%nat.
Proof.
  intros Hn. unfold showInt, pretty, pretty_Z. destruct n as [|p|]; [lia| |lia].
  unfold pretty, pretty_positive. unfold pretty, pretty_N. rewrite decide_False by lia.
  assert (100 ≤ N.pos p)%N by lia. generalize dependent (N.pos p). clear p Hn. intros x Hx.
  assert (10 ≤ x `div` 10)%N by (apply N.div_le_lower_bound; lia).
  assert (1 ≤ x `div` 10 `div` 10)%N by (apply N.div_le_lower_bound; lia).
  rewrite pretty_N_go_step by lia. rewrite pretty_N_go_step by lia.
  etrans; [|apply pretty_N_go_length; lia]. done.
Qed.

Lemma string_app_inj (a b c d : string) :
  String.length a = String.length c → a +:+ b = c +:+ d → a = c ∧ b = d.
Proof.
  revert c. induction a as [|x a IH]; intros [|y c]; try done. simpl. intros [= Hl] [= -> Heq].
  by destruct (IH c Hl Heq) as [-> ->].
Qed.

Lemma length_app_string (a b : string) : String.length (a +:+ b) = (String.length a + String.length b)%nat.
Proof. induction a as [|x a IH]; simpl; [done|]. f_equal. exact IH. Qed.

(** A padded number of the given range: its width, and the number back. *)
Fixpoint digits (acc : nat) (s : string) : nat :=
  match s with
  | EmptyString => acc
  | String c s => digits (10 * acc + (nat_of_ascii c - 48)) s
  end.

Definition padded (w n : nat) : bool :=
  forallb (λ i, let s := zeroPad w (showInt (Z.of_nat i)) in
    Nat.eqb (String.length s) w && Nat.eqb (digits 0 s) i) (seq 0 n).

Lemma padded_spec w n a b :
  padded w n = true → 0 ≤ a < Z.of_nat n → 0 ≤ b < Z.of_nat n →
  String.length (zeroPad w (showInt a)) = w ∧
  (zeroPad w (showInt a) = zeroPad w (showInt b) → a = b).
Proof.
  unfold padded. rewrite forallb_forall. intros Hp Ha Hb.
  assert (∀ x, 0 ≤ x < Z.of_nat n → String.length (zeroPad w (showInt x)) = w ∧
    digits 0 (zeroPad w (showInt x)) = Z.to_nat x) as Hx.
  { intros x Hx. specialize (Hp (Z.to_nat x)). rewrite Z2Nat.id in Hp by lia.
    assert (In (Z.to_nat x) (seq 0 n)) as Hin by (apply in_seq; lia).
    apply Hp, andb_true_iff in Hin as [Hl Hd]. by apply Nat.eqb_eq in Hl, Hd. }
  destruct (Hx a Ha) as [Hl Hda]. destruct (Hx b Hb) as [_ Hdb]. split; [done|].
  intros Heq. rewrite Heq in Hda. lia.
Qed.

Lemma padded_2_100 : padded 2 100 = true.
Proof. vm_compute. reflexivity. Qed.
Lemma padded_3_1000 : padded 3 1000 = true.
Proof. vm_compute. reflexivity. Qed.

Lemma zeroPad_long w s : (w ≤ String.length s)%nat → zeroPad w s = s.
Proof. intros Hw. unfold zeroPad. by replace (w - String.length s)%nat with 0%nat by lia. Qed.

Lemma minutes_inj a b :
  0 ≤ a → 0 ≤ b → zeroPad 2 (showInt a) = zeroPad 2 (showInt b) → a = b.
Proof.
  intros Ha Hb Heq.
  assert (∀ x, 0 ≤ x → x < 100 ∧ String.length (zeroPad 2 (showInt x)) = 2%nat ∨
    100 ≤ x ∧ zeroPad 2 (showInt x) = showInt x ∧ (3 ≤ String.length (showInt x))%nat) as Hc.
  { intros x Hx. destruct (Z.lt_ge_cases x 100) as [Hlt|Hge]; [left|right].
    - split; [done|]. by apply (padded_spec 2 100 x x padded_2_100).
    - pose proof (showInt_long x Hge). split_and!; [done|by apply zeroPad_long; lia|done]. }
  destruct (Hc a Ha) as [[? La]|(? & Ea & La)], (Hc b Hb) as [[? Lb]|(? & Eb & Lb)].
  - apply (padded_spec 2 100 a b padded_2_100); [simpl; lia..|done].
  - rewrite Heq, Eb in La. lia.
  - rewrite <-Heq, Ea in Lb. lia.
  - rewrite Ea, Eb in Heq. by apply (inj showInt) in Heq.
Qed.

Lemma clock_fields x :
  0 ≤ x → Z.rem (Z.quot x 1000) 60 = (x / 1000) mod 60 ∧ Z.rem x 1000 = x mod 1000 ∧
    Z.quot x 60000 = x / 60000 ∧ 0 ≤ (x / 1000) mod 60 < 100 ∧ 0 ≤ x mod 1000 < 1000 ∧ 0 ≤ x / 60000 ∧
    x = 60000 * (x / 60000) + 1000 * ((x / 1000) mod 60) + x mod 1000.
Proof.
  intros Hx. pose proof (Z.mod_pos_bound (x / 1000) 60). pose proof (Z.mod_pos_bound x 1000).
  assert (0 ≤ x / 1000) by (apply Z.div_pos; lia).
  rewrite (Z.quot_div_nonneg x 1000), !Z.rem_mod_nonneg, Z.quot_div_nonneg by lia.
  split_and!; try lia; [apply Z.div_pos; lia|].
  change 60000 with (1000 * 60). rewrite <-Z.div_div by lia.
  pose proof (Z.div_mod x 1000). pose proof (Z.div_mod (x / 1000) 60). lia.
Qed.

(** Time stamps are faithful: two moves logged at different moments of the
    simulation clock, however long the game, have different time stamps. *)
Theorem formatElapsed_inj a b :
  0 ≤ a → 0 ≤ b → formatElapsed a = formatElapsed b → a = b.
Proof.
  intros Ha Hb Heq. unfold formatElapsed in Heq.
  destruct (clock_fields a Ha) as (E1 & E2 & E3 & Ha1 & Ha2 & Ha3 & Hea).
  destruct (clock_fields b Hb) as (F1 & F2 & F3 & Hb1 & Hb2 & Hb3 & Heb).
  rewrite E1, E2, E3, F1, F2, F3 in Heq. clear E1 E2 E3 F1 F2 F3.
  destruct (padded_spec 2 100 _ _ padded_2_100 Ha1 Hb1) as [La1 Is].
  destruct (padded_spec 2 100 _ _ padded_2_100 Hb1 Ha1) as [Lb1 _].
  destruct (padded_spec 3 1000 _ _ padded_3_1000 Ha2 Hb2) as [La2 Im].
  destruct (padded_spec 3 1000 _ _ padded_3_1000 Hb2 Ha2) as [Lb2 _].
  set (sa := zeroPad 2 (showInt ((a / 1000) mod 60))) in *. set (sb := zeroPad 2 (showInt ((b / 1000) mod 60))) in *.
  set (ma := zeroPad 3 (showInt (a mod 1000))) in *. set (mb := zeroPad 3 (showInt (b mod 1000))) in *.
  assert (∀ s m, String.length s = 2%nat → String.length m = 3%nat →
    String.length (":" +:+ s +:+ "." +:+ m) = 7%nat) as Htail.
  { intros s m Hs Hm. rewrite !length_app_string, Hs, Hm. done. }
  pose proof (f_equal String.length Heq) as Hlen. rewrite !(length_app_string (zeroPad 2 (showInt _))) in Hlen.
  rewrite !Htail in Hlen by done.
  apply string_app_inj in Heq as [Hmin Heq]; [|lia].
  apply string_app_inj in Heq as [_ Heq]; [|done].
  apply string_app_inj in Heq as [Hsec Heq]; [|congruence].
  apply string_app_inj in Heq as [_ Hmil]; [|done].
  apply minutes_inj in Hmin; [|done..]. apply Is in Hsec. apply Im in Hmil. lia.
Qed.
