(* ===== verification/Codecs.v ===== *)
(** * The wire formats ([shared/protocol], [server/app/session])

    Snapshots, captures, move logs, game results and the message envelope as
    JSON values, in both directions. *)
From S2P Require Import Prelude Model Text Double Rules Motion Arbiter ArbiterSteps Lifecycle Engine Json Observers.

(** ** Names of enumerations

    A [const std::unordered_map<E, std::string>] with [.at], and the search for
    a name in it (names are distinct, so the order of the search is
    irrelevant). *)
Section Names.
Context {E : Type} `{EqDecision E}.

Fixpoint nameOf (table : list (E * string)) (e : E) : result string :=
  match table with
  | [] => Throw "invalid unordered_map<K, T> key"
  | (x, n) :: table => if decide (x = e) then Ok n else nameOf table e
  end.

Fixpoint fromName (err : string) (table : list (E * string)) (name : string) : result E :=
  match table with
  | [] => Throw (err +:+ name)
  | (x, n) :: table => if String.eqb n name then Ok x else fromName err table name
  end.
End Names.

Definition encodePosition (p : Position) : json := jObj [("row", JInt (row p)); ("col", JInt (col p))].
Definition decodePosition (j : json) : result Position :=
  r ← jInt "row" j; c ← jInt "col" j; Ok (mkPos r c).

(** ** [GameSnapshotCodec.cpp] *)
Module SnapshotCodec.

Definition kKindToName : list (Kind * string) :=
  [(King, "King"); (Queen, "Queen"); (Rook, "Rook"); (Bishop, "Bishop");
   (Knight, "Knight"); (Pawn, "Pawn"); (NoKind, "None")].
Definition kColorToName : list (Color * string) :=
  [(White, "White"); (Black, "Black"); (NoColor, "None")].
Definition kStateToName : list (State * string) :=
  [(Idle, "Idle"); (Moving, "Moving"); (Jump, "Jump"); (ShortRest, "ShortRest");
   (LongRest, "LongRest"); (Captured, "Captured")].

Definition nameToKind : string → result Kind := fromName "Unknown piece kind: " kKindToName.
Definition nameToColor : string → result Color := fromName "Unknown color: " kColorToName.
Definition nameToState : string → result State := fromName "Unknown state: " kStateToName.

Definition encodePiece (p : SnapshotPiece) : result json :=
  kind ← nameOf kKindToName (sp_kind p);
  color ← nameOf kColorToName (sp_color p);
  state ← nameOf kStateToName (sp_state p);
  Ok (jObj [("id", JInt (sp_id p)); ("kind", JString kind); ("color", JString color);
    ("cell", encodePosition (sp_cell p)); ("state", JString state);
    ("elapsed_in_state_ms", JInt (elapsed_in_state_ms p));
    ("targetCell", encodePosition (targetCell p));
    ("travelProgress", JDouble (travelProgress p)); ("restProgress", JDouble (restProgress p))]).

Definition encode (s : GameSnapshot) : result json :=
  ps ← mapR encodePiece (pieces s);
  Ok (jObj [("board_width", JInt (board_width s)); ("board_height", JInt (board_height s));
    ("pieces", JArray ps); ("game_over", JBool (gs_over s));
    ("has_selection", JBool (has_selection s));
    ("selected_cell", encodePosition (selected_cell s));
    ("legalMoves", JArray (map encodePosition (legalMoves s)))]).

Definition decodePiece (j : json) : result SnapshotPiece :=
  id ← jInt "id" j;
  kind ← (n ← jStr "kind" j; nameToKind n);
  color ← (n ← jStr "color" j; nameToColor n);
  cell ← (v ← jAt "cell" j; decodePosition v);
  state ← (n ← jStr "state" j; nameToState n);
  elapsed ← jInt "elapsed_in_state_ms" j;
  target ← (v ← jAt "targetCell" j; decodePosition v);
  travel ← (v ← jAt "travelProgress" j; getDouble v);
  rest ← (v ← jAt "restProgress" j; getDouble v);
  Ok (mkSnapshotPiece id kind color cell state elapsed target travel rest).

Definition decode (j : json) : result GameSnapshot :=
  w ← jInt "board_width" j;
  h ← jInt "board_height" j;
  ps ← (v ← jAt "pieces" j; mapR decodePiece (jItems v));
  over ← (v ← jAt "game_over" j; getBool v);
  sel ← (v ← jAt "has_selection" j; getBool v);
  cell ← (v ← jAt "selected_cell" j; decodePosition v);
  legal ← (v ← jAt "legalMoves" j; mapR decodePosition (jItems v));
  Ok (mkSnapshot w h ps over sel cell legal).
End SnapshotCodec.

(** The tables of the other codecs: no entry for [None]. *)
Definition kKindToName : list (Kind * string) :=
  [(King, "King"); (Queen, "Queen"); (Rook, "Rook"); (Bishop, "Bishop");
   (Knight, "Knight"); (Pawn, "Pawn")].
Definition kColorToName : list (Color * string) := [(White, "White"); (Black, "Black")].
Definition nameToKind : string → result Kind := fromName "Unknown piece kind: " kKindToName.
Definition nameToColor : string → result Color := fromName "Unknown color: " kColorToName.

(** ** [CaptureEventCodec.cpp] *)
Module CaptureCodec.

Definition encode (e : CaptureEvent) : result json :=
  kind ← nameOf kKindToName (ce_kind e);
  color ← nameOf kColorToName (ce_color e);
  Ok (jObj [("kind", JString kind); ("color", JString color); ("cell", encodePosition (ce_cell e));
    ("capturedPieceId", JInt (ce_capturedPieceId e));
    ("capturingPieceId", JInt (ce_capturingPieceId e));
    ("collisionCell", encodePosition (ce_collisionCell e));
    ("impactProgress", JDouble (ce_impactProgress e))]).

Definition decode (j : json) : result CaptureEvent :=
  kind ← (n ← jStr "kind" j; nameToKind n);
  color ← (n ← jStr "color" j; nameToColor n);
  cell ← (v ← jAt "cell" j; decodePosition v);
  captured ← jInt "capturedPieceId" j;
  capturing ← jInt "capturingPieceId" j;
  collision ← (v ← jAt "collisionCell" j; decodePosition v);
  impact ← (v ← jAt "impactProgress" j; getDouble v);
  Ok (mkCaptureEvent kind color cell captured capturing collision impact).
End CaptureCodec.

(** ** [MoveLogCodec.cpp] *)
Module MoveCodec.

Record MoveLogBundle := mkBundle { white : list MoveEntry; black : list MoveEntry }.

Definition encodeEntry (e : MoveEntry) : json :=
  jObj [("timestamp", JString (timestamp e)); ("notation", JString (notation e))].
Definition decodeEntry (j : json) : result MoveEntry :=
  t ← jStr "timestamp" j; n ← jStr "notation" j; Ok (mkEntry t n).

Definition encodeList (moves : list MoveEntry) : json := JArray (map encodeEntry moves).
Definition decodeList (j : json) : result (list MoveEntry) := mapR decodeEntry (jItems j).

Definition encode (color : Color) (e : MoveEntry) : result json :=
  name ← nameOf kColorToName color; jSet "color" (JString name) (encodeEntry e).
Definition decode (j : json) : result (Color * MoveEntry) :=
  color ← (n ← jStr "color" j; nameToColor n); e ← decodeEntry j; Ok (color, e).

Definition encodeAll (whiteMoves blackMoves : list MoveEntry) : json :=
  jObj [("white", encodeList whiteMoves); ("black", encodeList blackMoves)].
Definition decodeAll (j : json) : result MoveLogBundle :=
  w ← (v ← jAt "white" j; decodeList v); b ← (v ← jAt "black" j; decodeList v); Ok (mkBundle w b).
End MoveCodec.

(** ** [GameResultCodec.cpp] *)
Inductive GameEndReason := KingCapture | Disconnect.
#[export] Instance GameEndReason_eq_dec : EqDecision GameEndReason.
Proof. solve_decision. Defined.

Record GameResult := mkGameResult {
  gr_winner : Color; gr_reason : GameEndReason;
  winnerUsername : string; winnerElo : Z; loserUsername : string; loserElo : Z;
  gr_moveLog : json
}.

Module ResultCodec.
Definition kReasonToName : list (GameEndReason * string) :=
  [(KingCapture, "KingCapture"); (Disconnect, "Disconnect")].
Definition nameToReason : string → result GameEndReason :=
  fromName "Unknown game end reason: " kReasonToName.

Definition encode (r : GameResult) : result json :=
  winner ← nameOf kColorToName (gr_winner r);
  reason ← nameOf kReasonToName (gr_reason r);
  Ok (jObj [("winner", JString winner); ("reason", JString reason);
    ("winnerUsername", JString (winnerUsername r)); ("winnerElo", JInt (winnerElo r));
    ("loserUsername", JString (loserUsername r)); ("loserElo", JInt (loserElo r));
    ("moveLog", gr_moveLog r)]).

Definition decode (j : json) : result GameResult :=
  winner ← (n ← jStr "winner" j; nameToColor n);
  reason ← (n ← jStr "reason" j; nameToReason n);
  wu ← jStr "winnerUsername" j;
  we ← jInt "winnerElo" j;
  lu ← jStr "loserUsername" j;
  le ← jInt "loserElo" j;
  log ← jValue getJson "moveLog" jEmpty j;
  Ok (mkGameResult winner reason wu we lu le log).
End ResultCodec.

(** ** [Message.h], [MessageCodec.cpp] *)
Inductive MessageType :=
  | Hello | Move | JumpMsg | Snapshot | Login | JoinRoom | FindGame | GameFound | MoveLogged
  | CaptureEventMsg | EnterRoom | Auth.
#[export] Instance MessageType_eq_dec : EqDecision MessageType.
Proof. solve_decision. Defined.

Record Message := mkMessage { msg_type : MessageType; payload : json }.

Module MessageCodec.
Definition kTypeToName : list (MessageType * string) :=
  [(Hello, "HELLO"); (Move, "MOVE"); (JumpMsg, "JUMP"); (Snapshot, "SNAPSHOT"); (Login, "LOGIN");
   (JoinRoom, "JOIN_ROOM"); (FindGame, "FIND_GAME"); (GameFound, "GAME_FOUND");
   (MoveLogged, "MOVE_LOGGED"); (CaptureEventMsg, "CAPTURE_EVENT"); (EnterRoom, "ENTER_ROOM");
   (Auth, "AUTH")].

Definition typeName : MessageType → result string := nameOf kTypeToName.
Definition typeFromName : string → result MessageType := fromName "Unknown message type: " kTypeToName.

Section Text.
Context `{JsonText}.

Definition encode (m : Message) : result string :=
  name ← typeName (msg_type m);
  Ok (dump (jObj [("type", JString name); ("payload", payload m)])).

Definition decode (text : string) : result Message :=
  j ← parse text;
  type ← (n ← jStr "type" j; typeFromName n);
  p ← jValue getJson "payload" jEmpty j;
  Ok (mkMessage type p).
End Text.
End MessageCodec.

(** ** Round trips *)

Lemma nameOf_fromName {E} `{EqDecision E} err (table : list (E * string)) e n :
  NoDup (table.*2) → nameOf table e = Ok n → fromName err table n = Ok e.
Proof.
  induction table as [|[x m] table IH]; simpl; [done|]. rewrite NoDup_cons. intros [Hni Hnd].
  case_decide as Hx.
  - intros [= ->]. rewrite String.eqb_refl. by subst.
  - intros Hn. destruct (String.eqb_spec m n) as [->|]; [|auto]. exfalso. apply Hni.
    clear -Hn. induction table as [|[y k] table IH]; simpl in *; [done|].
    case_decide; [injection Hn as ->; by left|right; auto].
Qed.

Lemma result_bind_inv {A B} (r : result A) (f : A → result B) b :
  r ≫= f = Ok b → ∃ a, r = Ok a ∧ f a = Ok b.
Proof. destruct r as [a|e]; [|done]. intros Hf. exists a. by split. Qed.

Lemma mapR_roundtrip {A B} (f : A → result B) (g : B → result A) l l' :
  (∀ x y, x ∈ l → f x = Ok y → g y = Ok x) → mapR f l = Ok l' → mapR g l' = Ok l.
Proof.
  revert l'. induction l as [|x l IH]; intros l' Hfg; simpl; [by intros [= <-]|].
  intros (y & Hy & (ys & Hys & [= <-])%result_bind_inv)%result_bind_inv. simpl.
  rewrite (Hfg x y) by (done || by left). rewrite result_bind_Ok.
  rewrite (IH ys) by (done || (intros; apply Hfg; [by right|done])). done.
Qed.

Lemma mapR_map {A B} (f : A → B) (g : B → result A) l :
  (∀ x, x ∈ l → g (f x) = Ok x) → mapR g (map f l) = Ok l.
Proof. intros Hg. rewrite (mapR_map_Ok f g id l) by auto. by rewrite map_id. Qed.

Definition position_int (p : Position) : Prop := int_range (row p) ∧ int_range (col p).

Lemma decode_encodePosition p : position_int p → decodePosition (encodePosition p) = Ok p.
Proof.
  intros [Hr Hc]. unfold decodePosition, encodePosition. jfields.
  rewrite !getInt_JInt by done. by destruct p.
Qed.

(** The integers of a snapshot fit [int]. *)
Definition snapshotPiece_int (p : SnapshotPiece) : Prop :=
  int_range (sp_id p) ∧ position_int (sp_cell p) ∧ int_range (elapsed_in_state_ms p) ∧
  position_int (targetCell p).
Definition snapshot_int (s : GameSnapshot) : Prop :=
  int_range (board_width s) ∧ int_range (board_height s) ∧
  (∀ p, p ∈ pieces s → snapshotPiece_int p) ∧ position_int (selected_cell s) ∧
  (∀ p, p ∈ legalMoves s → position_int p).

Lemma nameOf_total {E} `{EqDecision E} (table : list (E * string)) e :
  e ∈ table.*1 → ∃ n, nameOf table e = Ok n.
Proof.
  induction table as [|[x m] table IH]; simpl; [by intros ?%elem_of_nil|].
  case_decide; [eauto|]. intros [->|?]%elem_of_cons; [done|auto].
Qed.

Lemma mapR_total {A B} (f : A → result B) l :
  (∀ x, x ∈ l → ∃ y, f x = Ok y) → ∃ ys, mapR f l = Ok ys.
Proof.
  induction l as [|x l IH]; intros Hf; simpl; [eauto|].
  destruct (Hf x ltac:(by left)) as [y ->]. rewrite result_bind_Ok.
  destruct IH as [ys ->]; [intros; apply Hf; by right|]. rewrite result_bind_Ok. eauto.
Qed.

(** A name written by [nameOf] is read back by [fromName]. *)
Ltac by_names :=
  repeat match goal with
  | H : nameOf ?t ?e = Ok ?n |- context [fromName ?err ?t ?n] =>
    rewrite (nameOf_fromName err t e n ltac:(apply (bool_decide_unpack _); vm_compute; exact I) H)
  end.

Lemma decode_encodePiece p j :
  snapshotPiece_int p → SnapshotCodec.encodePiece p = Ok j → SnapshotCodec.decodePiece j = Ok p.
Proof.
  intros (H1 & H2 & H3 & H4) Hj. unfold SnapshotCodec.encodePiece in Hj.
  apply result_bind_inv in Hj as (k & Hk & Hj). apply result_bind_inv in Hj as (c & Hc & Hj).
  apply result_bind_inv in Hj as (s & Hs & Hj). injection Hj as <-.
  unfold SnapshotCodec.decodePiece, SnapshotCodec.nameToKind, SnapshotCodec.nameToColor, SnapshotCodec.nameToState.
  jfields. rewrite !getInt_JInt, !decode_encodePosition by done. cbn [getString getDouble mbind result_bind].
  by_names. by destruct p.
Qed.

Lemma snapshot_decodes s j :
  snapshot_int s → SnapshotCodec.encode s = Ok j → SnapshotCodec.decode j = Ok s.
Proof.
  intros (Hw & Hh & Hp & Hsel & Hlegal). unfold SnapshotCodec.encode.
  intros (ps & Hps & [= <-])%result_bind_inv.
  unfold SnapshotCodec.decode. jfields. rewrite !getInt_JInt, decode_encodePosition by done.
  cbn [jItems getBool mbind result_bind].
  rewrite (mapR_roundtrip SnapshotCodec.encodePiece _ (pieces s)) by
    (done || (intros; eapply decode_encodePiece; [by apply Hp|done])).
  cbn [mbind result_bind]. rewrite mapR_map by (intros; by apply decode_encodePosition, Hlegal).
  by destruct s.
Qed.

(** C39 The snapshot of a game always encodes, and the client decodes exactly the
    snapshot that was sent: every piece, every field, in order. *)
Theorem snapshot_roundtrip s :
  snapshot_int s → ∃ j, SnapshotCodec.encode s = Ok j ∧ SnapshotCodec.decode j = Ok s.
Proof.
  intros Hs. destruct (mapR_total SnapshotCodec.encodePiece (pieces s)) as [ps Hps].
  { intros p _. unfold SnapshotCodec.encodePiece.
    destruct (nameOf_total SnapshotCodec.kKindToName (sp_kind p)) as [k ->]; [by destruct (sp_kind p); set_solver|].
    destruct (nameOf_total SnapshotCodec.kColorToName (sp_color p)) as [c ->]; [by destruct (sp_color p); set_solver|].
    destruct (nameOf_total SnapshotCodec.kStateToName (sp_state p)) as [st ->]; [by destruct (sp_state p); set_solver|].
    eauto. }
  assert (∃ j, SnapshotCodec.encode s = Ok j) as [j Hj] by (unfold SnapshotCodec.encode; rewrite Hps; eauto).
  exists j. split; [done|]. by apply snapshot_decodes.
Qed.

Lemma captureEvent_decodes e :
  position_int (ce_cell e) → position_int (ce_collisionCell e) →
  int_range (ce_capturedPieceId e) → int_range (ce_capturingPieceId e) →
  if decide (ce_kind e ≠ NoKind ∧ ce_color e ≠ NoColor)
  then ∃ j, CaptureCodec.encode e = Ok j ∧ CaptureCodec.decode j = Ok e
  else ∃ what, CaptureCodec.encode e = Throw what.
Proof.
  intros H1 H2 H3 H4. case_decide as Hd.
  - destruct (nameOf_total kKindToName (ce_kind e)) as [k Hk]; [by destruct (ce_kind e), Hd; set_solver|].
    destruct (nameOf_total kColorToName (ce_color e)) as [c Hc]; [by destruct (ce_color e), Hd; set_solver|].
    unfold CaptureCodec.encode. rewrite Hk, Hc. eexists. split; [reflexivity|].
    unfold CaptureCodec.decode, nameToKind, nameToColor. jfields.
    rewrite !getInt_JInt, !decode_encodePosition by done. cbn [getString getDouble mbind result_bind].
    by_names. by destruct e.
  - unfold CaptureCodec.encode. destruct (ce_kind e), (ce_color e); try (by eexists); exfalso; naive_solver.
Qed.

(** A capture notification survives the wire exactly when it is of a real
    piece: then it encodes and decodes to itself; for an empty cell or a
    colourless piece encoding throws. *)
Theorem captureEvent_roundtrip e :
  position_int (ce_cell e) → position_int (ce_collisionCell e) →
  int_range (ce_capturedPieceId e) → int_range (ce_capturingPieceId e) →
  if decide (ce_kind e ≠ NoKind ∧ ce_color e ≠ NoColor)
  then ∃ j, CaptureCodec.encode e = Ok j ∧ CaptureCodec.decode j = Ok e
  else ∃ what, CaptureCodec.encode e = Throw what.
Proof. exact (captureEvent_decodes e). Qed.

Lemma decode_encodeEntry e : MoveCodec.decodeEntry (MoveCodec.encodeEntry e) = Ok e.
Proof. unfold MoveCodec.decodeEntry, MoveCodec.encodeEntry. jfields. by destruct e. Qed.

(** The move log survives the wire: one move with its side, and the history
    a joining connection is given. *)
Lemma moveLog_roundtrip color e ws bs :
  color ≠ NoColor →
  (∃ j, MoveCodec.encode color e = Ok j ∧ MoveCodec.decode j = Ok (color, e)) ∧
  MoveCodec.decodeAll (MoveCodec.encodeAll ws bs) = Ok (MoveCodec.mkBundle ws bs).
Proof.
  intros Hc. split.
  - destruct color; [..|done]; (eexists; split; [reflexivity|]); by destruct e.
  - unfold MoveCodec.decodeAll, MoveCodec.encodeAll, MoveCodec.decodeList, MoveCodec.encodeList. jfields.
    cbn [jItems]. rewrite !mapR_map by (intros; apply decode_encodeEntry). done.
Qed.

(** The result of a game survives the wire to whoever records it. *)
Lemma gameResult_encodes r :
  gr_winner r ≠ NoColor → int_range (winnerElo r) → int_range (loserElo r) →
  ∃ j, ResultCodec.encode r = Ok j ∧ ResultCodec.decode j = Ok r.
Proof.
  intros Hw H1 H2.
  destruct (nameOf_total kColorToName (gr_winner r)) as [c Hc]; [by destruct (gr_winner r); set_solver|].
  destruct (nameOf_total ResultCodec.kReasonToName (gr_reason r)) as [s Hs]; [by destruct (gr_reason r); set_solver|].
  unfold ResultCodec.encode. rewrite Hc, Hs. eexists. split; [reflexivity|].
  unfold ResultCodec.decode, ResultCodec.nameToReason, nameToColor. jfields.
  rewrite !getInt_JInt by done. cbn [getString mbind result_bind]. by_names. by destruct r.
Qed.

Lemma message_decodes `{JsonText} m :
  jsonText utf8 (payload m) = true →
  ∃ text, MessageCodec.encode m = Ok text ∧ MessageCodec.decode text = Ok m.
Proof.
  intros Hp. destruct (nameOf_total MessageCodec.kTypeToName (msg_type m)) as [n Hn];
    [by destruct (msg_type m); set_solver|].
  unfold MessageCodec.encode, MessageCodec.typeName. rewrite Hn. eexists. split; [reflexivity|].
  assert (ascii7 n = true) as Hascii.
  { clear -Hn. destruct (msg_type m); by injection Hn as <-. }
  unfold MessageCodec.decode, MessageCodec.typeFromName. rewrite parse_dump.
  - rewrite result_bind_Ok. jfields. unfold getString, getJson. cbn [mbind result_bind]. by_names.
    by destruct m.
  - apply jsonText_obj. cbn [forallb fst snd]. rewrite Hp. simpl. by rewrite !utf8_ascii7.
Qed.

(** A message of any type survives the wire: the receiver gets the type and
    the payload that were sent, as long as the payload is writable as text. *)
Theorem message_roundtrip `{JsonText} m :
  jsonText utf8 (payload m) = true →
  ∃ text, MessageCodec.encode m = Ok text ∧ MessageCodec.decode text = Ok m.
Proof. apply message_decodes. Qed.
