(* ===== verification/Session.v ===== *)
(** * One room's game ([server/app/session/GameSession])

    The engine with its observers, the queue of notifications that the
    simulation step fills and the delivery step drains, and the report of the
    game's result.  What a step hands to the bus or to the snapshot sender is
    its list of outputs; an exception that leaves a step is returned with the
    state the session is left in. *)
From S2P Require Import Prelude Model Text Double Rules Motion Arbiter ArbiterSteps Lifecycle Engine EngineSpec EngineTheorems Json Observers Codecs.

Record DisconnectStatus := mkDisconnect { dc_active : bool; dc_color : Color; secondsRemaining : Z }.
Definition noDisconnect : DisconnectStatus := mkDisconnect false NoColor 0.

Record RoomIdentity := mkIdentity {
  id_whiteUsername : string; id_whiteElo : Z;
  id_blackUsername : string; id_blackElo : Z;
  spectatorCount : Z
}.
Definition noIdentity : RoomIdentity := mkIdentity "" 0 "" 0 0.

Record PendingPublish := mkPending { pp_topic : string; pp_data : json }.

Definition snapshotTopic (roomName : string) : string := "game-state-changed:" +:+ roomName.
Definition moveLogTopic (roomName : string) : string := "move-logged:" +:+ roomName.
Definition captureTopic (roomName : string) : string := "capture-event:" +:+ roomName.
Definition gameEndedTopic (roomName : string) : string := "game-ended:" +:+ roomName.

(** [snapshotSender_] forwards to the connections of the room it holds. *)
Record GameSession := mkSession {
  engine_ : GameEngine;
  simultaneousMode_ : bool;
  roomName_ : string;
  scoreObserver_ : ScoreObserver;
  moveLogObserver_ : MoveLogObserver;
  disconnectStatus_ : DisconnectStatus;
  identity_ : RoomIdentity;
  gameResultPublished_ : bool;
  snapshotSender_ : option string;
  pending_ : list PendingPublish;
  tickInFlight_ : bool
}.

Definition newSession (b : Board) (roomName : string) (sim : bool) : GameSession :=
  mkSession (newEngine b) sim roomName newScore (newLog (height b)) noDisconnect noIdentity
    false None [] false.

Inductive SessionOut :=
  | Publish (topic : string) (data : json)
  | SendSnapshot (room : string) (text : string).

(** ** Setters *)
Definition setDisconnectStatus (st : DisconnectStatus) (s : GameSession) : GameSession :=
  mkSession (engine_ s) (simultaneousMode_ s) (roomName_ s) (scoreObserver_ s) (moveLogObserver_ s)
    st (identity_ s) (gameResultPublished_ s) (snapshotSender_ s) (pending_ s) (tickInFlight_ s).
Definition setIdentity (i : RoomIdentity) (s : GameSession) : GameSession :=
  mkSession (engine_ s) (simultaneousMode_ s) (roomName_ s) (scoreObserver_ s) (moveLogObserver_ s)
    (disconnectStatus_ s) i (gameResultPublished_ s) (snapshotSender_ s) (pending_ s) (tickInFlight_ s).
Definition setSnapshotSender (room : string) (s : GameSession) : GameSession :=
  mkSession (engine_ s) (simultaneousMode_ s) (roomName_ s) (scoreObserver_ s) (moveLogObserver_ s)
    (disconnectStatus_ s) (identity_ s) (gameResultPublished_ s) (Some room) (pending_ s) (tickInFlight_ s).
Definition setTickInFlight (b : bool) (s : GameSession) : GameSession :=
  mkSession (engine_ s) (simultaneousMode_ s) (roomName_ s) (scoreObserver_ s) (moveLogObserver_ s)
    (disconnectStatus_ s) (identity_ s) (gameResultPublished_ s) (snapshotSender_ s) (pending_ s) b.
Definition setPending (ps : list PendingPublish) (s : GameSession) : GameSession :=
  mkSession (engine_ s) (simultaneousMode_ s) (roomName_ s) (scoreObserver_ s) (moveLogObserver_ s)
    (disconnectStatus_ s) (identity_ s) (gameResultPublished_ s) (snapshotSender_ s) ps (tickInFlight_ s).
Definition setPublished (s : GameSession) : GameSession :=
  mkSession (engine_ s) (simultaneousMode_ s) (roomName_ s) (scoreObserver_ s) (moveLogObserver_ s)
    (disconnectStatus_ s) (identity_ s) true (snapshotSender_ s) (pending_ s) (tickInFlight_ s).

(** [tryBeginTick], [endTick], [tickInFlight]. *)
Definition tryBeginTick (s : GameSession) : GameSession * bool :=
  if tickInFlight_ s then (s, false) else (setTickInFlight true s, true).
Definition endTick (s : GameSession) : GameSession := setTickInFlight false s.
Definition tickInFlight (s : GameSession) : bool := tickInFlight_ s.

Definition colorName (c : Color) : string :=
  match c with White => "White" | Black => "Black" | NoColor => "None" end.

Definition kingOf (c : Color) (snap : GameSnapshot) : bool :=
  existsb (λ p, kindEqb (sp_kind p) King && colorEqb (sp_color p) c) (pieces snap).

Definition survivingKingColor (snap : GameSnapshot) : Color :=
  let whiteKing := kingOf White snap in
  let blackKing := kingOf Black snap in
  if whiteKing && negb blackKing then White
  else if blackKing && negb whiteKing then Black
  else NoColor.

Section Session.
Context `{HashIter} `{JsonText}.

(** [onNewEntry], [onNewCapture]: what they put in the queue. *)
Definition enqueue (roomName : string) (p : Push) : result PendingPublish :=
  match p with
  | PushMove color entry =>
    data ← MoveCodec.encode color entry;
    text ← MessageCodec.encode (mkMessage MoveLogged data);
    j ← parse text;
    Ok (mkPending (moveLogTopic roomName) j)
  | PushCapture event =>
    data ← CaptureCodec.encode event;
    text ← MessageCodec.encode (mkMessage CaptureEventMsg data);
    j ← parse text;
    Ok (mkPending (captureTopic roomName) j)
  end.

(** An operation of the engine: its observers run while it does. *)
Definition runEngine {A} (f : GameEngine → GameEngine * A) (s : GameSession) : result (GameSession * A) :=
  let '(e, a) := f (engine_ s) in
  let es := drop (length (events (arbiter (engine_ s)))) (events (arbiter e)) in
  ps ← mapR (enqueue (roomName_ s)) (pushes (moveLogObserver_ s) es);
  Ok (mkSession e (simultaneousMode_ s) (roomName_ s) (foldl scoreEvent (scoreObserver_ s) es)
        (foldl logEvent (moveLogObserver_ s) es) (disconnectStatus_ s) (identity_ s)
        (gameResultPublished_ s) (snapshotSender_ s) (pending_ s ++ ps) (tickInFlight_ s), a).

Definition fullMoveLog (s : GameSession) : json :=
  MoveCodec.encodeAll (getMoves White (moveLogObserver_ s)) (getMoves Black (moveLogObserver_ s)).

(** The payload of a snapshot broadcast. *)
Definition snapshotPayload (s : GameSession) : result json :=
  payload ← SnapshotCodec.encode (snapshot (engine_ s));
  type ← MessageCodec.typeName Snapshot;
  payload ← jSet "type" (JString type) payload;
  payload ← jSet "score" (jObj [("white", JInt (getScore White (scoreObserver_ s)));
    ("black", JInt (getScore Black (scoreObserver_ s)))]) payload;
  payload ← jSet "identity" (jObj [
    ("whiteName", JString (id_whiteUsername (identity_ s))); ("whiteElo", JInt (id_whiteElo (identity_ s)));
    ("blackName", JString (id_blackUsername (identity_ s))); ("blackElo", JInt (id_blackElo (identity_ s)));
    ("spectatorCount", JInt (spectatorCount (identity_ s)))]) payload;
  if dc_active (disconnectStatus_ s) then
    jSet "disconnect" (jObj [("active", JBool true);
      ("color", JString (colorName (dc_color (disconnectStatus_ s))));
      ("secondsRemaining", JInt (secondsRemaining (disconnectStatus_ s)))]) payload
  else Ok payload.

Definition computeStep (ms : Z) (s : GameSession) : result (GameSession * json) :=
  '(s, _) ← runEngine (λ e, (wait (simultaneousMode_ s) ms e, tt)) s;
  payload ← snapshotPayload s;
  Ok (s, payload).

(** [publishGameEnded]: the flag is set before the result is encoded. *)
Definition publishGameEnded (r : GameResult) (s : GameSession) : GameSession * list SessionOut * option string :=
  let s := setPublished s in
  match ResultCodec.encode r with
  | Ok data => (s, [Publish (gameEndedTopic (roomName_ s)) data], None)
  | Throw what => (s, [], Some what)
  end.

Definition kingCaptureResult (s : GameSession) : GameResult :=
  let winner := survivingKingColor (snapshot (engine_ s)) in
  let i := identity_ s in
  let winnerIsWhite := colorEqb winner White in
  mkGameResult winner KingCapture
    (if winnerIsWhite then id_whiteUsername i else id_blackUsername i)
    (if winnerIsWhite then id_whiteElo i else id_blackElo i)
    (if winnerIsWhite then id_blackUsername i else id_whiteUsername i)
    (if winnerIsWhite then id_blackElo i else id_whiteElo i)
    (fullMoveLog s).

Definition publishStep (payload : json) (s : GameSession) : GameSession * list SessionOut * option string :=
  let published := map (λ p, Publish (pp_topic p) (pp_data p)) (pending_ s) in
  let s := setPending [] s in
  let sent := match snapshotSender_ s with
              | Some room => [SendSnapshot room (dump payload)] | None => [] end in
  if negb (gameResultPublished_ s) && gs_over (snapshot (engine_ s)) then
    let '(s, ended, exn) := publishGameEnded (kingCaptureResult s) s in
    (s, published ++ sent ++ ended, exn)
  else (s, published ++ sent, None).

Definition markDisconnectResign (loser : Color) (loserUsername : string) (loserElo : Z) (s : GameSession)
    : GameSession * list SessionOut * option string :=
  if gameResultPublished_ s || gs_over (snapshot (engine_ s)) then (s, [], None)
  else
    let winnerIsWhite := negb (colorEqb loser White) in
    let winner := if winnerIsWhite then White else Black in
    let i := identity_ s in
    publishGameEnded (mkGameResult winner Disconnect
      (if winnerIsWhite then id_whiteUsername i else id_blackUsername i)
      (if winnerIsWhite then id_whiteElo i else id_blackElo i)
      loserUsername loserElo (fullMoveLog s)) s.

(** [tick]: both halves at once. *)
Definition sessionTick (ms : Z) (s : GameSession) : result (GameSession * list SessionOut * option string) :=
  '(s, payload) ← computeStep ms s; Ok (publishStep payload s).
End Session.
