(* ===== verification/SessionTheorems.v ===== *)
(** * The contract of [GameSession]

    Whatever order the simulation steps, delivery steps, timers and commands of
    a room come in: every notification of the engine is delivered exactly once
    and in order, and the result of the game is published at most once. *)
From S2P Require Import Prelude Model Text Double Rules Motion Arbiter ArbiterSteps Lifecycle Engine EngineSpec EngineTheorems Json Observers Codecs Session.

(** ** What happens to a session *)
Inductive SessionOp :=
  | OpCompute (ms : Z)
  | OpPublish (payload : json)
  | OpResign (loser : Color) (username : string) (elo : Z)
  | OpIdentity (i : RoomIdentity)
  | OpStatus (st : DisconnectStatus)
  | OpSender (room : string)
  | OpBegin
  | OpEnd
  | OpMove (f t : Position)
  | OpJump (pos : Position).

Section Ops.
Context `{HashIter} `{JsonText}.

Definition sessionOp (o : SessionOp) (s : GameSession) : result (GameSession * list SessionOut) :=
  match o with
  | OpCompute ms => '(s, _) ← computeStep ms s; Ok (s, [])
  | OpPublish payload => Ok (publishStep payload s).1
  | OpResign loser u elo => Ok (markDisconnectResign loser u elo s).1
  | OpIdentity i => Ok (setIdentity i s, [])
  | OpStatus st => Ok (setDisconnectStatus st s, [])
  | OpSender room => Ok (setSnapshotSender room s, [])
  | OpBegin => Ok ((tryBeginTick s).1, [])
  | OpEnd => Ok (endTick s, [])
  | OpMove f t => '(s, _) ← runEngine (requestMove (simultaneousMode_ s) f t) s; Ok (s, [])
  | OpJump pos => '(s, _) ← runEngine (requestJump pos) s; Ok (s, [])
  end.

Fixpoint runOps (os : list SessionOp) (s : GameSession) : result (GameSession * list SessionOut) :=
  match os with
  | [] => Ok (s, [])
  | o :: os => '(s, out) ← sessionOp o s; '(s, outs) ← runOps os s; Ok (s, out ++ outs)
  end.

(** An invariant of a session with the outputs so far. *)
Lemma runOps_ind (P : GameSession → list SessionOut → Prop) os s outs s' outs' :
  P s outs →
  (∀ o s outs s' out, P s outs → sessionOp o s = Ok (s', out) → P s' (outs ++ out)) →
  runOps os s = Ok (s', outs') → P s' (outs ++ outs').
Proof.
  intros HP Hstep. revert s outs HP outs'. induction os as [|o os IH]; intros s outs HP outs'; simpl.
  - intros [= -> <-]. by rewrite app_nil_r.
  - intros ([s1 out] & Ho & ([s2 outs2] & Hr & [= <- <-])%result_bind_inv)%result_bind_inv.
    rewrite app_assoc. eapply IH; [by eapply Hstep|done].
Qed.

(** ** Engine operations *)

Lemma runEngine_inv {A} (f : GameEngine → GameEngine * A) s s' a :
  runEngine f s = Ok (s', a) → ∃ ps,
    engine_ s' = (f (engine_ s)).1 ∧ roomName_ s' = roomName_ s ∧
    mapR (enqueue (roomName_ s)) (pushes (moveLogObserver_ s)
      (drop (length (events (arbiter (engine_ s)))) (events (arbiter (engine_ s'))))) = Ok ps ∧
    pending_ s' = pending_ s ++ ps ∧
    scoreObserver_ s' = foldl scoreEvent (scoreObserver_ s)
      (drop (length (events (arbiter (engine_ s)))) (events (arbiter (engine_ s')))) ∧
    moveLogObserver_ s' = foldl logEvent (moveLogObserver_ s)
      (drop (length (events (arbiter (engine_ s)))) (events (arbiter (engine_ s')))) ∧
    gameResultPublished_ s' = gameResultPublished_ s.
Proof.
  unfold runEngine. destruct (f (engine_ s)) as [e x] eqn:Hf.
  intros (ps & Hps & [= <- <-])%result_bind_inv. exists ps. by split_and!.
Qed.

Lemma computeStep_inv ms s s' payload :
  computeStep ms s = Ok (s', payload) →
  runEngine (λ e, (wait (simultaneousMode_ s) ms e, tt)) s = Ok (s', tt) ∧ snapshotPayload s' = Ok payload.
Proof.
  unfold computeStep. intros ([s1 []] & Hr & (p & Hp & [= <- <-])%result_bind_inv)%result_bind_inv.
  by split.
Qed.

(** ** The effect of one operation *)

Definition isEnded (roomName : string) (o : SessionOut) : bool :=
  match o with Publish t _ => String.eqb t (gameEndedTopic roomName) | SendSnapshot _ _ => false end.

(** The results published, and the notifications delivered. *)
Definition endedCount (roomName : string) (outs : list SessionOut) : nat :=
  length (filter (isEnded roomName) outs).

Definition delivered (roomName : string) (outs : list SessionOut) : list PendingPublish :=
  omap (λ o, match o with
    | Publish t d => if String.eqb t (gameEndedTopic roomName) then None else Some (mkPending t d)
    | SendSnapshot _ _ => None end) outs.

Definition topics_ok (s : GameSession) : Prop :=
  ∀ p, p ∈ pending_ s → pp_topic p ≠ gameEndedTopic (roomName_ s).

Definition newEvents (s s' : GameSession) : list Event :=
  drop (length (events (arbiter (engine_ s)))) (events (arbiter (engine_ s'))).

Record op_effect (s s' : GameSession) (out : list SessionOut) : Prop := {
  eff_room : roomName_ s' = roomName_ s;
  eff_sim : simultaneousMode_ s' = simultaneousMode_ s;
  eff_engine : engine_ s' = engine_ s ∨ ∃ c, engine_ s' = exec (simultaneousMode_ s) (engine_ s) c;
  eff_score : scoreObserver_ s' = foldl scoreEvent (scoreObserver_ s) (newEvents s s');
  eff_log : moveLogObserver_ s' = foldl logEvent (moveLogObserver_ s) (newEvents s s');
  eff_queue : ∃ ps, mapR (enqueue (roomName_ s)) (pushes (moveLogObserver_ s) (newEvents s s')) = Ok ps ∧
    delivered (roomName_ s) out ++ pending_ s' = pending_ s ++ ps;
  eff_published : gameResultPublished_ s = true → gameResultPublished_ s' = true ∧ endedCount (roomName_ s) out = 0%nat;
  eff_ended : (endedCount (roomName_ s) out ≤ 1)%nat ∧
    ((0 < endedCount (roomName_ s) out)%nat → gameResultPublished_ s' = true)
}.

Lemma newEvents_same s s' : engine_ s' = engine_ s → newEvents s s' = [].
Proof. unfold newEvents. intros ->. apply drop_all. Qed.

(** An operation that leaves engine, observers and queue alone. *)
Lemma effect_quiet s s' out :
  engine_ s' = engine_ s → roomName_ s' = roomName_ s → simultaneousMode_ s' = simultaneousMode_ s →
  scoreObserver_ s' = scoreObserver_ s → moveLogObserver_ s' = moveLogObserver_ s →
  delivered (roomName_ s) out ++ pending_ s' = pending_ s →
  (gameResultPublished_ s = true → gameResultPublished_ s' = true ∧ endedCount (roomName_ s) out = 0%nat) →
  (endedCount (roomName_ s) out ≤ 1)%nat →
  ((0 < endedCount (roomName_ s) out)%nat → gameResultPublished_ s' = true) →
  op_effect s s' out.
Proof.
  intros He Hr Hsim Hs Hl Hd Hp Hc Hc'. pose proof (newEvents_same s s' He) as Hn.
  split; rewrite ?Hn; try done; [by left|]. exists []. by rewrite app_nil_r.
Qed.

Lemma effect_engine {A} (f : GameEngine → GameEngine * A) c s s' a :
  runEngine f s = Ok (s', a) → (f (engine_ s)).1 = exec (simultaneousMode_ s) (engine_ s) c →
  op_effect s s' [].
Proof.
  intros Hr Hc. pose proof (runEngine_inv _ _ _ _ Hr) as (ps & He & Hn & Hps & Hp & Hs & Hl & Hg).
  assert (simultaneousMode_ s' = simultaneousMode_ s) as Hsim.
  { unfold runEngine in Hr. destruct (f (engine_ s)). by apply result_bind_inv in Hr as (? & _ & [= <- <-]). }
  split; try done.
  - right. exists c. by rewrite He.
  - exists ps. by rewrite Hp.
  - intros ?. by rewrite Hg.
  - change (endedCount (roomName_ s) []) with 0%nat. split; lia.
Qed.

Lemma delivered_app r l l' : delivered r (l ++ l') = delivered r l ++ delivered r l'.
Proof. apply omap_app. Qed.

Lemma endedCount_app r l l' : endedCount r (l ++ l') = (endedCount r l + endedCount r l')%nat.
Proof. unfold endedCount. by rewrite filter_app, length_app. Qed.

Lemma delivered_pending s l :
  (∀ p, p ∈ l → pp_topic p ≠ gameEndedTopic (roomName_ s)) →
  delivered (roomName_ s) (map (λ p, Publish (pp_topic p) (pp_data p)) l) = l ∧
  endedCount (roomName_ s) (map (λ p, Publish (pp_topic p) (pp_data p)) l) = 0%nat.
Proof.
  induction l as [|p l IH]; intros Hl; [done|].
  destruct IH as [H1 H2]; [intros; apply Hl; by right|]. assert (pp_topic p ≠ gameEndedTopic (roomName_ s)) by (apply Hl; by left).
  change (map ?f (p :: l)) with ([f p] ++ map f l). rewrite delivered_app, endedCount_app, H1, H2.
  unfold delivered, endedCount. rewrite filter_cons. simpl.
  destruct (String.eqb_spec (pp_topic p) (gameEndedTopic (roomName_ s))); [done|]. simpl. by destruct p.
Qed.

Lemma publishGameEnded_effect r s s' out exn :
  publishGameEnded r s = (s', out, exn) →
  s' = setPublished s ∧ delivered (roomName_ s) out = [] ∧ (endedCount (roomName_ s) out ≤ 1)%nat.
Proof.
  unfold publishGameEnded. destruct (ResultCodec.encode r); intros [= <- <- <-]; [|by split_and!; [..|unfold endedCount; simpl; lia]].
  unfold delivered, endedCount. simpl. rewrite String.eqb_refl. split_and!; [done..|].
  rewrite filter_cons. case_decide; simpl; lia.
Qed.

Ltac quiet :=
  apply effect_quiet; change (endedCount _ []) with 0%nat; simpl; (done || lia || auto).

Lemma sessionOp_effect o s s' out :
  topics_ok s → sessionOp o s = Ok (s', out) → op_effect s s' out.
Proof.
  intros Ht. destruct o as [ms|payload|loser u elo|i|st|room| | |f t|pos]; simpl.
  - intros ([s1 p] & Hc & [= <- <-])%result_bind_inv. apply computeStep_inv in Hc as [Hr _].
    by apply (effect_engine _ (CWait ms) _ _ _ Hr).
  - unfold publishStep. destruct (delivered_pending s (pending_ s) Ht) as [Hd Hc].
    set (sent := match snapshotSender_ _ with Some _ => _ | None => _ end).
    assert (delivered (roomName_ s) sent = [] ∧ endedCount (roomName_ s) sent = 0%nat) as [Hds Hcs]
      by (unfold sent; by destruct (snapshotSender_ (setPending [] s))).
    destruct (negb _ && _) eqn:Hg.
    + simpl. destruct (publishGameEnded _ _) as [[s1 e1] x1] eqn:Hp. intros [= <- <-].
      apply publishGameEnded_effect in Hp as (-> & Hde & Hce). simpl in Hde, Hce.
      apply andb_true_iff in Hg as [Hg%negb_true_iff _]. simpl in Hg.
      apply effect_quiet; try done; rewrite ?delivered_app, ?endedCount_app, ?Hd, ?Hc, ?Hds, ?Hcs, ?Hde; simpl;
        rewrite ?app_nil_r; try done. congruence.
    + intros [= <- <-].
      apply effect_quiet; try done; rewrite ?delivered_app, ?endedCount_app, ?Hd, ?Hc, ?Hds, ?Hcs; simpl;
        rewrite ?app_nil_r; try done; lia.
  - unfold markDisconnectResign. destruct (_ || _) eqn:Hg.
    + intros [= <- <-]. quiet.
    + simpl. destruct (publishGameEnded _ _) as [[s1 e1] x1] eqn:Hp. intros [= <- <-].
      apply publishGameEnded_effect in Hp as (-> & Hde & Hce). apply orb_false_iff in Hg as [Hg _].
      apply effect_quiet; try done; [by rewrite Hde|congruence].
  - intros [= <- <-]. quiet.
  - intros [= <- <-]. quiet.
  - intros [= <- <-]. quiet.
  - intros [= <- <-]. unfold tryBeginTick. destruct (tickInFlight_ s); quiet.
  - intros [= <- <-]. quiet.
  - intros ([s1 p] & Hr & [= <- <-])%result_bind_inv. by apply (effect_engine _ (CMove f t) _ _ _ Hr).
  - intros ([s1 p] & Hr & [= <- <-])%result_bind_inv. by apply (effect_engine _ (CJump pos) _ _ _ Hr).
Qed.

(** ** Runs *)

Lemma enqueue_topic r p q : enqueue r p = Ok q → pp_topic q ≠ gameEndedTopic r.
Proof.
  unfold enqueue. destruct p; intros (d & _ & (t & _ & (j & _ & [= <-])%result_bind_inv)%result_bind_inv)%result_bind_inv; done.
Qed.

Lemma mapR_elem {A B} (f : A → result B) l l' y :
  mapR f l = Ok l' → y ∈ l' → ∃ x, f x = Ok y.
Proof.
  revert l'. induction l as [|x l IH]; intros l'; simpl; [by intros [= <-] ?%elem_of_nil|].
  intros (z & Hz & (zs & Hzs & [= <-])%result_bind_inv)%result_bind_inv [->|Hy]%elem_of_cons; eauto.
Qed.

Lemma mapR_app {A B} (f : A → result B) l1 l2 r1 r2 :
  mapR f l1 = Ok r1 → mapR f l2 = Ok r2 → mapR f (l1 ++ l2) = Ok (r1 ++ r2).
Proof.
  revert r1. induction l1 as [|x l1 IH]; intros r1; simpl; [by intros [= <-]|].
  intros (z & -> & (zs & Hzs & [= <-])%result_bind_inv)%result_bind_inv H2.
  rewrite result_bind_Ok, (IH zs) by done. done.
Qed.

Lemma pushes_app es es' log :
  pushes log (es ++ es') = pushes log es ++ pushes (foldl logEvent log es) es'.
Proof.
  revert log. induction es as [|e es IH]; intros log; simpl; [done|]. by rewrite IH, app_assoc.
Qed.

(** What holds of a session and everything it has output so far. *)
Record session_ok (b : Board) (r : string) (sim : bool) (s : GameSession) (outs : list SessionOut) : Prop := {
  so_room : roomName_ s = r;
  so_sim : simultaneousMode_ s = sim;
  so_board : board_ok (board (arbiter (engine_ s)));
  so_topics : topics_ok s;
  so_score : scoreObserver_ s = score (events (arbiter (engine_ s)));
  so_log : moveLogObserver_ s = moveLog (height b) (events (arbiter (engine_ s)));
  so_queue : mapR (enqueue r) (pushes (newLog (height b)) (events (arbiter (engine_ s)))) =
    Ok (delivered r outs ++ pending_ s);
  so_ended : (endedCount r outs ≤ 1)%nat;
  so_flag : (0 < endedCount r outs)%nat → gameResultPublished_ s = true
}.

Lemma newEvents_app s s' :
  board_ok (board (arbiter (engine_ s))) →
  engine_ s' = engine_ s ∨ (∃ c, engine_ s' = exec (simultaneousMode_ s) (engine_ s) c) →
  events (arbiter (engine_ s')) = events (arbiter (engine_ s)) ++ newEvents s s' ∧
  board_ok (board (arbiter (engine_ s'))).
Proof.
  intros Hok [He|[c He]]; unfold newEvents; rewrite He.
  - by rewrite drop_all, app_nil_r.
  - destruct (exec_reports (simultaneousMode_ s) (engine_ s) c Hok) as (es & Hes & _).
    rewrite Hes, drop_app_length. split; [done|].
    destruct (exec_asteps (simultaneousMode_ s) (engine_ s) c Hok) as [k Hs]. exact (asteps_board_ok _ _ Hs Hok).
Qed.

Lemma session_ok_step b r sim s outs s' out :
  session_ok b r sim s outs → op_effect s s' out → session_ok b r sim s' (outs ++ out).
Proof.
  intros [Hr Hsim Hb Ht Hs Hl Hq He Hf] [Er Esim Ee Es El (ps & Eps & Eq) Ep [Ec Ef]]. subst r sim.
  destruct (newEvents_app s s' Hb Ee) as [Hev Hb'].
  split; rewrite ?Er, ?Esim; try done.
  - intros p Hp. rewrite Er. assert (p ∈ pending_ s ++ ps) as Hin by (rewrite <-Eq; set_solver).
    apply elem_of_app in Hin as [?|Hin]; [by apply Ht|].
    destruct (mapR_elem _ _ _ _ Eps Hin) as [x Hx]. by eapply enqueue_topic.
  - rewrite Es, Hs, Hev. unfold score. by rewrite foldl_app.
  - rewrite El, Hl, Hev. unfold moveLog. by rewrite foldl_app.
  - rewrite Hev, pushes_app. rewrite delivered_app, <-app_assoc, Eq, app_assoc.
    apply mapR_app; [done|]. by rewrite Hl in Eps.
  - rewrite endedCount_app. destruct (endedCount (roomName_ s) outs) as [|n] eqn:Hn; [lia|].
    destruct Ep as [_ ->]; [apply Hf; lia|lia].
  - rewrite endedCount_app. intros Hpos. destruct (endedCount (roomName_ s) outs) as [|n] eqn:Hn.
    + apply Ef. lia.
    + apply Ep, Hf. lia.
Qed.

Lemma session_ok_new b r sim : board_ok b → session_ok b r sim (newSession b r sim) [].
Proof. intros Hok. split; try done; [by intros p ?%elem_of_nil|..]; unfold endedCount; simpl; lia. Qed.

Lemma runOps_ok b r sim os s outs :
  board_ok b → runOps os (newSession b r sim) = Ok (s, outs) → session_ok b r sim s outs.
Proof.
  intros Hok Hr. change outs with ([] ++ outs).
  eapply (runOps_ind (session_ok b r sim)); [by apply session_ok_new| |exact Hr].
  intros o s1 outs1 s2 out Hs Ho. eapply session_ok_step; [done|].
  eapply sessionOp_effect; [apply (so_topics _ _ _ _ _ Hs)|done].
Qed.

(** C9 Nothing the players do or watch is lost: in every order of simulation
    steps, delivery steps, timers and commands, what has been delivered to the
    room followed by what still waits in the queue is exactly the sequence of
    completed moves and captures of the engine, each once and in order; and the
    score and the log are those of that sequence. *)
Theorem notifications_exact b r sim os s outs :
  board_ok b → runOps os (newSession b r sim) = Ok (s, outs) →
  let es := events (arbiter (engine_ s)) in
  mapR (enqueue r) (pushes (newLog (height b)) es) = Ok (delivered r outs ++ pending_ s) ∧
  scoreObserver_ s = score es ∧ moveLogObserver_ s = moveLog (height b) es.
Proof.
  intros Hok Hr es. destruct (runOps_ok _ _ _ _ _ _ Hok Hr) as [_ _ _ _ Hs Hl Hq _ _]. by split_and!.
Qed.

(** The result of a game is published at most once, however the capture of a
    king, the expiry of a disconnect timer and the ticks interleave. *)
Theorem result_published_once b r sim os s outs :
  board_ok b → runOps os (newSession b r sim) = Ok (s, outs) →
  (endedCount r outs ≤ 1)%nat ∧ ((0 < endedCount r outs)%nat → gameResultPublished_ s = true).
Proof.
  intros Hok Hr. destruct (runOps_ok _ _ _ _ _ _ Hok Hr) as [_ _ _ _ _ _ _ He Hf]. by split.
Qed.

(** ** The result *)

Lemma kingOf_spec c snap :
  kingOf c snap = true ↔ ∃ p, p ∈ pieces snap ∧ sp_kind p = King ∧ sp_color p = c.
Proof.
  unfold kingOf, kindEqb, colorEqb. rewrite existsb_exists. setoid_rewrite <-list_elem_of_In.
  setoid_rewrite andb_true_iff. by setoid_rewrite bool_decide_eq_true.
Qed.

Lemma survivingKingColor_spec snap c c' :
  (c = White ∧ c' = Black) ∨ (c = Black ∧ c' = White) →
  survivingKingColor snap = c ↔
    (∃ p, p ∈ pieces snap ∧ sp_kind p = King ∧ sp_color p = c) ∧
    ¬ ∃ p, p ∈ pieces snap ∧ sp_kind p = King ∧ sp_color p = c'.
Proof.
  intros Hc. rewrite <-!kingOf_spec. unfold survivingKingColor.
  destruct Hc as [[-> ->]|[-> ->]], (kingOf White snap), (kingOf Black snap); simpl; naive_solver.
Qed.

(** When the engine reports the end of the game, the delivery step publishes
    its result exactly when one side alone still has a king: a king capture won
    by that side, with the names of the room, which decodes at the receiver;
    otherwise (no king left) it throws and publishes no result.  Either way the
    flag that bars every later result is set. *)
Theorem publishStep_result payload s :
  gameResultPublished_ s = false → gs_over (snapshot (engine_ s)) = true →
  int_range (id_whiteElo (identity_ s)) → int_range (id_blackElo (identity_ s)) →
  let '(s', outs, exn) := publishStep payload s in
  let c := survivingKingColor (snapshot (engine_ s)) in
  gameResultPublished_ s' = true ∧
  if decide (c = NoColor) then is_Some exn ∧ ∀ data, Publish (gameEndedTopic (roomName_ s)) data ∉
      drop (length (pending_ s)) outs
  else exn = None ∧ ∃ data res, last outs = Some (Publish (gameEndedTopic (roomName_ s)) data) ∧
    ResultCodec.decode data = Ok res ∧ gr_winner res = c ∧ gr_reason res = KingCapture ∧
    winnerUsername res = (if colorEqb c White then id_whiteUsername else id_blackUsername) (identity_ s) ∧
    loserUsername res = (if colorEqb c White then id_blackUsername else id_whiteUsername) (identity_ s).
Proof.
  intros Hp Ho Hw Hb. unfold publishStep. cbn [gameResultPublished_ setPending engine_]. rewrite Hp, Ho.
  cbn [negb andb]. set (res := kingCaptureResult (setPending [] s)).
  set (sent := match snapshotSender_ (setPending [] s) with Some _ => _ | None => _ end).
  set (c := survivingKingColor (snapshot (engine_ s))).
  assert (gr_winner res = c) as Hwin by done.
  unfold publishGameEnded. destruct (decide (c = NoColor)) as [Hc|Hc].
  - assert (∃ what, ResultCodec.encode res = Throw what) as [what ->].
    { unfold ResultCodec.encode. rewrite Hwin, Hc. by eexists. }
    split_and!; [done|by eexists|]. intros data. rewrite drop_app_length' by (by rewrite length_map).
    rewrite app_nil_r. unfold sent. destruct (snapshotSender_ _); set_solver.
  - destruct (gameResult_encodes res) as (data & Hdata & Hdec).
    { by rewrite Hwin. }
    { unfold res, kingCaptureResult; simpl. by case_match. }
    { unfold res, kingCaptureResult; simpl. by case_match. }
    rewrite Hdata. split_and!; [done..|]. exists data, res. split_and!; [|done|done|done|..].
    + by rewrite app_assoc, last_snoc.
    + unfold res, kingCaptureResult; simpl. fold c. by destruct (colorEqb c White).
    + unfold res, kingCaptureResult; simpl. fold c. by destruct (colorEqb c White).
Qed.
End Ops.
