(* ===== verification/ClientNet.v ===== *)
(** * What the client makes of the server's messages
    ([client/net/NetworkMessageHandler])

    The handler's state is what the screen shows; a sound is an entry of a
    trace.  The last part compares it with the session it listens to. *)
From S2P Require Import Prelude Model Text Double Rules Motion Arbiter ArbiterSteps Lifecycle Engine EngineSpec EngineTheorems Json Observers Codecs Session SessionTheorems.
#[local] Open Scope Z_scope.

Record NetworkState := mkNet {
  ns_snapshot : GameSnapshot;
  disconnectActive : bool;
  disconnectMessage : string;
  ns_whiteScore : Z;
  ns_blackScore : Z;
  ns_whiteMoves : list MoveEntry;
  ns_blackMoves : list MoveEntry;
  whiteName : string;
  ns_whiteElo : Z;
  blackName : string;
  ns_blackElo : Z;
  ns_spectatorCount : Z
}.

(** [SoundNames.h] *)
Module Sounds.
Definition MOVE : string := "move.wav".
Definition CAPTURE : string := "capture.wav".
Definition ILLEGAL_MOVE : string := "illegal_move.wav".
End Sounds.

Record NetworkMessageHandler := mkHandler {
  state_ : NetworkState;
  pendingCaptures_ : list CaptureEvent;
  played : list string
}.

Definition emptySnapshot : GameSnapshot := mkSnapshot 0 0 [] false false (mkPos 0 0) [].
Definition newHandler : NetworkMessageHandler :=
  mkHandler (mkNet emptySnapshot false "" 0 0 [] [] "" 0 "" 0 0) [] [].

Definition setMoves (white black : list MoveEntry) (st : NetworkState) : NetworkState :=
  mkNet (ns_snapshot st) (disconnectActive st) (disconnectMessage st) (ns_whiteScore st) (ns_blackScore st)
    white black (whiteName st) (ns_whiteElo st) (blackName st) (ns_blackElo st) (ns_spectatorCount st).

Definition play (sound : string) (h : NetworkMessageHandler) : NetworkMessageHandler :=
  mkHandler (state_ h) (pendingCaptures_ h) (played h ++ [sound]).

Definition seedMoveLog (white black : list MoveEntry) (h : NetworkMessageHandler) : NetworkMessageHandler :=
  mkHandler (setMoves white black (state_ h)) (pendingCaptures_ h) (played h).

Definition opponentName (color : string) : string := if String.eqb color "White" then "Black" else "White".

Definition handleMoveLogged (payload : json) (h : NetworkMessageHandler) : result NetworkMessageHandler :=
  '(color, entry) ← MoveCodec.decode payload;
  let st := state_ h in
  let st := match color with
            | White => setMoves (ns_whiteMoves st ++ [entry]) (ns_blackMoves st) st
            | Black => setMoves (ns_whiteMoves st) (ns_blackMoves st ++ [entry]) st
            | NoColor => st
            end in
  Ok (play Sounds.MOVE (mkHandler st (pendingCaptures_ h) (played h))).

Definition handleCaptureEvent (payload : json) (h : NetworkMessageHandler) : result NetworkMessageHandler :=
  event ← CaptureCodec.decode payload;
  Ok (mkHandler (state_ h) (pendingCaptures_ h ++ [event]) (played h)).

Definition handleCommandAck (j : json) (h : NetworkMessageHandler) : result NetworkMessageHandler :=
  success ← jValue getBool "success" true j;
  Ok (if negb success then play Sounds.ILLEGAL_MOVE h else h).

(** The message a disconnect is announced with. *)
Definition disconnectText (color : string) (secondsRemaining : Z) : string :=
  if 0 <? secondsRemaining
  then color +:+ " disconnected - auto-resign in " +:+ showInt secondsRemaining +:+ "s"
  else color +:+ " resigned (disconnected) - " +:+ opponentName color +:+ " wins!".

Definition readDisconnect (j : json) : result (bool * string) :=
  if jContains "disconnect" j then
    d ← jAt "disconnect" j;
    active ← jValue getBool "active" false d;
    if (active : bool) then
      color ← jValue getString "color" "" d;
      secondsRemaining ← jValue getInt "secondsRemaining" 0 d;
      Ok (true, disconnectText color secondsRemaining)
    else Ok (false, "")
  else Ok (false, "").

Definition handleSnapshot (j : json) (h : NetworkMessageHandler) : result NetworkMessageHandler :=
  decoded ← SnapshotCodec.decode j;
  '(active, message) ← readDisconnect j;
  white ← (s ← jValue getJson "score" jEmpty j; jValue getInt "white" 0 s);
  black ← (s ← jValue getJson "score" jEmpty j; jValue getInt "black" 0 s);
  identity ← jValue getJson "identity" jEmpty j;
  wn ← jValue getString "whiteName" "" identity;
  we ← jValue getInt "whiteElo" 0 identity;
  bn ← jValue getString "blackName" "" identity;
  be ← jValue getInt "blackElo" 0 identity;
  n ← jValue getInt "spectatorCount" 0 identity;
  Ok (mkHandler (mkNet decoded active message white black (ns_whiteMoves (state_ h)) (ns_blackMoves (state_ h))
        wn we bn be n) (pendingCaptures_ h) (played h)).

(** [isCaptureSoundReady]: [watched] is the piece in the snapshot, if it is. *)
Definition isCaptureSoundReady (watched : option SnapshotPiece) (impactProgress : double) : bool :=
  match watched with
  | None => true
  | Some p => negb (bool_decide (sp_state p = Moving)) || dLe impactProgress (travelProgress p)
  end.

Definition captureReady (snap : GameSnapshot) (e : CaptureEvent) : bool :=
  isCaptureSoundReady (find (λ p, sp_id p =? ce_capturingPieceId e) (pieces snap)) (ce_impactProgress e).

Definition checkPendingCaptureSounds (h : NetworkMessageHandler) : NetworkMessageHandler :=
  let ready := filter (λ e, captureReady (ns_snapshot (state_ h)) e = true) (pendingCaptures_ h) in
  let waiting := filter (λ e, captureReady (ns_snapshot (state_ h)) e = false) (pendingCaptures_ h) in
  mkHandler (state_ h) waiting (played h ++ replicate (length ready) Sounds.CAPTURE).

Section ClientNet.
Context `{HashIter} `{JsonText}.

(** The [try] block of [onMessage]. *)
Definition onJson (j : json) (h : NetworkMessageHandler) : result NetworkMessageHandler :=
  type ← (n ← jValue getString "type" "" j; MessageCodec.typeFromName n);
  match type with
  | MoveLogged => p ← jAt "payload" j; handleMoveLogged p h
  | CaptureEventMsg => p ← jAt "payload" j; handleCaptureEvent p h
  | Snapshot => handleSnapshot j h
  | Move | JumpMsg => handleCommandAck j h
  | _ => Ok h
  end.

Definition onMessage (text : string) (h : NetworkMessageHandler) : NetworkMessageHandler :=
  match (j ← parse text; onJson j h) with Ok h => h | Throw _ => h end.

(** ** Reading fields of a payload that grew *)

Definition isObject (j : json) : Prop := ∃ fields, j = JObject fields.

Lemma jSet_object k v j j' : isObject j → jSet k v j = Ok j' → isObject j'.
Proof. intros [fs ->]. simpl. intros [= <-]. by eexists. Qed.

Lemma jAt_jSet k k' v j j' :
  isObject j → jSet k v j = Ok j' → jAt k' j' = if String.eqb k' k then Ok v else jAt k' j.
Proof.
  intros [fs ->]. simpl. intros [= <-]. simpl.
  destruct (String.eqb_spec k' k) as [->|Hne]; [by rewrite findField_insert|by rewrite findField_insert_ne].
Qed.

Lemma jValue_jAt {A} (get : json → result A) k d j v : jAt k j = Ok v → jValue get k d j = get v.
Proof. intros (fs & -> & Hf)%jAt_Ok. simpl. by rewrite Hf. Qed.

Lemma jContains_jSet k k' v j j' :
  isObject j → jSet k v j = Ok j' → jContains k' j' = String.eqb k' k || jContains k' j.
Proof.
  intros [fs ->]. simpl. intros [= <-]. simpl.
  destruct (String.eqb_spec k' k) as [->|Hne]; simpl;
    [rewrite findField_insert; by apply bool_decide_eq_true|by rewrite findField_insert_ne].
Qed.

(** The codec only looks at its own seven fields. *)
Lemma decode_fields j j' :
  (∀ k, k ∈ ["board_width"; "board_height"; "pieces"; "game_over"; "has_selection"; "selected_cell"; "legalMoves"] →
    jAt k j' = jAt k j) → SnapshotCodec.decode j' = SnapshotCodec.decode j.
Proof.
  intros Hk. unfold SnapshotCodec.decode, jInt, jStr. rewrite !Hk by set_solver. done.
Qed.

(** ** A snapshot as the client sees it *)

Definition session_int (s : GameSession) : Prop :=
  snapshot_int (snapshot (engine_ s)) ∧
  int_range (getScore White (scoreObserver_ s)) ∧ int_range (getScore Black (scoreObserver_ s)) ∧
  int_range (id_whiteElo (identity_ s)) ∧ int_range (id_blackElo (identity_ s)) ∧
  int_range (spectatorCount (identity_ s)) ∧ int_range (secondsRemaining (disconnectStatus_ s)).

(** The screen that shows a session exactly, with the moves already listed. *)
Definition screenOf (s : GameSession) (white black : list MoveEntry) : NetworkState :=
  let d := disconnectStatus_ s in
  let i := identity_ s in
  mkNet (snapshot (engine_ s)) (dc_active d)
    (if dc_active d then disconnectText (colorName (dc_color d)) (secondsRemaining d) else "")
    (getScore White (scoreObserver_ s)) (getScore Black (scoreObserver_ s)) white black
    (id_whiteUsername i) (id_whiteElo i) (id_blackUsername i) (id_blackElo i) (spectatorCount i).


Lemma encode_object snap j : SnapshotCodec.encode snap = Ok j → isObject j ∧ jContains "disconnect" j = false.
Proof.
  unfold SnapshotCodec.encode. intros (ps & _ & [= <-])%result_bind_inv.
  split; [by eexists|]. by rewrite jContains_obj.
Qed.

Definition scoreJson (s : GameSession) : json :=
  jObj [("white", JInt (getScore White (scoreObserver_ s))); ("black", JInt (getScore Black (scoreObserver_ s)))].
Definition identityJson (s : GameSession) : json :=
  jObj [("whiteName", JString (id_whiteUsername (identity_ s))); ("whiteElo", JInt (id_whiteElo (identity_ s)));
    ("blackName", JString (id_blackUsername (identity_ s))); ("blackElo", JInt (id_blackElo (identity_ s)));
    ("spectatorCount", JInt (spectatorCount (identity_ s)))].
Definition disconnectJson (d : DisconnectStatus) : json :=
  jObj [("active", JBool true); ("color", JString (colorName (dc_color d)));
    ("secondsRemaining", JInt (secondsRemaining d))].

Lemma payload_fields s p :
  snapshotPayload s = Ok p →
  jAt "type" p = Ok (JString "SNAPSHOT") ∧ jAt "score" p = Ok (scoreJson s) ∧
  jAt "identity" p = Ok (identityJson s) ∧ jContains "disconnect" p = dc_active (disconnectStatus_ s) ∧
  (dc_active (disconnectStatus_ s) = true → jAt "disconnect" p = Ok (disconnectJson (disconnectStatus_ s))) ∧
  ∃ j, SnapshotCodec.encode (snapshot (engine_ s)) = Ok j ∧ SnapshotCodec.decode p = SnapshotCodec.decode j.
Proof.
  unfold snapshotPayload.
  intros (j & Hj & (t & [= <-] & (p1 & H1 & (p2 & H2 & (p3 & H3 & Hp)%result_bind_inv)%result_bind_inv)%result_bind_inv)%result_bind_inv)%result_bind_inv.
  destruct (encode_object _ _ Hj) as [O0 C0].
  pose proof (jSet_object _ _ _ _ O0 H1) as O1. pose proof (jSet_object _ _ _ _ O1 H2) as O2.
  pose proof (jSet_object _ _ _ _ O2 H3) as O3.
  assert (∀ k, jAt k p3 = if String.eqb k "identity" then Ok (identityJson s)
    else if String.eqb k "score" then Ok (scoreJson s) else if String.eqb k "type" then Ok (JString "SNAPSHOT") else jAt k j) as E3.
  { intros k. rewrite (jAt_jSet _ k _ _ _ O2 H3), (jAt_jSet _ k _ _ _ O1 H2), (jAt_jSet _ k _ _ _ O0 H1). done. }
  assert (jContains "disconnect" p3 = false) as C3.
  { rewrite (jContains_jSet _ _ _ _ _ O2 H3), (jContains_jSet _ _ _ _ _ O1 H2), (jContains_jSet _ _ _ _ _ O0 H1), C0. done. }
  destruct (dc_active (disconnectStatus_ s)) eqn:Hd.
  - assert (∀ k, jAt k p = if String.eqb k "disconnect" then Ok (disconnectJson (disconnectStatus_ s)) else jAt k p3) as E4
      by (intros k; by rewrite (jAt_jSet _ k _ _ _ O3 Hp)).
    split_and!; try (rewrite E4, ?E3; done).
    + by rewrite (jContains_jSet _ _ _ _ _ O3 Hp).
    + exists j. split; [done|]. apply decode_fields. intros k Hk. rewrite E4, E3. set_unfold. naive_solver.
  - injection Hp as <-. split_and!; try (rewrite ?E3; done).
    exists j. split; [done|]. apply decode_fields. intros k Hk. rewrite E3. set_unfold. naive_solver.
Qed.

Lemma readDisconnect_payload s p :
  snapshotPayload s = Ok p → int_range (secondsRemaining (disconnectStatus_ s)) →
  readDisconnect p = Ok (dc_active (disconnectStatus_ s),
    if dc_active (disconnectStatus_ s)
    then disconnectText (colorName (dc_color (disconnectStatus_ s))) (secondsRemaining (disconnectStatus_ s)) else "").
Proof.
  intros (_ & _ & _ & Hc & Hd & _)%payload_fields Hi. unfold readDisconnect. rewrite Hc.
  destruct (dc_active (disconnectStatus_ s)); [|done]. rewrite Hd, result_bind_Ok by done.
  unfold disconnectJson. jfields. cbn [getBool getString mbind result_bind]. by rewrite getInt_JInt, result_bind_Ok.
Qed.

Lemma snapshot_heard s p h :
  session_int s → snapshotPayload s = Ok p →
  onJson p h = Ok (mkHandler (screenOf s (ns_whiteMoves (state_ h)) (ns_blackMoves (state_ h)))
                    (pendingCaptures_ h) (played h)).
Proof.
  intros (Hs & Hw & Hb & Hwe & Hbe & Hn & Hr) Hp.
  pose proof (readDisconnect_payload s p Hp Hr) as Hrd.
  destruct (payload_fields s p Hp) as (Ht & Hsc & Hid & _ & _ & j & Hj & Hdec).
  pose proof (snapshot_decodes _ _ Hs Hj) as Hjd.
  unfold onJson. rewrite (jValue_jAt _ _ _ _ _ Ht). cbn [getString]. rewrite result_bind_Ok.
  change (MessageCodec.typeFromName "SNAPSHOT") with (Ok Snapshot : result MessageType). rewrite result_bind_Ok.
  unfold handleSnapshot. rewrite Hdec, Hjd, result_bind_Ok, Hrd, result_bind_Ok.
  rewrite !(jValue_jAt _ "score" _ _ _ Hsc), (jValue_jAt _ "identity" _ _ _ Hid).
  unfold getJson, scoreJson, identityJson. jfields. rewrite !getInt_JInt by done.
  cbn [getString mbind result_bind]. done.
Qed.

(** ** The moves *)

(** What the room hears of an output of the session. *)
Definition heard (roomName : string) (o : SessionOut) : option string :=
  match o with
  | Publish topic data => if String.eqb topic (gameEndedTopic roomName) then None else Some (dump data)
  | SendSnapshot _ text => Some text
  end.

Definition listen (roomName : string) (outs : list SessionOut) (h : NetworkMessageHandler) : NetworkMessageHandler :=
  foldl (λ h text, onMessage text h) h (omap (heard roomName) outs).

Definition movesOf (color : Color) (h : NetworkMessageHandler) : list MoveEntry :=
  match color with White => ns_whiteMoves (state_ h) | Black => ns_blackMoves (state_ h) | NoColor => [] end.

(** Notations and progress that JSON can carry. *)
Definition push_text (p : Push) : Prop :=
  match p with
  | PushMove _ e => utf8 (timestamp e) = true ∧ utf8 (notation e) = true
  | PushCapture e => finite (ce_impactProgress e) = true
  end.

Definition moveMessage (n : string) (e : MoveEntry) : json :=
  jObj [("type", JString "MOVE_LOGGED");
    ("payload", JObject [("color", JString n); ("notation", JString (notation e)); ("timestamp", JString (timestamp e))])].

Lemma colorName_ascii c n : nameOf kColorToName c = Ok n → ascii7 n = true.
Proof. destruct c; simpl; by intros [= <-]. Qed.

Lemma kindName_ascii k n : nameOf kKindToName k = Ok n → ascii7 n = true.
Proof. destruct k; simpl; by intros [= <-]. Qed.

Ltac texts := repeat first
  [ apply jsonText_obj | rewrite utf8_ascii7 by reflexivity | progress cbn [forallb fst snd andb jsonText] ].

Lemma enqueue_move r c e q :
  push_text (PushMove c e) → enqueue r (PushMove c e) = Ok q →
  ∃ n, nameOf kColorToName c = Ok n ∧ pp_data q = moveMessage n e ∧ pp_topic q = moveLogTopic r ∧
    jsonText utf8 (pp_data q) = true.
Proof.
  intros [Ht Hn] (d & Hd & (t & Hm & (j & Hj & [= <-])%result_bind_inv)%result_bind_inv)%result_bind_inv.
  unfold MoveCodec.encode in Hd. apply result_bind_inv in Hd as (n & Hc & Hd).
  injection Hd as <-. unfold MessageCodec.encode in Hm. injection Hm as <-.
  assert (jsonText utf8 (moveMessage n e) = true) as Htext.
  { unfold moveMessage. texts. rewrite Ht, Hn, (utf8_ascii7 n) by (by eapply colorName_ascii). by texts. }
  change (parse (dump (moveMessage n e)) = Ok j) in Hj. rewrite parse_dump in Hj by done. injection Hj as <-.
  exists n. by split_and!.
Qed.

Lemma enqueue_capture r e q :
  push_text (PushCapture e) → enqueue r (PushCapture e) = Ok q →
  ∃ d, CaptureCodec.encode e = Ok d ∧ pp_data q = jObj [("type", JString "CAPTURE_EVENT"); ("payload", d)] ∧
    pp_topic q = captureTopic r ∧ jsonText utf8 (pp_data q) = true.
Proof.
  intros Hf (d & Hd & (t & Hm & (j & Hj & [= <-])%result_bind_inv)%result_bind_inv)%result_bind_inv.
  exists d. split; [done|]. unfold MessageCodec.encode in Hm. injection Hm as <-.
  assert (jsonText utf8 (jObj [("type", JString "CAPTURE_EVENT"); ("payload", d)]) = true) as Htext.
  { unfold CaptureCodec.encode in Hd.
    apply result_bind_inv in Hd as (k & Hk & (c & Hc & [= <-])%result_bind_inv).
    assert (utf8 k = true ∧ utf8 c = true) as [Hku Hcu]
      by (split; apply utf8_ascii7; [by eapply kindName_ascii|by eapply colorName_ascii]).
    assert (∀ p, jsonText utf8 (encodePosition p) = true) as Hpos by (intros p; unfold encodePosition; by texts).
    unfold push_text in Hf. apply jsonText_obj. cbn [forallb fst snd]. apply andb_true_iff. split; [by texts|].
    apply andb_true_iff. split; [|done]. apply andb_true_iff. split; [by texts|]. apply jsonText_obj.
    cbn [forallb fst snd jsonText]. rewrite Hku, Hcu, !Hpos, Hf. by texts. }
  change (parse (dump (jObj [("type", JString "CAPTURE_EVENT"); ("payload", d)])) = Ok j) in Hj.
  rewrite parse_dump in Hj by done. injection Hj as <-. by split_and!.
Qed.

(** A move heard is the move pushed. *)
Lemma move_heard c e n h :
  nameOf kColorToName c = Ok n →
  onJson (moveMessage n e) h =
    Ok (play Sounds.MOVE (mkHandler
      (match c with
       | White => setMoves (ns_whiteMoves (state_ h) ++ [e]) (ns_blackMoves (state_ h)) (state_ h)
       | Black => setMoves (ns_whiteMoves (state_ h)) (ns_blackMoves (state_ h) ++ [e]) (state_ h)
       | NoColor => state_ h end) (pendingCaptures_ h) (played h))).
Proof. destruct c; simpl; intros [= <-]; by destruct e. Qed.

(** A capture heard waits for its sound; a snapshot changes no list of moves. *)
Lemma capture_heard e d h :
  CaptureCodec.encode e = Ok d →
  position_int (ce_cell e) → position_int (ce_collisionCell e) →
  int_range (ce_capturedPieceId e) → int_range (ce_capturingPieceId e) →
  onJson (jObj [("type", JString "CAPTURE_EVENT"); ("payload", d)]) h =
    Ok (mkHandler (state_ h) (pendingCaptures_ h ++ [e]) (played h)).
Proof.
  intros Hd H1 H2 H3 H4.
  assert (CaptureCodec.decode d = Ok e) as Hdec.
  { pose proof (captureEvent_decodes e H1 H2 H3 H4) as Hr. case_decide as Hk.
    - destruct Hr as (j & Hj & Hjd). congruence.
    - destruct Hr as (what & Hr). congruence. }
  transitivity (handleCaptureEvent d h); [done|]. unfold handleCaptureEvent. by rewrite Hdec.
Qed.

Lemma onJson_snapshot_moves j h h' :
  jAt "type" j = Ok (JString "SNAPSHOT") → onJson j h = Ok h' →
  (∀ c, movesOf c h' = movesOf c h) ∧ pendingCaptures_ h' = pendingCaptures_ h ∧ played h' = played h.
Proof.
  intros Ht. unfold onJson. rewrite (jValue_jAt _ _ _ _ _ Ht). cbn [getString]. rewrite result_bind_Ok.
  change (MessageCodec.typeFromName "SNAPSHOT") with (Ok Snapshot : result MessageType). rewrite result_bind_Ok.
  unfold handleSnapshot. intros Hh.
  repeat match goal with H : _ ≫= _ = Ok _ |- _ => apply result_bind_inv in H as (? & _ & H) end.
  repeat case_match; repeat match goal with H : _ ≫= _ = Ok _ |- _ => apply result_bind_inv in H as (? & _ & H) end.
  simplify_eq. split_and!; [|done..]. by intros [].
Qed.

(** A message every field of which fits. *)
Definition push_int (p : Push) : Prop :=
  match p with
  | PushMove _ _ => True
  | PushCapture e => position_int (ce_cell e) ∧ position_int (ce_collisionCell e) ∧
      int_range (ce_capturedPieceId e) ∧ int_range (ce_capturingPieceId e)
  end.

Definition snapshotText (text : string) : Prop :=
  ∃ j, text = dump j ∧ jAt "type" j = Ok (JString "SNAPSHOT") ∧ jsonText utf8 j = true.

Lemma snapshot_text_quiet text h :
  snapshotText text →
  (∀ c, movesOf c (onMessage text h) = movesOf c h) ∧ pendingCaptures_ (onMessage text h) = pendingCaptures_ h ∧
  played (onMessage text h) = played h.
Proof.
  intros (j & -> & Ht & Hj). unfold onMessage. rewrite parse_dump, result_bind_Ok by done.
  destruct (onJson j h) as [h'|] eqn:E; [|done]. by eapply onJson_snapshot_moves.
Qed.

Lemma push_heard r p q h c :
  c ≠ NoColor → push_text p → push_int p → enqueue r p = Ok q →
  movesOf c (onMessage (dump (pp_data q)) h) = movesOf c h ++ pushedMoves c [p] ∧
  pendingCaptures_ (onMessage (dump (pp_data q)) h) = pendingCaptures_ h ++ pushedCaptures [p] ∧
  played (onMessage (dump (pp_data q)) h) = played h ++ (if p is PushMove _ _ then [Sounds.MOVE] else []).
Proof.
  intros Hc Ht Hi Hq. unfold onMessage. destruct p as [c' e|e].
  - destruct (enqueue_move r c' e q Ht Hq) as (n & Hn & Hd & _ & Hj).
    rewrite parse_dump, result_bind_Ok, Hd, (move_heard c' e n h Hn) by done.
    split_and!; [|by rewrite app_nil_r|done]. destruct c, c'; try done; by rewrite app_nil_r.
  - destruct (enqueue_capture r e q Ht Hq) as (d & Hd & Hdat & _ & Hj). destruct Hi as (H1 & H2 & H3 & H4).
    rewrite parse_dump, result_bind_Ok, Hdat, (capture_heard e d h) by done.
    split_and!; [by rewrite app_nil_r|done|by rewrite app_nil_r].
Qed.

Definition isMove (p : Push) : bool := match p with PushMove _ _ => true | PushCapture _ => false end.

Lemma listen_cons r o outs h :
  listen r (o :: outs) h = match heard r o with Some t => listen r outs (onMessage t h) | None => listen r outs h end.
Proof. unfold listen. csimpl. by destruct (heard r o). Qed.

Lemma delivered_cons r o outs :
  delivered r (o :: outs) =
  match o with
  | Publish t d => if String.eqb t (gameEndedTopic r) then delivered r outs else mkPending t d :: delivered r outs
  | SendSnapshot _ _ => delivered r outs
  end.
Proof. unfold delivered. csimpl. destruct o as [t d|]; [by destruct (String.eqb t _)|done]. Qed.

Lemma listen_pushes r outs ps h c :
  c ≠ NoColor → (∀ room text, SendSnapshot room text ∈ outs → snapshotText text) →
  (∀ p, p ∈ ps → push_text p ∧ push_int p) → mapR (enqueue r) ps = Ok (delivered r outs) →
  movesOf c (listen r outs h) = movesOf c h ++ pushedMoves c ps ∧
  pendingCaptures_ (listen r outs h) = pendingCaptures_ h ++ pushedCaptures ps ∧
  played (listen r outs h) = played h ++ replicate (length (filter (λ p, isMove p = true) ps)) Sounds.MOVE.
Proof.
  intros Hc. revert ps h. induction outs as [|o outs IH]; intros ps h Hsnap Hps Hq.
  - simpl in Hq. destruct ps as [|p ps]; [by rewrite !app_nil_r|]. simpl in Hq.
    apply result_bind_inv in Hq as (? & _ & (? & _ & Hx)%result_bind_inv). done.
  - assert (∀ room text, SendSnapshot room text ∈ outs → snapshotText text) as Hsnap'
      by (intros room text Hin; apply (Hsnap room); by right).
    rewrite listen_cons. rewrite delivered_cons in Hq. destruct o as [topic data|room text]; cbn [heard].
    + destruct (String.eqb topic (gameEndedTopic r)); [by apply IH|].
      destruct ps as [|p ps]; [done|]. simpl in Hq.
      apply result_bind_inv in Hq as (q & Hp & (qs & Hqs & [= -> ->])%result_bind_inv).
      destruct (Hps p) as [Htp Hip]; [left|].
      destruct (push_heard r p _ h c Hc Htp Hip Hp) as (H1 & H2 & H3). cbn [pp_data] in *.
      destruct (IH ps (onMessage (dump data) h)) as (I1 & I2 & I3); [done|intros; apply Hps; by right|done|].
      rewrite I1, I2, I3, H1, H2, H3. rewrite <-!app_assoc. unfold pushedMoves, pushedCaptures.
      rewrite <-!omap_app. split_and!; [done..|]. rewrite filter_cons. by destruct p.
    + destruct (snapshot_text_quiet text h) as (Q1 & Q2 & Q3); [apply (Hsnap room); left|].
      destruct (IH ps (onMessage text h)) as (I1 & I2 & I3); [done..|].
      by rewrite I1, I2, I3, Q1, Q2, Q3.
Qed.

(** ** A client and a session *)

Lemma runOps_app os1 os2 s s1 s2 outs1 outs2 :
  runOps os1 s = Ok (s1, outs1) → runOps os2 s1 = Ok (s2, outs2) → runOps (os1 ++ os2) s = Ok (s2, outs1 ++ outs2).
Proof.
  revert s outs1. induction os1 as [|o os1 IH]; intros s outs1; simpl; [by intros [= <- <-]|].
  intros ([s' out] & -> & ([s'' outs] & Hr & [= <- <-])%result_bind_inv)%result_bind_inv H2.
  rewrite result_bind_Ok, (IH _ _ Hr H2), result_bind_Ok. by rewrite app_assoc.
Qed.

Lemma runOps_events b r sim os s s' outs0 outs :
  session_ok b r sim s outs0 → runOps os s = Ok (s', outs) →
  ∃ es, events (arbiter (engine_ s')) = events (arbiter (engine_ s)) ++ es.
Proof.
  intros Hs Hr.
  assert (session_ok b r sim s' (outs0 ++ outs) ∧ ∃ es, events (arbiter (engine_ s')) = events (arbiter (engine_ s)) ++ es)
    as [_ He]; [|done].
  eapply (runOps_ind (λ s' outs', session_ok b r sim s' outs' ∧ ∃ es, events (arbiter (engine_ s')) = events (arbiter (engine_ s)) ++ es));
    [|  |exact Hr].
  - split; [done|]. exists []. by rewrite app_nil_r.
  - intros o s1 outs1 s2 out [Hs1 [es Hes]] Ho. pose proof (so_topics _ _ _ _ _ Hs1) as Ht.
    pose proof (sessionOp_effect _ _ _ _ Ht Ho) as Heff. split; [by eapply session_ok_step|].
    destruct (newEvents_app s1 s2 (so_board _ _ _ _ _ Hs1) (eff_engine _ _ _ Heff)) as [Hn _].
    exists (es ++ newEvents s1 s2). by rewrite Hn, Hes, app_assoc.
Qed.

Lemma mapR_app_prefix {A B} (f : A → result B) k1 k2 l1 l2 :
  mapR f k1 = Ok l1 → mapR f (k1 ++ k2) = Ok (l1 ++ l2) → mapR f k2 = Ok l2.
Proof.
  revert l1. induction k1 as [|x k1 IH]; intros l1; simpl; [by intros [= <-]|].
  intros (y & -> & (ys & Hys & [= <-])%result_bind_inv)%result_bind_inv. rewrite result_bind_Ok. simpl.
  intros (zs & Hzs & [= ->])%result_bind_inv. by eapply IH.
Qed.

Lemma mapR_app_inv {A B} (f : A → result B) l l1 l2 :
  mapR f l = Ok (l1 ++ l2) → ∃ k1 k2, l = k1 ++ k2 ∧ mapR f k1 = Ok l1 ∧ mapR f k2 = Ok l2.
Proof.
  revert l. induction l1 as [|y l1 IH]; intros l; simpl; [by exists [], l|].
  destruct l as [|x l]; simpl; [done|].
  intros (z & Hz & (zs & Hzs & [= -> ->])%result_bind_inv)%result_bind_inv.
  destruct (IH l Hzs) as (k1 & k2 & -> & H1 & H2). exists (x :: k1), k2. split_and!; [done| |done].
  simpl. by rewrite Hz, result_bind_Ok, H1, result_bind_Ok.
Qed.

(** The client of a connection that joins [s]: it is given the whole log. *)
Definition joined (s : GameSession) : NetworkMessageHandler :=
  seedMoveLog (getMoves White (moveLogObserver_ s)) (getMoves Black (moveLogObserver_ s)) newHandler.

(** What the session of a room has pushed since [s1], delivered or queued. *)
Lemma session_pushes b r sim os1 s1 outs1 os2 s2 outs2 :
  board_ok b → runOps os1 (newSession b r sim) = Ok (s1, outs1) → pending_ s1 = [] →
  runOps os2 s1 = Ok (s2, outs2) →
  (∀ p, p ∈ pushes (newLog (height b)) (events (arbiter (engine_ s2))) → push_text p ∧ push_int p) →
  ∃ es ps waiting, events (arbiter (engine_ s2)) = events (arbiter (engine_ s1)) ++ es ∧
    moveLogObserver_ s2 = foldl logEvent (moveLogObserver_ s1) es ∧
    pushes (moveLogObserver_ s1) es = ps ++ waiting ∧
    mapR (enqueue r) ps = Ok (delivered r outs2) ∧ mapR (enqueue r) waiting = Ok (pending_ s2) ∧
    ∀ p, p ∈ ps → push_text p ∧ push_int p.
Proof.
  intros Hb Hr1 Hp1 Hr2 Htext.
  pose proof (runOps_ok _ _ _ _ _ _ Hb Hr1) as Hok1.
  pose proof (runOps_ok _ _ _ _ _ _ Hb (runOps_app _ _ _ _ _ _ _ Hr1 Hr2)) as Hok2.
  destruct (runOps_events _ _ _ _ _ _ _ _ Hok1 Hr2) as [es Hes].
  pose proof (so_queue _ _ _ _ _ Hok1) as Hq1. pose proof (so_queue _ _ _ _ _ Hok2) as Hq2.
  rewrite Hp1, app_nil_r in Hq1. rewrite Hes, pushes_app, delivered_app, <-app_assoc in Hq2.
  fold (moveLog (height b) (events (arbiter (engine_ s1)))) in Hq2.
  rewrite <-(so_log _ _ _ _ _ Hok1) in Hq2.
  apply mapR_app_prefix with (1 := Hq1) in Hq2.
  destruct (mapR_app_inv _ _ _ _ Hq2) as (ps & waiting & Hps & Hd & Hw).
  rewrite Hes, pushes_app in Htext. fold (moveLog (height b) (events (arbiter (engine_ s1)))) in Htext.
  rewrite <-(so_log _ _ _ _ _ Hok1), Hps in Htext.
  exists es, ps, waiting. split_and!; [done| |done..|intros p Hp; apply Htext; set_solver].
  rewrite (so_log _ _ _ _ _ Hok2), (so_log _ _ _ _ _ Hok1), Hes. unfold moveLog. by rewrite foldl_app.
Qed.

Lemma client_follows_aux b r sim os1 s1 outs1 os2 s2 outs2 :
  board_ok b → runOps os1 (newSession b r sim) = Ok (s1, outs1) → pending_ s1 = [] →
  runOps os2 s1 = Ok (s2, outs2) →
  (∀ room text, SendSnapshot room text ∈ outs2 → snapshotText text) →
  (∀ p, p ∈ pushes (newLog (height b)) (events (arbiter (engine_ s2))) → push_text p ∧ push_int p) →
  let c := listen r outs2 (joined s1) in
  ∃ waiting, mapR (enqueue r) waiting = Ok (pending_ s2) ∧
    (∀ color, color ≠ NoColor → movesOf color c ++ pushedMoves color waiting = getMoves color (moveLogObserver_ s2)) ∧
    map ce_capturedPieceId (pendingCaptures_ c ++ pushedCaptures waiting) =
      map getId (capturedOf (drop (length (events (arbiter (engine_ s1)))) (events (arbiter (engine_ s2))))).
Proof.
  intros Hb Hr1 Hp1 Hr2 Hsnap Htext c.
  destruct (session_pushes b r sim os1 s1 outs1 os2 s2 outs2 Hb Hr1 Hp1 Hr2 Htext)
    as (es & ps & waiting & Hes & Hlog & Hps & Hd & Hw & Hpt).
  subst c. exists waiting. split; [done|]. split.
  - intros color Hc. destruct (listen_pushes r outs2 ps (joined s1) color Hc Hsnap Hpt Hd) as (-> & _ & _).
    destruct (moveLog_pushes color es (moveLogObserver_ s1) Hc) as (_ & Hm & _).
    rewrite Hlog, Hm, Hps. unfold pushedMoves. rewrite omap_app, app_assoc. by destruct color.
  - destruct (listen_pushes r outs2 ps (joined s1) White ltac:(done) Hsnap Hpt Hd) as (_ & -> & _).
    destruct (moveLog_pushes White es (moveLogObserver_ s1) ltac:(done)) as (_ & _ & Hm).
    rewrite Hes, drop_app_length, <-Hm, Hps. unfold pushedCaptures. by rewrite omap_app.
Qed.

(** The screen shows the game as the server has it: when a simulation step's
    payload arrives, the client's picture is the engine's snapshot, with the
    scores, names, ratings, spectators and the disconnect notice of the session;
    the moves and captures it has collected stay. *)
Theorem client_shows_game ms s s' payload h :
  computeStep ms s = Ok (s', payload) → session_int s' → jsonText utf8 payload = true →
  onMessage (dump payload) h =
    mkHandler (screenOf s' (ns_whiteMoves (state_ h)) (ns_blackMoves (state_ h))) (pendingCaptures_ h) (played h).
Proof.
  intros (_ & Hp)%computeStep_inv Hi Ht. unfold onMessage. rewrite parse_dump, result_bind_Ok by done.
  by rewrite (snapshot_heard s' payload h Hi Hp).
Qed.

(** C11 A client follows the session it joined: given the log on joining while
    nothing waits to be delivered, and then every message of the room in order,
    the moves it lists followed by those still queued are the server's log, and
    the captures it was told of followed by those still queued are the captures
    since it joined, each once and in order. *)
Theorem client_follows_server b r sim os1 s1 outs1 os2 s2 outs2 :
  board_ok b → runOps os1 (newSession b r sim) = Ok (s1, outs1) → pending_ s1 = [] →
  runOps os2 s1 = Ok (s2, outs2) →
  (∀ room text, SendSnapshot room text ∈ outs2 → snapshotText text) →
  (∀ p, p ∈ pushes (newLog (height b)) (events (arbiter (engine_ s2))) → push_text p ∧ push_int p) →
  let c := listen r outs2 (joined s1) in
  ∃ waiting, mapR (enqueue r) waiting = Ok (pending_ s2) ∧
    (∀ color, color ≠ NoColor → movesOf color c ++ pushedMoves color waiting = getMoves color (moveLogObserver_ s2)) ∧
    map ce_capturedPieceId (pendingCaptures_ c ++ pushedCaptures waiting) =
      map getId (capturedOf (drop (length (events (arbiter (engine_ s1)))) (events (arbiter (engine_ s2))))).
Proof. exact (client_follows_aux b r sim os1 s1 outs1 os2 s2 outs2). Qed.

(** ** The sound of a capture *)

Inductive ClientEvent := Incoming (text : string) | Frame.

Definition clientStep (h : NetworkMessageHandler) (e : ClientEvent) : NetworkMessageHandler :=
  match e with Incoming text => onMessage text h | Frame => checkPendingCaptureSounds h end.

(** A text that announces a capture. *)
Definition announces (e : ClientEvent) : bool :=
  match e with
  | Incoming text =>
    match (j ← parse text; t ← (n ← jValue getString "type" "" j; MessageCodec.typeFromName n);
           if decide (t = CaptureEventMsg) then (p ← jAt "payload" j; CaptureCodec.decode p)
           else Throw "another type") with Ok _ => true | Throw _ => false end
  | Frame => false
  end.

Definition captureSounds (h : NetworkMessageHandler) : nat :=
  length (filter (λ s, s = Sounds.CAPTURE) (played h)).
Definition captureCount (h : NetworkMessageHandler) : nat := captureSounds h + length (pendingCaptures_ h).

Lemma filter_lengths {A} (f : A → bool) (l : list A) :
  (length (filter (λ x, f x = true) l) + length (filter (λ x, f x = false) l) = length l)%nat.
Proof. induction l as [|x l IH]; [done|]. rewrite !filter_cons. destruct (f x); simpl; lia. Qed.

Lemma frame_count h : captureCount (checkPendingCaptureSounds h) = captureCount h.
Proof.
  unfold captureCount, captureSounds, checkPendingCaptureSounds. cbn [played pendingCaptures_].
  rewrite filter_app, length_app.
  pose proof (filter_lengths (captureReady (ns_snapshot (state_ h))) (pendingCaptures_ h)) as Hs.
  rewrite (filter_id _ (replicate _ _)); [rewrite length_replicate; lia|].
  intros x Hx. by eapply elem_of_replicate_inv.
Qed.

Lemma play_count s h : s ≠ Sounds.CAPTURE → captureCount (play s h) = captureCount h.
Proof.
  intros Hs. unfold captureCount, captureSounds. cbn [play played pendingCaptures_].
  by rewrite filter_app, filter_cons, decide_False, app_nil_r.
Qed.

Lemma onJson_count j h h' :
  onJson j h = Ok h' →
  captureCount h' = (captureCount h + if (match (t ← (n ← jValue getString "type" "" j; MessageCodec.typeFromName n);
    if decide (t = CaptureEventMsg) then (p ← jAt "payload" j; CaptureCodec.decode p)
    else Throw "another type") with Ok _ => true | Throw _ => false end) then 1 else 0)%nat.
Proof.
  unfold onJson. destruct (n ← jValue getString "type" "" j; _) as [t|]; [|done]. rewrite !result_bind_Ok.
  destruct t; simpl; try (intros [= <-]; lia).
  - intros (b & _ & [= <-])%result_bind_inv. destruct b; simpl; [lia|]. rewrite play_count by done. lia.
  - intros (b & _ & [= <-])%result_bind_inv. destruct b; simpl; [lia|]. rewrite play_count by done. lia.
  - unfold handleSnapshot. intros Hh.
    repeat match goal with H : _ ≫= _ = Ok _ |- _ => apply result_bind_inv in H as (? & _ & H) end.
    repeat case_match; repeat match goal with H : _ ≫= _ = Ok _ |- _ => apply result_bind_inv in H as (? & _ & H) end.
    simplify_eq. unfold captureCount, captureSounds. simpl. lia.
  - intros (p & _ & ([c e] & _ & [= <-])%result_bind_inv)%result_bind_inv.
    rewrite play_count by done. unfold captureCount, captureSounds. simpl. lia.
  - intros (p & -> & (e & Hd & [= <-])%result_bind_inv)%result_bind_inv. rewrite result_bind_Ok, Hd.
    unfold captureCount, captureSounds. simpl. rewrite length_app. simpl. lia.
Qed.

Lemma clientStep_count e h : captureCount (clientStep h e) = (captureCount h + if announces e then 1 else 0)%nat.
Proof.
  destruct e as [text|]; simpl; [|rewrite frame_count; lia]. unfold onMessage.
  destruct (parse text) as [j|]; simpl; [|lia]. destruct (onJson j h) as [h'|] eqn:E; [by apply onJson_count|].
  unfold onJson in E. destruct (n ← jValue getString "type" "" j; _) as [t|]; simpl in *; [|lia].
  destruct t; simpl in *; try lia. destruct (jAt "payload" j) as [p|]; simpl in *; [|lia].
  unfold handleCaptureEvent in E. destruct (CaptureCodec.decode p); simpl in *; [done|lia].
Qed.

Lemma frame_waits h e :
  e ∈ pendingCaptures_ (checkPendingCaptureSounds h) →
  ∃ p, p ∈ pieces (ns_snapshot (state_ h)) ∧ sp_id p = ce_capturingPieceId e ∧ sp_state p = Moving ∧
    dLe (ce_impactProgress e) (travelProgress p) = false.
Proof.
  cbn [checkPendingCaptureSounds pendingCaptures_]. intros [Hr _]%list_elem_of_filter.
  unfold captureReady, isCaptureSoundReady in Hr.
  destruct (find _ _) as [p|] eqn:Hf; [|done]. apply find_some in Hf as [Hin Hid].
  apply orb_false_iff in Hr as [Hm Hd]. b2p. exists p. split_and!; [by apply list_elem_of_In|done..].
Qed.

(** A capture is heard exactly once, however messages and frames interleave:
    the capture sounds played and those still waiting are together the captures
    announced; and after a frame a sound waits only while the capturing piece is
    on the screen, still moving, and short of the point of impact. *)
Theorem capture_heard_once es :
  let h := foldl clientStep newHandler es in
  (captureSounds h + length (pendingCaptures_ h) = length (filter (λ e, announces e = true) es))%nat ∧
  ∀ e, e ∈ pendingCaptures_ (checkPendingCaptureSounds h) →
    ∃ p, p ∈ pieces (ns_snapshot (state_ h)) ∧ sp_id p = ce_capturingPieceId e ∧ sp_state p = Moving ∧
      dLe (ce_impactProgress e) (travelProgress p) = false.
Proof.
  intros h. split; [|intros e; apply frame_waits]. subst h. fold (captureCount (foldl clientStep newHandler es)).
  induction es as [|e es IH] using rev_ind; [done|].
  rewrite foldl_app, filter_app, length_app, filter_cons. simpl. rewrite clientStep_count, IH.
  destruct (announces e); simpl; lia.
Qed.
End ClientNet.
