(* ===== verification/Registry.v ===== *)
(** * The rooms of a shard ([server/app/session/SessionRegistry])

    Rooms by name, which connection sits where and in which role, reserved
    seats, deferred removal, and the disconnect countdowns.  A connection
    handle is an integer.  A countdown is a timer of the table [timers] with a
    pending wait.  As asio documents it, the end of the wait ([timerExpire]) and
    the run of the handler ([timerFire]) are two events: in between the handler
    stands in the queue of the event loop, and [timer->cancel()] no longer
    reaches it — it will run, and without an error.  What goes to the room
    directory and to the reconnect store is output. *)
From S2P Require Import Prelude Model Text Double Rules Motion Arbiter ArbiterSteps Lifecycle Engine EngineSpec EngineTheorems Json Observers Codecs Session.

Definition hdl := Z.
Definition kDisconnectGraceSeconds : Z := 20.

(** [RoleName.h], and the function of the same name in [SessionRegistry.cpp]. *)
Definition roleName (c : Color) : string :=
  match c with White => "White" | Black => "Black" | NoColor => "Spectator" end.

Record PendingDisconnect := mkPendingDisconnect { pd_username : string; pd_timer : Z }.

Record Room := mkRoom {
  session : GameSession;
  roles : gmap hdl Color;
  connectionCount : Z;
  seatReservations : gmap string Color;
  pendingRemoval : bool;
  pendingDisconnects : gmap Color PendingDisconnect
}.

(** What a countdown's handler has captured; [remaining] is shared with it;
    [queued] says that the wait is over and the handler is about to run. *)
Record Countdown := mkCountdown {
  cd_room : string; cd_color : Color; cd_username : string; cd_elo : Z; remaining : Z; queued : bool
}.
Definition enqueued (c : Countdown) : Countdown :=
  mkCountdown (cd_room c) (cd_color c) (cd_username c) (cd_elo c) (remaining c) true.

Record SessionRegistry := mkRegistry {
  rooms_ : gmap string Room;
  connectionRoom_ : gmap hdl string;
  timers : gmap Z Countdown;
  nextTimer : Z
}.
Definition newRegistry : SessionRegistry := mkRegistry ∅ ∅ ∅ 0.

Inductive Output :=
  | DirectorySet (room shard : string)
  | DirectoryErase (room : string)
  | SetDisconnected (room color username : string) (elo secondsRemaining : Z)
  | ClearDisconnected (room : string)
  | Session (o : SessionOut).

Definition setRooms (rs : gmap string Room) (r : SessionRegistry) : SessionRegistry :=
  mkRegistry rs (connectionRoom_ r) (timers r) (nextTimer r).
Definition setTimers (ts : gmap Z Countdown) (r : SessionRegistry) : SessionRegistry :=
  mkRegistry (rooms_ r) (connectionRoom_ r) ts (nextTimer r).
Definition withSession (f : GameSession → GameSession) (room : Room) : Room :=
  mkRoom (f (session room)) (roles room) (connectionCount room) (seatReservations room)
    (pendingRemoval room) (pendingDisconnects room).
Definition onRoom (name : string) (f : Room → Room) (r : SessionRegistry) : SessionRegistry :=
  setRooms (alter f name (rooms_ r)) r.

Section Registry.
Context `{HashIter} `{JsonText}.
(** Which optional collaborators the registry was given. *)
Variable directory : bool.
Variable shardAddress : string.
Variable reconnectStore : bool.

Definition createRoom (name : string) (b : Board) (sim : bool) (r : SessionRegistry)
    : SessionRegistry * bool * list Output :=
  match rooms_ r !! name with
  | Some _ => (r, false, [])
  | None =>
    let room := mkRoom (newSession b name sim) ∅ 0 ∅ false ∅ in
    (setRooms (<[name := room]> (rooms_ r)) r, true,
     if directory then [DirectorySet name shardAddress] else [])
  end.

Definition roomExists (name : string) (r : SessionRegistry) : bool := bool_decide (is_Some (rooms_ r !! name)).
Definition room (name : string) (r : SessionRegistry) : option GameSession := session <$> rooms_ r !! name.
(** In the order of the hash map: any; only the set is used. *)
Definition roomNames (r : SessionRegistry) : list string := (map_to_list (rooms_ r)).*1.

Definition joinRole (username : string) (rm : Room) : Color :=
  let reserved := if String.eqb username "" then None else seatReservations rm !! username in
  match reserved with
  | Some c => c
  | None => if connectionCount rm =? 1 then White else if connectionCount rm =? 2 then Black else NoColor
  end.

Definition joinRoom (name : string) (h : hdl) (username : string) (r : SessionRegistry) : SessionRegistry * bool :=
  match rooms_ r !! name with
  | None => (r, false)
  | Some rm =>
    let rm := mkRoom (session rm) (roles rm) (connectionCount rm + 1) (seatReservations rm)
                (pendingRemoval rm) (pendingDisconnects rm) in
    let role := joinRole username rm in
    let rm := mkRoom (session rm) (<[h := role]> (roles rm)) (connectionCount rm) (seatReservations rm)
                (pendingRemoval rm) (pendingDisconnects rm) in
    (mkRegistry (<[name := rm]> (rooms_ r)) (<[h := name]> (connectionRoom_ r)) (timers r) (nextTimer r), true)
  end.

Definition reserveSeats (name whiteUsername blackUsername : string) (r : SessionRegistry) : SessionRegistry :=
  onRoom name (λ rm, mkRoom (session rm) (roles rm) (connectionCount rm)
    (<[blackUsername := Black]> (<[whiteUsername := White]> (seatReservations rm)))
    (pendingRemoval rm) (pendingDisconnects rm)) r.

Definition eraseRoom (name : string) (r : SessionRegistry) : SessionRegistry * list Output :=
  (setRooms (delete name (rooms_ r)) r, if directory then [DirectoryErase name] else []).

Definition leave (h : hdl) (r : SessionRegistry) : SessionRegistry * Color * list Output :=
  match connectionRoom_ r !! h with
  | None => (r, NoColor, [])
  | Some name =>
    let '(r1, role, out) :=
      match rooms_ r !! name with
      | None => (r, NoColor, [])
      | Some rm =>
        let role := default NoColor (roles rm !! h) in
        let rm := mkRoom (session rm) (delete h (roles rm)) (connectionCount rm) (seatReservations rm)
                    (pendingRemoval rm) (pendingDisconnects rm) in
        if decide (roles rm = ∅) then
          if tickInFlight (session rm) then
            let rm := mkRoom (session rm) (roles rm) (connectionCount rm) (seatReservations rm)
                        true (pendingDisconnects rm) in
            (setRooms (<[name := rm]> (rooms_ r)) r, role, [])
          else let '(r1, out) := eraseRoom name r in (r1, role, out)
        else (setRooms (<[name := rm]> (rooms_ r)) r, role, [])
      end in
    (mkRegistry (rooms_ r1) (delete h (connectionRoom_ r1)) (timers r1) (nextTimer r1), role, out)
  end.

Definition reapIfSafe (name : string) (r : SessionRegistry) : SessionRegistry * list Output :=
  match rooms_ r !! name with
  | None => (r, [])
  | Some rm => if pendingRemoval rm && negb (tickInFlight (session rm)) then eraseRoom name r else (r, [])
  end.

Definition connectionsInRoom (name : string) (r : SessionRegistry) : list hdl :=
  match rooms_ r !! name with None => [] | Some rm => (hash_iter (roles rm)).*1 end.

Definition roomOf (h : hdl) (r : SessionRegistry) : option string := connectionRoom_ r !! h.

Definition roleOf (h : hdl) (r : SessionRegistry) : Color :=
  match connectionRoom_ r !! h with
  | None => NoColor
  | Some name => match rooms_ r !! name with
                 | None => NoColor
                 | Some rm => default NoColor (roles rm !! h)
                 end
  end.

(** The wait is for zero seconds. *)
Definition startDisconnectCountdown (roomName : string) (color : Color) (username : string) (elo : Z)
    (r : SessionRegistry) : SessionRegistry :=
  match rooms_ r !! roomName with
  | None => r
  | Some rm =>
    let timer := nextTimer r in
    let rm := mkRoom (session rm) (roles rm) (connectionCount rm)
                (<[username := color]> (seatReservations rm)) (pendingRemoval rm)
                (<[color := mkPendingDisconnect username timer]> (pendingDisconnects rm)) in
    mkRegistry (<[roomName := rm]> (rooms_ r)) (connectionRoom_ r)
      (<[timer := mkCountdown roomName color username elo kDisconnectGraceSeconds false]> (timers r)) (timer + 1)
  end.

(** The wait of a timer is over. *)
Definition timerExpire (id : Z) (r : SessionRegistry) : SessionRegistry :=
  setTimers (alter enqueued id (timers r)) r.

(** The handler of a wait that is over runs, without an error; a text it throws
    leaves the event loop. *)
Definition timerFire (id : Z) (r : SessionRegistry) : SessionRegistry * list Output * option string :=
  match timers r !! id with
  | None => (r, [], None)
  | Some c =>
    if negb (queued c) then (r, [], None) else
    let r := setTimers (delete id (timers r)) r in
    match rooms_ r !! cd_room c with
    | None => (r, [], None)
    | Some rm =>
      let rm := withSession (setDisconnectStatus (mkDisconnect true (cd_color c) (remaining c))) rm in
      let r := setRooms (<[cd_room c := rm]> (rooms_ r)) r in
      let out := if reconnectStore
        then [SetDisconnected (cd_room c) (roleName (cd_color c)) (cd_username c) (cd_elo c) (remaining c)]
        else [] in
      if remaining c <=? 0 then
        let rm := mkRoom (session rm) (roles rm) (connectionCount rm) (delete (cd_username c) (seatReservations rm))
                    (pendingRemoval rm) (delete (cd_color c) (pendingDisconnects rm)) in
        let '(s, outs, exn) := markDisconnectResign (cd_color c) (cd_username c) (cd_elo c) (session rm) in
        (setRooms (<[cd_room c := withSession (λ _, s) rm]> (rooms_ r)) r,
         out ++ (if reconnectStore then [ClearDisconnected (cd_room c)] else []) ++ map Session outs, exn)
      else
        (setTimers (<[id := mkCountdown (cd_room c) (cd_color c) (cd_username c) (cd_elo c) (remaining c - 1) false]>
           (timers r)) r, out, None)
    end
  end.

(** [timer->cancel()]: a handler that waits for the end of its wait is called with
    an error, on which it returns; one that is queued already is not reached. *)
Definition cancelTimer (id : Z) (ts : gmap Z Countdown) : gmap Z Countdown :=
  match ts !! id with
  | Some c => if queued c then ts else delete id ts
  | None => ts
  end.

Definition cancelDisconnectCountdown (roomName : string) (color : Color) (username : string)
    (r : SessionRegistry) : SessionRegistry * bool * list Output :=
  match rooms_ r !! roomName with
  | None => (r, false, [])
  | Some rm =>
    match pendingDisconnects rm !! color with
    | None => (r, false, [])
    | Some pd =>
      if negb (String.eqb (pd_username pd) username) then (r, false, [])
      else
        let rm := mkRoom (setDisconnectStatus noDisconnect (session rm)) (roles rm) (connectionCount rm)
                    (seatReservations rm) (pendingRemoval rm) (delete color (pendingDisconnects rm)) in
        (mkRegistry (<[roomName := rm]> (rooms_ r)) (connectionRoom_ r) (cancelTimer (pd_timer pd) (timers r)) (nextTimer r),
         true, if reconnectStore then [ClearDisconnected roomName] else [])
    end
  end.
End Registry.

(** ** [ClientSession.h], [ClientSessionRegistry] *)
Record ClientSession := mkClient { username : string; elo : Z; searchingForGame : bool }.
Notation ClientSessionRegistry := (gmap hdl ClientSession).

Definition onLogin (h : hdl) (username : string) (elo : Z) (c : ClientSessionRegistry) : ClientSessionRegistry :=
  <[h := mkClient username elo false]> c.
Definition onDisconnect (h : hdl) (c : ClientSessionRegistry) : ClientSessionRegistry := delete h c.
Definition sessionFor (h : hdl) (c : ClientSessionRegistry) : option ClientSession := c !! h.
Definition clientCount (c : ClientSessionRegistry) : nat := size c.

(** ** [RoomIdentityResolver.cpp] *)
Section Resolve.
Context `{HashIter}.

Definition identifyOne (r : SessionRegistry) (c : ClientSessionRegistry) (i : RoomIdentity) (h : hdl) : RoomIdentity :=
  match roleOf h r, sessionFor h c with
  | NoColor, _ => mkIdentity (id_whiteUsername i) (id_whiteElo i) (id_blackUsername i) (id_blackElo i) (spectatorCount i + 1)
  | White, Some s => mkIdentity (username s) (elo s) (id_blackUsername i) (id_blackElo i) (spectatorCount i)
  | Black, Some s => mkIdentity (id_whiteUsername i) (id_whiteElo i) (username s) (elo s) (spectatorCount i)
  | _, None => i
  end.

Definition resolveIdentity (r : SessionRegistry) (c : ClientSessionRegistry) (roomName : string) : RoomIdentity :=
  foldl (identifyOne r c) noIdentity (connectionsInRoom roomName r).
End Resolve.

(** ** [MatchTicketRegistry] *)
Record MatchTicketRegistry := mkTickets {
  tr_shardAddress : string;
  nextId_ : Z;
  ticketByConnection_ : gmap hdl string;
  connectionByTicket_ : gmap string hdl
}.
Definition newTickets (shardAddress : string) : MatchTicketRegistry := mkTickets shardAddress 1 ∅ ∅.

Definition ticketName (shardAddress : string) (n : Z) : string := shardAddress +:+ "#" +:+ showInt n.

Definition addTicket (h : hdl) (t : MatchTicketRegistry) : MatchTicketRegistry * string :=
  let ticketId := ticketName (tr_shardAddress t) (nextId_ t) in
  (mkTickets (tr_shardAddress t) (nextId_ t + 1) (<[h := ticketId]> (ticketByConnection_ t))
     (<[ticketId := h]> (connectionByTicket_ t)), ticketId).

Definition cancelTicket (h : hdl) (t : MatchTicketRegistry) : MatchTicketRegistry * option string :=
  match ticketByConnection_ t !! h with
  | None => (t, None)
  | Some ticketId =>
    (mkTickets (tr_shardAddress t) (nextId_ t) (delete h (ticketByConnection_ t))
       (delete ticketId (connectionByTicket_ t)), Some ticketId)
  end.

Definition resolveTicket (ticketId : string) (t : MatchTicketRegistry) : MatchTicketRegistry * option hdl :=
  match connectionByTicket_ t !! ticketId with
  | None => (t, None)
  | Some h =>
    (mkTickets (tr_shardAddress t) (nextId_ t) (delete h (ticketByConnection_ t))
       (delete ticketId (connectionByTicket_ t)), Some h)
  end.
