(* ===== verification/RegistryTheorems.v ===== *)
(** * The contract of the room registry

    The two maps of the registry agree, seats are given out once, a room is
    only erased when nobody is in it — for every order of operations in which a
    connection joins one room at a time and no room that is about to be
    removed; the disconnect countdown and the return of a player. *)
From S2P Require Import Prelude Model Text Double Rules Motion Arbiter ArbiterSteps Lifecycle Engine EngineSpec EngineTheorems Json Observers Codecs Session SessionTheorems Registry.

Section Contract.
Context `{HashIter} `{JsonText}.
Variable directory : bool.
Variable shardAddress : string.
Variable reconnectStore : bool.

(** One operation of the registry.  [unreserved] restricts joins to those that
    claim no reserved seat. *)
Inductive reg_step (unreserved : bool) (r : SessionRegistry) : SessionRegistry → Prop :=
  | step_create n b sim : reg_step unreserved r (createRoom directory shardAddress n b sim r).1.1
  | step_join n h u :
      connectionRoom_ r !! h = None →
      (∀ rm, rooms_ r !! n = Some rm → pendingRemoval rm = false ∧
         (unreserved = true → u = "" ∨ seatReservations rm !! u = None)) →
      reg_step unreserved r (joinRoom n h u r).1
  | step_reserve n w b : reg_step unreserved r (reserveSeats n w b r)
  | step_leave h : reg_step unreserved r (leave directory h r).1.1
  | step_reap n : reg_step unreserved r (reapIfSafe directory n r).1
  | step_session n f : reg_step unreserved r (onRoom n (withSession f) r)
  | step_start n c u e : reg_step unreserved r (startDisconnectCountdown n c u e r)
  | step_expire id : reg_step unreserved r (timerExpire id r)
  | step_fire id : reg_step unreserved r (timerFire reconnectStore id r).1.1
  | step_cancel n c u : reg_step unreserved r (cancelDisconnectCountdown reconnectStore n c u r).1.1.

(** Seats of a room that nobody reserved: given out in order of arrival. *)
Record seats_ok (rm : Room) : Prop := {
  seats_count : 0 ≤ connectionCount rm;
  seats_first : connectionCount rm = 0 → roles rm = ∅;
  seats_second : connectionCount rm ≤ 1 → ∀ h, roles rm !! h ≠ Some Black;
  seats_unique : ∀ h1 h2 c, c ≠ NoColor → roles rm !! h1 = Some c → roles rm !! h2 = Some c → h1 = h2
}.

Record registry_ok (unreserved : bool) (r : SessionRegistry) : Prop := {
  reg_agree : ∀ h n, connectionRoom_ r !! h = Some n ↔
    ∃ rm, rooms_ r !! n = Some rm ∧ is_Some (roles rm !! h);
  reg_removal : ∀ n rm, rooms_ r !! n = Some rm → pendingRemoval rm = true → roles rm = ∅;
  reg_seats : unreserved = true → ∀ n rm, rooms_ r !! n = Some rm → seats_ok rm
}.

(** Two rooms with the same people in the same seats. *)
Definition same_people (rm rm' : Room) : Prop :=
  roles rm' = roles rm ∧ connectionCount rm' = connectionCount rm ∧ pendingRemoval rm' = pendingRemoval rm.

Lemma seats_ok_same rm rm' : same_people rm rm' → seats_ok rm → seats_ok rm'.
Proof. intros (E1 & E2 & _) []. by split; rewrite ?E1, ?E2. Qed.

Lemma registry_ok_same u r n rm rm' ts k :
  registry_ok u r → rooms_ r !! n = Some rm → same_people rm rm' →
  registry_ok u (mkRegistry (<[n := rm']> (rooms_ r)) (connectionRoom_ r) ts k).
Proof.
  intros [Ha Hr Hs] Hn Hsame. pose proof Hsame as (E1 & E2 & E3). split; simpl.
  - intros h m. rewrite Ha. destruct (decide (m = n)) as [->|Hne].
    + rewrite lookup_insert_eq, Hn. split; intros (x & [= <-] & Hx); eexists; (split; [done|]); congruence.
    + by rewrite lookup_insert_ne.
  - intros m x. destruct (decide (m = n)) as [->|Hne].
    + rewrite lookup_insert_eq. intros [= <-]. rewrite E1, E3. by apply Hr with n.
    + rewrite lookup_insert_ne by done. apply Hr.
  - intros Hu m x. destruct (decide (m = n)) as [->|Hne].
    + rewrite lookup_insert_eq. intros [= <-]. eapply seats_ok_same; [done|by eapply Hs].
    + rewrite lookup_insert_ne by done. by apply Hs.
Qed.

Lemma registry_ok_timers u r ts k : registry_ok u r → registry_ok u (mkRegistry (rooms_ r) (connectionRoom_ r) ts k).
Proof. by intros []. Qed.

Lemma registry_ok_onRoom u r n f :
  (∀ rm, same_people rm (f rm)) → registry_ok u r → registry_ok u (onRoom n f r).
Proof.
  intros Hf Hr. unfold onRoom, setRooms. destruct (rooms_ r !! n) as [rm|] eqn:Hn.
  - replace (alter f n (rooms_ r)) with (<[n := f rm]> (rooms_ r)); [by eapply registry_ok_same|].
    apply map_eq. intros m. destruct (decide (m = n)) as [->|].
    + by rewrite lookup_insert_eq, lookup_alter_eq, Hn.
    + by rewrite lookup_insert_ne, lookup_alter_ne.
  - replace (alter f n (rooms_ r)) with (rooms_ r); [by apply registry_ok_timers|].
    apply map_eq. intros m. destruct (decide (m = n)) as [->|].
    + by rewrite lookup_alter_eq, Hn.
    + by rewrite lookup_alter_ne.
Qed.

Lemma registry_ok_erase u r n rm :
  registry_ok u r → rooms_ r !! n = Some rm → roles rm = ∅ → registry_ok u (eraseRoom directory n r).1.
Proof.
  intros [Ha Hr Hs] Hn He. unfold eraseRoom, setRooms; simpl. split; simpl.
  - intros h m. rewrite Ha. destruct (decide (m = n)) as [->|Hne].
    + rewrite lookup_delete_eq, Hn. split; [|naive_solver]. intros (x & [= <-] & [c Hx]).
      by rewrite He, lookup_empty in Hx.
    + by rewrite lookup_delete_ne.
  - intros m x [_ Hx]%lookup_delete_Some. by apply Hr with m.
  - intros Hu m x [_ Hx]%lookup_delete_Some. by apply (Hs Hu m).
Qed.

Lemma registry_ok_create u r n b sim :
  registry_ok u r → registry_ok u (createRoom directory shardAddress n b sim r).1.1.
Proof.
  intros [Ha Hr Hs]. unfold createRoom. destruct (rooms_ r !! n) as [rm|] eqn:Hn; [done|].
  simpl. split; simpl.
  - intros h m. rewrite Ha. destruct (decide (m = n)) as [->|Hne].
    + rewrite lookup_insert_eq, Hn. split; [naive_solver|]. intros (x & [= <-] & [c Hx]). done.
    + by rewrite lookup_insert_ne.
  - intros m x [[<- <-]|[_ Hx]]%lookup_insert_Some; [done|]. by apply Hr with m.
  - intros Hu m x [[<- <-]|[_ Hx]]%lookup_insert_Some; [|by apply (Hs Hu m)]. by split; simpl.
Qed.

Lemma seats_ok_join rm h u :
  seats_ok rm → roles rm !! h = None → u = "" ∨ seatReservations rm !! u = None →
  seats_ok (mkRoom (session rm) (<[h := joinRole u (mkRoom (session rm) (roles rm) (connectionCount rm + 1)
    (seatReservations rm) (pendingRemoval rm) (pendingDisconnects rm))]> (roles rm)) (connectionCount rm + 1)
    (seatReservations rm) (pendingRemoval rm) (pendingDisconnects rm)).
Proof.
  intros [Hc Hf Hse Hun] Hh Hu. set (role := joinRole _ _).
  assert (role = if connectionCount rm =? 0 then White else if connectionCount rm =? 1 then Black else NoColor) as Hrole.
  { unfold role, joinRole; simpl.
    replace (if String.eqb u "" then None else seatReservations rm !! u) with (@None Color)
      by (destruct Hu as [->| ->]; [done|by destruct (String.eqb u "")]).
    destruct (Z.eqb_spec (connectionCount rm + 1) 1), (Z.eqb_spec (connectionCount rm) 0),
      (Z.eqb_spec (connectionCount rm + 1) 2), (Z.eqb_spec (connectionCount rm) 1); try done; lia. }
  split; simpl; [lia|lia| |].
  - intros Hle h'. assert (connectionCount rm = 0) as Hz by lia. rewrite Hrole, Hz. simpl.
    rewrite (Hf Hz). rewrite lookup_insert_Some. rewrite lookup_empty. naive_solver.
  - assert (∀ h', roles rm !! h' = Some role → role = NoColor) as Hnew.
    { intros h' Hh'. rewrite Hrole in Hh' |- *. destruct (Z.eqb_spec (connectionCount rm) 0) as [Hz|].
      - by rewrite (Hf Hz), lookup_empty in Hh'.
      - destruct (Z.eqb_spec (connectionCount rm) 1) as [Hone|]; [|done].
        exfalso. by apply (Hse ltac:(lia) h'). }
    intros h1 h2 c Hcn. rewrite !lookup_insert_Some.
    intros [[<- <-]|[? G1]] [[<- G2]|[? G2]]; try done; [|subst|by eapply Hun].
    + exfalso. by eapply Hcn, Hnew.
    + exfalso. by eapply Hcn, Hnew.
Qed.

Lemma registry_ok_join u r n h us :
  registry_ok u r → connectionRoom_ r !! h = None →
  (∀ rm, rooms_ r !! n = Some rm → pendingRemoval rm = false ∧
     (u = true → us = "" ∨ seatReservations rm !! us = None)) →
  registry_ok u (joinRoom n h us r).1.
Proof.
  intros [Ha Hr Hs] Hh Hrm. unfold joinRoom. destruct (rooms_ r !! n) as [rm|] eqn:Hn; [|done].
  destruct (Hrm rm eq_refl) as [Hpr Hres]. cbv zeta. simpl.
  assert (roles rm !! h = None) as Hnone.
  { destruct (roles rm !! h) eqn:E; [|done]. exfalso.
    assert (connectionRoom_ r !! h = Some n) by (apply Ha; eauto). congruence. }
  split; simpl.
  - intros h' m. destruct (decide (h' = h)) as [->|Hhne].
    + rewrite lookup_insert_eq. destruct (decide (m = n)) as [->|Hne].
      * rewrite lookup_insert_eq. split; [|done]. intros _. eexists. split; [done|]. simpl. by rewrite lookup_insert_eq.
      * rewrite lookup_insert_ne by done. split; [congruence|]. intros (x & Hx & Hx').
        assert (connectionRoom_ r !! h = Some m) by (apply Ha; eauto). congruence.
    + rewrite lookup_insert_ne by done. rewrite Ha. destruct (decide (m = n)) as [->|Hne].
      * rewrite lookup_insert_eq, Hn. split; intros (x & [= <-] & Hx); eexists; (split; [done|]); simpl in *.
        -- by rewrite lookup_insert_ne.
        -- by rewrite lookup_insert_ne in Hx.
      * by rewrite lookup_insert_ne.
  - intros m x [[<- <-]|[_ Hx]]%lookup_insert_Some; simpl; [congruence|]. by apply Hr with m.
  - intros Hu m x [[<- <-]|[_ Hx]]%lookup_insert_Some; [|by apply (Hs Hu m)].
    apply seats_ok_join; [by apply (Hs Hu n)|done|by apply Hres].
Qed.

Lemma seats_ok_leave rm rm' h :
  seats_ok rm → roles rm' = delete h (roles rm) → connectionCount rm' = connectionCount rm → seats_ok rm'.
Proof.
  intros [Hc Hf Hse Hun] Hr Hcc. split; rewrite ?Hcc, ?Hr; [done| | |].
  - intros Hz. by rewrite (Hf Hz), delete_empty.
  - intros Hle h'. rewrite lookup_delete_Some. intros [_ ?]. by apply (Hse Hle h').
  - intros h1 h2 c Hcn. rewrite !lookup_delete_Some. intros [_ ?] [_ ?]. by eapply Hun.
Qed.

(** The maps after a connection left room [n], which keeps the others. *)
Lemma registry_ok_leave_room u r h n rm rm' ts k :
  registry_ok u r → connectionRoom_ r !! h = Some n → rooms_ r !! n = Some rm →
  roles rm' = delete h (roles rm) → connectionCount rm' = connectionCount rm →
  (pendingRemoval rm' = true → roles rm' = ∅) →
  registry_ok u (mkRegistry (<[n := rm']> (rooms_ r)) (delete h (connectionRoom_ r)) ts k).
Proof.
  intros [Ha Hr Hs] Hh Hn Hrl Hcc Hp. split; simpl.
  - intros h' m. rewrite lookup_delete_Some, Ha. destruct (decide (m = n)) as [->|Hne].
    + rewrite lookup_insert_eq, Hn. split.
      * intros (Hhne & x & [= <-] & Hx). eexists. split; [done|]. by rewrite Hrl, lookup_delete_ne.
      * intros (x & [= <-] & Hx). rewrite Hrl in Hx. destruct (decide (h = h')) as [->|Hhne].
        -- rewrite lookup_delete_eq in Hx. by destruct Hx.
        -- rewrite lookup_delete_ne in Hx by done. eauto.
    + rewrite lookup_insert_ne by done. split; [naive_solver|]. intros Hx. split; [|done].
      intros ->. apply Ha in Hx. congruence.
  - intros m x [[<- <-]|[_ Hx]]%lookup_insert_Some; [done|]. by apply Hr with m.
  - intros Hu m x [[<- <-]|[_ Hx]]%lookup_insert_Some; [|by apply (Hs Hu m)].
    eapply seats_ok_leave; [by apply (Hs Hu n)|done..].
Qed.

Lemma registry_ok_leave u r h : registry_ok u r → registry_ok u (leave directory h r).1.1.
Proof.
  intros Hok. pose proof Hok as [Ha Hr Hs]. unfold leave.
  destruct (connectionRoom_ r !! h) as [n|] eqn:Hh; [|done].
  pose proof (proj1 (Ha h n) Hh) as (rm & Hn & [c Hc]). rewrite Hn.
  cbn [roles session pendingRemoval pendingDisconnects seatReservations connectionCount].
  destruct (decide (delete h (roles rm) = ∅)) as [He|He].
  - destruct (tickInFlight (session rm)); cbn [fst].
    + unfold setRooms; simpl. by eapply registry_ok_leave_room.
    + set (rm' := mkRoom (session rm) (delete h (roles rm)) (connectionCount rm) (seatReservations rm)
        (pendingRemoval rm) (pendingDisconnects rm)).
      pose proof (registry_ok_leave_room u r h n rm rm' (timers r) (nextTimer r) Hok Hh Hn eq_refl eq_refl ltac:(done)) as Hok'.
      apply (registry_ok_erase _ _ n rm') in Hok'; [|by simpl; rewrite lookup_insert_eq|done].
      unfold eraseRoom, setRooms in Hok' |- *; simpl in *. by rewrite delete_insert_eq in Hok'.
  - unfold setRooms; simpl. eapply registry_ok_leave_room; try done. simpl. intros Hp.
    by rewrite (Hr n rm Hn Hp), delete_empty in He.
Qed.

Lemma same_people_refl rm : same_people rm rm.
Proof. done. Qed.

Lemma registry_ok_step u r r' : reg_step u r r' → registry_ok u r → registry_ok u r'.
Proof.
  intros Hstep Hok. destruct Hstep as [n b sim|n h us Hh Hrm|n w b|h|n|n f|n c us e|id|id|n c us].
  - by apply registry_ok_create.
  - by apply registry_ok_join.
  - by apply registry_ok_onRoom.
  - by apply registry_ok_leave.
  - unfold reapIfSafe. destruct (rooms_ r !! n) as [rm|] eqn:Hn; [|done].
    destruct (pendingRemoval rm && _) eqn:Hp; [|done]. apply andb_true_iff in Hp as [Hp _].
    eapply registry_ok_erase; [done..|]. by apply (reg_removal _ _ Hok n).
  - by apply registry_ok_onRoom.
  - unfold startDisconnectCountdown. destruct (rooms_ r !! n) as [rm|] eqn:Hn; [|done].
    by eapply registry_ok_same.
  - by apply registry_ok_timers.
  - unfold timerFire. destruct (timers r !! id) as [c|]; [|done]. destruct (queued c); [|done]. simpl.
    destruct (rooms_ r !! cd_room c) as [rm|] eqn:Hn; [|by apply registry_ok_timers].
    destruct (remaining c <=? 0).
    + destruct (markDisconnectResign _ _ _ _) as [[s outs] exn]. cbn [fst].
      unfold setRooms; simpl. rewrite insert_insert_eq. by eapply registry_ok_same.
    + unfold setTimers, setRooms; simpl. by eapply registry_ok_same.
  - unfold cancelDisconnectCountdown. destruct (rooms_ r !! n) as [rm|] eqn:Hn; [|done].
    destruct (pendingDisconnects rm !! c) as [pd|]; [|done]. destruct (negb _); [done|].
    by eapply registry_ok_same.
Qed.

Lemma registry_ok_reachable u r : rtc (reg_step u) newRegistry r → registry_ok u r.
Proof.
  intros Hr. assert (registry_ok u newRegistry) as H0'.
  { split; simpl; [|by intros n rm; rewrite lookup_empty..].
    intros h n. rewrite lookup_empty. split; [done|]. intros (rm & Hx & _). by rewrite lookup_empty in Hx. }
  revert H0'. induction Hr as [|r1 r2 r3 Hs _ IH]; intros Hok; [done|].
  by eapply IH, registry_ok_step.
Qed.

(** C12 The registry never loses track of anyone: however rooms are created,
    joined, left, ticked, reserved and removed, the connections a room sends to
    are exactly those whose room it is, and a room is only ever removed when
    nobody is in it — as long as a connection joins one room at a time and
    never a room that is waiting to be removed. *)
Theorem registry_consistent u r :
  rtc (reg_step u) newRegistry r →
  (∀ n h, h ∈ connectionsInRoom n r ↔ roomOf h r = Some n) ∧
  (∀ h n, roomOf h r = Some n → roomExists n r = true) ∧
  (∀ r' h n, reg_step u r r' → roomOf h r' = Some n → roomExists n r' = true).
Proof.
  intros Hr. pose proof (registry_ok_reachable _ _ Hr) as Hok.
  assert (∀ r h n, registry_ok u r → roomOf h r = Some n → roomExists n r = true) as Hex.
  { intros r' h n [Ha _ _] Hh. apply Ha in Hh as (rm & Hn & _). unfold roomExists.
    by rewrite Hn. }
  split_and!.
  - intros n h. unfold connectionsInRoom, roomOf. rewrite (reg_agree _ _ Hok).
    destruct (rooms_ r !! n) as [rm|]; [|split; [by intros ?%elem_of_nil|naive_solver]].
    rewrite list_elem_of_fmap. split.
    + intros ([h' c] & -> & Hin%elem_of_hash_iter). eauto.
    + intros (x & [= <-] & [c Hc]). exists (h, c). split; [done|]. by apply elem_of_hash_iter.
  - intros h n. by apply Hex.
  - intros r' h n Hs. apply Hex. by eapply registry_ok_step.
Qed.

(** C33 In a room whose seats nobody reserved, White and Black each belong to at
    most one connection, whoever leaves and joins afterwards; the first to
    arrive is White, the second Black, everyone else watches. *)
Theorem seats_given_once r n rm :
  rtc (reg_step true) newRegistry r → rooms_ r !! n = Some rm →
  (∀ h1 h2 c, c ≠ NoColor → roles rm !! h1 = Some c → roles rm !! h2 = Some c → h1 = h2) ∧
  ∀ h, roomOf h r = None → pendingRemoval rm = false →
    roleOf h (joinRoom n h "" r).1 =
      (if connectionCount rm =? 0 then White else if connectionCount rm =? 1 then Black else NoColor).
Proof.
  intros Hr Hn. pose proof (registry_ok_reachable _ _ Hr) as Hok.
  destruct (reg_seats _ _ Hok eq_refl n rm Hn) as [Hc _ _ Hun]. split; [done|].
  intros h Hh Hp. unfold joinRoom. rewrite Hn. unfold roleOf; simpl.
  rewrite !lookup_insert_eq. simpl. rewrite lookup_insert_eq. simpl. unfold joinRole; simpl.
  destruct (Z.eqb_spec (connectionCount rm + 1) 1), (Z.eqb_spec (connectionCount rm) 0),
    (Z.eqb_spec (connectionCount rm + 1) 2), (Z.eqb_spec (connectionCount rm) 1); done || lia.
Qed.

(** ** Disconnect countdowns *)

(** [k] expiries of a timer, each with its handler right after it. *)
Definition fires (k : nat) (id : Z) (r : SessionRegistry) : SessionRegistry :=
  Nat.iter k (λ r, (timerFire reconnectStore id (timerExpire id r)).1.1) r.

(** The status a room shows after [k] expiries of a countdown for [c]. *)
Definition statusAfter (k : nat) (c : Color) (s : GameSession) : GameSession :=
  match k with
  | O => s
  | S k => setDisconnectStatus (mkDisconnect true c (kDisconnectGraceSeconds - Z.of_nat k)) s
  end.

Definition countingRoom (k : nat) (c : Color) (u : string) (id : Z) (rm : Room) : Room :=
  mkRoom (statusAfter k c (session rm)) (roles rm) (connectionCount rm) (<[u := c]> (seatReservations rm))
    (pendingRemoval rm) (<[c := mkPendingDisconnect u id]> (pendingDisconnects rm)).

Definition counting (k : nat) (n : string) (c : Color) (u : string) (e : Z) (rm : Room) (r : SessionRegistry)
    : SessionRegistry :=
  let id := nextTimer r in
  mkRegistry (<[n := countingRoom k c u id rm]> (rooms_ r)) (connectionRoom_ r)
    (<[id := mkCountdown n c u e (kDisconnectGraceSeconds - Z.of_nat k) false]> (timers r)) (id + 1).

Lemma rearmed {A} (f : A → A) i x y (m : gmap Z A) : <[i := x]> (delete i (alter f i (<[i := y]> m))) = <[i := x]> m.
Proof.
  apply map_eq. intros j. destruct (decide (i = j)) as [<-|Hj]; [by rewrite !lookup_insert_eq|].
  by rewrite !lookup_insert_ne, lookup_delete_ne, lookup_alter_ne, lookup_insert_ne.
Qed.

Lemma counting_fire k n c u e rm r :
  (k < 20)%nat →
  (timerFire reconnectStore (nextTimer r) (timerExpire (nextTimer r) (counting k n c u e rm r))).1.1 =
    counting (S k) n c u e rm r.
Proof.
  intros Hk. unfold timerFire, timerExpire, counting; simpl. rewrite lookup_alter_eq, lookup_insert_eq. simpl.
  rewrite lookup_insert_eq. simpl.
  destruct (Z.leb_spec (kDisconnectGraceSeconds - Z.of_nat k) 0) as [Hle|_];
    [unfold kDisconnectGraceSeconds in Hle; lia|].
  simpl. unfold setTimers, setRooms; simpl. rewrite insert_insert_eq, rearmed. f_equal.
  - f_equal. unfold withSession, countingRoom; simpl. f_equal. by destruct k.
  - f_equal. f_equal. lia.
Qed.

Lemma fires_counting k n c u e rm r :
  rooms_ r !! n = Some rm → (k ≤ 20)%nat →
  fires k (nextTimer r) (startDisconnectCountdown n c u e r) = counting k n c u e rm r.
Proof.
  intros Hn Hk. induction k as [|k IH].
  - unfold fires, startDisconnectCountdown; simpl. rewrite Hn. unfold counting, countingRoom; simpl. do 3 f_equal.
  - unfold fires in *. rewrite Nat.iter_succ, IH by lia. apply counting_fire. lia.
Qed.

(** A player who does not come back resigns after twenty seconds: the
    twenty-first expiry frees the reserved seat, ends the countdown, and, unless
    the game has ended already, publishes a result that decodes to a win of the
    other colour by disconnect against the captured name. *)
Theorem countdown_expires n c u e rm r :
  rooms_ r !! n = Some rm → c ≠ NoColor → int_range e → roomName_ (session rm) = n →
  int_range (id_whiteElo (identity_ (session rm))) → int_range (id_blackElo (identity_ (session rm))) →
  let id := nextTimer r in
  let '(r', outs, exn) := timerFire reconnectStore id (timerExpire id (fires 20 id (startDisconnectCountdown n c u e r))) in
  exn = None ∧ timers r' !! id = None ∧
  (∃ rm', rooms_ r' !! n = Some rm' ∧ seatReservations rm' !! u = None ∧ pendingDisconnects rm' !! c = None ∧
     roles rm' = roles rm) ∧
  (gameResultPublished_ (session rm) = false → gs_over (snapshot (engine_ (session rm))) = false →
   ∃ data res, last outs = Some (Session (Publish (gameEndedTopic n) data)) ∧ ResultCodec.decode data = Ok res ∧
     gr_winner res = (if colorEqb c White then Black else White) ∧ gr_reason res = Disconnect ∧
     loserUsername res = u ∧ loserElo res = e).
Proof.
  intros Hn Hc He Hname Hw Hb id. unfold id. rewrite (fires_counting _ _ _ _ _ rm) by (done || lia).
  unfold timerFire, timerExpire, counting; simpl. rewrite lookup_alter_eq, lookup_insert_eq. simpl.
  rewrite lookup_insert_eq. simpl.
  match goal with |- context [markDisconnectResign c u e ?x] => set (s := x) end.
  destruct (markDisconnectResign c u e s) as [[s' outs] exn] eqn:Hm.
  assert (exn = None ∧ (gameResultPublished_ (session rm) = false → gs_over (snapshot (engine_ (session rm))) = false →
    ∃ data res, outs = [Publish (gameEndedTopic n) data] ∧ ResultCodec.decode data = Ok res ∧
     gr_winner res = (if colorEqb c White then Black else White) ∧ gr_reason res = Disconnect ∧
     loserUsername res = u ∧ loserElo res = e)) as [Hexn Hout].
  { unfold markDisconnectResign in Hm. cbn [gameResultPublished_ engine_ s setDisconnectStatus] in Hm.
    destruct (_ || _) eqn:Hg in Hm.
    - injection Hm as <- <- <-. split; [done|]. intros Hp Ho. simpl in Hg, Ho. by rewrite Hp, Ho in Hg.
    - unfold publishGameEnded in Hm. set (res := mkGameResult _ _ _ _ _ _ _) in Hm.
      destruct (gameResult_encodes res) as (data & Hd & Hdec).
      { simpl. by destruct (negb _). }
      { simpl. by destruct (negb _). }
      { done. }
      rewrite Hd in Hm. injection Hm as <- <- <-. split; [done|]. intros _ _. exists data, res.
      simpl. rewrite Hname. split_and!; try done. by destruct (colorEqb c White). }
  split_and!; [done| |eexists; split_and!|].
  - unfold setRooms, setTimers; cbn [timers]. by rewrite lookup_delete_eq.
  - unfold setRooms; cbn [rooms_]. by rewrite lookup_insert_eq.
  - simpl. by rewrite lookup_delete_eq.
  - simpl. by rewrite lookup_delete_eq.
  - done.
  - intros Hp Ho. destruct (Hout Hp Ho) as (data & res & -> & ?). exists data, res.
    split; [|done]. simpl. by rewrite app_assoc, last_snoc.
Qed.
End Contract.
