(* ===== verification/Reconnect.v ===== *)
(** * A player who disconnects and comes back

    The operations of the registry as a type, so that a countdown can be followed
    through whatever else happens on the shard: the other player, other rooms,
    other countdowns, ticks, arrivals. *)
From S2P Require Import Prelude Model Text Double Rules Motion Arbiter ArbiterSteps Lifecycle Engine EngineSpec EngineTheorems Json Observers Codecs Session SessionTheorems Registry RegistryTheorems.

(** An operation of the registry. *)
Inductive RegOp :=
  | OpCreate (n : string) (b : Board) (sim : bool)
  | OpJoin (n : string) (h : hdl) (u : string)
  | OpReserve (n w b : string)
  | OpLeave (h : hdl)
  | OpReap (n : string)
  | OpSession (n : string) (f : GameSession → GameSession)
  | OpStart (n : string) (c : Color) (u : string) (e : Z)
  | OpExpire (id : Z)
  | OpFire (id : Z)
  | OpCancel (n : string) (c : Color) (u : string).

Section Reconnect.
Context `{HashIter} `{JsonText}.
Variable directory : bool.
Variable shardAddress : string.
Variable reconnectStore : bool.

Definition regOp (o : RegOp) (r : SessionRegistry) : SessionRegistry :=
  match o with
  | OpCreate n b sim => (createRoom directory shardAddress n b sim r).1.1
  | OpJoin n h u => (joinRoom n h u r).1
  | OpReserve n w b => reserveSeats n w b r
  | OpLeave h => (leave directory h r).1.1
  | OpReap n => (reapIfSafe directory n r).1
  | OpSession n f => onRoom n (withSession f) r
  | OpStart n c u e => startDisconnectCountdown n c u e r
  | OpExpire id => timerExpire id r
  | OpFire id => (timerFire reconnectStore id r).1.1
  | OpCancel n c u => (cancelDisconnectCountdown reconnectStore n c u r).1.1
  end.
Definition regOps (os : list RegOp) (r : SessionRegistry) : SessionRegistry := foldl (λ r o, regOp o r) r os.

(** ** What an operation does to one room *)

(** The seats held for absent players. *)
Definition held (rm : Room) : gmap string Color * gmap Color PendingDisconnect := (seatReservations rm, pendingDisconnects rm).

(** What the operation [o], run in [r], does to what is held in the room [n],
    which exists before and after. *)
Definition holdAfter (o : RegOp) (r : SessionRegistry) (n : string)
    (x : gmap string Color * gmap Color PendingDisconnect) : gmap string Color * gmap Color PendingDisconnect :=
  match o with
  | OpReserve m w b => if String.eqb m n then (<[b := Black]> (<[w := White]> x.1), x.2) else x
  | OpStart m c u _ => if String.eqb m n then (<[u := c]> x.1, <[c := mkPendingDisconnect u (nextTimer r)]> x.2) else x
  | OpFire id =>
    match timers r !! id with
    | Some cd => if queued cd && String.eqb (cd_room cd) n && (remaining cd <=? 0)
                 then (delete (cd_username cd) x.1, delete (cd_color cd) x.2) else x
    | None => x
    end
  | OpCancel m c u =>
    match x.2 !! c with
    | Some pd => if String.eqb m n && String.eqb (pd_username pd) u then (x.1, delete c x.2) else x
    | None => x
    end
  | _ => x
  end.

(** One room is written; the others stay. *)
Lemma insert_held (rs : gmap string Room) n m x y g rm' :
  <[m := y]> rs !! n = Some rm' → rs !! m = Some x → (m = n → held y = g (held x)) → (m ≠ n → ∀ z, g z = z) →
  ∃ rm, rs !! n = Some rm ∧ held rm' = g (held rm).
Proof.
  intros Hn Hx Hy Hg. revert Hn. rewrite lookup_insert. case_decide as Hm; [intros [= <-]; subst m; eauto|].
  intros Hn. exists rm'. by rewrite Hg.
Qed.

Lemma alter_held (rs : gmap string Room) n m f g rm' :
  alter f m rs !! n = Some rm' → (∀ x, m = n → held (f x) = g (held x)) → (m ≠ n → ∀ z, g z = z) →
  ∃ rm, rs !! n = Some rm ∧ held rm' = g (held rm).
Proof.
  intros Hn Hf Hg. revert Hn. rewrite lookup_alter_Some. intros [(<- & x & Hx & ->)|[Hm Hn]]; [eauto|].
  exists rm'. by rewrite Hg.
Qed.

Lemma eqb_other {A} (m n : string) (x y : A) : m ≠ n → (if String.eqb m n then x else y) = y.
Proof. by intros ->%String.eqb_neq. Qed.

(** The rooms after an operation. *)
Lemma rooms_after o r n rm' :
  rooms_ (regOp o r) !! n = Some rm' →
  (∃ rm, rooms_ r !! n = Some rm ∧ held rm' = holdAfter o r n (held rm)) ∨ (rooms_ r !! n = None ∧ held rm' = (∅, ∅)).
Proof.
  destruct o as [m b sim|m h u|m w b|h|m|m f|m c u e|id|id|m c u]; cbn [regOp holdAfter].
  - unfold createRoom. destruct (rooms_ r !! m) as [rm|] eqn:Hm; cbn [fst rooms_ setRooms]; [left; eauto|].
    rewrite lookup_insert. case_decide as Hmn; [intros [= <-]; subst m; by right|left; eauto].
  - unfold joinRoom. destruct (rooms_ r !! m) as [rm|] eqn:Hm; [|left; eauto]. cbv zeta. cbn [fst rooms_].
    intros Hn. left. by eapply (insert_held _ _ _ _ _ (λ z, z)).
  - unfold reserveSeats, onRoom. cbn [rooms_ setRooms]. intros Hn. left. eapply (alter_held _ _ _ _ (λ x, if String.eqb m n then (<[b := Black]> (<[w := White]> x.1), x.2) else x));
      [done|intros x ->; by rewrite String.eqb_refl|by intros; apply eqb_other].
  - unfold leave. destruct (connectionRoom_ r !! h) as [m|]; [|left; eauto].
    destruct (rooms_ r !! m) as [rm|] eqn:Hm; [|left; eauto]. cbn [roles session].
    destruct (decide _); [destruct (tickInFlight _)|]; cbn [fst rooms_ setRooms eraseRoom]; intros Hn; left.
    + by eapply (insert_held _ _ _ _ _ (λ z, z)).
    + apply lookup_delete_Some in Hn as [_ Hn]. eauto.
    + by eapply (insert_held _ _ _ _ _ (λ z, z)).
  - unfold reapIfSafe. destruct (rooms_ r !! m) as [rm|] eqn:Hm; [|left; eauto].
    destruct (_ && _); cbn [fst rooms_ setRooms eraseRoom]; [|left; eauto].
    intros [_ Hn]%lookup_delete_Some. left. eauto.
  - unfold onRoom. cbn [rooms_ setRooms]. intros Hn. left. by eapply (alter_held _ _ _ _ (λ z, z)).
  - unfold startDisconnectCountdown. destruct (rooms_ r !! m) as [rm|] eqn:Hm; cbn [rooms_]; intros Hn; left.
    + eapply (insert_held _ _ _ _ _ (λ x, if String.eqb m n then (<[u := c]> x.1, <[c := mkPendingDisconnect u (nextTimer r)]> x.2) else x));
        [done..|intros ->; by rewrite String.eqb_refl|by intros; apply eqb_other].
    + exists rm'. rewrite eqb_other; [done|congruence].
  - left. eauto.
  - unfold timerFire. destruct (timers r !! id) as [cd|]; [|left; eauto]. destruct (queued cd); [|left; eauto]. cbn [negb andb].
    cbn zeta. cbn [rooms_ setTimers]. destruct (rooms_ r !! cd_room cd) as [rm|] eqn:Hm.
    2: { cbn [fst rooms_ setTimers]. intros Hn. left. exists rm'. rewrite (proj2 (String.eqb_neq (cd_room cd) n)); [done|congruence]. }
    destruct (remaining cd <=? 0).
    + destruct (markDisconnectResign _ _ _ _) as [[s outs] exn]. cbn [fst rooms_ setRooms setTimers].
      rewrite insert_insert_eq. intros Hn. left. rewrite andb_true_r.
      eapply (insert_held _ _ _ _ _ (λ x, if String.eqb (cd_room cd) n then (delete (cd_username cd) x.1, delete (cd_color cd) x.2) else x));
        [done..|intros ->; by rewrite String.eqb_refl|by intros; apply eqb_other].
    + cbn [fst rooms_ setRooms setTimers]. intros Hn. left. rewrite andb_false_r.
      by eapply (insert_held _ _ _ _ _ (λ z, z)).
  - assert (∀ z : gmap string Color * gmap Color PendingDisconnect, (∀ pd, m = n → z.2 !! c = Some pd → pd_username pd ≠ u) →
      match z.2 !! c with
      | Some pd => if String.eqb m n && String.eqb (pd_username pd) u then (z.1, delete c z.2) else z | None => z
      end = z) as Hkeep.
    { intros z Hz. destruct (z.2 !! c) as [pd|]; [|done]. destruct (String.eqb_spec m n) as [Hm|]; [|done].
      simpl. destruct (String.eqb_spec (pd_username pd) u); [|done]. by destruct (Hz pd Hm eq_refl). }
    unfold cancelDisconnectCountdown. destruct (rooms_ r !! m) as [rm|] eqn:Hm.
    2: { intros Hn. left. exists rm'. rewrite Hkeep; [done|]. intros pd ->. simpl in Hn. by rewrite Hm in Hn. }
    destruct (pendingDisconnects rm !! c) as [pd|] eqn:Hpd.
    2: { intros Hn. left. exists rm'. rewrite Hkeep; [done|]. intros pd -> Hc. simpl in Hn, Hc.
         rewrite Hm in Hn. injection Hn as ->. by rewrite Hpd in Hc. }
    destruct (String.eqb (pd_username pd) u) eqn:Hu; cbn [negb fst rooms_].
    + intros Hn. left. eapply (insert_held _ _ _ _ _ (λ x, match x.2 !! c with
        | Some pd => if String.eqb m n && String.eqb (pd_username pd) u then (x.1, delete c x.2) else x | None => x end));
        [done..| |].
      * intros ->. unfold held. simpl. by rewrite Hpd, String.eqb_refl, Hu.
      * intros Hne z. by apply Hkeep.
    + intros Hn. left. exists rm'. rewrite Hkeep; [done|]. intros pd' -> Hc. simpl in Hn, Hc.
      rewrite Hm in Hn. injection Hn as ->. rewrite Hpd in Hc. injection Hc as ->. by apply String.eqb_neq.
Qed.

(** The timers after an operation. *)
Definition countdownOf (cd : Countdown) : string * Color * string * Z := (cd_room cd, cd_color cd, cd_username cd, cd_elo cd).

Lemma timers_after o r id cd :
  timers (regOp o r) !! id = Some cd →
  (∃ cd0, timers r !! id = Some cd0 ∧ countdownOf cd = countdownOf cd0) ∨
  (id = nextTimer r ∧ nextTimer (regOp o r) = nextTimer r + 1 ∧
   ∃ n c u e, o = OpStart n c u e ∧ cd = mkCountdown n c u e kDisconnectGraceSeconds false).
Proof.
  assert (∀ i f, (∀ x, countdownOf (f x) = countdownOf x) → alter f i (timers r) !! id = Some cd →
    ∃ cd0, timers r !! id = Some cd0 ∧ countdownOf cd = countdownOf cd0) as Halt.
  { intros i f Hf. rewrite lookup_alter_Some. intros [(<- & x & Hx & ->)|[_ Hx]]; [exists x|exists cd]; by rewrite ?Hf. }
  destruct o as [m b sim|m h u|m w b|h|m|m f|m c u e|i|i|m c u]; cbn [regOp].
  - unfold createRoom. intros Hx. left. exists cd. by destruct (rooms_ r !! m).
  - unfold joinRoom. intros Hx. left. exists cd. by destruct (rooms_ r !! m).
  - left; eauto.
  - unfold leave. intros Hx. left. exists cd. split; [|done]. revert Hx.
    destruct (connectionRoom_ r !! h) as [m|]; [|done]. destruct (rooms_ r !! m) as [rm|]; [|done].
    cbn [roles session]. destruct (decide _); [destruct (tickInFlight _)|]; done.
  - unfold reapIfSafe. intros Hx. left. exists cd. split; [|done]. revert Hx.
    destruct (rooms_ r !! m); [|done]. by destruct (_ && _).
  - left; eauto.
  - unfold startDisconnectCountdown. case_match; [|left; eauto]. cbn [timers nextTimer].
    rewrite lookup_insert. case_decide as Hi; [|left; eauto]. intros [= <-]. right. eauto 10.
  - intros Hx. left. by eapply (Halt i enqueued).
  - unfold timerFire. destruct (timers r !! i) as [x|] eqn:Hx; [|left; eauto]. destruct (queued x); [|left; eauto].
    cbn [negb rooms_ setTimers]. cbn zeta. destruct (rooms_ r !! cd_room x).
    2: { cbn [fst timers setTimers]. intros [_ Hy]%lookup_delete_Some. left; eauto. }
    destruct (remaining x <=? 0).
    + destruct (markDisconnectResign _ _ _ _) as [[s outs] exn]. cbn [fst timers setTimers setRooms].
      intros [_ Hy]%lookup_delete_Some. left; eauto.
    + cbn [fst timers setTimers setRooms]. rewrite insert_delete_eq, lookup_insert. case_decide as Hi; [|left; eauto].
      intros [= <-]. subst i. left. exists x. done.
  - unfold cancelDisconnectCountdown. destruct (rooms_ r !! m); [|left; eauto].
    destruct (_ !! c) as [pd|]; [|left; eauto]. destruct (negb _); [left; eauto|]. cbn [fst timers]. unfold cancelTimer.
    intros Hy. left. exists cd. split; [|done]. repeat case_match; [done| |done]. by apply lookup_delete_Some in Hy as [_ ?].
Qed.

Lemma nextTimer_grows o r : nextTimer r ≤ nextTimer (regOp o r).
Proof.
  destruct o as [m b sim|m h u|m w b|h|m|m f|m c u e|i|i|m c u]; cbn [regOp]; try done.
  - unfold createRoom. by destruct (rooms_ r !! m).
  - unfold joinRoom. by destruct (rooms_ r !! m).
  - unfold leave. destruct (connectionRoom_ r !! h) as [m|]; [|done]. destruct (rooms_ r !! m) as [rm|]; [|done].
    cbn [roles session]. destruct (decide _); [destruct (tickInFlight _)|]; done.
  - unfold reapIfSafe. destruct (rooms_ r !! m); [|done]. by destruct (_ && _).
  - unfold startDisconnectCountdown. destruct (rooms_ r !! m); simpl; lia.
  - unfold timerFire. destruct (timers r !! i) as [x|]; [|done]. destruct (queued x); [|done]. simpl.
    destruct (rooms_ r !! cd_room x); [|done]. destruct (remaining x <=? 0); [|done].
    by destruct (markDisconnectResign _ _ _ _) as [[s outs] exn].
  - unfold cancelDisconnectCountdown. destruct (rooms_ r !! m); [|done]. destruct (_ !! c) as [pd|]; [|done].
    by destruct (negb _).
Qed.

(** A timer stays in place, unless its handler runs or its room cancels it. *)
Lemma timer_kept o r id cd :
  timers r !! id = Some cd → id < nextTimer r → o ≠ OpFire id →
  (∀ m c u rm pd, o = OpCancel m c u → rooms_ r !! m = Some rm → pendingDisconnects rm !! c = Some pd →
     pd_username pd = u → pd_timer pd ≠ id) →
  ∃ cd', timers (regOp o r) !! id = Some cd' ∧ countdownOf cd' = countdownOf cd ∧ remaining cd' = remaining cd.
Proof.
  intros Hid Hlt Hfire Hcancel.
  destruct o as [m b sim|m h u|m w b|h|m|m f|m c u e|i|i|m c u]; cbn [regOp]; try (by exists cd).
  - unfold createRoom. exists cd. by destruct (rooms_ r !! m).
  - unfold joinRoom. exists cd. by destruct (rooms_ r !! m).
  - unfold leave. exists cd. split; [|done]. destruct (connectionRoom_ r !! h) as [m|]; [|done].
    destruct (rooms_ r !! m) as [rm|]; [|done].
    cbn [roles session]. destruct (decide _); [destruct (tickInFlight _)|]; done.
  - unfold reapIfSafe. exists cd. split; [|done]. destruct (rooms_ r !! m); [|done]. by destruct (_ && _).
  - unfold startDisconnectCountdown. exists cd. destruct (rooms_ r !! m); [|done]. simpl.
    rewrite lookup_insert_ne by lia. done.
  - unfold timerExpire. simpl. rewrite lookup_alter. case_decide as Hi; [|by exists cd].
    subst i. exists (enqueued cd). split; [|done]. by apply fmap_Some_2.
  - assert (i ≠ id) as Hi by congruence. exists cd. split; [|done]. unfold timerFire.
    destruct (timers r !! i) as [x|]; [|done]. destruct (queued x); [|done]. cbn [negb rooms_ setTimers]. cbn zeta.
    destruct (rooms_ r !! cd_room x); [|simpl; by rewrite lookup_delete_ne]. destruct (remaining x <=? 0).
    + destruct (markDisconnectResign _ _ _ _) as [[s outs] exn]. simpl. by rewrite lookup_delete_ne.
    + simpl. by rewrite lookup_insert_ne, lookup_delete_ne.
  - exists cd. split; [|done]. unfold cancelDisconnectCountdown. destruct (rooms_ r !! m) as [rm|] eqn:Hm; [|done].
    destruct (_ !! c) as [pd|] eqn:Hpd; [|done]. destruct (String.eqb_spec (pd_username pd) u) as [Hu|]; [|done].
    simpl. unfold cancelTimer. specialize (Hcancel m c u rm pd eq_refl Hm Hpd Hu).
    destruct (_ !! pd_timer pd) as [y|]; [|done]. destruct (queued y); [done|]. by rewrite lookup_delete_ne.
Qed.

Lemma timer_gone os r id : timers r !! id = None → id < nextTimer r → timers (regOps os r) !! id = None.
Proof.
  revert r. induction os as [|o os IH]; intros r Hid Hlt; [done|]. simpl. apply IH.
  - destruct (timers (regOp o r) !! id) as [cd|] eqn:Hc; [|done].
    apply timers_after in Hc as [(cd0 & Hx & _)|[-> _]]; [congruence|lia].
  - pose proof (nextTimer_grows o r). lia.
Qed.

(** Every countdown a room knows of was started. *)
Definition started (r : SessionRegistry) : Prop :=
  ∀ n rm c pd, rooms_ r !! n = Some rm → (held rm).2 !! c = Some pd → pd_timer pd < nextTimer r.

Lemma pending_after o r n x c pd :
  (holdAfter o r n x).2 !! c = Some pd →
  x.2 !! c = Some pd ∨ (pd_timer pd = nextTimer r ∧ ∃ u e, o = OpStart n c u e).
Proof.
  destruct o as [m b sim|m h u|m w b|h|m|m f|m c' u e|i|i|m c' u]; cbn [holdAfter]; auto.
  - destruct (String.eqb m n); auto.
  - destruct (String.eqb_spec m n) as [->|]; [|auto]. cbn [snd].
    rewrite lookup_insert_Some. intros [[<- <-]|[_ Hx]]; eauto 10.
  - destruct (timers r !! i) as [y|]; [|auto]. destruct (_ && _); [|auto].
    cbn [snd]. rewrite lookup_delete_Some. intros [_ Hx]. auto.
  - destruct (x.2 !! c') as [y|]; [|auto]. destruct (_ && _); [|auto].
    cbn [snd]. rewrite lookup_delete_Some. intros [_ Hx]. auto.
Qed.

Lemma started_step o r : started r → started (regOp o r).
Proof.
  intros Hs n rm' c pd Hn. pose proof (nextTimer_grows o r) as Hle.
  pose proof (rooms_after o r n rm' Hn) as [(rm & Hrm & ->)|[_ ->]]; [|done].
  intros [Hx|[-> (u & e & ->)]]%pending_after; [specialize (Hs n rm c pd Hrm Hx); lia|].
  simpl. unfold startDisconnectCountdown. rewrite Hrm. simpl. lia.
Qed.

Lemma started_runs os : started (regOps os newRegistry).
Proof.
  assert (started newRegistry) as H0' by (intros n rm c pd Hx; simpl in Hx; by rewrite lookup_empty in Hx).
  revert H0'. generalize newRegistry. induction os as [|o os IH]; intros r Hr; [done|]. by apply IH, started_step.
Qed.

(** ** A countdown and everything else *)
Section Away.
(** [u], who plays [c] in the room [n], is away; [id] is the timer. *)
Variables (n : string) (c : Color) (u : string) (id : Z).

(** The operation [o], run in [r], neither ends the room nor touches the seat of
    the player who is away. *)
Definition undisturbed (o : RegOp) (r : SessionRegistry) : Prop :=
  is_Some (rooms_ (regOp o r) !! n) ∧
  match o with
  | OpReserve m w b => m = n → w ≠ u ∧ b ≠ u
  | OpStart m c' u' _ => m = n → c' ≠ c ∧ u' ≠ u
  | OpCancel m c' u' => m = n → c' ≠ c ∨ u' ≠ u
  | _ => True
  end.

Fixpoint undisturbedAll (os : list RegOp) (r : SessionRegistry) : Prop :=
  match os with [] => True | o :: os => undisturbed o r ∧ undisturbedAll os (regOp o r) end.

Definition isQueued (r : SessionRegistry) : bool :=
  match timers r !! id with Some cd => queued cd | None => false end.

(** What each run of the countdown's handler puts out. *)
Definition runsHandler (o : RegOp) (r : SessionRegistry) : bool :=
  match o with OpFire i => Z.eqb i id && isQueued r | _ => false end.
Fixpoint handled (os : list RegOp) (r : SessionRegistry) : list (list Output) :=
  match os with
  | [] => []
  | o :: os => (if runsHandler o r then [(timerFire reconnectStore id r).1.2] else []) ++ handled os (regOp o r)
  end.

(** What the reconnect store hears at the [k]-th run. *)
Definition announced (e : Z) (k : nat) : list Output :=
  if reconnectStore then [SetDisconnected n (roleName c) u e (kDisconnectGraceSeconds - Z.of_nat k)] else [].

(** The countdown after [k] runs of its handler. *)
Record away (e : Z) (k : nat) (r : SessionRegistry) : Prop := {
  away_room : ∃ rm, rooms_ r !! n = Some rm ∧ (held rm).1 !! u = Some c ∧
    (held rm).2 !! c = Some (mkPendingDisconnect u id);
  away_timer : ∃ cd, timers r !! id = Some cd ∧ countdownOf cd = (n, c, u, e) ∧
    remaining cd = kDisconnectGraceSeconds - Z.of_nat k;
  away_others : ∀ i cd, i ≠ id → timers r !! i = Some cd → cd_room cd = n → cd_color cd ≠ c ∧ cd_username cd ≠ u;
  away_pending : ∀ m rm c' pd, rooms_ r !! m = Some rm → (held rm).2 !! c' = Some pd → pd_timer pd = id → m = n ∧ c' = c;
  away_next : id < nextTimer r
}.

(** What is held for the player who is away. *)
Definition holdsSeat (x : gmap string Color * gmap Color PendingDisconnect) : Prop :=
  x.1 !! u = Some c ∧ x.2 !! c = Some (mkPendingDisconnect u id).

Lemma away_holds e k r o rm :
  away e k r → undisturbed o r → runsHandler o r = false → holdsSeat (held rm) → holdsSeat (holdAfter o r n (held rm)).
Proof.
  intros [_ Ht Hother _ _] [_ Hu] Hrun [Hs Hp]. unfold holdsSeat.
  destruct o as [m b sim|m h u'|m w b|h|m|m f|m c' u' e'|i|i|m c' u']; cbn [holdAfter]; try done.
  - destruct (String.eqb_spec m n) as [Hm|]; [|done]. destruct (Hu Hm). cbn [fst snd]. by rewrite !lookup_insert_ne.
  - destruct (String.eqb_spec m n) as [Hm|]; [|done]. destruct (Hu Hm). cbn [fst snd]. by rewrite !lookup_insert_ne.
  - destruct (timers r !! i) as [cd|] eqn:Hi; [|done].
    destruct (queued cd && String.eqb (cd_room cd) n && (remaining cd <=? 0)) eqn:Hq; [|done].
    apply andb_true_iff in Hq as [[Hq Hroom%String.eqb_eq]%andb_true_iff _].
    assert (i ≠ id) as Hne.
    { intros ->. simpl in Hrun. unfold isQueued in Hrun. by rewrite Z.eqb_refl, Hi, Hq in Hrun. }
    destruct (Hother i cd Hne Hi Hroom). cbn [fst snd]. by rewrite !lookup_delete_ne.
  - destruct ((held rm).2 !! c') as [pd|] eqn:Hpd; [|done].
    destruct (String.eqb_spec m n) as [Hm|]; [|done]. destruct (String.eqb_spec (pd_username pd) u') as [Hpu|]; [|done].
    cbn [fst snd andb]. rewrite lookup_delete_ne; [done|]. intros ->. rewrite Hp in Hpd. injection Hpd as <-.
    simpl in Hpu. by destruct (Hu Hm).
Qed.

Lemma away_step e k r o : away e k r → undisturbed o r → runsHandler o r = false → away e k (regOp o r).
Proof.
  intros Ha Hu Hrun. pose proof Ha as [(rm & Hrm & Hhold) (cd & Hcd & Horig & Hrem) Hother Hpend Hnext]. split.
  - pose proof (proj1 Hu) as [rm' Hrm']. exists rm'. split; [done|].
    apply rooms_after in Hrm' as [(rm0 & Hrm0 & ->)|[Hnone _]]; [|congruence].
    rewrite Hrm in Hrm0. injection Hrm0 as <-. by eapply away_holds.
  - assert (o = OpFire id ∨ o ≠ OpFire id) as [->|Hfire] by (destruct o; try (by right); destruct (decide (id0 = id)); [subst; by left|right; congruence]).
    + simpl. unfold timerFire. rewrite Hcd. simpl in Hrun. unfold isQueued in Hrun. rewrite Z.eqb_refl, Hcd in Hrun.
      simpl in Hrun. rewrite Hrun. simpl. by exists cd.
    + destruct (timer_kept o r id cd Hcd Hnext Hfire) as (cd' & ? & Ho & Hr); [|exists cd'; by rewrite Ho, Hr].
      intros m c' u' rm0 pd -> Hrm0 Hpd Hpu Hid. destruct (Hpend m rm0 c' pd Hrm0 Hpd Hid) as [-> ->].
      rewrite Hrm in Hrm0. injection Hrm0 as <-. destruct Hhold as [_ Hp]. simpl in Hp.
      rewrite Hpd in Hp. injection Hp as ->. simpl in Hpu. destruct Hu as [_ Hu]. by destruct (Hu eq_refl).
  - intros i cd' Hi [(cd0 & Hcd0 & Ho)|(-> & _ & m & c' & u' & e' & -> & ->)]%timers_after Hroom.
    + injection Ho as E1 E2 E3 _. rewrite E2, E3. apply (Hother i); congruence.
    + simpl in *. by apply Hu.
  - intros m rm' c' pd [(rm0 & Hrm0 & ->)|[_ ->]]%rooms_after; [|done].
    intros [Hx|[Hx _]]%pending_after Hid; [by eapply Hpend|lia].
  - pose proof (nextTimer_grows o r). lia.
Qed.

(** One run of the handler, before the grace time is over. *)
Lemma away_run e k r :
  away e k r → (k < 20)%nat → isQueued r = true →
  away e (S k) (regOp (OpFire id) r) ∧ (timerFire reconnectStore id r).1.2 = announced e k.
Proof.
  intros [(rm & Hrm & Hs & Hp) (cd & Hcd & Horig & Hrem) Hother Hpend Hnext] Hk Hq.
  injection Horig as Er Ec Eu Ee. unfold isQueued in Hq. rewrite Hcd in Hq.
  assert ((remaining cd <=? 0) = false) as Hr by (apply Z.leb_gt; unfold kDisconnectGraceSeconds in Hrem; lia).
  cbn [regOp]. unfold timerFire. rewrite Hcd, Hq. cbn [negb rooms_ setTimers]. rewrite Er, Hrm, Hr.
  cbv zeta. cbn [fst snd]. split; [|unfold announced; by rewrite Ec, Eu, Ee, Hrem]. split; cbn [rooms_ timers nextTimer setTimers setRooms].
  - eexists. rewrite lookup_insert_eq. by split.
  - eexists. rewrite lookup_insert_eq. split; [done|]. unfold countdownOf. simpl. rewrite Ec, Eu, Ee, Hrem. split; [done|lia].
  - intros i cd' Hi. rewrite lookup_insert_ne, lookup_delete_ne by done. by apply Hother.
  - intros m rm' c' pd. rewrite lookup_insert. case_decide as Hm; [|by apply Hpend].
    intros [= <-] Hx Hid. subst m. by apply (Hpend n rm c' pd).
  - done.
Qed.

Lemma away_runs e os k r :
  away e k r → undisturbedAll os r → (k + length (handled os r) ≤ 20)%nat →
  away e (k + length (handled os r)) (regOps os r) ∧
  handled os r = map (λ i, announced e i) (seq k (length (handled os r))).
Proof.
  revert k r. induction os as [|o os IH]; intros k r Ha Hu Hk; cbn [handled regOps foldl] in *.
  { rewrite Nat.add_0_r. done. }
  destruct Hu as [Ho Hu]. destruct (runsHandler o r) eqn:Hrun; cbn [app length] in *.
  - assert (o = OpFire id ∧ isQueued r = true) as [-> Hq].
    { destruct o; try done. simpl in Hrun. apply andb_true_iff in Hrun as [->%Z.eqb_eq Hq]. done. }
    destruct (away_run e k r Ha ltac:(lia) Hq) as [Ha' Hout].
    destruct (IH (S k) _ Ha' Hu ltac:(lia)) as [H1 H2]. split.
    + by replace (k + S (length (handled os (regOp (OpFire id) r))))%nat with (S k + length (handled os (regOp (OpFire id) r)))%nat by lia.
    + simpl. rewrite Hout. f_equal. done.
  - by apply IH; [apply away_step| |].
Qed.

Lemma away_start e r rm :
  rooms_ r !! n = Some rm → id = nextTimer r → started r →
  (∀ i cd, timers r !! i = Some cd → cd_room cd = n → cd_color cd ≠ c ∧ cd_username cd ≠ u) →
  away e 0 (startDisconnectCountdown n c u e r).
Proof.
  intros Hn Hid Hst Hother. unfold startDisconnectCountdown. rewrite Hn. cbv zeta. rewrite <- Hid.
  split; cbn [rooms_ timers nextTimer].
  - eexists. rewrite lookup_insert_eq. split; [done|]. cbn. by rewrite !lookup_insert_eq.
  - eexists. rewrite lookup_insert_eq. by split.
  - intros i cd Hi. rewrite lookup_insert_ne by done. apply Hother.
  - intros m rm' c' pd. rewrite lookup_insert. case_decide as Hm.
    + intros [= <-]. subst m. cbn. rewrite lookup_insert. case_decide; [done|]. intros Hx Hy.
      specialize (Hst n rm c' pd Hn Hx). lia.
    + intros Hx Hy Hz. specialize (Hst m rm' c' pd Hx Hy). lia.
  - lia.
Qed.
End Away.

(** C34 A player who comes back in time gets the game back.  Whatever else happens
    on the shard while [u] is away (the room lives on, nothing else touches the
    seat, and no other countdown of the room is for that colour or user), the
    countdown counts down from twenty and publishes nothing;
    when [u] rejoins before its twenty-first run, the seat is the old colour,
    the countdown is cancelled, the banner is gone — and, unless its handler
    was already queued at that moment, the countdown never runs again. *)
Theorem reconnect_in_time before n c u e meanwhile h :
  let r := regOps before newRegistry in
  let id := nextTimer r in
  let r1 := startDisconnectCountdown n c u e r in
  let r2 := regOps meanwhile r1 in
  roomExists n r = true → u ≠ "" →
  (∀ i cd, timers r !! i = Some cd → cd_room cd = n → cd_color cd ≠ c ∧ cd_username cd ≠ u) →
  undisturbedAll n c u meanwhile r1 → (length (handled id meanwhile r1) ≤ 20)%nat →
  let '(r4, cancelled, outs) := cancelDisconnectCountdown reconnectStore n c u (joinRoom n h u r2).1 in
  handled id meanwhile r1 = map (announced n c u e) (seq 0 (length (handled id meanwhile r1))) ∧
  roleOf h r4 = c ∧ cancelled = true ∧ outs = (if reconnectStore then [ClearDisconnected n] else []) ∧
  room n r4 = setDisconnectStatus noDisconnect <$> room n r2 ∧
  (isQueued id r2 = false → ∀ later, timerFire reconnectStore id (regOps later r4) = (regOps later r4, [], None)).
Proof.
  intros r id r1 r2 Hn Hu Hother Hrun Hk.
  apply bool_decide_eq_true in Hn as [rm Hrm].
  pose proof (away_start n c u id e r rm Hrm eq_refl (started_runs before) Hother) as Ha.
  apply (away_runs n c u id e meanwhile 0) in Ha as [Ha Hout]; [|done..]. fold r1 r2 in Ha.
  destruct Ha as [(rm2 & Hrm2 & Hs & Hp) (cd & Hcd & Horig & _) _ _ Hnext]. simpl in Hs, Hp.
  unfold joinRoom. rewrite Hrm2. cbv zeta. unfold cancelDisconnectCountdown. cbn [fst rooms_]. rewrite lookup_insert_eq.
  cbn [pendingDisconnects]. rewrite Hp. cbn [pd_username]. rewrite String.eqb_refl. cbn [negb].
  split; [done|]. split; [|split; [done|split; [done|split]]].
  - unfold roleOf. cbn [connectionRoom_ rooms_ fst]. rewrite !lookup_insert_eq. cbn [roles]. rewrite lookup_insert_eq.
    cbn. unfold joinRole. cbn [seatReservations]. by rewrite (proj2 (String.eqb_neq u "") Hu), Hs.
  - unfold room. cbn [rooms_]. by rewrite lookup_insert_eq, Hrm2.
  - unfold isQueued. rewrite Hcd. intros Hq later. unfold timerFire.
    rewrite timer_gone; [done| |done]. cbn [timers pd_timer]. unfold cancelTimer. rewrite Hcd, Hq.
    by rewrite lookup_delete_eq.
Qed.
End Reconnect.
