(* ===== verification/Stores.v ===== *)
(** * The stores in Redis ([shared/db])

    Thin wrappers of Redis commands behind interfaces: the directory of rooms,
    the sessions of logged-in users, the reconnect notices, the copy of each
    game.  Every string passes [c_str()].  A store that cannot be reached
    answers like an empty one and is not modelled.

    What a shard's registry puts out is written to them here: the directory then
    says of every room where it is, for one shard. *)
From S2P Require Import Prelude Model Text Scan Double Rules Motion Arbiter ArbiterSteps Lifecycle Engine EngineSpec EngineTheorems Json Redis Observers Codecs Session SessionTheorems Registry RegistryTheorems.
#[local] Open Scope Z_scope.

(** ** Interfaces *)
Class RoomDirectory (D : Type) := {
  dirSet : string → string → D → D;
  dirErase : string → D → D;
  dirGet : string → D → string;
  dirList : D → list string
}.

(** What is put under a token is got under it, and under no other. *)
Class ClientSessionStore `{JsonText} (S : Type) := {
  sessPut : string → string → Z → S → S;
  sessGet : string → S → option (string * Z);
  sessGet_put t u e s : utf8 u = true → int_range e → sessGet t (sessPut t u e s) = Some (u, e);
  sessGet_put_ne t t' u e s : c_str t' ≠ c_str t → sessGet t' (sessPut t u e s) = sessGet t' s
}.

Section Stores.
Context `{JsonText} `{Redis}.

Definition strAt (k : string) (d : rdb) : option string := strOf (value d k).

(** ** [RedisRoomDirectory.cpp] *)
Definition roomKey (roomName : string) : string := "room:" +:+ c_str roomName.

Definition directorySet (roomName shardAddress : string) (d : rdb) : rdb := SET (roomKey roomName) (c_str shardAddress) d.
Definition directoryErase (roomName : string) (d : rdb) : rdb := DEL (roomKey roomName) d.
Definition directoryGet (roomName : string) (d : rdb) : string := default "" (strAt (roomKey roomName) d).
Definition directoryList (d : rdb) : list string :=
  omap (λ k, if Nat.ltb 5 (String.length k) then Some (String.substring 5 (String.length k - 5) k) else None) (keysOf "room:" d).

#[export] Instance redisRoomDirectory : RoomDirectory rdb :=
  {| dirSet := directorySet; dirErase := directoryErase; dirGet := directoryGet; dirList := directoryList |}.

(** ** [RedisClientSessionStore.cpp]: until the hour is over, when the key is
    gone as if deleted *)
Definition sessionKey (token : string) : string := "session:" +:+ c_str token.
Definition sessionBlob (username : string) (elo : Z) : json := jObj [("username", JString username); ("elo", JInt elo)].

Definition sessionPut (token username : string) (elo : Z) (d : rdb) : rdb :=
  SET (sessionKey token) (c_str (dump (sessionBlob username elo))) d.
Definition sessionGet (token : string) (d : rdb) : option (string * Z) :=
  match strAt (sessionKey token) d with
  | None => None
  | Some text =>
    match (blob ← parse text; u ← jStr "username" blob; e ← jInt "elo" blob; Ok (u, e)) with
    | Ok r => Some r
    | Throw _ => None
    end
  end.

(** ** [RedisReconnectStore.cpp], [RedisGameStateStore.cpp] *)
Definition fieldsOf (l : list (string * string)) : gmap string string := foldl (λ m kv, <[kv.1 := c_str kv.2]> m) ∅ l.

Definition reconnectKey (roomName : string) : string := "reconnect:" +:+ roomName.
Definition setDisconnected (roomName color username : string) (elo secondsRemaining : Z) (d : rdb) : rdb :=
  HSET (c_str (reconnectKey roomName)) (fieldsOf [("color", color); ("username", username); ("elo", showInt elo);
    ("secondsRemaining", showInt secondsRemaining)]) d.
Definition clearDisconnected (roomName : string) (d : rdb) : rdb := DEL (c_str (reconnectKey roomName)) d.

Definition gameStateKey (roomName : string) : string := "gamestate:" +:+ roomName.
Definition saveGameState (roomName board moveLog whiteUsername : string) (whiteElo : Z) (blackUsername : string) (blackElo : Z)
    (d : rdb) : rdb :=
  HSET (c_str (gameStateKey roomName)) (fieldsOf [("board", board); ("moveLog", moveLog); ("whiteUsername", whiteUsername);
    ("whiteElo", showInt whiteElo); ("blackUsername", blackUsername); ("blackElo", showInt blackElo)]) d.
Definition clearGameState (roomName : string) (d : rdb) : rdb := DEL (c_str (gameStateKey roomName)) d.

(** ** What the stores promise *)

Lemma strAt_SET k s d k' : strAt k' (SET k s d) = if decide (k' = k) then Some s else strAt k' d.
Proof. unfold strAt. rewrite value_SET. by case_decide. Qed.

Lemma prefix_inj (p s t : string) : p +:+ s = p +:+ t → s = t.
Proof. induction p as [|c p IH]; [done|]. rewrite !string_app_cons. intros [= ?]. auto. Qed.

Lemma session_got token username elo d :
  utf8 username = true → int_range elo →
  sessionGet token (sessionPut token username elo d) = Some (username, elo).
Proof.
  intros Hu He. unfold sessionGet, sessionPut. rewrite strAt_SET, decide_True, dump_c_str by done.
  rewrite parse_dump; [|apply jsonText_obj; cbn [forallb fst snd jsonText]; by rewrite Hu, !utf8_ascii7].
  rewrite result_bind_Ok. unfold sessionBlob. jfields. by rewrite getInt_JInt by done.
Qed.

#[export] Instance redisClientSessionStore : ClientSessionStore rdb.
Proof.
  refine {| sessPut := sessionPut; sessGet := sessionGet; sessGet_put := session_got |}.
  intros t t' u e d Ht. unfold sessionGet, sessionPut. rewrite strAt_SET, decide_False; [done|].
  unfold sessionKey. by intros ?%prefix_inj.
Defined.

(** The directory lists the rooms it knows. *)
Lemma directoryList_spec d n : n ∈ directoryList d ↔ n ≠ "" ∧ is_Some (value d ("room:" +:+ n)).
Proof.
  assert (∀ n, String.substring 0 (String.length n) n = n) as Hsub by (intros m; induction m; simpl; congruence).
  unfold directoryList. rewrite list_elem_of_omap. split.
  - intros (k & [[m ->] Hv]%keysOf_spec & Hk). simpl in Hk. destruct m as [|c m]; [done|].
    rewrite Nat.sub_0_r in Hk. simpl in Hk. rewrite Hsub in Hk. injection Hk as <-. done.
  - intros [Hn Hv]. exists ("room:" +:+ n). split; [apply keysOf_spec; split; [by exists n|done]|].
    simpl. destruct n as [|c n]; [done|]. simpl. by rewrite Hsub.
Qed.
End Stores.

(** ** The directory and a shard's rooms *)
Section Mirror.
Context `{HI : HashIter} `{JT : JsonText} `{RD : Redis}.

(** What an output of the registry does to the stores. *)
Definition writeOut (d : rdb) (o : Output) : rdb :=
  match o with
  | DirectorySet room shard => directorySet room shard d
  | DirectoryErase room => directoryErase room d
  | SetDisconnected room color username elo secondsRemaining => setDisconnected room color username elo secondsRemaining d
  | ClearDisconnected room => clearDisconnected room d
  | Session _ => d
  end.
Definition writeOuts (outs : list Output) (d : rdb) : rdb := foldl writeOut d outs.

Variable shardAddress : string.

(** Another process writes to Redis whatever it likes, but leaves the entries of
    the rooms that exist here alone and does not announce this shard. *)
Definition otherWrites (r : SessionRegistry) (d d' : rdb) : Prop :=
  (∀ n, c_str n = n → roomExists n r = true → value d' (roomKey n) = value d (roomKey n)) ∧
  (∀ n, strAt (roomKey n) d' = Some shardAddress → strAt (roomKey n) d = Some shardAddress).

(** One operation of the registry with its writes, or other processes' writes. *)
Inductive store_step (r : SessionRegistry) (d : rdb) : SessionRegistry * rdb → Prop :=
  | st_create n b sim : c_str n = n →
      store_step r d (let '(r', _, out) := createRoom true shardAddress n b sim r in (r', writeOuts out d))
  | st_join n h u : store_step r d ((joinRoom n h u r).1, d)
  | st_reserve n w b : store_step r d (reserveSeats n w b r, d)
  | st_leave h : store_step r d (let '(r', _, out) := leave true h r in (r', writeOuts out d))
  | st_reap n : store_step r d (let '(r', out) := reapIfSafe true n r in (r', writeOuts out d))
  | st_session n f : store_step r d (onRoom n (withSession f) r, d)
  | st_start n c u e : store_step r d (startDisconnectCountdown n c u e r, d)
  | st_expire id : store_step r d (timerExpire id r, d)
  | st_fire id : store_step r d (let '(r', out, _) := timerFire true id r in (r', writeOuts out d))
  | st_cancel n c u : store_step r d (let '(r', _, out) := cancelDisconnectCountdown true n c u r in (r', writeOuts out d))
  | st_other d' : otherWrites r d d' → store_step r d (r, d').

Definition stores_step (s s' : SessionRegistry * rdb) : Prop := store_step s.1 s.2 s'.

(** The directory agrees with the rooms. *)
Record mirrors (r : SessionRegistry) (d : rdb) : Prop := {
  mir_dir : ∀ n, c_str n = n → strAt (roomKey n) d = Some shardAddress ↔ roomExists n r = true;
  mir_names : ∀ n, roomExists n r = true → c_str n = n
}.

Definition sameRooms (r r' : SessionRegistry) : Prop := ∀ n, roomExists n r' = roomExists n r.
Definition sameDirectory (d d' : rdb) : Prop := ∀ n, value d' (roomKey n) = value d (roomKey n).

Lemma mirrors_same r r' d d' : sameRooms r r' → sameDirectory d d' → mirrors r d → mirrors r' d'.
Proof.
  intros Hr Hd [Hdir Hnames]. split; [|intros n; rewrite Hr; apply Hnames].
  intros n Hn. unfold strAt. rewrite Hd, Hr. by apply Hdir.
Qed.

Lemma roomKey_reconnect n m : roomKey n ≠ c_str (reconnectKey m).
Proof. unfold roomKey, reconnectKey. simpl. discriminate. Qed.

Lemma reconnect_quiet outs d :
  Forall (λ o, match o with DirectorySet _ _ | DirectoryErase _ => False | _ => True end) outs → sameDirectory d (writeOuts outs d).
Proof.
  revert d. induction outs as [|o outs IH]; intros d Ho; [done|]. apply Forall_cons in Ho as [Ho Hos].
  intros n. unfold writeOuts. simpl. fold (writeOuts outs (writeOut d o)). rewrite (IH _ Hos). destruct o; try done; simpl.
  - unfold setDisconnected. rewrite value_HSET, decide_False; [done|]. apply roomKey_reconnect.
  - unfold clearDisconnected. rewrite value_DEL, decide_False; [done|]. apply roomKey_reconnect.
Qed.

Lemma sameRooms_insert r n rm rm' c ts k :
  rooms_ r !! n = Some rm → sameRooms r (mkRegistry (<[n := rm']> (rooms_ r)) c ts k).
Proof.
  intros Hn m. unfold roomExists; simpl. apply bool_decide_ext. destruct (decide (m = n)) as [->|Hne].
  - rewrite lookup_insert_eq, Hn. done.
  - by rewrite lookup_insert_ne.
Qed.

Lemma sameRooms_alter r n f : sameRooms r (onRoom n f r).
Proof.
  intros m. unfold roomExists, onRoom; simpl. apply bool_decide_ext. destruct (decide (m = n)) as [->|Hne].
  - rewrite lookup_alter_eq. by destruct (rooms_ r !! n).
  - by rewrite lookup_alter_ne.
Qed.

Lemma key_decide {A} (m n : string) (x y : A) :
  c_str m = m → c_str n = n →
  (if decide (roomKey m = roomKey n) then x else y) = if decide (m = n) then x else y.
Proof.
  intros Hm Hn. destruct (decide (m = n)) as [->|Hne]; [by rewrite decide_True|]. rewrite decide_False; [done|].
  unfold roomKey. rewrite Hm, Hn. by intros ?%prefix_inj.
Qed.

Lemma mirrors_erase n r d :
  mirrors r d → roomExists n r = true →
  mirrors (setRooms (delete n (rooms_ r)) r) (directoryErase n d).
Proof.
  intros [Hdir Hnames] Hn. pose proof (Hnames n Hn) as Hc.
  assert (∀ m, roomExists m (setRooms (delete n (rooms_ r)) r) = if decide (m = n) then false else roomExists m r) as Hr.
  { intros m. unfold roomExists; simpl. case_decide as E; [subst; by rewrite lookup_delete_eq|by rewrite lookup_delete_ne]. }
  split; intros m; rewrite Hr.
  - intros Hm. unfold strAt, directoryErase. rewrite value_DEL, key_decide by done. case_decide; [done|]. by apply Hdir.
  - case_decide; [done|]. by apply Hnames.
Qed.

Lemma mirrors_create n b sim r d :
  c_str shardAddress = shardAddress → c_str n = n → mirrors r d →
  let '(r', _, out) := createRoom true shardAddress n b sim r in mirrors r' (writeOuts out d).
Proof.
  intros Haddr Hcn Hm. unfold createRoom. destruct (rooms_ r !! n) as [rm|] eqn:Hn; [done|].
  set (rm := mkRoom _ _ _ _ _ _).
  assert (∀ m, roomExists m (setRooms (<[n := rm]> (rooms_ r)) r) = if decide (m = n) then true else roomExists m r) as Hr.
  { intros m. unfold roomExists; simpl. case_decide as E; [subst; by rewrite lookup_insert_eq|by rewrite lookup_insert_ne]. }
  destruct Hm as [Hdir Hnames]. split; intros m; rewrite Hr.
  - intros Hc. unfold writeOuts; simpl. unfold directorySet. rewrite strAt_SET, key_decide, Haddr by done. case_decide; [done|]. by apply Hdir.
  - case_decide; [by subst|]. apply Hnames.
Qed.

Lemma mirrors_leave h r d :
  mirrors r d → let '(r', _, out) := leave true h r in mirrors r' (writeOuts out d).
Proof.
  intros Hm. unfold leave. destruct (connectionRoom_ r !! h) as [n|]; [|done].
  destruct (rooms_ r !! n) as [rm|] eqn:Hn.
  - cbn [roles session]. destruct (decide _); [destruct (tickInFlight _)|].
    + eapply mirrors_same; [|done|exact Hm]. by eapply sameRooms_insert.
    + assert (mirrors (setRooms (delete n (rooms_ r)) r) (directoryErase n d)) as Hd.
      { apply mirrors_erase; [done|]. unfold roomExists. by rewrite Hn. }
      destruct Hd as [Hdir Hnames]. split; [exact Hdir|exact Hnames].
    + eapply mirrors_same; [|done|exact Hm]. by eapply sameRooms_insert.
  - eapply mirrors_same; [|done|exact Hm]. intros m. done.
Qed.

Lemma mirrors_step r d s :
  c_str shardAddress = shardAddress → mirrors r d → store_step r d s → mirrors s.1 s.2.
Proof.
  intros Haddr Hm Hs. destruct Hs as [n b sim Hcn|n h u|n w b|h|n|n f|n c u e|id|id|n c u|d' [Hkeep Hnew]].
  - pose proof (mirrors_create n b sim r d Haddr Hcn Hm). by destruct (createRoom _ _ _ _ _ _) as [[r' c] out].
  - eapply mirrors_same; [|done|exact Hm]. unfold joinRoom. destruct (rooms_ r !! n) as [rm|] eqn:Hn; [|done].
    by eapply sameRooms_insert.
  - eapply mirrors_same; [|done|exact Hm]. apply sameRooms_alter.
  - pose proof (mirrors_leave h r d Hm). by destruct (leave _ _ _) as [[r' c] out].
  - unfold reapIfSafe. destruct (rooms_ r !! n) as [rm|] eqn:Hn; [|done].
    destruct (_ && _); [|done]. simpl. apply mirrors_erase; [done|]. unfold roomExists. by rewrite Hn.
  - eapply mirrors_same; [|done|exact Hm]. apply sameRooms_alter.
  - eapply mirrors_same; [|done|exact Hm]. unfold startDisconnectCountdown.
    destruct (rooms_ r !! n) as [rm|] eqn:Hn; [|done]. by eapply sameRooms_insert.
  - eapply mirrors_same; [|done|exact Hm]. by intros m.
  - unfold timerFire. destruct (timers r !! id) as [c|]; [|done]. destruct (queued c); [|done]. cbn zeta. cbn [negb rooms_ setTimers].
    destruct (rooms_ r !! cd_room c) as [rm|] eqn:Hn; [|eapply mirrors_same; [|done|exact Hm]; by intros m].
    destruct (remaining c <=? 0).
    + destruct (markDisconnectResign _ _ _ _) as [[s outs] exn].
      eapply mirrors_same; [| |exact Hm]; [|apply reconnect_quiet].
      * unfold setRooms, setTimers; simpl. rewrite insert_insert_eq. by eapply sameRooms_insert.
      * repeat constructor. apply Forall_fmap, Forall_true. done.
    + eapply mirrors_same; [| |exact Hm]; [|apply reconnect_quiet; by repeat constructor].
      unfold setRooms, setTimers; simpl. by eapply sameRooms_insert.
  - unfold cancelDisconnectCountdown. destruct (rooms_ r !! n) as [rm|] eqn:Hn; [|done].
    destruct (pendingDisconnects rm !! c) as [pd|]; [|done]. destruct (negb _); [done|].
    eapply mirrors_same; [| |exact Hm]; [|apply reconnect_quiet; by repeat constructor]. by eapply sameRooms_insert.
  - destruct Hm as [Hdir Hnames]. split; [|exact Hnames]. intros n Hn. rewrite <- (Hdir n Hn). split; [apply Hnew|].
    unfold strAt. intros Hv. rewrite Hkeep; [done..|]. by apply Hdir.
Qed.

(** C16 The directory tells the truth about a shard: in whatever order its rooms
    are created (under names without NUL), joined, left, ticked, reaped, and
    players disconnect and return, and whatever other processes write to Redis
    meanwhile — as long as they do not announce this shard and do not touch the
    entries of rooms that exist here — the directory answers the shard's address
    for exactly the names of the rooms that exist there, and lists these rooms
    (one called by the empty string excepted). *)
Theorem directory_mirrors_rooms d0 r d :
  shardAddress ≠ "" → c_str shardAddress = shardAddress →
  (∀ n, directoryGet n d0 ≠ shardAddress) →
  rtc stores_step (newRegistry, d0) (r, d) →
  ∀ n, c_str n = n →
    (directoryGet n d = shardAddress ↔ roomExists n r = true) ∧
    (roomExists n r = true → n ≠ "" → n ∈ directoryList d).
Proof.
  intros Hne Haddr Hnone Hr n Hn.
  assert (∀ s s', rtc stores_step s s' → mirrors s.1 s.2 → mirrors s'.1 s'.2) as Hgen.
  { induction 1 as [|s1 s2 s3 Hs _ IH]; [done|]. intros Hm. apply IH. by eapply mirrors_step. }
  assert (mirrors r d) as [Hdir _].
  { apply (Hgen _ _ Hr). split; simpl; intros m; unfold roomExists; simpl; rewrite lookup_empty; [|done].
    intros Hm. split; [|done]. intros Hv. destruct (Hnone m). unfold directoryGet. by rewrite Hv. }
  rewrite directoryList_spec. rewrite <- (Hdir n Hn). unfold directoryGet. split.
  - destruct (strAt (roomKey n) d) as [a|]; simpl; split; congruence.
  - intros Hv Hn0. split; [done|]. unfold roomKey, strAt in Hv. rewrite Hn in Hv. by destruct (value d ("room:" +:+ n)).
Qed.
End Mirror.

(** ** A room name used on two shards *)
Section TwoShards.
Context `{HI : HashIter} `{JT : JsonText} `{RD : Redis}.

(** Two shards create a room of the same name; the first shard's room empties
    and is erased: the directory no longer knows the room that still exists on
    the second. *)
Lemma other_shard_forgotten n b d :
  c_str n = n →
  let '(r1, _, out1) := createRoom true "shard1" n b true newRegistry in
  let '(r2, _, out2) := createRoom true "shard2" n b true newRegistry in
  let r1 := (joinRoom n 1 "" r1).1 in
  let '(r1, _, out3) := leave true 1 r1 in
  let d := writeOuts out3 (writeOuts out2 (writeOuts out1 d)) in
  roomExists n r2 = true ∧ directoryGet n d = "".
Proof.
  intros Hn. unfold createRoom. cbn [rooms_ newRegistry]. rewrite lookup_empty. cbn [fst snd].
  unfold joinRoom. cbn [rooms_ setRooms newRegistry]. rewrite lookup_insert_eq. cbn zeta. cbn [fst].
  unfold leave. cbn [connectionRoom_ rooms_]. rewrite !lookup_insert_eq. cbn [roles session].
  rewrite decide_True by (by rewrite delete_insert_eq). cbn [tickInFlight newSession]. simpl. split.
  - unfold roomExists; simpl. rewrite lookup_insert_eq. done.
  - unfold directoryGet, strAt, directoryErase. by rewrite value_DEL, decide_True.
Qed.
End TwoShards.
