(* ===== verification/BoardIO.v ===== *)
(** * Reading and printing boards ([server/io])

    [BoardParser] and [BoardPrinter]: a board as lines of two-letter tokens.
    The parser numbers the pieces from a counter that lives as long as the
    process, so it is an argument and a result. *)
From Stdlib Require Import Ascii.
From S2P Require Import Prelude Model Text Rules Double Motion Arbiter Lifecycle ArbiterSteps Engine EngineSpec EngineTheorems.

(** ** [BoardParser.cpp] *)

Definition tokenChar (n : nat) (t : string) : Ascii.ascii := default Ascii.zero (String.get n t).

Definition kindOfChar (c : Ascii.ascii) : option Kind :=
  if Ascii.eqb c "P"%char then Some Pawn
  else if Ascii.eqb c "R"%char then Some Rook
  else if Ascii.eqb c "N"%char then Some Knight
  else if Ascii.eqb c "B"%char then Some Bishop
  else if Ascii.eqb c "Q"%char then Some Queen
  else if Ascii.eqb c "K"%char then Some King
  else None.

(** The piece, and [idCounter] afterwards. *)
Definition createPiece (token : string) (pos : Position) (idCounter : Z) : result (Piece * Z) :=
  let color := if Ascii.eqb (tokenChar 0 token) "w"%char then White else Black in
  match kindOfChar (tokenChar 1 token) with
  | None => Throw "ERROR UNKNOWN_TOKEN"
  | Some kind => Ok (mkPiece idCounter color kind pos Idle, idCounter + 1)
  end.

Definition isValidToken (t : string) : bool :=
  if String.eqb t "." then true
  else if negb (Nat.eqb (String.length t) 2) then false
  else
    let c0 := tokenChar 0 t in
    let c1 := tokenChar 1 t in
    let validColor := Ascii.eqb c0 "w"%char || Ascii.eqb c0 "b"%char in
    let validType := Ascii.eqb c1 "K"%char || Ascii.eqb c1 "Q"%char || Ascii.eqb c1 "R"%char ||
                     Ascii.eqb c1 "B"%char || Ascii.eqb c1 "N"%char || Ascii.eqb c1 "P"%char in
    validColor && validType.

Definition splitLine (line : string) : list string := words line.

(** The [while (std::getline(input, line))] loop. *)
Fixpoint readRows (lines : list string) (gridTokens : list (list string))
    : result (list (list string)) :=
  match lines with
  | [] => Ok gridTokens
  | line :: lines =>
    match splitLine (chomp line) with
    | [] => readRows lines gridTokens
    | t0 :: ts =>
      if String.eqb t0 "Commands:" then Ok gridTokens
      else if String.eqb t0 "Board:" then readRows lines gridTokens
      else
        let tokens := t0 :: ts in
        let mismatch := match gridTokens with
                        | [] => false
                        | row :: _ => negb (Nat.eqb (length tokens) (length row)) end in
        if mismatch then Throw "ERROR ROW_WIDTH_MISMATCH"
        else if negb (forallb isValidToken tokens) then Throw "ERROR UNKNOWN_TOKEN"
        else readRows lines (gridTokens ++ [tokens])
    end
  end.

Definition tokenAt (gridTokens : list (list string)) (pos : Position) : string :=
  default "." (gridTokens !! Z.to_nat (row pos) ≫= λ r, r !! Z.to_nat (col pos)).

(** The nested loops that add the pieces. *)
Fixpoint placePieces (token : Position → string) (cells : list Position) (s : Board * Z)
    : result (Board * Z) :=
  match cells with
  | [] => Ok s
  | pos :: cells =>
    if String.eqb (token pos) "." then placePieces token cells s
    else
      '(p, n) ← createPiece (token pos) pos s.2;
      placePieces token cells (addPiece s.1 p pos, n)
  end.

Definition parseBoardOnly (input : string) (idCounter : Z) : result (Board * Z) :=
  gridTokens ← readRows (getlines input) [];
  match gridTokens with
  | [] => Throw "ERROR EMPTY_BOARD"
  | firstRow :: _ =>
    let h := Z.of_nat (length gridTokens) in
    let w := Z.of_nat (length firstRow) in
    placePieces (tokenAt gridTokens) (allCells w h) (newBoard w h, idCounter)
  end.

(** ** [BoardPrinter.cpp] *)

Definition kindChar (k : Kind) : string :=
  match k with
  | Pawn => "P" | Rook => "R" | Knight => "N" | Bishop => "B" | Queen => "Q" | King => "K"
  | NoKind => ""
  end.

Definition colorChar (c : Color) : string := if colorEqb c White then "w" else "b".

Definition cellText (p : option Piece) : string :=
  match p with
  | None => "."
  | Some piece => if kindEqb (getKind piece) NoKind then "."
                  else colorChar (getColor piece) +:+ kindChar (getKind piece)
  end.

(** One row: the cells with a blank after each but the last. *)
Definition printRow (w : Z) (cell : Z → string) : string :=
  foldr (λ c acc, cell c +:+ (if c <? w - 1 then " " else "") +:+ acc) "" (seqZ 0 w).

Definition printRows (w h : Z) (cell : Position → string) : string :=
  foldr (λ r acc, printRow w (λ c, cell (mkPos r c)) +:+ endl +:+ acc) "" (seqZ 0 h).

(** [print(const GameState&)]. *)
Definition printBoard (b : Board) : string :=
  printRows (width b) (height b) (λ pos, cellText (getPieceAt b (row pos) (col pos))).

(** The grid of pointers of [print(const GameSnapshot&)]: the last piece
    written to a cell; a piece outside the board is out of range. *)
Definition snapshotCell (ps : list SnapshotPiece) (pos : Position) : string :=
  match last (filter (λ p, sp_cell p = pos) ps) with
  | None => "."
  | Some p => colorChar (sp_color p) +:+ kindChar (sp_kind p)
  end.

Definition inSnapshot (s : GameSnapshot) (p : SnapshotPiece) : bool :=
  (0 <=? row (sp_cell p)) && (row (sp_cell p) <? board_height s) &&
  (0 <=? col (sp_cell p)) && (col (sp_cell p) <? board_width s).

Definition printSnapshot (s : GameSnapshot) : option string :=
  if forallb (inSnapshot s) (pieces s)
  then Some (printRows (board_width s) (board_height s) (snapshotCell (pieces s)))
  else None.

Example print_parse_example :
  (λ '(b, n), (printBoard b, n)) <$>
    parseBoardOnly ("Board:" +:+ endl +:+ "wK . bQ" +:+ endl +:+ ". wP ." +:+ endl) 1 =
  Ok ("wK . bQ" +:+ endl +:+ ". wP ." +:+ endl, 4).
Proof. vm_compute. reflexivity. Qed.

(** ** Placing pieces *)

(** The cells the loop leaves, in order, and the counter. *)
Fixpoint placed (token : Position → string) (cells : list Position) (n : Z) : list Piece * Z :=
  match cells with
  | [] => ([], n)
  | pos :: cells =>
    if String.eqb (token pos) "." then
      let r := placed token cells n in (makeEmpty pos :: r.1, r.2)
    else
      let c := if Ascii.eqb (tokenChar 0 (token pos)) "w"%char then White else Black in
      let k := default NoKind (kindOfChar (tokenChar 1 (token pos))) in
      let r := placed token cells (n + 1) in (mkPiece n c k pos Idle :: r.1, r.2)
  end.

Lemma isValidToken_kind t :
  isValidToken t = true → t ≠ "." → ∃ k, kindOfChar (tokenChar 1 t) = Some k ∧ k ≠ NoKind.
Proof.
  unfold isValidToken. intros Hv Hne. destruct (String.eqb_spec t "."); [done|].
  destruct (negb _); [done|]. apply andb_true_iff in Hv as [_ Hv]. unfold kindOfChar.
  rewrite !orb_true_iff in Hv. repeat case_match; eauto. exfalso. naive_solver.
Qed.

Lemma placePieces_spec w h token cells dn xs b n :
  0 ≤ w → 0 ≤ h → allCells w h = dn ++ cells → length xs = length dn →
  (∀ pos, pos ∈ cells → isValidToken (token pos) = true) →
  width b = w → height b = h → grid b = xs ++ map makeEmpty cells →
  placePieces token cells (b, n) =
    Ok (mkBoard w h (xs ++ (placed token cells n).1), (placed token cells n).2).
Proof.
  intros Hw Hh. revert dn xs b n. induction cells as [|pos cells IH];
    intros dn xs b n Hall Hlen Hv Hbw Hbh Hg.
  - simpl in *. rewrite <-Hg, <-Hbw, <-Hbh. by destruct b.
  - assert (allCells w h !! length dn = Some pos) as Hpos
      by (rewrite Hall; by apply list_lookup_middle).
    destruct (allCells_idx w h _ _ Hw Hh Hpos) as [Hin Hidx].
    assert (isWithinBounds b pos = true) as Hin'.
    { rewrite <-Hin. unfold isWithinBounds. simpl. by rewrite Hbw, Hbh. }
    assert (idx b pos = length xs) as Hidx'.
    { rewrite Hlen, <-Hidx. unfold idx, index. simpl. by rewrite Hbw. }
    assert (allCells w h = (dn ++ [pos]) ++ cells) as Hall' by (by rewrite <-app_assoc).
    assert (∀ pos, pos ∈ cells → isValidToken (token pos) = true) as Hv' by (intros; apply Hv; by right).
    assert (∀ x, length (xs ++ [x]) = length (dn ++ [pos])) as Hlen'
      by (intros; rewrite !length_app; simpl; lia).
    simpl. destruct (String.eqb_spec (token pos) ".") as [Ht|Ht].
    + rewrite (IH (dn ++ [pos]) (xs ++ [makeEmpty pos])); try done.
      * by rewrite <-app_assoc.
      * rewrite Hg, <-app_assoc. done.
    + destruct (isValidToken_kind (token pos)) as (k & Hk & Hnk); [apply Hv; by left|done|].
      unfold createPiece. rewrite Hk. simpl. unfold addPiece.
      assert (grid b !! length xs = Some (makeEmpty pos)) as Hcell
        by (rewrite Hg; by apply list_lookup_middle).
      assert (isCellEmpty b pos = true) as -> by (unfold isCellEmpty; by rewrite Hin', Hidx', Hcell).
      rewrite Hin'. cbn [andb].
      rewrite (IH (dn ++ [pos]) (xs ++ [mkPiece n (if Ascii.eqb (tokenChar 0 (token pos)) "w"%char then White else Black) k pos Idle]));
        try done.
      * by rewrite <-app_assoc.
      * unfold setGrid; simpl. rewrite Hidx', Hg. rewrite insert_app_r_alt by lia.
        rewrite Nat.sub_diag. simpl. by rewrite <-app_assoc.
Qed.

(** What the cell written for a token looks like. *)
Definition tokenLook (t : string) : Kind * Color :=
  if String.eqb t "." then (NoKind, NoColor)
  else (default NoKind (kindOfChar (tokenChar 1 t)),
        if Ascii.eqb (tokenChar 0 t) "w"%char then White else Black).

Definition look (p : Piece) : Kind * Color := (getKind p, getColor p).

Lemma placed_looks token cells n :
  map (λ p, (look p, getCell p, getState p)) (placed token cells n).1 =
  map (λ pos, (tokenLook (token pos), pos, Idle)) cells.
Proof.
  revert n. induction cells as [|pos cells IH]; intros n; simpl; [done|].
  unfold tokenLook. destruct (String.eqb _ _); simpl; rewrite IH; [done|].
  unfold look; simpl. by destruct (kindEqb _ _).
Qed.

Lemma placed_ids token cells n :
  (∀ pos, pos ∈ cells → isValidToken (token pos) = true) →
  map getId (filter isReal (placed token cells n).1) = seqZ n ((placed token cells n).2 - n) ∧
  n ≤ (placed token cells n).2.
Proof.
  revert n. induction cells as [|pos cells IH]; intros n Hv; simpl.
  - rewrite Z.sub_diag. by split.
  - assert (∀ pos, pos ∈ cells → isValidToken (token pos) = true) as Hv' by (intros; apply Hv; by right).
    destruct (String.eqb_spec (token pos) ".") as [Ht|Ht]; simpl; [by apply IH|].
    destruct (isValidToken_kind (token pos)) as (k & -> & Hnk); [apply Hv; by left|done|].
    destruct (IH (n + 1) Hv') as [Hids Hle]. split; [|lia].
    rewrite filter_cons_True.
    + simpl. rewrite Hids, (seqZ_cons n) by lia. do 2 f_equal; lia.
    + unfold isReal, kindEqb; simpl. by rewrite bool_decide_eq_false_2.
Qed.

(** The board the parser builds on a grid of valid tokens. *)
Definition placedBoard (token : Position → string) (w h n : Z) : Board :=
  mkBoard w h (placed token (allCells w h) n).1.

Lemma placedBoard_lookup token w h n pos :
  0 ≤ w → 0 ≤ h → isWithinBounds (newBoard w h) pos = true →
  ∃ p, getPiece (placedBoard token w h n) pos = Some p ∧
    look p = tokenLook (token pos) ∧ getCell p = pos ∧ getState p = Idle.
Proof.
  intros Hw Hh Hb. set (b := newBoard w h).
  assert (grid_ok b) as Hg by (unfold grid_ok, b, newBoard; simpl; rewrite length_map, allCells_length; nia).
  pose proof (grid_allCells b Hg) as Hmap.
  destruct (getPiece_is_Some b pos Hg Hb) as [q Hq]. unfold getPiece in Hq. fold b in Hb. rewrite Hb in Hq.
  assert (allCells w h !! idx b pos = Some pos) as Hcell.
  { change (grid b) with (makeEmpty <$> allCells w h) in Hq. rewrite list_lookup_fmap in Hq.
    destruct (allCells w h !! _) as [pos'|] eqn:E; [|done].
    destruct (allCells_idx w h _ _ Hw Hh E) as [Hb' Hi]. f_equal.
    by apply (idx_inj b). }
  pose proof (f_equal (λ l, l !! idx b pos) (placed_looks token (allCells w h) n)) as Hl.
  simpl in Hl. rewrite !list_lookup_fmap in Hl. rewrite Hcell in Hl. simpl in Hl.
  destruct ((placed token (allCells w h) n).1 !! idx b pos) as [p|] eqn:E; [|done].
  simpl in Hl. exists p. split; [|by naive_solver].
  unfold getPiece. replace (isWithinBounds (placedBoard token w h n) pos) with true by (by symmetry).
  exact E.
Qed.

Lemma placedBoard_grid_ok token w h n : 0 ≤ w → 0 ≤ h → grid_ok (placedBoard token w h n).
Proof.
  intros Hw Hh. unfold grid_ok, placedBoard; simpl.
  pose proof (f_equal length (placed_looks token (allCells w h) n)) as Hl.
  rewrite !length_map, allCells_length in Hl. rewrite Hl. nia.
Qed.

Lemma placedBoard_cell token w h n pos p :
  0 ≤ w → 0 ≤ h → getPiece (placedBoard token w h n) pos = Some p →
  look p = tokenLook (token pos) ∧ getCell p = pos ∧ getState p = Idle.
Proof.
  intros Hw Hh Hp. pose proof (getPiece_bounds _ _ _ Hp) as Hb.
  destruct (placedBoard_lookup token w h n pos Hw Hh Hb) as (p' & Hp' & ?). simplify_eq. done.
Qed.

(** ** Reading rows *)

(** A grid the loop accepts: rows of one positive length, valid tokens. *)
Definition rows_ok (w : nat) (g : list (list string)) : Prop :=
  ∀ r, r ∈ g → length r = w ∧ (0 < w)%nat ∧ ∀ t, t ∈ r → isValidToken t = true.

Lemma forallb_elem {A} (P : A → bool) l : forallb P l = true ↔ ∀ x, x ∈ l → P x = true.
Proof. rewrite forallb_forall. by setoid_rewrite list_elem_of_In. Qed.

Lemma readRows_ok lines acc g w :
  readRows lines acc = Ok g → (acc ≠ [] → rows_ok w acc) →
  g ≠ [] → rows_ok (length (default [] (head g))) g.
Proof.
  assert (∀ w r rs, rows_ok w (r :: rs) → rows_ok (length r) (r :: rs)) as Hhd.
  { intros w' r rs Hr. by destruct (Hr r ltac:(by left)) as (-> & _ & _). }
  revert acc w. induction lines as [|line lines IH]; intros acc w; cbn [readRows].
  - intros [= ->] Hacc Hne. destruct g; [done|]. simpl. by apply (Hhd w), Hacc.
  - destruct (splitLine (chomp line)) as [|t0 ts]; [apply IH|].
    destruct (String.eqb _ _).
    { intros [= ->] Hacc Hne. destruct g; [done|]. simpl. by apply (Hhd w), Hacc. }
    destruct (String.eqb _ _); [apply IH|].
    destruct (match acc with [] => false | _ => _ end) eqn:Hmis; [done|].
    destruct (negb (forallb _ _)) eqn:Hval; [done|]. intros Hr Hacc.
    apply negb_false_iff in Hval. pose proof (proj1 (forallb_elem isValidToken (t0 :: ts)) Hval) as Hvt.
    apply (IH _ (length (t0 :: ts)) Hr). intros _ r [Hin| ->%list_elem_of_singleton]%elem_of_app.
    + destruct acc as [|r0 acc]; [by apply elem_of_nil in Hin|].
      apply negb_false_iff, Nat.eqb_eq in Hmis. rewrite Hmis.
      exact (Hhd w r0 acc (Hacc ltac:(done)) r Hin).
    + split_and!; [done|simpl; lia|done].
Qed.

Lemma tokenAt_valid g w pos :
  rows_ok w g → isValidToken (tokenAt g pos) = true.
Proof.
  intros Hg. unfold tokenAt. destruct (g !! Z.to_nat (row pos)) as [r|] eqn:Er; [|done]. simpl.
  destruct (r !! Z.to_nat (col pos)) as [t|] eqn:Et; [|done]. simpl.
  apply list_elem_of_lookup_2 in Er, Et. by apply (Hg r).
Qed.

(** A successful parse is the placed board of the grid. *)
Lemma placePieces_placedBoard token w h n :
  0 ≤ w → 0 ≤ h → (∀ pos, isValidToken (token pos) = true) →
  placePieces token (allCells w h) (newBoard w h, n) =
    Ok (placedBoard token w h n, (placed token (allCells w h) n).2).
Proof.
  intros Hw Hh Hv. by rewrite (placePieces_spec w h token (allCells w h) [] []) by done.
Qed.

Lemma parseBoardOnly_Ok input n b n' :
  parseBoardOnly input n = Ok (b, n') →
  ∃ token w h, 0 < w ∧ 0 < h ∧ (∀ pos, isValidToken (token pos) = true) ∧
    b = placedBoard token w h n ∧ n' = (placed token (allCells w h) n).2.
Proof.
  unfold parseBoardOnly. destruct (readRows _ _) as [g|] eqn:Hr; [|done]. rewrite result_bind_Ok.
  destruct g as [|r rs]; [done|]. intros Hp.
  pose proof (readRows_ok _ _ _ 0 Hr ltac:(done) ltac:(done)) as Hg. simpl in Hg.
  assert (∀ pos, isValidToken (tokenAt (r :: rs) pos) = true) as Hv
    by (intros; by eapply tokenAt_valid).
  destruct (Hg r ltac:(by left)) as (_ & Hlen & _).
  rewrite placePieces_placedBoard in Hp by (done || lia). injection Hp as <- <-.
  exists (tokenAt (r :: rs)), (Z.of_nat (length r)), (Z.of_nat (length (r :: rs))).
  split_and!; [lia|simpl; lia|done..].
Qed.

Lemma tokenLook_ok t :
  isValidToken t = true →
  (tokenLook t).1 = NoKind ∧ (tokenLook t).2 = NoColor ∨
  (tokenLook t).1 ≠ NoKind ∧ (tokenLook t).2 ≠ NoColor.
Proof.
  intros Hv. unfold tokenLook. destruct (String.eqb_spec t "."); [by left|right].
  destruct (isValidToken_kind t Hv) as (k & -> & Hk); [done|]. by destruct (Ascii.eqb _ _).
Qed.

Lemma placedBoard_ok token w h n :
  0 ≤ w → 0 ≤ h → (∀ pos, isValidToken (token pos) = true) →
  board_ok (placedBoard token w h n) ∧
  liveIds (placedBoard token w h n) = seqZ n ((placed token (allCells w h) n).2 - n) ∧
  ∀ p, p ∈ livePieces (placedBoard token w h n) → getState p = Idle.
Proof.
  intros Hw Hh Hv. assert (grid_ok (placedBoard token w h n)) as Hg by (by apply placedBoard_grid_ok).
  assert (∀ p, p ∈ grid (placedBoard token w h n) → getKind p = NoKind → getId p = 0) as Hz.
  { unfold placedBoard; simpl. generalize n. clear Hg. induction (allCells w h) as [|pos l IH];
      intros m p; [by intros ?%elem_of_nil|]. simpl.
    destruct (String.eqb_spec (token pos) "."); simpl; intros [->|Hp]%elem_of_cons Hk; eauto.
    destruct (isValidToken_kind (token pos)) as (k & Hk' & Hnk); [done..|].
    simpl in Hk. by rewrite Hk' in Hk. }
  split_and!.
  - split; [done|..]; intros pos p Hp; destruct (placedBoard_cell _ _ _ _ _ _ Hw Hh Hp) as (Hl & Hc & Hs); [done|].
    pose proof (tokenLook_ok (token pos) (Hv pos)) as Ht. rewrite <-Hl in Ht. simpl in Ht.
    assert (p ∈ grid (placedBoard token w h n)) as Hin by (apply elem_of_grid; eauto).
    split_and!; [naive_solver|auto|by rewrite Hs].
  - by apply placed_ids.
  - intros p [_ Hp]%list_elem_of_filter. apply elem_of_grid in Hp as [pos Hp]; [|done].
    by apply placedBoard_cell in Hp as (_ & _ & ?).
Qed.

(** C38 Whatever text the parser accepts is a playable board: it is well
    formed, its pieces are idle and numbered consecutively from the counter, so
    the game on it satisfies the invariant of a game; the counter only grows. *)
Theorem parseBoardOnly_playable input n b n' :
  0 < n → parseBoardOnly input n = Ok (b, n') →
  engine_ok (newEngine b) ∧ liveIds b = seqZ n (n' - n) ∧ n ≤ n' ∧ 0 < width b ∧ 0 < height b.
Proof.
  intros Hn (token & w & h & Hw & Hh & Hv & -> & ->)%parseBoardOnly_Ok.
  destruct (placedBoard_ok token w h n ltac:(lia) ltac:(lia) Hv) as (Hok & Hids & Hidle).
  split_and!; [|done| |done..].
  - apply newEngine_invariant; [done|..|done]; rewrite Hids; [apply NoDup_seqZ|].
    rewrite elem_of_seqZ. lia.
  - by apply placed_ids.
Qed.

(** ** What is printed is read back *)

Lemma printRow_join w cell : 0 ≤ w → printRow w cell = joinWith " " (map cell (seqZ 0 w)).
Proof.
  intros Hw. unfold printRow. cut (∀ k n, 0 ≤ n → k + n = w →
    foldr (λ c acc, cell c +:+ (if c <? w - 1 then " " else "") +:+ acc) "" (seqZ k n) =
    joinWith " " (map cell (seqZ k n))); [intros Hc; apply Hc; lia|].
  intros k n Hn. revert k. pattern n. apply natlike_ind; [|clear n Hn|done].
  - done.
  - intros n Hn IH k Hk. rewrite (seqZ_cons k) by lia.
    replace (Z.pred (Z.succ n)) with n by lia.
    simpl. rewrite (IH (Z.succ k)) by lia. destruct (Z.eq_dec n 0) as [->|Hnz].
    + replace (k <? w - 1) with false by (symmetry; apply Z.ltb_ge; lia). simpl. apply append_nil_r.
    + replace (k <? w - 1) with true by (symmetry; apply Z.ltb_lt; lia).
      rewrite (seqZ_cons (Z.succ k)) by lia. reflexivity.
Qed.

Lemma allChars_join P sep l :
  allChars P sep = true → (∀ t, t ∈ l → allChars P t = true) → allChars P (joinWith sep l) = true.
Proof.
  intros Hs. induction l as [|t l IH]; intros Hl; [done|]. destruct l as [|u l]; [apply Hl; by left|].
  change (allChars P (t +:+ sep +:+ joinWith sep (u :: l)) = true).
  rewrite !allChars_app, Hs, IH; [|intros; apply Hl; by right]. by rewrite Hl by left.
Qed.

(** A text the printer writes in a cell. *)
Definition cell_text (t : string) : Prop := ∃ c k, t = cellText (Some (mkPieceRaw 0 c k (mkPos 0 0) Idle)).

Lemma cellText_shape o : cell_text (cellText o).
Proof.
  destruct o as [p|]; [|by exists White, NoKind]. by exists (getColor p), (getKind p).
Qed.

Lemma cell_text_ok t :
  cell_text t → isValidToken t = true ∧ isToken t = true ∧ noNewline t = true ∧ noReturn t = true ∧
  t ≠ "Commands:" ∧ t ≠ "Board:".
Proof. intros (c & k & ->). by destruct c, k; split_and!. Qed.

Lemma readRows_print rows acc w :
  (∀ r, r ∈ acc ++ rows → length r = w ∧ r ≠ [] ∧ ∀ t, t ∈ r → cell_text t) →
  readRows (map (joinWith " ") rows) acc = Ok (acc ++ rows).
Proof.
  revert acc. induction rows as [|r rows IH]; intros acc Hok; [by rewrite app_nil_r|].
  destruct (Hok r) as (Hlen & Hne & Ht); [set_solver|].
  cbn [map readRows]. unfold splitLine. rewrite chomp_id, words_join.
  2: { intros t Hin. by apply cell_text_ok, Ht. }
  2: { apply allChars_join; [done|]. intros t Hin. by apply cell_text_ok, Ht. }
  destruct r as [|t0 ts]; [done|].
  destruct (cell_text_ok t0 (Ht t0 ltac:(by left))) as (_ & _ & _ & _ & Hc & Hb).
  destruct (String.eqb_spec t0 "Commands:"); [done|]. destruct (String.eqb_spec t0 "Board:"); [done|].
  assert (match acc with [] => false | row :: _ => negb (Nat.eqb (length (t0 :: ts)) (length row)) end = false) as ->.
  { destruct acc as [|r0 acc]; [done|]. destruct (Hok r0) as [-> _]; [set_solver|].
    rewrite Hlen. by rewrite Nat.eqb_refl. }
  assert (forallb isValidToken (t0 :: ts) = true) as ->.
  { apply forallb_elem. intros t Hin. by apply cell_text_ok, Ht. }
  cbv zeta. cbn [negb]. rewrite IH.
  - by rewrite <-app_assoc.
  - intros r. rewrite <-app_assoc. apply Hok.
Qed.

Definition printedRows (w h : Z) (cell : Position → string) : list (list string) :=
  map (λ r, map (λ c, cell (mkPos r c)) (seqZ 0 w)) (seqZ 0 h).

Lemma printRows_lines w h cell :
  0 ≤ w → (∀ pos, cell_text (cell pos)) →
  getlines (printRows w h cell) = map (joinWith " ") (printedRows w h cell).
Proof.
  intros Hw Hc. unfold printRows, printedRows. rewrite map_map.
  rewrite <-(getlines_lines (map _ (seqZ 0 h))).
  - f_equal. induction (seqZ 0 h) as [|r l IH]; [done|]. simpl. rewrite IH.
    by rewrite printRow_join.
  - intros s (r & -> & _)%list_elem_of_fmap. apply allChars_join; [done|].
    intros t (c & -> & _)%list_elem_of_fmap. by apply cell_text_ok.
Qed.

Lemma tokenAt_printed w h cell pos :
  0 ≤ row pos < h → 0 ≤ col pos < w → tokenAt (printedRows w h cell) pos = cell pos.
Proof.
  intros Hr Hc. unfold tokenAt, printedRows. rewrite list_lookup_fmap.
  rewrite lookup_seqZ_lt by lia. simpl. rewrite list_lookup_fmap, lookup_seqZ_lt by lia. simpl.
  destruct pos as [r c]; simpl in *. do 2 f_equal; lia.
Qed.

Lemma parse_printRows w h cell n :
  0 < w → 0 < h → (∀ pos, cell_text (cell pos)) →
  ∃ token, parseBoardOnly (printRows w h cell) n =
      Ok (placedBoard token w h n, (placed token (allCells w h) n).2) ∧
    (∀ pos, isValidToken (token pos) = true) ∧
    ∀ pos, isWithinBounds (newBoard w h) pos = true → token pos = cell pos.
Proof.
  intros Hw Hh Hc. exists (tokenAt (printedRows w h cell)).
  assert (∀ r, r ∈ printedRows w h cell → length r = Z.to_nat w ∧ r ≠ [] ∧ ∀ t, t ∈ r → cell_text t) as Hrows.
  { intros r (i & -> & _)%list_elem_of_fmap. split_and!.
    - by rewrite length_fmap, length_seqZ.
    - rewrite (seqZ_cons 0 w) by lia. done.
    - intros t (j & -> & _)%list_elem_of_fmap. apply Hc. }
  assert (rows_ok (Z.to_nat w) (printedRows w h cell)) as Hrok.
  { intros r Hr. destruct (Hrows r Hr) as (Hl & Hne & Ht). split_and!; [done|lia|].
    intros t Hin. by apply cell_text_ok, Ht. }
  assert (length (printedRows w h cell) = Z.to_nat h) as Hlen
    by (unfold printedRows; by rewrite length_fmap, length_seqZ).
  assert (∀ pos, isValidToken (tokenAt (printedRows w h cell) pos) = true) as Hv
    by (intros; by eapply tokenAt_valid).
  split_and!; [|done|].
  - unfold parseBoardOnly. rewrite printRows_lines by (done || lia).
    rewrite (readRows_print _ [] (Z.to_nat w)) by done. rewrite result_bind_Ok.
    simpl app. destruct (printedRows w h cell) as [|r rs] eqn:Hp; [simpl in Hlen; lia|].
    destruct (Hrows r ltac:(by left)) as (Hr & _). rewrite Hr, Hlen, !Z2Nat.id by lia.
    rewrite <-Hp in *. apply placePieces_placedBoard; [lia|lia|done].
  - intros pos [? ?]%isWithinBounds_spec. by apply tokenAt_printed.
Qed.

Lemma tokenLook_cellText p : piece_ok p → tokenLook (cellText (Some p)) = look p.
Proof.
  intros (Hk & _). unfold look. unfold cellText, kindEqb. case_bool_decide as Hn.
  - rewrite Hn. by rewrite (proj1 Hk Hn).
  - assert (getColor p ≠ NoColor) by (intros ?; tauto). clear Hk.
    by destruct (getColor p), (getKind p).
Qed.

Lemma length_live_looks (l l' : list Piece) :
  map look l = map look l' → length (filter isReal l) = length (filter isReal l').
Proof.
  revert l'. induction l as [|p l IH]; intros [|q l']; [done..|]. simpl. intros [= Hk Hc Hl].
  assert (isReal p = isReal q) as Hr by (unfold isReal; congruence).
  rewrite !filter_cons, Hr. case_decide; simpl; by rewrite (IH l' Hl).
Qed.

(** C37 Printing a board and parsing the text gives the board back, up to the
    identities of the pieces: the same size, the same kind and colour in every
    cell, all pieces idle, and ids consecutive from the counter. *)
Theorem parse_print b n :
  board_ok b → 0 < width b → 0 < height b →
  ∃ b', parseBoardOnly (printBoard b) n = Ok (b', n + Z.of_nat (length (livePieces b))) ∧
    width b' = width b ∧ height b' = height b ∧
    (∀ pos, look <$> getPiece b' pos = look <$> getPiece b pos) ∧
    liveIds b' = seqZ n (Z.of_nat (length (livePieces b))).
Proof.
  intros Hok Hw Hh. pose proof (board_grid _ Hok) as Hg.
  destruct (parse_printRows (width b) (height b)
    (λ pos, cellText (getPieceAt b (row pos) (col pos))) n Hw Hh) as (token & Hp & Hv & Ht);
    [intros; apply cellText_shape|].
  destruct (placedBoard_ok token (width b) (height b) n ltac:(lia) ltac:(lia) Hv) as (Hok' & Hids & _).
  set (b' := placedBoard token (width b) (height b) n) in *.
  assert (∀ pos, look <$> getPiece b' pos = look <$> getPiece b pos) as Hlook.
  { intros pos. destruct (isWithinBounds b pos) eqn:Hb.
    - destruct (placedBoard_lookup token (width b) (height b) n pos) as (p' & Hp' & Hl & _); [lia|lia|done|].
      destruct (getPiece_is_Some b pos Hg Hb) as [p Hpp]. fold b' in Hp'.
      rewrite Hp', Hpp. simpl. f_equal. rewrite Hl, Ht by done.
      rewrite getPieceAt_getPiece. replace (mkPos (row pos) (col pos)) with pos by (by destruct pos).
      rewrite Hpp. apply tokenLook_cellText. exact (board_piece _ Hok _ _ Hpp).
    - by rewrite (getPiece_outside b pos Hb), (getPiece_outside b' pos Hb). }
  assert (length (livePieces b') = length (livePieces b)) as Hn.
  { unfold livePieces. apply length_live_looks. apply (inj (map Some)).
    rewrite !map_map. change (λ x, Some (look x)) with (λ x : Piece, fmap look (Some x)).
    rewrite <-!(map_map Some (fmap look)), <-!grid_allCells by (done || apply Hok').
    change (width b') with (width b). change (height b') with (height b).
    rewrite !map_map. apply map_ext. done. }
  assert ((placed token (allCells (width b) (height b)) n).2 - n = Z.of_nat (length (livePieces b))) as Hcount.
  { destruct (placed_ids token (allCells (width b) (height b)) n ltac:(auto)) as [_ Hle].
    pose proof (f_equal length Hids) as Hl. unfold liveIds in Hl.
    rewrite length_fmap, length_seqZ in Hl. rewrite <-Hn. lia. }
  exists b'. split_and!; try done.
  - unfold printBoard. rewrite Hp. do 2 f_equal. lia.
  - by rewrite Hids, Hcount.
Qed.

(** ** [StartingBoard.cpp] *)

Definition startingRows : list string :=
  ["bR bN bB bQ bK bB bN bR"; "bP bP bP bP bP bP bP bP";
   ". . . . . . . ."; ". . . . . . . ."; ". . . . . . . ."; ". . . . . . . .";
   "wP wP wP wP wP wP wP wP"; "wR wN wB wQ wK wB wN wR"].

Definition textOf (lines : list string) : string := foldr (λ s acc, s +:+ endl +:+ acc) "" lines.

Definition makeStartingBoard (idCounter : Z) : result (Board * Z) :=
  parseBoardOnly (textOf (["Board:"] ++ startingRows ++ ["Commands:"])) idCounter.

Definition liveOf (c : Color) (k : Kind) (b : Board) : nat :=
  length (filter (λ p, look p = (k, c)) (livePieces b)).

Definition startingToken : Position → string := tokenAt (map words startingRows).

Lemma startingToken_valid pos : isValidToken (startingToken pos) = true.
Proof.
  apply (tokenAt_valid _ 8). intros r Hin.
  assert (Forall (λ r, length r = 8%nat ∧ Forall (λ t, isValidToken t = true) r) (map words startingRows))
    as Hall by (apply (bool_decide_unpack _); vm_compute; exact I).
  rewrite Forall_forall in Hall. destruct (Hall r Hin) as [? Ht]. rewrite Forall_forall in Ht.
  split_and!; [done|lia|done].
Qed.

Lemma makeStartingBoard_placed n :
  makeStartingBoard n =
    Ok (placedBoard startingToken 8 8 n, (placed startingToken (allCells 8 8) n).2).
Proof.
  assert (readRows (getlines (textOf (["Board:"] ++ startingRows ++ ["Commands:"]))) [] =
    Ok (map words startingRows)) as Hr by (vm_compute; reflexivity).
  unfold makeStartingBoard, parseBoardOnly. rewrite Hr, result_bind_Ok.
  apply placePieces_placedBoard; [lia|lia|exact startingToken_valid].
Qed.

(** Any placed board with a positive counter is playable. *)
Lemma placedBoard_playable token w h n :
  0 ≤ w → 0 ≤ h → 0 < n → (∀ pos, isValidToken (token pos) = true) →
  engine_ok (newEngine (placedBoard token w h n)).
Proof.
  intros Hw Hh Hn Hv. destruct (placedBoard_ok token w h n Hw Hh Hv) as (Hok & Hids & Hidle).
  apply newEngine_invariant; [done|..|done]; rewrite Hids; [apply NoDup_seqZ|].
  rewrite elem_of_seqZ. lia.
Qed.

Lemma placed_count token w h n :
  0 ≤ w → 0 ≤ h → (∀ pos, isValidToken (token pos) = true) →
  (placed token (allCells w h) n).2 = n + Z.of_nat (length (livePieces (placedBoard token w h n))).
Proof.
  intros Hw Hh Hv. destruct (placedBoard_ok token w h n Hw Hh Hv) as (_ & Hids & _).
  destruct (placed_ids token (allCells w h) n ltac:(auto)) as [_ Hle].
  apply (f_equal length) in Hids. unfold liveIds in Hids.
  rewrite length_fmap, length_seqZ in Hids. lia.
Qed.

Lemma starting_shape n :
  let b := placedBoard startingToken 8 8 n in
  printBoard b = textOf startingRows ∧ length (livePieces b) = 32%nat ∧
  liveOf White King b = 1%nat ∧ liveOf Black King b = 1%nat.
Proof. intros b. unfold b. split_and!; vm_compute; reflexivity. Qed.

(** Every room starts on a playable board: whatever the counter of piece ids
    has reached, the starting position parses, to the eight rows of the text
    with one king and sixteen pieces a side, and uses up 32 ids. *)
Theorem makeStartingBoard_ok n :
  0 < n → ∃ b, makeStartingBoard n = Ok (b, n + 32) ∧ engine_ok (newEngine b) ∧
    printBoard b = textOf startingRows ∧ length (livePieces b) = 32%nat ∧
    liveOf White King b = 1%nat ∧ liveOf Black King b = 1%nat.
Proof.
  intros Hn. destruct (starting_shape n) as (Hprint & Hlen & Hw & Hbk).
  exists (placedBoard startingToken 8 8 n).
  rewrite makeStartingBoard_placed, placed_count, Hlen by (lia || exact startingToken_valid).
  split_and!; [reflexivity| |exact Hprint|reflexivity|exact Hw|exact Hbk].
  apply placedBoard_playable; [lia..|exact startingToken_valid].
Qed.
