(* ===== verification/Server.v ===== *)
(** * A shard ([server/app/handlers], [server/app/logic],
    [server/app/networking], [server/net/WsServer])

    The message handlers, the command dispatcher, the event bus with the
    subscribers every room gets, and the steps the event loop of [WsServer]
    makes of them: a message, a close, the two halves of a tick, a timer, a
    message of the other services.

    The stores behind interfaces are parameters: the users table is a state of
    its own with [login] and [updateElo] ([UserStore]); the session store maps
    tokens to users.  What leaves the process is the list of outputs. *)
From S2P Require Import Prelude Model Text Double Rules Motion Arbiter ArbiterSteps Lifecycle Engine EngineSpec EngineTheorems Json Observers Codecs Session Registry BoardIO.
From Stdlib Require Import SpecFloat.

(** ** [EloCalculator.cpp] *)

Definition kFactor : Z := 32.

(** [std::lround] of a finite double: halves away from zero. *)
Definition dRound (d : double) : Z :=
  match d with
  | S754_finite s m e =>
    let a := if 0 <=? e then Z.pos m * 2 ^ e else (Z.pos m + 2 ^ (- e - 1)) / 2 ^ (- e) in
    if s then - a else a
  | _ => 0
  end.

Section Elo.
(** [std::pow(10.0, x)]. *)
Variable pow10 : double → double.

Definition expectedWinner (winnerElo loserElo : Z) : double :=
  dDiv d1 (dAdd d1 (pow10 (dDiv (dOfInt (loserElo - winnerElo)) (dOfInt 400)))).

Definition applyElo (winnerElo loserElo : Z) : Z * Z :=
  let expectedW := expectedWinner winnerElo loserElo in
  let expectedL := dSub d1 expectedW in
  (winnerElo + dRound (dMul (dOfInt kFactor) (dSub d1 expectedW)),
   loserElo + dRound (dMul (dOfInt kFactor) (dSub d0 expectedL))).
End Elo.

(** ** The stores *)
Record LoginResult := mkLogin { lr_success : bool; lr_message : string; lr_elo : Z }.

Class UserStore (U : Type) := {
  login : string → string → U → U * LoginResult;
  updateElo : string → Z → U → U
}.

Record GameRecord := mkRecord {
  rec_room : string; rec_winner : string; rec_winnerElo : Z; rec_loser : string; rec_loserElo : Z;
  rec_reason : string; rec_moveLog : json
}.

(** ** The bus and its subscribers

    One [NetworkBroadcaster] object is named by a number: its handler holds a
    pointer to it, which is only valid while the object is alive. *)
Inductive Subscriber :=
  | SubBroadcaster (id : Z) (room : string)
  | SubElo
  | SubHistory (room : string)
  | SubMirror (room : string)
  | SubMirrorClear (room : string).

Notation EventBus := (gmap string (list Subscriber)).
Definition subscribe (topic : string) (s : Subscriber) (bus : EventBus) : EventBus :=
  <[topic := default [] (bus !! topic) ++ [s]]> bus.

Record Server (U : Type) := mkServer {
  registry : SessionRegistry;
  clients : ClientSessionRegistry;
  tickets : MatchTicketRegistry;
  bus : EventBus;
  broadcasters : gmap string (list Z);
  nextBroadcaster : Z;
  idCounter : Z;
  users : U
}.
Arguments mkServer {U}.
Arguments registry {U}.
Arguments clients {U}.
Arguments tickets {U}.
Arguments bus {U}.
Arguments broadcasters {U}.
Arguments nextBroadcaster {U}.
Arguments idCounter {U}.
Arguments users {U}.

Inductive ServerOut :=
  | Push (h : hdl) (text : string)
  | Nats (subject : string) (data : json)
  | Store (o : Output)
  | RecordGame (r : GameRecord)
  | SaveState (room board moveLog whiteUsername : string) (whiteElo : Z) (blackUsername : string) (blackElo : Z)
  | ClearState (room : string).

(** An answer, or the text of what is thrown instead. *)
Definition reply3 (success : bool) (message : string) : json :=
  jObj [("success", JBool success); ("message", JString message)].

Inductive HandlerId := HLogin | HJoinRoom | HFindGame | HEnterRoom | HAuth.

(** [MessageRouter]: the last registration of a type counts. *)
Definition MessageRouter := list (MessageType * HandlerId).
Definition registerHandler (type : MessageType) (h : HandlerId) (r : MessageRouter) : MessageRouter := (type, h) :: r.
Fixpoint findHandler (type : MessageType) (r : MessageRouter) : option HandlerId :=
  match r with
  | [] => None
  | (t, h) :: r => if decide (t = type) then Some h else findHandler type r
  end.

(** ** [CommandDispatcher.cpp] *)

Record DispatchResult := mkDispatch { dr_success : bool; dr_message : string }.

Definition positionFromJson (j : json) : result Position :=
  r ← jInt "row" j; c ← jInt "col" j; Ok (mkPos r c).

Definition pieceAt (snap : GameSnapshot) (pos : Position) : option SnapshotPiece :=
  find (λ p, posEq (sp_cell p) pos) (pieces snap).

Section Server.
Context `{HashIter} `{JsonText} {U : Type} `{UserStore U}.
Variable pow10 : double → double.
Variable directory : bool.
Variable shardAddress : string.
Variable reconnectStore : bool.
(** [None]: no Redis. *)
Variable sessionStore : option (string → option (string * Z)).
Variables nats history stateStore : bool.

Definition setRegistry (r : SessionRegistry) (v : Server U) : Server U :=
  mkServer r (clients v) (tickets v) (bus v) (broadcasters v) (nextBroadcaster v) (idCounter v) (users v).
Definition setClients (c : ClientSessionRegistry) (v : Server U) : Server U :=
  mkServer (registry v) c (tickets v) (bus v) (broadcasters v) (nextBroadcaster v) (idCounter v) (users v).
Definition setTickets (t : MatchTicketRegistry) (v : Server U) : Server U :=
  mkServer (registry v) (clients v) t (bus v) (broadcasters v) (nextBroadcaster v) (idCounter v) (users v).
Definition setUsers (u : U) (v : Server U) : Server U :=
  mkServer (registry v) (clients v) (tickets v) (bus v) (broadcasters v) (nextBroadcaster v) (idCounter v) u.

(** What a step of the loop ends with: the state, what went out, and the text
    of an exception that nothing caught. *)
Definition Done (A : Type) : Type := Server U * list ServerOut * result A.

(** A command of the sender's own piece at [pos]. *)
Definition commandPiece (pos : Position) (f : GameEngine → GameEngine * MoveResult)
    (senderColor : Color) (s : GameSession) : result (GameSession * DispatchResult) :=
  match pieceAt (snapshot (engine_ s)) pos with
  | None => Ok (s, mkDispatch false "not your piece")
  | Some mover =>
    if negb (colorEqb (sp_color mover) senderColor) then Ok (s, mkDispatch false "not your piece")
    else '(s, r) ← runEngine f s; Ok (s, mkDispatch (is_accepted r) (mr_reason r))
  end.

(** The [try] block. *)
Definition dispatchTry (m : Message) (s : GameSession) (senderColor : Color) : result (GameSession * DispatchResult) :=
  match msg_type m with
  | Move =>
    if colorEqb senderColor NoColor then Ok (s, mkDispatch false "spectators cannot move pieces")
    else
      from ← (v ← jAt "from" (payload m); positionFromJson v);
      to ← (v ← jAt "to" (payload m); positionFromJson v);
      commandPiece from (requestMove (simultaneousMode_ s) from to) senderColor s
  | JumpMsg =>
    if colorEqb senderColor NoColor then Ok (s, mkDispatch false "spectators cannot move pieces")
    else
      pos ← (v ← jAt "pos" (payload m); positionFromJson v);
      commandPiece pos (requestJump pos) senderColor s
  | Hello => Ok (s, mkDispatch true "hello acknowledged")
  | Snapshot => Ok (s, mkDispatch false "clients may not send SNAPSHOT messages")
  | Login => Ok (s, mkDispatch false "login must be handled before dispatch")
  | JoinRoom => Ok (s, mkDispatch false "room messages must be handled before dispatch")
  | FindGame => Ok (s, mkDispatch false "FindGame must be handled before dispatch")
  | GameFound => Ok (s, mkDispatch false "GameFound is server-to-client only")
  | MoveLogged => Ok (s, mkDispatch false "MoveLogged is server-to-client only")
  | CaptureEventMsg => Ok (s, mkDispatch false "CaptureEvent is server-to-client only")
  | EnterRoom => Ok (s, mkDispatch false "EnterRoom must be handled before dispatch")
  | Auth => Ok (s, mkDispatch false "unknown message type")
  end.

Definition dispatch (m : Message) (s : GameSession) (senderColor : Color) : GameSession * DispatchResult :=
  match dispatchTry m s senderColor with
  | Ok r => r
  | Throw what => (s, mkDispatch false ("malformed payload: " +:+ what))
  end.

(** ** The handlers *)

(** [LoginHandler.cpp]. *)
Definition handleLogin (h : hdl) (payload : json) (v : Server U) : Done json :=
  match (u ← jStr "username" payload; p ← jStr "password" payload; Ok (u, p)) with
  | Throw what => (v, [], Throw what)
  | Ok (username, password) =>
    let '(us, r) := login username password (users v) in
    let v := setUsers us v in
    let v := if lr_success r then setClients (onLogin h username (lr_elo r) (clients v)) v else v in
    (v, [], Ok (jObj [("success", JBool (lr_success r)); ("message", JString (lr_message r)); ("elo", JInt (lr_elo r))]))
  end.

(** What both handlers that seat a connection answer. *)
Definition seatedReply (message name : string) (h : hdl) (v : Server U) : result json :=
  let role := roleOf h (registry v) in
  let i := resolveIdentity (registry v) (clients v) name in
  s ← of_option "null GameSession" (room name (registry v));
  Ok (jObj [("success", JBool true); ("message", JString message); ("role", JString (roleName role));
    ("roomName", JString name); ("moveLog", fullMoveLog s);
    ("whiteName", JString (id_whiteUsername i)); ("whiteElo", JInt (id_whiteElo i));
    ("blackName", JString (id_blackUsername i)); ("blackElo", JInt (id_blackElo i))]).

(** [JoinRoomHandler.cpp]. *)
Definition handleJoinRoom (h : hdl) (payload : json) (v : Server U) : Done json :=
  match jStr "name" payload with
  | Throw what => (v, [], Throw what)
  | Ok name =>
    if negb (roomExists name (registry v)) then (v, [], Ok (reply3 false "room not found"))
    else
      let v := setRegistry (joinRoom name h "" (registry v)).1 v in
      (v, [], seatedReply "joined room" name h v)
  end.

(** [EnterRoomHandler.cpp]. *)
Definition handleEnterRoom (store : string → option (string * Z)) (h : hdl) (payload : json) (v : Server U) : Done json :=
  match (t ← jStr "token" payload; n ← jStr "roomName" payload; Ok (t, n)) with
  | Throw what => (v, [], Throw what)
  | Ok (token, roomName) =>
    match store token with
    | None => (v, [], Ok (reply3 false "invalid or expired token"))
    | Some (username, elo) =>
      let v := setClients (onLogin h username elo (clients v)) v in
      if negb (roomExists roomName (registry v)) then (v, [], Ok (reply3 false "room not found"))
      else
        let v := setRegistry (joinRoom roomName h username (registry v)).1 v in
        let role := roleOf h (registry v) in
        let '(r, _, out) := cancelDisconnectCountdown reconnectStore roomName role username (registry v) in
        let v := setRegistry r v in
        (v, map Store out, seatedReply "entered room" roomName h v)
    end
  end.

(** [AuthHandler.cpp]. *)
Definition handleAuth (store : string → option (string * Z)) (h : hdl) (payload : json) (v : Server U) : Done json :=
  match jStr "token" payload with
  | Throw what => (v, [], Throw what)
  | Ok token =>
    match store token with
    | None => (v, [], Ok (reply3 false "invalid or expired token"))
    | Some (username, elo) =>
      (setClients (onLogin h username elo (clients v)) v, [], Ok (reply3 true "authenticated"))
    end
  end.

(** [FindGameHandler.cpp]. *)
Definition handleFindGame (h : hdl) (payload : json) (v : Server U) : Done json :=
  if negb nats then (v, [], Ok (reply3 false "matchmaking unavailable"))
  else match sessionFor h (clients v) with
  | None => (v, [], Ok (reply3 false "must be logged in to find a game"))
  | Some session =>
    let '(t, ticketId) := addTicket h (tickets v) in
    (setTickets t v,
     [Nats "matchmaking.request" (jObj [("ticketId", JString ticketId); ("username", JString (username session));
        ("elo", JInt (elo session))])],
     Ok (reply3 true "searching for opponent"))
  end.

(** One side of a [matchmaking.assigned] event. *)
Definition gameFoundPayload (side : string) (event : json) : result json :=
  roomName ← jAt "roomName" event; shard ← jAt "shard" event;
  role ← jAt ("role" +:+ side) event;
  whiteName ← jAt "whiteName" event; whiteElo ← jAt "whiteElo" event;
  blackName ← jAt "blackName" event; blackElo ← jAt "blackElo" event;
  Ok (jObj [("success", JBool true); ("message", JString "match found"); ("roomName", roomName);
    ("shard", shard); ("role", role); ("moveLog", MoveCodec.encodeAll [] []);
    ("whiteName", whiteName); ("whiteElo", whiteElo); ("blackName", blackName); ("blackElo", blackElo)]).

Definition assignSide (event : json) (side : string) (v : Server U) : Done unit :=
  match jStr ("ticket" +:+ side) event with
  | Throw what => (v, [], Throw what)
  | Ok ticketId =>
    let '(t, found) := resolveTicket ticketId (tickets v) in
    let v := setTickets t v in
    match found with
    | None => (v, [], Ok tt)
    | Some h =>
      match (p ← gameFoundPayload side event; MessageCodec.encode (mkMessage GameFound p)) with
      | Throw what => (v, [], Throw what)
      | Ok text =>
        (v, [Push h text], (_ ← jStr "roomName" event; _ ← jStr "shard" event; Ok tt))
      end
    end
  end.

Definition handleAssigned (event : json) (v : Server U) : Done unit :=
  let '(v, outA, ra) := assignSide event "A" v in
  match ra with
  | Throw what => (v, outA, Throw what)
  | Ok _ => let '(v, outB, rb) := assignSide event "B" v in (v, outA ++ outB, rb)
  end.

Definition handleTimeout (event : json) (v : Server U) : Done unit :=
  match jStr "ticketId" event with
  | Throw what => (v, [], Throw what)
  | Ok ticketId =>
    let '(t, found) := resolveTicket ticketId (tickets v) in
    let v := setTickets t v in
    match found with
    | None => (v, [], Ok tt)
    | Some h =>
      match MessageCodec.encode (mkMessage GameFound (reply3 false "no players available")) with
      | Throw what => (v, [], Throw what)
      | Ok text => (v, [Push h text], Ok tt)
      end
    end
  end.

(** [BroadcasterManager::attach]: the old objects of the room are destroyed,
    their handlers stay subscribed. *)
Definition attachBroadcasters (roomName : string) (v : Server U) : Server U :=
  let id := nextBroadcaster v in
  let r := onRoom roomName (withSession (setSnapshotSender roomName)) (registry v) in
  let b := subscribe (moveLogTopic roomName) (SubBroadcaster id roomName) (bus v) in
  let b := subscribe (captureTopic roomName) (SubBroadcaster (id + 1) roomName) b in
  mkServer r (clients v) (tickets v) b (<[roomName := [id; id + 1]]> (broadcasters v)) (id + 2)
    (idCounter v) (users v).

(** The [attachBroadcaster] of [MessageDispatcher]. *)
Definition attach (roomName : string) (v : Server U) : Server U :=
  let v := attachBroadcasters roomName v in
  let b := subscribe (gameEndedTopic roomName) SubElo (bus v) in
  let b := subscribe (gameEndedTopic roomName) (SubHistory roomName) b in
  let b := subscribe (moveLogTopic roomName) (SubMirror roomName) b in
  let b := subscribe (gameEndedTopic roomName) (SubMirrorClear roomName) b in
  mkServer (registry v) (clients v) (tickets v) b (broadcasters v) (nextBroadcaster v) (idCounter v) (users v).

(** [AllocateRoomHandler::doAllocate].  The board is parsed before the name is
    tested, so piece ids are used up either way. *)
Definition doAllocate (request : json) (v : Server U) : Done json :=
  match (n ← jStr "roomName" request; w ← jValue getString "whiteUsername" "" request;
         b ← jValue getString "blackUsername" "" request; Ok (n, w, b)) with
  | Throw what => (v, [], Throw what)
  | Ok (roomName, whiteUsername, blackUsername) =>
    match makeStartingBoard (idCounter v) with
    | Throw what => (v, [], Throw what)
    | Ok (board, ids) =>
      let '(r, created, out) := createRoom directory shardAddress roomName board true (registry v) in
      let v := mkServer r (clients v) (tickets v) (bus v) (broadcasters v) (nextBroadcaster v) ids (users v) in
      if negb created then (v, map Store out, Ok (reply3 false "room already exists"))
      else
        let v := attach roomName v in
        let v := if negb (String.eqb whiteUsername "") && negb (String.eqb blackUsername "")
                 then setRegistry (reserveSeats roomName whiteUsername blackUsername (registry v)) v else v in
        (v, map Store out, Ok (jObj [("success", JBool true); ("roomName", JString roomName)]))
    end
  end.

(** [AllocateRoomHandler::handle] posts [doAllocate] to the event loop and waits: a
    thrown exception leaves the loop, not the NATS callback that waits. *)
Inductive AllocateEnd := Allocated (reply : json) | LoopEnds (what : string).
Definition allocateHandle (request : json) (v : Server U) : Server U * list ServerOut * AllocateEnd :=
  let '(v, out, r) := doAllocate request v in
  (v, out, match r with Ok reply => Allocated reply | Throw what => LoopEnds what end).

(** ** [MessageDispatcher.cpp] *)

Definition router : MessageRouter :=
  let r := registerHandler Login HLogin [] in
  let r := registerHandler JoinRoom HJoinRoom r in
  let r := registerHandler FindGame HFindGame r in
  match sessionStore with
  | Some _ => registerHandler Auth HAuth (registerHandler EnterRoom HEnterRoom r)
  | None => r
  end.

Definition handle (id : HandlerId) (h : hdl) (payload : json) (v : Server U) : Done json :=
  let store := default (λ _, None) sessionStore in
  match id with
  | HLogin => handleLogin h payload v
  | HJoinRoom => handleJoinRoom h payload v
  | HFindGame => handleFindGame h payload v
  | HEnterRoom => handleEnterRoom store h payload v
  | HAuth => handleAuth store h payload v
  end.

(** The command path: the sender's own room. *)
Definition command (m : Message) (h : hdl) (senderRole : Color) (v : Server U) : Done json :=
  match roomOf h (registry v) with
  | None => (v, [], Throw "connection is not in a room")
  | Some roomName =>
    match room roomName (registry v) with
    | None => (v, [], Throw "connection is not in a room")
    | Some s =>
      let '(s, r) := dispatch m s senderRole in
      (setRegistry (onRoom roomName (withSession (λ _, s)) (registry v)) v, [],
       Ok (jObj [("success", JBool (dr_success r)); ("message", JString (dr_message r));
                 ("role", JString (roleName senderRole))]))
    end
  end.

(** [process]: the reply, as a JSON value; what is sent is its text. *)
Definition processJson (h : hdl) (text : string) (v : Server U) : Server U * list ServerOut * json :=
  let senderRole := roleOf h (registry v) in
  let failed what := jObj [("success", JBool false); ("message", JString ("decode failed: " +:+ what))] in
  match MessageCodec.decode text with
  | Throw what => (v, [], failed what)
  | Ok m =>
    let '(v, out, r) := match findHandler (msg_type m) router with
                        | Some id => handle id h (payload m) v
                        | None => command m h senderRole v
                        end in
    match r with
    | Throw what => (v, out, failed what)
    | Ok reply =>
      if jContains "type" reply then (v, out, reply)
      else match (n ← MessageCodec.typeName (msg_type m); jSet "type" (JString n) reply) with
           | Ok reply => (v, out, reply)
           | Throw what => (v, out, failed what)
           end
    end
  end.

(** The text of the reply is made outside the [try]. *)
Definition process (h : hdl) (text : string) (v : Server U) : Done string :=
  let '(v, out, reply) := processJson h text v in (v, out, dumpR reply).

(** ** Publishing

    [None] is undefined behaviour: a handler whose broadcaster is destroyed, or
    a session that no longer exists. *)

Definition sendToRoom (roomName text : string) (v : Server U) : list ServerOut :=
  map (λ h, Push h text) (connectionsInRoom roomName (registry v)).

(** [EloService::onGameEnded]. *)
Definition onGameEndedElo (data : json) (v : Server U) : Done unit :=
  match ResultCodec.decode data with
  | Throw what => (v, [], Throw what)
  | Ok r =>
    if String.eqb (winnerUsername r) "" || String.eqb (loserUsername r) "" then (v, [], Ok tt)
    else
      let '(w, l) := applyElo pow10 (winnerElo r) (loserElo r) in
      (setUsers (updateElo (loserUsername r) l (updateElo (winnerUsername r) w (users v))) v, [], Ok tt)
  end.

(** [GameHistoryService::onGameEnded]. *)
Definition onGameEndedHistory (roomName : string) (data : json) (v : Server U) : Done unit :=
  if negb history then (v, [], Ok tt)
  else match ResultCodec.decode data with
  | Throw what => (v, [], Throw what)
  | Ok r =>
    if String.eqb (winnerUsername r) "" || String.eqb (loserUsername r) "" then (v, [], Ok tt)
    else
      (v, [RecordGame (mkRecord roomName (winnerUsername r) (winnerElo r) (loserUsername r) (loserElo r)
             (match gr_reason r with KingCapture => "KingCapture" | Disconnect => "Disconnect" end)
             (gr_moveLog r))], Ok tt)
  end.

(** [GameStateMirrorService::mirror]. *)
Definition mirror (roomName : string) (v : Server U) : Done unit :=
  if negb stateStore then (v, [], Ok tt)
  else match room roomName (registry v) with
  | None => (v, [], Ok tt)
  | Some s =>
    match SnapshotCodec.encode (snapshot (engine_ s)) with
    | Throw what => (v, [], Throw what)
    | Ok j =>
      let i := identity_ s in
      (v, [SaveState roomName (dump j) (dump (fullMoveLog s)) (id_whiteUsername i) (id_whiteElo i)
             (id_blackUsername i) (id_blackElo i)], Ok tt)
    end
  end.

Definition runSubscriber (s : Subscriber) (data : json) (v : Server U) : option (Done unit) :=
  match s with
  | SubBroadcaster id roomName =>
    if decide (id ∈ default [] (broadcasters v !! roomName))
    then Some (v, sendToRoom roomName (dump data) v, Ok tt) else None
  | SubElo => Some (onGameEndedElo data v)
  | SubHistory roomName => Some (onGameEndedHistory roomName data v)
  | SubMirror roomName => Some (mirror roomName v)
  | SubMirrorClear roomName => Some (v, if stateStore then [ClearState roomName] else [], Ok tt)
  end.

(** Actions in sequence, up to the first exception. *)
Fixpoint runAll {A} (act : A → Server U → option (Done unit)) (l : list A) (v : Server U) : option (Done unit) :=
  match l with
  | [] => Some (v, [], Ok tt)
  | x :: l =>
    '(v, out, r) ← act x v;
    match r with
    | Throw what => Some (v, out, Throw what)
    | Ok _ => '(v, outs, r) ← runAll act l v; Some (v, out ++ outs, r)
    end
  end.

(** [EventBus::publish]. *)
Definition publish (topic : string) (data : json) (v : Server U) : option (Done unit) :=
  runAll (λ s, runSubscriber s data) (default [] (bus v !! topic)) v.

Definition runSessionOut (o : SessionOut) (v : Server U) : option (Done unit) :=
  match o with
  | Publish topic data => publish topic data v
  | SendSnapshot roomName text => Some (v, sendToRoom roomName text v, Ok tt)
  end.

Definition runOutput (o : Output) (v : Server U) : option (Done unit) :=
  match o with
  | Session o => runSessionOut o v
  | _ => Some (v, [Store o], Ok tt)
  end.

(** ** The event loop ([WsServer::run], [ConnectionHandler]) *)

(** [onTick] for one room: whether its step was handed to the pool. *)
Definition beginTick (roomName : string) (v : Server U) : Server U * bool :=
  match rooms_ (registry v) !! roomName with
  | None => (v, false)
  | Some rm =>
    let s := setIdentity (resolveIdentity (registry v) (clients v) roomName) (session rm) in
    let '(s, begun) := tryBeginTick s in
    (setRegistry (onRoom roomName (withSession (λ _, s)) (registry v)) v, begun)
  end.

(** The step on a worker thread. *)
Definition workerStep (ms : Z) (roomName : string) (v : Server U) : option (result (Server U * json)) :=
  s ← room roomName (registry v);
  Some ('(s, payload) ← computeStep ms s;
        Ok (setRegistry (onRoom roomName (withSession (λ _, s)) (registry v)) v, payload)).

(** What the worker posts back.  The outputs of the session are run after its
    step: no subscriber reads what the step changes. *)
Definition finishTick (roomName : string) (payload : json) (v : Server U) : option (Done unit) :=
  s ← room roomName (registry v);
  let '(s, outs, exn) := publishStep payload s in
  let v := setRegistry (onRoom roomName (withSession (λ _, s)) (registry v)) v in
  '(v, out, r) ← runAll runSessionOut outs v;
  match r, exn with
  | Throw what, _ | Ok _, Some what => Some (v, out, Throw what)
  | Ok _, None =>
    let r := onRoom roomName (withSession endTick) (registry v) in
    let '(r, store) := reapIfSafe directory roomName r in
    Some (setRegistry r v, out ++ map Store store, Ok tt)
  end.

(** The queued handler of a disconnect timer runs; before that the wait ended
    ([timerExpire]), which the program does not notice. *)
Definition timerStep (id : Z) (v : Server U) : option (Done unit) :=
  let '(r, outs, exn) := timerFire reconnectStore id (registry v) in
  '(v, out, r) ← runAll runOutput outs (setRegistry r v);
  match r, exn with
  | Throw what, _ | Ok _, Some what => Some (v, out, Throw what)
  | Ok _, None => Some (v, out, Ok tt)
  end.

(** [ConnectionHandler::onClose]. *)
Definition onClose (h : hdl) (v : Server U) : Server U * list ServerOut :=
  let roomName := default "" (roomOf h (registry v)) in
  let '(r, role, store) := leave directory h (registry v) in
  let '(username, elo) := match sessionFor h (clients v) with
                          | Some s => (username s, elo s) | None => ("", 0) end in
  let '(t, cancelled) := cancelTicket h (tickets v) in
  let out := match cancelled with
             | Some ticketId => if nats then [Nats "matchmaking.cancel" (jObj [("ticketId", JString ticketId)])] else []
             | None => [] end in
  let r := if negb (String.eqb roomName "") && (colorEqb role White || colorEqb role Black)
           then startDisconnectCountdown roomName role username elo r else r in
  (setTickets t (setClients (onDisconnect h (clients v)) (setRegistry r v)), map Store store ++ out).
End Server.

Definition newServer {U} (shardAddress : string) (u : U) : Server U :=
  mkServer newRegistry ∅ (newTickets shardAddress) ∅ ∅ 0 1 u.
