(* ===== verification/Users.v ===== *)
(** * The users table ([server/db/UserRepository])

    SQLite keeps the table: a row per user name, the primary key.  A statement
    selects, inserts or updates the row of one name; that an insertion fails for
    another reason (a full disk) is an argument.  [std::hash] is a parameter: it
    is a function of the password and nothing else is known of it. *)
From S2P Require Import Prelude Model Text Double Rules Motion Arbiter ArbiterSteps Lifecycle Engine EngineSpec EngineTheorems Json Observers Codecs Session Registry BoardIO Server.
#[local] Open Scope Z_scope.

Definition kStartingElo : Z := 1200.

(** The password column and the rating. *)
Record UserRow := mkUser { storedHash : string; storedElo : Z }.
Notation UserTable := (gmap string UserRow).

Section Users.
Variable hash : string → Z.
(** Whether the database takes a new row. *)
Variable accepts : string → bool.

Definition hashPassword (password : string) : string := showInt (hash password).

Definition userLogin (username password : string) (t : UserTable) : UserTable * LoginResult :=
  let hashed := hashPassword password in
  match t !! c_str username with
  | Some row =>
    if negb (String.eqb (storedHash row) hashed) then (t, mkLogin false "wrong password" 0)
    else (t, mkLogin true "login successful" (storedElo row))
  | None =>
    if negb (accepts username) then (t, mkLogin false "could not create account" 0)
    else (<[c_str username := mkUser hashed kStartingElo]> t, mkLogin true "account created" kStartingElo)
  end.

Definition userUpdateElo (username : string) (newElo : Z) (t : UserTable) : UserTable :=
  alter (λ row, mkUser (storedHash row) newElo) (c_str username) t.

#[export] Instance userRepository : UserStore UserTable := {| login := userLogin; updateElo := userUpdateElo |}.

(** Anything the server does to the table. *)
Inductive UserOp := OpLogin (username password : string) | OpUpdate (username : string) (newElo : Z).
Definition userOp (t : UserTable) (o : UserOp) : UserTable :=
  match o with OpLogin u p => (userLogin u p t).1 | OpUpdate u e => userUpdateElo u e t end.

(** An account is kept, its password with it. *)
Definition keeps (name : string) (hashed : string) (t : UserTable) : Prop :=
  ∃ row, t !! name = Some row ∧ storedHash row = hashed.

Lemma keeps_op name hashed t o : keeps name hashed t → keeps name hashed (userOp t o).
Proof.
  intros (row & Hrow & Hh). destruct o as [u p|u e]; simpl.
  - unfold userLogin. destruct (t !! c_str u) as [row'|] eqn:Hu; [case_match; by exists row|].
    case_match; [by exists row|]. exists row. split; [|done]. simpl. rewrite lookup_insert_ne; [done|congruence].
  - unfold userUpdateElo, keeps. destruct (decide (c_str u = name)) as [<-|Hne].
    + rewrite lookup_alter_eq, Hrow. simpl. by eexists.
    + rewrite lookup_alter_ne by done. by exists row.
Qed.

Lemma keeps_ops name hashed ops t : keeps name hashed t → keeps name hashed (foldl userOp t ops).
Proof. revert t. induction ops as [|o ops IH]; intros t Ht; [done|]. by apply IH, keeps_op. Qed.

(** A name belongs to whoever logged in with it first: the first login creates
    the account with 1200 points, and whatever logins and rating changes follow,
    later logins under the name succeed exactly with passwords of the same hash,
    and then report the rating of the last change. *)
Theorem account_kept username password password' ops t :
  t !! c_str username = None → accepts username = true →
  let '(t1, r1) := userLogin username password t in
  let t2 := foldl userOp t1 ops in
  let '(t3, r2) := userLogin username password' t2 in
  r1 = mkLogin true "account created" 1200 ∧
  (lr_success r2 = true ↔ hash password' = hash password) ∧ t3 = t2 ∧
  (∀ newElo, lr_success r2 = true → lr_elo (userLogin username password' (userUpdateElo username newElo t2)).2 = newElo).
Proof.
  intros Hnew Hacc. unfold userLogin at 1. rewrite Hnew, Hacc. cbn [negb].
  set (t1 := <[c_str username := _]> t).
  assert (keeps (c_str username) (hashPassword password) (foldl userOp t1 ops)) as (row & Hrow & Hh).
  { apply keeps_ops. eexists. split; [apply lookup_insert_eq|done]. }
  set (t2 := foldl userOp t1 ops) in *. unfold userLogin at 1. rewrite Hrow, Hh.
  assert (String.eqb (hashPassword password) (hashPassword password') = true ↔ hash password' = hash password) as Heq.
  { rewrite String.eqb_eq. unfold hashPassword, showInt. split; [by intros ?%(inj pretty)|by intros ->]. }
  destruct (String.eqb _ _) eqn:E; cbn [negb lr_success].
  - split_and!; [done|by rewrite <-Heq|done|]. intros newElo _. unfold userLogin, userUpdateElo.
    rewrite lookup_alter_eq, Hrow. cbn [fmap option_fmap option_map storedHash storedElo]. simpl. by rewrite Hh, E.
  - split_and!; [done| |done|done]. split; [done|]. intros Hp. by apply Heq in Hp.
Qed.
End Users.

Lemma account_kept_witness :
  let h := λ p : string, Z.of_nat (String.length p) in
  lr_success (userLogin h (λ _, true) "ada" "wrong" (userLogin h (λ _, true) "ada" "secret" ∅).1).2 = false.
Proof.
  intros h.
  pose proof (account_kept h (λ _, true) "ada" "secret" "wrong" [] ∅ (lookup_empty _) eq_refl) as Hk. cbv zeta in Hk.
  destruct (userLogin h (λ _, true) "ada" "secret" ∅) as [t1 r1]. cbn [foldl fst] in Hk |- *.
  destruct (userLogin h (λ _, true) "ada" "wrong" t1) as [t3 r2]. destruct Hk as (_ & Hs & _). cbn [snd].
  destruct (lr_success r2); [|reflexivity]. exfalso. pose proof (proj1 Hs eq_refl) as Hl. vm_compute in Hl. discriminate Hl.
Defined.
