(* ===== verification/Postgres.v ===== *)
(** * The Postgres repositories ([server/db/PostgresUserRepository],
    [shared/db/PostgresGameHistoryRepository])

    The users table again, and the table of finished games.  Whether a statement
    succeeds is an argument of the operation that executes it: the connection may
    be lost between any two. *)
From S2P Require Import Prelude Model Text Scan Double Rules Motion Arbiter ArbiterSteps Lifecycle Engine EngineSpec EngineTheorems Json Observers Codecs Session Registry BoardIO Server Users.
#[local] Open Scope Z_scope.

(** ** The constructors: what [PQconnectdb] and the [CREATE TABLE] end with *)
Inductive CreateEnd := Created | CreateFailed (sqlState : option string) (message : string).

Definition openRepository (table : string) (connectError : option string) (create : CreateEnd) : result unit :=
  match connectError with
  | Some e => Throw ("Cannot connect to Postgres: " +:+ e)
  | None =>
    match create with
    | Created => Ok tt
    | CreateFailed state message =>
      let sqlState := default "" state in
      let alreadyExists := String.eqb sqlState "42P07" || String.eqb sqlState "23505" in
      if negb alreadyExists then Throw ("Cannot create " +:+ table +:+ " table: " +:+ message) else Ok tt
    end
  end.

(** ** Users *)
Section Users.
Variable hash : string → Z.

Definition pgLogin (selects inserts : bool) (username password : string) (t : UserTable) : result (UserTable * LoginResult) :=
  let hashed := hashPassword hash password in
  match (if selects then t !! c_str username else None) with
  | Some row =>
    elo ← stoi (showInt (storedElo row));
    if negb (String.eqb (storedHash row) hashed) then Ok (t, mkLogin false "wrong password" 0)
    else Ok (t, mkLogin true "login successful" elo)
  | None =>
    let inserted := inserts && bool_decide (t !! c_str username = None) in
    if negb inserted then Ok (t, mkLogin false "could not create account" 0)
    else Ok (<[c_str username := mkUser (c_str hashed) kStartingElo]> t, mkLogin true "account created" kStartingElo)
  end.

Definition pgUpdateElo (updates : bool) (username : string) (newElo : Z) (t : UserTable) : UserTable :=
  if updates then alter (λ row, mkUser (storedHash row) newElo) (c_str username) t else t.

(** The rating column is a 32-bit integer. *)
Definition ratings_int (t : UserTable) : Prop := ∀ name row, t !! name = Some row → int_range (storedElo row).

(** Either database gives the same answers: while its statements succeed the
    Postgres repository logs in, creates accounts and changes ratings exactly as
    the SQLite one does. *)
Theorem postgres_users_agree inserts username password newElo t :
  ratings_int t →
  pgLogin true (inserts username) username password t = Ok (userLogin hash inserts username password t) ∧
  pgUpdateElo true username newElo t = userUpdateElo username newElo t ∧
  (int_range newElo → ratings_int (userUpdateElo username newElo t)) ∧
  ratings_int (userLogin hash inserts username password t).1.
Proof.
  intros Ht. assert (c_str (hashPassword hash password) = hashPassword hash password) as Hc by apply c_str_showInt.
  split_and!; [|done| |].
  - unfold pgLogin, userLogin. destruct (t !! c_str username) as [row|] eqn:Hrow.
    + rewrite stoi_showInt by by eapply Ht. rewrite result_bind_Ok. by destruct (negb _).
    + rewrite bool_decide_eq_true_2 by done. rewrite andb_true_r, Hc. by destruct (negb (inserts username)).
  - intros Hn name row. unfold userUpdateElo. rewrite lookup_alter_Some.
    intros [(<- & row' & _ & ->)|[_ Hr]]; [done|by eapply Ht].
  - unfold userLogin. destruct (t !! c_str username); [by case_match|]. case_match; [done|].
    intros name row. simpl. rewrite lookup_insert_Some. intros [[_ <-]|[_ Hr]]; [done|by eapply Ht].
Qed.
End Users.

(** What a statement that fails can do to the accounts. *)
Section Failures.
Variable hash : string → Z.

(** Failing statements harm nobody: whichever statements of a login fail, an
    account that exists is never replaced, nor its password, and a login succeeds
    only with a password whose hash is the account's; the worst answer is that the
    account could not be created. *)
Theorem postgres_login_safe selects inserts username password t :
  ratings_int t → ∃ t' r, pgLogin hash selects inserts username password t = Ok (t', r) ∧
    (∀ name row, t !! name = Some row → t' !! name = Some row) ∧
    (lr_success r = true → ∃ row, t' !! c_str username = Some row ∧ storedHash row = hashPassword hash password ∧ lr_elo r = storedElo row) ∧
    (lr_success r = false → t' = t).
Proof.
  intros Ht. unfold pgLogin. pose proof (c_str_showInt (hash password)) as Hc. fold (hashPassword hash password) in Hc.
  destruct (if selects then _ else _) as [row|] eqn:Hrow.
  - destruct selects; [|done]. rewrite stoi_showInt by by eapply Ht. rewrite result_bind_Ok.
    destruct (String.eqb_spec (storedHash row) (hashPassword hash password)); simpl; eexists _, _; (split; [done|]);
      (split; [done|]); split; intros; try done. by exists row.
  - destruct inserts; simpl; [|eexists _, _; split; [done|]; by split_and!].
    destruct (t !! c_str username) as [row|] eqn:Hu; simpl;
      eexists _, _; (split; [done|]); [by split_and!|].
    split_and!; [|intros _; eexists; split; [apply lookup_insert_eq|by rewrite Hc]|done].
    intros name row Hn. rewrite lookup_insert_ne; [done|congruence].
Qed.
End Failures.

(** ** Finished games *)
Record GameRow := mkRow {
  room_name : string; winner_username : string; winner_elo : Z; loser_username : string; loser_elo : Z;
  reason : string; move_log : string; played_at : Z
}.

(** The type [jsonb] keeps a document, not its text; [newestFirst] is one of the
    orders that [ORDER BY played_at DESC] may give. *)
Class GamesTable `{JsonText} := {
  jsonb : string → option string;
  newestFirst : list GameRow → list GameRow;
  newestFirst_perm : ∀ l, newestFirst l ≡ₚ l;
  newestFirst_sorted : ∀ l, Sorted (λ a b, played_at b ≤ played_at a) (newestFirst l)
}.

Section History.
Context `{GamesTable}.

Definition recordGame (inserts : bool) (now : Z) (r : GameRecord) (t : list GameRow) : result (list GameRow) :=
  moveLogStr ← dumpR (rec_moveLog r);
  match jsonb (c_str moveLogStr) with
  | Some stored =>
    if inserts then
      Ok (t ++ [mkRow (c_str (rec_room r)) (c_str (rec_winner r)) (rec_winnerElo r) (c_str (rec_loser r)) (rec_loserElo r)
                  (c_str (rec_reason r)) stored now])
    else Ok t
  | None => Ok t
  end.

Definition readRow (row : GameRow) : result GameRecord :=
  winnerElo ← stoi (showInt (winner_elo row));
  loserElo ← stoi (showInt (loser_elo row));
  Ok (mkRecord (room_name row) (winner_username row) winnerElo (loser_username row) loserElo (reason row)
        (match parse (move_log row) with Ok j => j | Throw _ => jEmpty end)).

(** A negative limit is an error of the statement. *)
Definition listGames (selects : bool) (limit : Z) (t : list GameRow) : result (list GameRecord) :=
  if selects && (0 <=? limit) then mapR readRow (take (Z.to_nat limit) (newestFirst t)) else Ok [].

(** A record the table can hold as it is. *)
Definition plainText (s : string) : Prop := c_str s = s.
Record storable (r : GameRecord) : Prop := {
  st_text : plainText (rec_room r) ∧ plainText (rec_winner r) ∧ plainText (rec_loser r) ∧ plainText (rec_reason r);
  st_elo : int_range (rec_winnerElo r) ∧ int_range (rec_loserElo r);
  st_log : jsonStrings utf8 (rec_moveLog r) = true;
  st_jsonb : ∃ stored, jsonb (dump (rec_moveLog r)) = Some stored ∧ parse stored = Ok (rec_moveLog r)
}.

(** The row [row] holds the record [r] of the time [now]. *)
Definition holds (nr : Z * GameRecord) (row : GameRow) : Prop := played_at row = nr.1 ∧ readRow row = Ok nr.2.

Lemma recordGame_holds now r t : storable r → ∃ row, recordGame true now r t = Ok (t ++ [row]) ∧ holds (now, r) row.
Proof.
  intros [(H1 & H2 & H3 & H4) [He1 He2] Hl (stored & Hj & Hp)]. unfold recordGame, dumpR. rewrite Hl, result_bind_Ok, dump_c_str, Hj.
  eexists. split; [done|]. split; [done|]. unfold readRow. simpl. rewrite !stoi_showInt by done. simpl. rewrite Hp.
  unfold plainText in *. rewrite H1, H2, H3, H4. by destruct r.
Qed.

Fixpoint recordAll (rs : list (Z * GameRecord)) (t : list GameRow) : result (list GameRow) :=
  match rs with [] => Ok t | (now, r) :: rs => t ← recordGame true now r t; recordAll rs t end.

Lemma recordAll_holds rs t past :
  Forall2 holds past t → Forall (λ nr, storable nr.2) rs → ∃ t', recordAll rs t = Ok t' ∧ Forall2 holds (past ++ rs) t'.
Proof.
  revert t past. induction rs as [|[now r] rs IH]; intros t past Ht Hrs; simpl.
  { exists t. by rewrite app_nil_r. }
  apply Forall_cons in Hrs as [Hr Hrs]. destruct (recordGame_holds now r t Hr) as (row & -> & Hrow). rewrite result_bind_Ok.
  destruct (IH (t ++ [row]) (past ++ [(now, r)])) as (t' & Hrun & Ht'); [by apply Forall2_app; [|constructor]|done|].
  exists t'. by rewrite <-app_assoc in Ht'.
Qed.

(** A list sorted both ways is the reverse. *)
Lemma newestFirst_reverse t :
  StronglySorted (λ a b, played_at a < played_at b) t → newestFirst t = reverse t.
Proof.
  intros Ht. set (R := λ a b : GameRow, played_at b ≤ played_at a).
  assert (StronglySorted R (newestFirst t)) as H1.
  { apply Sorted_StronglySorted; [intros a b c; unfold R; lia|]. apply newestFirst_sorted. }
  assert (StronglySorted (λ a b, played_at b < played_at a) (reverse t)) as H2.
  { clear H1. induction Ht as [|a l Hl IH Ha]; [constructor|]. rewrite reverse_cons. apply StronglySorted_app_2; [..|done|repeat constructor].
    intros x y Hx ->%list_elem_of_singleton. rewrite elem_of_reverse in Hx. rewrite Forall_forall in Ha. by apply Ha. }
  assert (newestFirst t ≡ₚ reverse t) as Hp by by rewrite newestFirst_perm, reverse_Permutation.
  revert H1 H2 Hp. generalize (newestFirst t) (reverse t). clear. intros l. induction l as [|a l IH]; intros k H1 H2 Hp.
  { by apply Permutation_nil in Hp. }
  destruct k as [|b k]; [by apply Permutation_sym, Permutation_nil in Hp|].
  apply StronglySorted_inv in H1 as [H1 Ha], H2 as [H2 Hb]. rewrite Forall_forall in Ha, Hb.
  assert (a = b) as ->.
  { assert (a ∈ b :: k) as [|Hak]%elem_of_cons by (rewrite <-Hp; by left); [done|].
    assert (b ∈ a :: l) as [|Hbl]%elem_of_cons by (rewrite Hp; by left); [done|].
    apply Ha in Hbl. apply Hb in Hak. unfold R in Hbl. lia. }
  f_equal. apply IH; [done..|]. by apply Permutation_cons_inv in Hp.
Qed.

(** What the table that holds the records lists. *)
Lemma listGames_holds rs t limit :
  Forall2 holds rs t → StronglySorted (λ a b, a.1 < b.1) rs → 0 ≤ limit →
  listGames true limit t = Ok (take (Z.to_nat limit) (reverse rs.*2)).
Proof.
  intros Ht Hsort Hl. unfold listGames. destruct (Z.leb_spec 0 limit); [|lia]. simpl.
  assert (StronglySorted (λ a b, played_at a < played_at b) t) as Hst'.
  { induction Ht as [|nr row rs t Hh Ht IH]; [constructor|]. apply StronglySorted_inv in Hsort as [Hs Hf].
    constructor; [by apply IH|]. destruct Hh as [Hh _]. clear IH Hs. rewrite Hh.
    induction Ht as [|nr' row' rs t [Hh' _] Ht IH]; [constructor|]. apply Forall_cons in Hf as [Hf1 Hf2]. constructor; [by rewrite Hh'|by apply IH]. }
  rewrite newestFirst_reverse by done. apply Forall2_reverse in Ht. revert Ht.
  rewrite <-fmap_reverse. generalize (reverse rs) (reverse t) (Z.to_nat limit). clear.
  intros rs t n Ht. revert n. induction Ht as [|nr row rs t [_ Hh] Ht IH]; intros [|n]; simpl; [done..|].
  by rewrite Hh, result_bind_Ok, IH.
Qed.

(** The history is what was played: after games recorded one after the other,
    the repository lists the latest ones, newest first, each with its players,
    ratings, reason and moves as recorded. *)
Theorem history_roundtrip rs limit :
  Forall (λ nr, storable nr.2) rs → StronglySorted (λ a b, a.1 < b.1) rs → 0 ≤ limit →
  ∃ t, recordAll rs [] = Ok t ∧ listGames true limit t = Ok (take (Z.to_nat limit) (reverse rs.*2)).
Proof.
  intros Hst Hsort Hl. destruct (recordAll_holds rs [] [] (Forall2_nil_2 _ _ _) Hst) as (t & Hrun & Ht).
  exists t. split; [done|]. by apply listGames_holds.
Qed.
End History.
