(* ===== verification/ClientInput.v ===== *)
(** * Clicks ([shared/input/ClickResolver], [client/input],
    [client/view/BoardScale], [client/app/HomeScreen])

    A click of the mouse becomes a square, two squares become a command, and the
    command's text is what the shard's dispatcher turns into one call of the
    engine. *)
From S2P Require Import Prelude Model Text Double Rules Motion Arbiter ArbiterSteps Lifecycle Engine EngineSpec EngineTheorems Json Observers Codecs Session Registry BoardIO Server.
#[local] Open Scope Z_scope.

(** ** [ViewConfig.h], [BoardScale.h], [BoardMapper.cpp] *)
Definition PANEL_WIDTH : Z := 280.
Definition CELL_SIZE : Z := 100.
Definition BOARD_MARGIN : Z := 30.
Definition MIN_CELL_SIZE : Z := 60.
Definition MAX_CELL_SIZE : Z := 120.
Definition HANDLE_SIZE : Z := 18.

(** [std::clamp(size, MIN_CELL_SIZE, MAX_CELL_SIZE)] *)
Definition setCellSize (size : Z) : Z :=
  if size <? MIN_CELL_SIZE then MIN_CELL_SIZE else if MAX_CELL_SIZE <? size then MAX_CELL_SIZE else size.

Definition boardPixelWidth (cellSize cols : Z) : Z := cols * cellSize.
Definition boardPixelHeight (cellSize rows : Z) : Z := rows * cellSize.
Definition handleTopLeft (cellSize cols rows : Z) : Z * Z :=
  (PANEL_WIDTH + boardPixelWidth cellSize cols - HANDLE_SIZE, BOARD_MARGIN + boardPixelHeight cellSize rows - HANDLE_SIZE).
Definition isInHandle (cellSize cols rows px py : Z) : bool :=
  let '(x, y) := handleTopLeft cellSize cols rows in
  (x <=? px) && (px <? x + HANDLE_SIZE) && (y <=? py) && (py <? y + HANDLE_SIZE).

Definition mapToPosition (x y cellSize : Z) : Position := mkPos (Z.quot y cellSize) (Z.quot x cellSize).

(** ** [HomeScreen.cpp] *)
Inductive HomeScreenChoice := NoChoice | PlayChoice | RoomChoice.
Record ButtonBounds := mkBounds { bx : Z; by_ : Z; bwidth : Z; bheight : Z }.
Definition contains (b : ButtonBounds) (x y : Z) : bool :=
  (bx b <=? x) && (x <? bx b + bwidth b) && (by_ b <=? y) && (y <? by_ b + bheight b).
Definition playButtonBounds : ButtonBounds := mkBounds 300 150 200 60.
Definition roomButtonBounds : ButtonBounds := mkBounds 300 260 200 60.
Definition hitTest (x y : Z) : HomeScreenChoice :=
  if contains playButtonBounds x y then PlayChoice else if contains roomButtonBounds x y then RoomChoice else NoChoice.

(** ** [ClickResolver.cpp] *)
Inductive ClickOutcomeType := NoOp | Selected | SendMove | SendJump.
Record ClickOutcome := mkOutcome { co_type : ClickOutcomeType; co_from : Position; co_to : Position; co_pos : Position }.
Definition origin : Position := mkPos 0 0.

Definition findAt (snapshot : GameSnapshot) (pos : Position) : option SnapshotPiece :=
  find (λ p, posEq (sp_cell p) pos) (pieces snapshot).

Definition resolveClick (snapshot : GameSnapshot) (selectedPos : option Position) (clickedPos : Position)
    (myColor : option Color) : ClickOutcome :=
  match selectedPos with
  | None =>
    match findAt snapshot clickedPos with
    | Some piece =>
      if match myColor with None => true | Some c => colorEqb (sp_color piece) c end
      then mkOutcome Selected origin origin clickedPos else mkOutcome NoOp origin origin origin
    | None => mkOutcome NoOp origin origin origin
    end
  | Some selected =>
    if posEq clickedPos selected then mkOutcome SendJump origin origin clickedPos
    else
      match findAt snapshot clickedPos, findAt snapshot selected with
      | Some clickedPiece, Some selectedPiece =>
        if colorEqb (sp_color clickedPiece) (sp_color selectedPiece) && negb (colorEqb (sp_color clickedPiece) NoColor) &&
           negb (kindEqb (sp_kind selectedPiece) Knight)
        then mkOutcome Selected origin origin clickedPos
        else mkOutcome SendMove selected clickedPos origin
      | _, _ => mkOutcome SendMove selected clickedPos origin
      end
  end.

(** A piece the selected piece [p] would not be sent to: a friend, unless [p]
    is a knight. *)
Definition friendAt (snapshot : GameSnapshot) (p : SnapshotPiece) (pos : Position) : Prop :=
  ∃ q, findAt snapshot pos = Some q ∧ sp_color q = sp_color p ∧ sp_color q ≠ NoColor ∧ sp_kind p ≠ Knight.

Lemma resolveClick_none snapshot pos mine p :
  findAt snapshot pos = Some p → match mine with None => True | Some c => sp_color p = c end →
  resolveClick snapshot None pos mine = mkOutcome Selected origin origin pos.
Proof.
  intros Hp Hm. unfold resolveClick. rewrite Hp. destruct mine as [c|]; [|done].
  by rewrite (proj2 (colorEqb_true _ _)).
Qed.

Lemma resolveClick_send snapshot s pos p mine :
  pos ≠ s → findAt snapshot s = Some p → ¬ friendAt snapshot p pos →
  resolveClick snapshot (Some s) pos mine = mkOutcome SendMove s pos origin.
Proof.
  intros Hne Hp Hf. unfold resolveClick. rewrite (proj2 (posEq_false _ _)) by done. rewrite Hp.
  destruct (findAt snapshot pos) as [q|] eqn:Hq; [|done].
  destruct (colorEqb (sp_color q) (sp_color p)) eqn:Hc; [|done].
  destruct (colorEqb (sp_color q) NoColor) eqn:Hn; [done|].
  destruct (kindEqb (sp_kind p) Knight) eqn:Hk; [done|]. destruct Hf. exists q.
  apply colorEqb_true in Hc. apply colorEqb_false in Hn. apply kindEqb_false in Hk. done.
Qed.

(** The outcome in every case. *)
Lemma resolveClick_cases snapshot sel pos mine :
  let o := resolveClick snapshot sel pos mine in
  match co_type o with
  | NoOp => sel = None
  | Selected => co_pos o = pos ∧ ∃ p, findAt snapshot pos = Some p ∧
      match sel with
      | None => match mine with None => True | Some c => sp_color p = c end
      | Some s => ∃ q, s ≠ pos ∧ findAt snapshot s = Some q ∧ friendAt snapshot q pos ∧ sp_color p = sp_color q
      end
  | SendMove => sel = Some (co_from o) ∧ co_to o = pos ∧ co_from o ≠ pos
  | SendJump => sel = Some pos ∧ co_pos o = pos
  end.
Proof.
  unfold resolveClick. destruct sel as [s|]; cbn zeta.
  - destruct (posEq pos s) eqn:Hs; [apply posEq_spec in Hs as ->; done|]. apply posEq_false in Hs.
    destruct (findAt snapshot pos) as [q|] eqn:Hq; [|by simpl].
    destruct (findAt snapshot s) as [p|] eqn:Hp; [|by simpl].
    destruct (_ && _) eqn:Hb; [|by simpl]. simpl. apply andb_true_iff in Hb as [[Hc Hn]%andb_true_iff Hk].
    apply colorEqb_true in Hc. apply negb_true_iff, colorEqb_false in Hn. apply negb_true_iff, kindEqb_false in Hk.
    split; [done|]. exists q. split; [done|]. exists p. split_and!; [done..|by exists q|done].
  - destruct (findAt snapshot pos) as [p|] eqn:Hp; [|done].
    destruct mine as [c|]; [|by simpl; eauto]. destruct (colorEqb _ c) eqn:Hc; [|done].
    apply colorEqb_true in Hc. simpl. eauto.
Qed.

(** ** [Controller.cpp] *)
Definition posJson (p : Position) : json := jObj [("row", JInt (row p)); ("col", JInt (col p))].
Definition moveMessage (from to : Position) : Message :=
  mkMessage Move (jObj [("from", posJson from); ("to", posJson to)]).
Definition jumpMessage (pos : Position) : Message := mkMessage JumpMsg (jObj [("pos", posJson pos)]).

(** [currentSnapshot] and [cellSize] are what the references of the class see. *)
Record Controller := mkController {
  selectedPos : option Position;
  currentSnapshot : GameSnapshot;
  cellSize : Z;
  myColor_ : option Color
}.

Definition select (p : option Position) (c : Controller) : Controller :=
  mkController p (currentSnapshot c) (cellSize c) (myColor_ c).

(** [getSnapshot]: the selection rides on the copy. *)
Definition getSnapshot (c : Controller) : GameSnapshot :=
  let s := currentSnapshot c in
  match selectedPos c with
  | Some p => mkSnapshot (board_width s) (board_height s) (pieces s) (gs_over s) true p (legalMoves s)
  | None => s
  end.

Section Controller.
Context `{JsonText}.

(** The controller afterwards, the outcome, and the messages sent. *)
Definition handleMouseClick (x y : Z) (c : Controller) : result (Controller * ClickOutcomeType * list string) :=
  let boardWidthPx := board_width (currentSnapshot c) * cellSize c in
  let boardHeightPx := board_height (currentSnapshot c) * cellSize c in
  if (x <? 0) || (y <? 0) || (boardWidthPx <=? x) || (boardHeightPx <=? y) then Ok (select None c, NoOp, [])
  else
    let clickedPos := mapToPosition x y (cellSize c) in
    let outcome := resolveClick (currentSnapshot c) (selectedPos c) clickedPos (myColor_ c) in
    match co_type outcome with
    | Selected => Ok (select (Some (co_pos outcome)) c, Selected, [])
    | SendMove =>
      text ← MessageCodec.encode (moveMessage (co_from outcome) (co_to outcome));
      Ok (select None c, SendMove, [text])
    | SendJump =>
      text ← MessageCodec.encode (jumpMessage (co_pos outcome));
      Ok (select None c, SendJump, [text])
    | NoOp => Ok (c, NoOp, [])
    end.
End Controller.

(** ** Pixels and squares *)
Lemma mapToPosition_cell x y cs :
  0 < cs → 0 ≤ x → 0 ≤ y →
  let p := mapToPosition x y cs in
  row p * cs ≤ y < (row p + 1) * cs ∧ col p * cs ≤ x < (col p + 1) * cs.
Proof.
  intros Hcs Hx Hy. simpl. rewrite !Z.quot_div_nonneg by lia.
  pose proof (Z.div_mod y cs). pose proof (Z.div_mod x cs).
  pose proof (Z.mod_pos_bound y cs). pose proof (Z.mod_pos_bound x cs). nia.
Qed.

(** A pixel of the board is on exactly one square, and that square is on the
    board, at every size the window can be given: the square is the one whose
    pixels include it. *)
Theorem click_on_one_square x y size cols rows p :
  let cs := setCellSize size in
  0 ≤ x < boardPixelWidth cs cols → 0 ≤ y < boardPixelHeight cs rows →
  mapToPosition x y cs = p ↔
    0 ≤ row p < rows ∧ 0 ≤ col p < cols ∧
    row p * cs ≤ y < (row p + 1) * cs ∧ col p * cs ≤ x < (col p + 1) * cs.
Proof.
  intros cs. unfold boardPixelWidth, boardPixelHeight. intros Hx Hy.
  assert (0 < cs) as Hcs.
  { unfold cs, setCellSize, MIN_CELL_SIZE, MAX_CELL_SIZE. repeat case_match; b2p; lia. }
  pose proof (mapToPosition_cell x y cs Hcs ltac:(lia) ltac:(lia)) as [Hr Hc]. split.
  - intros <-. split_and!; try lia; nia.
  - intros (Hr1 & Hc1 & Hr2 & Hc2). destruct p as [r c]. unfold mapToPosition in *. simpl in *. f_equal; nia.
Qed.

(** ** A click and the shard *)
Lemma posText `{JsonText} (p : Position) : jsonText utf8 (posJson p) = true.
Proof. apply jsonText_obj. simpl. by rewrite !utf8_ascii7. Qed.

Section Clicks.
Context `{HashIter} `{JsonText}.

Lemma moveMessage_decodes from to :
  ∃ text, MessageCodec.encode (moveMessage from to) = Ok text ∧ MessageCodec.decode text = Ok (moveMessage from to).
Proof.
  apply message_decodes. apply jsonText_obj. cbn [forallb fst snd].
  by rewrite !posText, !utf8_ascii7.
Qed.

Lemma jumpMessage_decodes pos :
  ∃ text, MessageCodec.encode (jumpMessage pos) = Ok text ∧ MessageCodec.decode text = Ok (jumpMessage pos).
Proof. apply message_decodes. apply jsonText_obj. cbn [forallb fst snd]. by rewrite posText, utf8_ascii7. Qed.

Lemma posJson_decodes p : position_int p → positionFromJson (posJson p) = Ok p.
Proof. exact (decode_encodePosition p). Qed.

Lemma dispatchTry_move from to s role :
  position_int from → position_int to → role ≠ NoColor →
  dispatchTry (moveMessage from to) s role = commandPiece from (requestMove (simultaneousMode_ s) from to) role s.
Proof.
  intros Hf Ht Hr. apply colorEqb_false in Hr. unfold dispatchTry, moveMessage. cbn [msg_type payload].
  rewrite Hr. jfields. rewrite !posJson_decodes by done. done.
Qed.

Lemma dispatchTry_jump pos s role :
  position_int pos → role ≠ NoColor →
  dispatchTry (jumpMessage pos) s role = commandPiece pos (requestJump pos) role s.
Proof.
  intros Hp Hr. apply colorEqb_false in Hr. unfold dispatchTry, jumpMessage. cbn [msg_type payload].
  rewrite Hr. jfields. by rewrite posJson_decodes by done.
Qed.

Lemma click_int x y cs : 0 < cs → 0 ≤ x → 0 ≤ y → int_range x → int_range y → position_int (mapToPosition x y cs).
Proof.
  intros Hcs Hx Hy Hix Hiy. pose proof (mapToPosition_cell x y cs Hcs Hx Hy) as [Hr Hc]. cbn zeta in *.
  unfold position_int, int_range, INT_MIN, INT_MAX in *.
  assert (0 ≤ row (mapToPosition x y cs)) by (simpl; rewrite Z.quot_div_nonneg by lia; by apply Z.div_pos).
  assert (0 ≤ col (mapToPosition x y cs)) by (simpl; rewrite Z.quot_div_nonneg by lia; by apply Z.div_pos).
  nia.
Qed.

(** A click outside the board. *)
Definition offBoard (x y : Z) (c : Controller) : Prop :=
  x < 0 ∨ y < 0 ∨ board_width (currentSnapshot c) * cellSize c ≤ x ∨ board_height (currentSnapshot c) * cellSize c ≤ y.

(** What a click does: the selection afterwards, and the command the shard
    makes of the message. *)
Definition clickEffect (x y : Z) (c c' : Controller) (o : ClickOutcomeType) (msgs : list string) : Prop :=
  let pos := mapToPosition x y (cellSize c) in
  let sends command := c' = select None c ∧ ∃ text m, msgs = [text] ∧ MessageCodec.decode text = Ok m ∧
    ∀ s role, role ≠ NoColor → dispatchTry m s role = command s role in
  match o with
  | NoOp => msgs = [] ∧ (offBoard x y c ∧ c' = select None c ∨ selectedPos c = None ∧ c' = c)
  | Selected => msgs = [] ∧ c' = select (Some pos) c ∧ ∃ p, findAt (currentSnapshot c) pos = Some p
  | SendMove => ∃ from, selectedPos c = Some from ∧ from ≠ pos ∧
      sends (λ s role, commandPiece from (requestMove (simultaneousMode_ s) from pos) role s)
  | SendJump => selectedPos c = Some pos ∧ sends (λ s role, commandPiece pos (requestJump pos) role s)
  end.

Lemma click_reaches_server_aux x y c :
  0 < cellSize c → int_range x → int_range y → (∀ p, selectedPos c = Some p → position_int p) →
  ∃ c' o msgs, handleMouseClick x y c = Ok (c', o, msgs) ∧ clickEffect x y c c' o msgs.
Proof.
  intros Hcs Hx Hy Hsel. unfold handleMouseClick, clickEffect. cbn zeta.
  destruct (_ || _) eqn:Hoff.
  { eexists _, NoOp, _. split; [done|]. split; [done|]. left. split; [|done]. unfold offBoard. b2p. lia. }
  rewrite !orb_false_iff in Hoff. destruct Hoff as [[[Hx0 Hy0] _] _]. b2p.
  pose proof (click_int x y (cellSize c) Hcs Hx0 Hy0 Hx Hy) as Hpos.
  set (pos := mapToPosition x y (cellSize c)) in *.
  pose proof (resolveClick_cases (currentSnapshot c) (selectedPos c) pos (myColor_ c)) as Hc. cbn zeta in Hc.
  set (o := resolveClick _ _ _ _) in *. destruct (co_type o) eqn:Ho.
  - eexists _, NoOp, _. split; [done|]. split; [done|]. by right.
  - destruct Hc as [-> (p & Hp & _)]. eexists _, Selected, _. split; [done|]. eauto.
  - destruct Hc as (Hs & -> & Hne). destruct (moveMessage_decodes (co_from o) pos) as (text & -> & Hd).
    eexists _, SendMove, _. split; [done|]. exists (co_from o). split_and!; [done..|].
    exists text, (moveMessage (co_from o) pos). split_and!; [done..|]. intros. by apply dispatchTry_move; auto.
  - destruct Hc as (Hs & ->). destruct (jumpMessage_decodes pos) as (text & -> & Hd).
    eexists _, SendJump, _. split; [done|]. split; [done|]. split; [done|].
    exists text, (jumpMessage pos). split_and!; [done..|]. intros. by apply dispatchTry_jump; auto.
Qed.

(** C36 What the player clicks is what the shard is asked for: every click ends in
    one of four ways; a message is sent exactly when a square was selected
    before, and the shard reads it as the move from that square to the clicked
    one, or as the jump on it, of the sender's own piece there. *)
Theorem click_reaches_server x y c :
  0 < cellSize c → int_range x → int_range y → (∀ p, selectedPos c = Some p → position_int p) →
  ∃ c' o msgs, handleMouseClick x y c = Ok (c', o, msgs) ∧ clickEffect x y c c' o msgs.
Proof. exact (click_reaches_server_aux x y c). Qed.

(** ** Whose piece is selected *)
Definition ownSelection (c : Controller) : Prop :=
  ∀ mine s q, myColor_ c = Some mine → selectedPos c = Some s → findAt (currentSnapshot c) s = Some q → sp_color q = mine.

Lemma selection_own x y c c' o msgs :
  ownSelection c → handleMouseClick x y c = Ok (c', o, msgs) → ownSelection c'.
Proof.
  intros Hown. unfold handleMouseClick. cbn zeta. destruct (_ || _); [intros [= <- _ _]; by intros ???|].
  pose proof (resolveClick_cases (currentSnapshot c) (selectedPos c) (mapToPosition x y (cellSize c)) (myColor_ c)) as Hc.
  cbn zeta in Hc. set (r := resolveClick _ _ _ _) in *. destruct (co_type r).
  - by intros [= <- _ _].
  - intros [= <- _ _]. destruct Hc as (-> & p & Hp & Hc). intros mine s q Hm [= <-] Hq. simpl in Hm, Hq.
    rewrite Hp in Hq. injection Hq as <-. destruct (selectedPos c) as [s|] eqn:Hs.
    + destruct Hc as (q & _ & Hq & _ & ->). by eapply Hown.
    + by rewrite Hm in Hc.
  - intros (text & _ & [= <- _ _])%result_bind_inv; by intros ???.
  - intros (text & _ & [= <- _ _])%result_bind_inv; by intros ???.
Qed.
End Clicks.
