(* ===== verification/WsClient.v ===== *)
(** * The client's connection ([client/net/WsClient])

    One connection with a network thread of its own: the library calls the four
    handlers and runs what [send] posted there, one at a time and in the order
    posted.  [setOnMessage], [setOnOpen] and [send] come from other threads, and
    the handlers are exchanged under a lock, so a run is a sequence of whole
    steps.  What the sockets do (a connection opens, closes or fails, a frame is
    accepted or not) comes with the step. *)
From S2P Require Import Prelude Text.
#[local] Open Scope Z_scope.

Section WsClient.
(** What a handler is: the code that is installed. *)
Context {Handler : Type}.

Record WsClient := mkClient {
  uri : option (string * option string);
  hdl_ : option Z;
  onMessage_ : option Handler;
  onOpen_ : option Handler;
  connected : bool;
  networkThread : bool;
  posted : list string;
  sent : list (Z * string);
  heard : list (Handler * option string)
}.

Definition newWsClient : WsClient := mkClient None None None None false false [] [] [].

Definition setOnMessage (h : option Handler) (c : WsClient) : WsClient :=
  mkClient (uri c) (hdl_ c) h (onOpen_ c) (connected c) (networkThread c) (posted c) (sent c) (heard c).
Definition setOnOpen (h : option Handler) (c : WsClient) : WsClient :=
  mkClient (uri c) (hdl_ c) (onMessage_ c) h (connected c) (networkThread c) (posted c) (sent c) (heard c).
Definition setConnected (b : bool) (c : WsClient) : WsClient :=
  mkClient (uri c) (hdl_ c) (onMessage_ c) (onOpen_ c) b (networkThread c) (posted c) (sent c) (heard c).
Definition setPosted (l : list string) (c : WsClient) : WsClient :=
  mkClient (uri c) (hdl_ c) (onMessage_ c) (onOpen_ c) (connected c) (networkThread c) l (sent c) (heard c).
Definition run (h : option Handler) (text : option string) (c : WsClient) : WsClient :=
  match h with
  | None => c
  | Some h => mkClient (uri c) (hdl_ c) (onMessage_ c) (onOpen_ c) (connected c) (networkThread c) (posted c) (sent c) (heard c ++ [(h, text)])
  end.

(** [connect], where [get_connection] accepts the address.  A second thread in
    the place of a running one ends the process: [None]. *)
Definition connect (accepts : bool) (host : string) (port : Z) (shardHint : string) (c : WsClient) : option WsClient :=
  let u := "ws://" +:+ host +:+ ":" +:+ showInt port in
  if negb accepts then Some c
  else if networkThread c then None
  else Some (mkClient (Some (u, if String.eqb shardHint "" then None else Some shardHint)) (hdl_ c) (onMessage_ c) (onOpen_ c)
               (connected c) true (posted c) (sent c) (heard c)).

(** The handlers [connect] gives the library. *)
Definition openHandler (h : Z) (c : WsClient) : WsClient :=
  let c := mkClient (uri c) (Some h) (onMessage_ c) (onOpen_ c) true (networkThread c) (posted c) (sent c) (heard c) in
  run (onOpen_ c) None c.
Definition messageHandler (text : string) (c : WsClient) : WsClient := run (onMessage_ c) (Some text) c.
Definition failHandler (c : WsClient) : WsClient := c.
Definition closeHandler (c : WsClient) : WsClient := setConnected false c.

Definition send (text : string) (c : WsClient) : WsClient := setPosted (posted c ++ [text]) c.

(** What was posted, on the network thread; [ok] is the library's answer. *)
Definition sendPosted (ok : bool) (text : string) (c : WsClient) : WsClient :=
  if negb (connected c) then c
  else match hdl_ c with
  | Some h => if ok then mkClient (uri c) (hdl_ c) (onMessage_ c) (onOpen_ c) (connected c) (networkThread c) (posted c) (sent c ++ [(h, text)]) (heard c) else c
  | None => c
  end.

Inductive WsStep :=
  | SSetOnMessage (h : option Handler) | SSetOnOpen (h : option Handler) | SSend (text : string)
  | SOpen (h : Z) | SMessage (text : string) | SFail | SClose | SPosted (ok : bool).

Definition step (e : WsStep) (c : WsClient) : WsClient :=
  match e with
  | SSetOnMessage h => setOnMessage h c
  | SSetOnOpen h => setOnOpen h c
  | SSend text => send text c
  | SOpen h => openHandler h c
  | SMessage text => messageHandler text c
  | SFail => failHandler c
  | SClose => closeHandler c
  | SPosted ok => match posted c with [] => c | text :: rest => sendPosted ok text (setPosted rest c) end
  end.
Definition steps (es : list WsStep) (c : WsClient) : WsClient := foldl (flip step) c es.

Definition sends (es : list WsStep) : list string := omap (λ e, match e with SSend t => Some t | _ => None end) es.

(** ** What becomes of the messages *)

Lemma run_keeps h text c : connected (run h text c) = connected c ∧ posted (run h text c) = posted c ∧
  sent (run h text c) = sent c ∧ hdl_ (run h text c) = hdl_ c ∧ onMessage_ (run h text c) = onMessage_ c.
Proof. by destruct h. Qed.

(** An open connection has a handle. *)
Definition ws_ok (c : WsClient) : Prop := connected c = true → is_Some (hdl_ c).

Lemma step_ok e c : ws_ok c → ws_ok (step e c).
Proof.
  unfold ws_ok. intros Hc. destruct e as [| | |h|text| | |ok]; simpl; try done.
  - unfold openHandler. destruct (run_keeps (onOpen_ c) None (mkClient (uri c) (Some h) (onMessage_ c) (onOpen_ c) true
      (networkThread c) (posted c) (sent c) (heard c))) as (_ & _ & _ & Hh & _). intros _. simpl in *. by rewrite Hh.
  - unfold messageHandler. destruct (run_keeps (onMessage_ c) (Some text) c) as (H1 & _ & _ & H2 & _). by rewrite H1, H2.
  - destruct (posted c) as [|t rest]; [done|]. unfold sendPosted. simpl. destruct (connected c) eqn:E; simpl; [|congruence].
    simpl. destruct (hdl_ c) eqn:Eh; simpl; [destruct ok|]; simpl; rewrite ?Eh; auto.
Qed.

(** A step sends the first of what waits, or drops it, or adds to it. *)
Lemma step_flow e c :
  let c' := step e c in
  match e with
  | SSend t => sent c' = sent c ∧ posted c' = posted c ++ [t] ∧ connected c' = connected c
  | SPosted ok => connected c' = connected c ∧ posted c' = tail (posted c) ∧
      (sent c' = sent c ∨ ∃ t h, posted c = t :: tail (posted c) ∧ sent c' = sent c ++ [(h, t)])
  | SOpen _ => sent c' = sent c ∧ posted c' = posted c ∧ connected c' = true
  | SClose => sent c' = sent c ∧ posted c' = posted c ∧ connected c' = false
  | _ => sent c' = sent c ∧ posted c' = posted c ∧ connected c' = connected c
  end.
Proof.
  destruct e as [| | |h|text| | |ok]; simpl; try done.
  - unfold openHandler. simpl. by destruct (onOpen_ c).
  - unfold messageHandler. by destruct (onMessage_ c).
  - destruct (posted c) as [|t rest] eqn:Eq; [by split_and!; [..|left]|]. unfold sendPosted. simpl.
    destruct (connected c) eqn:E; simpl; [|split_and!; [done..|by left]].
    destruct (hdl_ c); simpl; [destruct ok|]; simpl; split_and!; try done; [right; by eexists _, _|by left..].
Qed.

Lemma steps_app es es' c : steps (es ++ es') c = steps es' (steps es c).
Proof. unfold steps. by rewrite foldl_app. Qed.
Lemma steps_ok es c : ws_ok c → ws_ok (steps es c).
Proof. revert c. induction es as [|e es IH]; intros c Hc; simpl; [done|]. apply IH. by apply step_ok. Qed.

Lemma steps_sublist es c :
  ∃ fate, fate `sublist_of` posted c ++ sends es ∧ (sent (steps es c)).*2 ++ posted (steps es c) = (sent c).*2 ++ fate.
Proof.
  revert c. induction es as [|e es IH]; intros c; [exists (posted c); by rewrite app_nil_r|].
  destruct (IH (step e c)) as (fate & Hf & Hs). change (steps (e :: es) c) with (steps es (step e c)). rewrite Hs.
  pose proof (step_flow e c) as Hstep. cbv zeta in Hstep.
  destruct e as [| |t| | | | |ok];
    try (destruct Hstep as (-> & Hp & _); exists fate; rewrite Hp, <-?app_assoc in Hf; by split).
  destruct Hstep as (_ & Hp & [-> |(t & h & Hq & ->)]); rewrite Hp in Hf.
  - exists fate. split; [|done]. etrans; [exact Hf|]. apply sublist_app; [|done]. destruct (posted c); [done|by apply sublist_cons].
  - exists (t :: fate). rewrite Hq. split; [by apply sublist_skip|]. by rewrite fmap_app, <-app_assoc.
Qed.
(** While it is open and its frames are accepted, what waits is sent. *)
Definition calm (e : WsStep) : Prop := match e with SClose => False | SPosted ok => ok = true | _ => True end.
Lemma steps_calm es c :
  ws_ok c → connected c = true → Forall calm es →
  (sent (steps es c)).*2 ++ posted (steps es c) = (sent c).*2 ++ posted c ++ sends es ∧ connected (steps es c) = true.
Proof.
  revert c. induction es as [|e es IH]; intros c Hc Hcon Hes; [by rewrite app_nil_r|].
  apply Forall_cons in Hes as [He Hes]. change (steps (e :: es) c) with (steps es (step e c)).
  pose proof (step_flow e c) as Hstep. cbv zeta in Hstep. assert (connected (step e c) = true) as Hcon'.
  { destruct e; simpl in He; try done; destruct Hstep as (? & ? & ?); congruence. }
  destruct (IH (step e c) (step_ok e c Hc) Hcon' Hes) as [-> ->]. split; [|done].
  destruct e as [| |t| | | | |ok]; simpl in He; try done;
    try (destruct Hstep as (-> & -> & _); by rewrite <-?app_assoc).
  subst ok. simpl. destruct (posted c) as [|t rest] eqn:Hp; [by rewrite Hp|]. unfold sendPosted. simpl. rewrite Hcon. simpl.
  destruct (Hc Hcon) as [h Hh]. rewrite Hh. simpl. by rewrite fmap_app, <-!app_assoc.
Qed.

(** A connection that is not open sends nothing. *)
Lemma steps_closed es c :
  connected c = false → Forall (λ e, match e with SOpen _ => False | _ => True end) es → sent (steps es c) = sent c.
Proof.
  revert c. induction es as [|e es IH]; intros c Hcon Hes; [done|]. apply Forall_cons in Hes as [He Hes].
  change (steps (e :: es) c) with (steps es (step e c)). pose proof (step_flow e c) as Hstep. cbv zeta in Hstep.
  destruct e as [| |t| | | | |ok]; try done;
    try (destruct Hstep as (Hs & _ & Hk); rewrite IH, ?Hs; [done|congruence|done]).
  destruct Hstep as (Hk & _ & _). rewrite IH; [|congruence|done]. simpl. destruct (posted c); [done|].
  unfold sendPosted. simpl. by rewrite Hcon.
Qed.

(** C27 Messages leave in order, once, or not at all: however the threads
    interleave, the connection has sent a subsequence of what was posted, in the
    order posted; from when it opens until it closes, with every frame accepted,
    nothing is lost; what comes up while it is not open is dropped, never kept
    for when it opens. *)
Theorem sends_in_order es es' :
  let c := steps es newWsClient in
  (sent c).*2 ++ posted c `sublist_of` sends es ∧
  (connected c = true → Forall calm es' →
    (sent (steps es' c)).*2 ++ posted (steps es' c) = (sent c).*2 ++ posted c ++ sends es') ∧
  (connected c = false → Forall (λ e, match e with SOpen _ => False | _ => True end) es' → sent (steps es' c) = sent c).
Proof.
  intros c. split_and!.
  - destruct (steps_sublist es newWsClient) as (fate & Hf & Hs). unfold c. by rewrite Hs.
  - intros Hc Hes. apply steps_calm; [by apply steps_ok|done..].
  - apply steps_closed.
Qed.

(** A message and the opening reach the handler that is installed at that moment;
    a message before any is installed is lost. *)
Lemma handlers_called text h c :
  heard (step (SMessage text) c) = heard c ++ (match onMessage_ c with Some f => [(f, Some text)] | None => [] end) ∧
  heard (step (SOpen h) c) = heard c ++ (match onOpen_ c with Some f => [(f, None)] | None => [] end).
Proof.
  split; simpl.
  - unfold messageHandler. destruct (onMessage_ c); [done|by rewrite app_nil_r].
  - unfold openHandler. simpl. destruct (onOpen_ c); [done|by rewrite app_nil_r].
Qed.

(** One object, one connection: a second [connect] is not survived. *)
Lemma connects_once host port hint c c' :
  connect true host port hint c = Some c' → ∀ host' port' hint' es, connect true host' port' hint' (steps es c') = None.
Proof.
  unfold connect. simpl. destruct (networkThread c); [done|]. intros [= <-] host' port' hint' es.
  assert (∀ d, networkThread d = true → networkThread (steps es d) = true) as Hk.
  { clear. induction es as [|e es IH]; intros d Hd; [done|]. apply (IH (step e d)).
    destruct e as [| | |h|text| | |ok]; simpl; try done; unfold openHandler, messageHandler.
    - by destruct (onOpen_ d).
    - by destruct (onMessage_ d).
    - destruct (posted d); [done|]. unfold sendPosted. simpl. destruct (connected d); simpl; [|done].
      destruct (hdl_ d); simpl; [destruct ok|]; done. }
  by rewrite Hk.
Qed.
End WsClient.
