(* ===== verification/Desk.v ===== *)
(** * The player's desk ([client/net/BlockingRequest], [client/net/HttpClient],
    [client/app/LoginFlow], [client/app/RoomDialog])

    The main thread of the client before the game: it prompts, posts requests,
    opens windows and connections, and blocks on each until the outside answers.
    A function of that thread is an action on a [Desk]: what the outside will
    supply next, the globals of [HomeScreenView.cpp], and the trace of what was
    done.  An action returns, throws, blocks for ever, or ends the process (an
    exception that leaves another thread). *)
From S2P Require Import Prelude Model Text Double Rules Motion Arbiter ArbiterSteps Lifecycle Engine EngineSpec EngineTheorems Json Observers Codecs Session Registry BoardIO Server ClientInput.
#[local] Open Scope Z_scope.

(** What [doRequest] meets. *)
Inductive HttpAnswer := NoSession | NoConnection | NoRequest | Unreachable | Body (text : string).

(** What a message loop dispatches while a dialog is open: the notification code
    and control of a [WM_COMMAND] with the text of the edit control at that time,
    [WM_CLOSE], and the mouse over the home window, whose messages the same
    thread receives. *)
Inductive WinEvent :=
  | Command (code id : Z) (typed : string)
  | CloseBox
  | HomeMouse (event x y : Z).

Inductive DeskOut :=
  | Printed (text : string)
  | Posted (path body : string)
  | PlayPosted (body : string)
  | PlayAnswered
  | Connected (shardHint : string)
  | Sent (text : string)
  | InvalidName
  | ErrorShown (message : string)
  | Shown (hovered : HomeScreenChoice) (searching : bool).

(** [connections]: for each [WsClient] that will be opened, [None] when the
    handshake fails, else the texts that arrive while its first, second, ...
    handler is installed; [handlers]: those of the connection that is open.
    [boxes]: the events of each dialog.  [quitPosted]: a [WM_QUIT] is in the
    thread's queue. *)
Record Desk := mkDesk {
  stdin : list string;
  httpAnswers : list HttpAnswer;
  connections : list (option (list (list string)));
  handlers : list (list string);
  boxes : list (list WinEvent);
  g_pendingChoice : HomeScreenChoice;
  g_mousePos : Z * Z;
  g_playResult : option json;
  playThreads : nat;
  quitPosted : bool;
  trace : list DeskOut
}.

Definition setStdin (x : list string) (d : Desk) : Desk :=
  mkDesk x (httpAnswers d) (connections d) (handlers d) (boxes d) (g_pendingChoice d) (g_mousePos d) (g_playResult d) (playThreads d) (quitPosted d) (trace d).
Definition setAnswers (x : list HttpAnswer) (d : Desk) : Desk :=
  mkDesk (stdin d) x (connections d) (handlers d) (boxes d) (g_pendingChoice d) (g_mousePos d) (g_playResult d) (playThreads d) (quitPosted d) (trace d).
Definition setConnections (x : list (option (list (list string)))) (y : list (list string)) (d : Desk) : Desk :=
  mkDesk (stdin d) (httpAnswers d) x y (boxes d) (g_pendingChoice d) (g_mousePos d) (g_playResult d) (playThreads d) (quitPosted d) (trace d).
Definition setHandlers (x : list (list string)) (d : Desk) : Desk := setConnections (connections d) x d.
Definition setBoxes (x : list (list WinEvent)) (d : Desk) : Desk :=
  mkDesk (stdin d) (httpAnswers d) (connections d) (handlers d) x (g_pendingChoice d) (g_mousePos d) (g_playResult d) (playThreads d) (quitPosted d) (trace d).
Definition setChoice (x : HomeScreenChoice) (d : Desk) : Desk :=
  mkDesk (stdin d) (httpAnswers d) (connections d) (handlers d) (boxes d) x (g_mousePos d) (g_playResult d) (playThreads d) (quitPosted d) (trace d).
Definition setMouse (x : Z * Z) (d : Desk) : Desk :=
  mkDesk (stdin d) (httpAnswers d) (connections d) (handlers d) (boxes d) (g_pendingChoice d) x (g_playResult d) (playThreads d) (quitPosted d) (trace d).
Definition setPlay (x : option json) (n : nat) (d : Desk) : Desk :=
  mkDesk (stdin d) (httpAnswers d) (connections d) (handlers d) (boxes d) (g_pendingChoice d) (g_mousePos d) x n (quitPosted d) (trace d).
Definition setQuit (x : bool) (d : Desk) : Desk :=
  mkDesk (stdin d) (httpAnswers d) (connections d) (handlers d) (boxes d) (g_pendingChoice d) (g_mousePos d) (g_playResult d) (playThreads d) x (trace d).
Definition record (o : DeskOut) (d : Desk) : Desk :=
  mkDesk (stdin d) (httpAnswers d) (connections d) (handlers d) (boxes d) (g_pendingChoice d) (g_mousePos d) (g_playResult d) (playThreads d) (quitPosted d) (trace d ++ [o]).

(** ** Actions *)
Inductive outcome (A : Type) :=
  | Returned (a : A)
  | Threw (what : string)
  | Blocked
  | Terminated (what : string).
Arguments Returned {A}.
Arguments Threw {A}.
Arguments Blocked {A}.
Arguments Terminated {A}.

Definition Act (A : Type) : Type := Desk → Desk * outcome A.

#[export] Instance act_ret : MRet Act := λ A a d, (d, Returned a).
#[export] Instance act_bind : MBind Act := λ A B f m d,
  match m d with
  | (d, Returned a) => f a d
  | (d, Threw what) => (d, Threw what)
  | (d, Blocked) => (d, Blocked)
  | (d, Terminated what) => (d, Terminated what)
  end.

Definition modify (f : Desk → Desk) : Act unit := λ d, (f d, Returned tt).
Definition emit (o : DeskOut) : Act unit := modify (record o).
Definition gets {A} (f : Desk → A) : Act A := λ d, (d, Returned (f d)).
Definition block {A} : Act A := λ d, (d, Blocked).
Definition terminate {A} (what : string) : Act A := λ d, (d, Terminated what).
Definition lift {A} (r : result A) : Act A := λ d,
  match r with Ok a => (d, Returned a) | Throw what => (d, Threw what) end.


(** An invariant of the desk that an action keeps on every way out. *)
Definition keeps {A} (P : Desk → Prop) (m : Act A) : Prop := ∀ d, P d → P (m d).1.

Lemma bind_inv {A B} (m : Act A) (f : A → Act B) d d' b :
  (m ≫= f) d = (d', Returned b) → ∃ d1 a, m d = (d1, Returned a) ∧ f a d1 = (d', Returned b).
Proof.
  unfold mbind, act_bind. destruct (m d) as [d1 [a| | |]]; [|done..]. eauto.
Qed.

Lemma bind_Returned {A B} (m : Act A) (f : A → Act B) d d1 a :
  m d = (d1, Returned a) → (m ≫= f) d = f a d1.
Proof. intros Hm. unfold mbind, act_bind. by rewrite Hm. Qed.

Lemma lift_inv {A} (r : result A) d d' a : lift r d = (d', Returned a) → r = Ok a ∧ d' = d.
Proof. unfold lift. destruct r; [|done]. by intros [= <- <-]. Qed.

Lemma keeps_bind {A B} P (m : Act A) (f : A → Act B) : keeps P m → (∀ a, keeps P (f a)) → keeps P (m ≫= f).
Proof.
  intros Hm Hf d Hd. specialize (Hm d Hd). unfold mbind, act_bind.
  destruct (m d) as [d1 [a| | |]]; simpl in *; [by apply Hf|done..].
Qed.
Lemma keeps_modify P f : (∀ d, P d → P (f d)) → keeps P (modify f).
Proof. by intros Hf d Hd; apply Hf. Qed.
Lemma keeps_ret {A} P (a : A) : keeps P (mret a).
Proof. by intros d. Qed.
Lemma keeps_gets {A} P (f : Desk → A) : keeps P (gets f).
Proof. by intros d. Qed.
Lemma keeps_block {A} P : keeps P (block : Act A).
Proof. by intros d. Qed.
Lemma keeps_terminate {A} P what : keeps P (terminate what : Act A).
Proof. by intros d. Qed.
Lemma keeps_lift {A} P (r : result A) : keeps P (lift r).
Proof. intros d. unfold lift. by destruct r. Qed.
#[export] Hint Resolve keeps_modify keeps_ret keeps_gets keeps_block keeps_terminate keeps_lift : kfc.

Section Desk.
Context `{JsonText}.

(** ** [HttpClient.cpp] *)
Definition transportError (message : string) : json := jObj [("success", JBool false); ("message", JString message)].

Definition doRequest (a : HttpAnswer) : json :=
  match a with
  | NoSession => transportError "http session not initialized"
  | NoConnection => transportError "could not connect to server"
  | NoRequest => transportError "could not open request"
  | Unreachable => transportError "server unreachable"
  | Body text => match parse text with Ok j => j | Throw _ => transportError "malformed response from server" end
  end.

(** [HttpClient::post] on the main thread. *)
Definition post (path : string) (body : json) : Act json :=
  text ← lift (dumpR body);
  emit (Posted path text);;
  l ← gets httpAnswers;
  match l with
  | [] => block
  | a :: l => modify (setAnswers l);; mret (doRequest a)
  end.

(** ** [BlockingRequest.cpp] *)

(** The handler that is installed: what a text makes of [reply]. *)
Definition replyHandler (expectedTypeName : string) (reply : option json) (text : string) : result (option json) :=
  match reply with
  | Some _ => Ok reply
  | None =>
    match parse text with
    | Throw _ => Ok None
    | Ok parsed =>
      type ← jValue getString "type" "" parsed;
      Ok (if negb (String.eqb type expectedTypeName) then None else Some parsed)
    end
  end.

Fixpoint deliver (expectedTypeName : string) (texts : list string) (reply : option json) : result (option json) :=
  match texts with
  | [] => Ok reply
  | text :: texts => reply ← replyHandler expectedTypeName reply text; deliver expectedTypeName texts reply
  end.

(** The texts that arrive while the handler is installed; an exception in it
    leaves the network thread.  [cv->wait] returns once there is a reply. *)
Definition sendAndWaitForReply (request : Message) (expectedType : MessageType) : Act json :=
  expectedTypeName ← lift (MessageCodec.typeName expectedType);
  batches ← gets handlers;
  modify (setHandlers (tail batches));;
  text ← lift (MessageCodec.encode request);
  emit (Sent text);;
  match deliver expectedTypeName (default [] (head batches)) None with
  | Throw what => terminate what
  | Ok None => block
  | Ok (Some reply) => mret reply
  end.

(** ** [LoginFlow.cpp] *)
Definition kMaxAttempts : nat := 3.

Record LoginResult := mkLoginResult { success : bool; message : string; elo : Z; token : string }.
Definition noLogin : LoginResult := mkLoginResult false "" 0 "".

Definition readLogin (reply : json) : result LoginResult :=
  s ← jValue getBool "success" false reply;
  m ← jValue getString "message" "" reply;
  e ← jValue getInt "elo" 0 reply;
  t ← jValue getString "token" "" reply;
  Ok (mkLoginResult s m e t).

Definition postLogin (username password : string) : Act LoginResult :=
  reply ← post "/login" (jObj [("username", JString username); ("password", JString password)]);
  lift (readLogin reply).

(** [in >> word] into an empty string: nothing at the end of the input. *)
Definition readWord : Act string :=
  l ← gets stdin;
  modify (setStdin (tail l));;
  mret (default "" (head l)).

Definition loginAttempt : Act LoginResult :=
  emit (Printed "Username: ");;
  username ← readWord;
  emit (Printed "Password: ");;
  password ← readWord;
  postLogin username password.

(** The attempts from the one after which [left] remain. *)
Fixpoint loginLoop (left : nat) : Act LoginResult :=
  result ← loginAttempt;
  if success result then
    emit (Printed ("Login successful (ELO " +:+ showInt (elo result) +:+ ")" +:+ endl));;
    mret result
  else
    emit (Printed ("Login failed: " +:+ message result +:+ endl));;
    match left with
    | O => emit (Printed ("Too many failed login attempts." +:+ endl));; mret noLogin
    | S left' =>
      emit (Printed (showInt (Z.of_nat left) +:+ " attempt(s) remaining." +:+ endl));;
      loginLoop left'
    end.

Definition runLoginFlow : Act LoginResult := loginLoop (kMaxAttempts - 1).

(** ** [RoomDialog.cpp] *)
Inductive Action := Create | Join | Cancel.
#[export] Instance Action_eq_dec : EqDecision Action.
Proof. solve_decision. Defined.
Record RoomDialogResult := mkDialog { action : Action; dialogName : string }.

Definition kCreateId : Z := 102.
Definition kJoinId : Z := 103.
Definition kCancelId : Z := 104.
Definition kErrorOkId : Z := 105.
Definition BN_CLICKED : Z := 0.
Definition EVENT_LBUTTONDOWN : Z := 1.

Definition isValidRoomName (name : string) : bool :=
  if String.eqb name "" then false else allChars isalnum name.

(** [finish]: the result, whether the window is destroyed, and whether the
    warning box is shown. *)
Definition finish (a : Action) (typed : string) (r : RoomDialogResult) : RoomDialogResult * bool * bool :=
  match a with
  | Cancel => (mkDialog Cancel "", true, false)
  | _ =>
    if String.eqb typed "" then (mkDialog Cancel "", true, false)
    else if negb (isValidRoomName typed) then (r, false, true)
    else (mkDialog a typed, true, false)
  end.

Definition onHomeMouseEvent (event x y : Z) (d : Desk) : Desk :=
  let d := setMouse (x, y) d in
  if negb (event =? EVENT_LBUTTONDOWN) then d
  else match hitTest x y with NoChoice => d | choice => setChoice choice d end.

(** [dialogWndProc] *)
Definition dialogButton (e : WinEvent) : option (Action * string) :=
  match e with
  | Command code id typed =>
    if negb (code =? BN_CLICKED) then None
    else if id =? kCreateId then Some (Create, typed)
    else if id =? kJoinId then Some (Join, typed)
    else if id =? kCancelId then Some (Cancel, typed)
    else None
  | CloseBox => Some (Cancel, "")
  | HomeMouse _ _ _ => None
  end.

(** The message loop of the dialog; it ends when the window is gone, with the
    [WM_QUIT] that [WM_DESTROY] posted still in the queue. *)
Fixpoint dialogLoop (events : list WinEvent) (r : RoomDialogResult) : Act RoomDialogResult :=
  match events with
  | [] => block
  | HomeMouse event x y :: events => modify (onHomeMouseEvent event x y);; dialogLoop events r
  | e :: events =>
    match dialogButton e with
    | None => dialogLoop events r
    | Some (a, typed) =>
      let '(r, destroyed, warned) := finish a typed r in
      (if warned then emit InvalidName else (mret tt : Act unit));;
      if destroyed then modify (setQuit true);; mret r else dialogLoop events r
    end
  end.

(** [GetMessageW] answers a posted [WM_QUIT] before any input: a loop that is
    entered with one in the queue ends at once. *)
Definition messageLoop {A} (atQuit : A) (loop : list WinEvent → Act A) : Act A :=
  q ← gets quitPosted;
  if q : bool then modify (setQuit false);; mret atQuit
  else
    l ← gets boxes;
    modify (setBoxes (tail l));;
    loop (default [] (head l)).

Definition showRoomDialog : Act RoomDialogResult :=
  let result := mkDialog Cancel "" in
  messageLoop result (λ events, dialogLoop events result).

(** [errorWndProc] and the loop of [showRoomError]. *)
Fixpoint errorLoop (events : list WinEvent) : Act unit :=
  match events with
  | [] => block
  | HomeMouse event x y :: events => modify (onHomeMouseEvent event x y);; errorLoop events
  | Command code id _ :: events =>
    if (code =? BN_CLICKED) && (id =? kErrorOkId) then modify (setQuit true) else errorLoop events
  | CloseBox :: _ => modify (setQuit true)
  end.

Definition showRoomError (message : string) : Act unit :=
  emit (ErrorShown message);; messageLoop tt errorLoop.
End Desk.

(** ** Waiting for a reply *)
Section Replies.
Context `{JsonText}.

(** A text the handler passes over. *)
Definition passedOver (name text : string) : Prop :=
  match parse text with
  | Throw _ => True
  | Ok j => ∃ type, jValue getString "type" "" j = Ok type ∧ type ≠ name
  end.

Lemma handler_passes name text : passedOver name text ↔ replyHandler name None text = Ok None.
Proof.
  unfold passedOver, replyHandler. destruct (parse text) as [j|]; [|by split].
  destruct (jValue getString "type" "" j) as [type|]; [|split; [by intros (? & ? & _)|done]].
  rewrite result_bind_Ok. destruct (String.eqb_spec type name) as [->|Hne]; simpl; split; [|done|done|eauto].
  by intros (t & [= <-] & Hne).
Qed.

Lemma handler_takes name text j :
  replyHandler name None text = Ok (Some j) ↔ parse text = Ok j ∧ jValue getString "type" "" j = Ok name.
Proof.
  unfold replyHandler. destruct (parse text) as [j'|]; [|by split; [|intros []]].
  destruct (jValue getString "type" "" j') as [type|] eqn:Ht.
  - rewrite result_bind_Ok. destruct (String.eqb_spec type name) as [->|Hne]; simpl; split.
    + by intros [= <-].
    + by intros [[= <-] _].
    + done.
    + intros [[= <-] Ht']. congruence.
  - split; [done|]. intros [[= <-] Ht']. congruence.
Qed.

Lemma deliver_Some name texts j : deliver name texts (Some j) = Ok (Some j).
Proof. by induction texts. Qed.

(** The reply is the first text of the expected type; what comes before is
    passed over, what comes after is dropped. *)
Lemma deliver_reply name texts j :
  deliver name texts None = Ok (Some j) ↔
  ∃ before text after, texts = before ++ text :: after ∧ Forall (passedOver name) before ∧
    parse text = Ok j ∧ jValue getString "type" "" j = Ok name.
Proof.
  split.
  - induction texts as [|text texts IH]; [done|]. cbn [deliver].
    destruct (replyHandler name None text) as [[j'|]|] eqn:Hh; [..|done]; rewrite result_bind_Ok.
    + rewrite deliver_Some. intros [= ->]. exists [], text, texts. apply handler_takes in Hh.
      split_and!; [done|constructor|apply Hh..].
    + intros (before & t & after & -> & Hb & Ht)%IH. exists (text :: before), t, after.
      split_and!; [done| |apply Ht..]. constructor; [by apply handler_passes|done].
  - intros (before & text & after & -> & Hb & Ht). induction Hb as [|x before Hx Hb IH]; cbn [app deliver].
    + rewrite (proj2 (handler_takes _ _ _) Ht), result_bind_Ok. apply deliver_Some.
    + by rewrite (proj1 (handler_passes _ _) Hx), result_bind_Ok.
Qed.

Lemma request_inv m t d d' reply :
  sendAndWaitForReply m t d = (d', Returned reply) →
  ∃ name text, MessageCodec.typeName t = Ok name ∧ MessageCodec.encode m = Ok text ∧
    d' = record (Sent text) (setHandlers (tail (handlers d)) d) ∧
    deliver name (default [] (head (handlers d))) None = Ok (Some reply).
Proof.
  unfold sendAndWaitForReply.
  intros (d1 & name & [Hn ->]%lift_inv & Hr)%bind_inv. revert Hr.
  intros (d1 & batches & [= <- <-] & Hr)%bind_inv. revert Hr.
  intros (d1 & [] & [= <-] & Hr)%bind_inv. revert Hr.
  intros (d1 & text & [He ->]%lift_inv & Hr)%bind_inv. revert Hr.
  intros (d1 & [] & [= <-] & Hr)%bind_inv. exists name, text.
  destruct (deliver _ _ _) as [[j|]|] eqn:Hd; [|done..]. injection Hr as <- <-. by split_and!.
Qed.

Lemma request_returns m t name text reply d batch rest before after :
  MessageCodec.typeName t = Ok name → MessageCodec.encode m = Ok text →
  handlers d = batch :: rest → batch = before ++ reply :: after → Forall (passedOver name) before →
  ∀ j, parse reply = Ok j → jValue getString "type" "" j = Ok name →
  sendAndWaitForReply m t d = (record (Sent text) (setHandlers rest d), Returned j).
Proof.
  intros Hn He Hh Hb Hp j Hj Ht. unfold sendAndWaitForReply.
  rewrite Hn. cbn [lift]. unfold mbind, act_bind, gets, modify, emit, lift. rewrite He, Hh. cbn [head tail default from_option id].
  rewrite (proj2 (deliver_reply name batch j)); [done|]. by exists before, reply, after.
Qed.
End Replies.

(** ** Logging in *)
Section LoginFlow.
Context `{JsonText}.

Definition postsOf (l : list DeskOut) : list (string * string) :=
  omap (λ o, match o with Posted path body => Some (path, body) | _ => None end) l.

Definition loginBody (input : list string) : json :=
  jObj [("username", JString (default "" (input !! 0%nat))); ("password", JString (default "" (input !! 1%nat)))].

Lemma post_inv path body d d' j :
  post path body d = (d', Returned j) →
  ∃ a l, dumpR body = Ok (dump body) ∧ httpAnswers d = a :: l ∧ j = doRequest a ∧
    d' = setAnswers l (record (Posted path (dump body)) d).
Proof.
  unfold post. intros (d1 & text & [Ht ->]%lift_inv & Hr)%bind_inv. revert Hr.
  assert (text = dump body) as -> by (unfold dumpR in Ht; destruct (jsonStrings _ _); [by injection Ht|done]).
  intros (d1 & [] & [= <-] & Hr)%bind_inv. revert Hr.
  intros (d1 & l & [= <- <-] & Hr)%bind_inv. cbn in Hr.
  destruct (httpAnswers d) as [|a l] eqn:Ha; [done|]. injection Hr as <- <-. by exists a, l.
Qed.

Lemma post_returns path body d a l j :
  jsonStrings utf8 body = true → httpAnswers d = a :: l → doRequest a = j →
  post path body d = (setAnswers l (record (Posted path (dump body)) d), Returned j).
Proof.
  intros Hb Ha <-. unfold post, dumpR, mbind, act_bind, lift, emit, modify, gets. rewrite Hb.
  change (httpAnswers (record (Posted path (dump body)) d)) with (httpAnswers d). by rewrite Ha.
Qed.

Lemma attempt_inv d d' x :
  loginAttempt d = (d', Returned x) →
  ∃ a, httpAnswers d = a :: httpAnswers d' ∧ readLogin (doRequest a) = Ok x ∧ stdin d' = drop 2 (stdin d) ∧
    postsOf (trace d') = postsOf (trace d) ++ [("/login", dump (loginBody (stdin d)))].
Proof.
  unfold loginAttempt, readWord. intros (d1 & [] & [= <-] & Hr)%bind_inv. revert Hr.
  intros (d1 & u & [= <- <-] & Hr)%bind_inv. revert Hr.
  intros (d1 & [] & [= <-] & Hr)%bind_inv. revert Hr.
  intros (d1 & p & [= <- <-] & Hr)%bind_inv. revert Hr. unfold postLogin.
  intros (d1 & j & (a & l & _ & Ha & -> & ->)%post_inv & [Hx ->]%lift_inv)%bind_inv.
  exists a. split_and!; [exact Ha|done|by destruct (stdin d) as [|? [|]]|].
  cbn -[postsOf]. unfold postsOf. rewrite !omap_app. cbn. rewrite !app_nil_r. by destruct (stdin d) as [|? [|]].
Qed.

(** The [k] attempts made on [d], the last with the result [x]. *)
Definition attempted (k : nat) (x : LoginResult) (d d' : Desk) : Prop :=
  httpAnswers d' = drop k (httpAnswers d) ∧
  postsOf (trace d') = postsOf (trace d) ++ map (λ i, ("/login", dump (loginBody (drop (2 * i) (stdin d))))) (seq 0 k) ∧
  (∃ a, httpAnswers d !! (k - 1)%nat = Some a ∧ readLogin (doRequest a) = Ok x) ∧
  ∀ i, (i < k - 1)%nat → ∃ a y, httpAnswers d !! i = Some a ∧ readLogin (doRequest a) = Ok y ∧ success y = false.

Lemma attempted_cons k x y d d1 d' a :
  httpAnswers d = a :: httpAnswers d1 → readLogin (doRequest a) = Ok y → success y = false → stdin d1 = drop 2 (stdin d) →
  postsOf (trace d1) = postsOf (trace d) ++ [("/login", dump (loginBody (stdin d)))] → (0 < k)%nat →
  attempted k x d1 d' → attempted (S k) x d d'.
Proof.
  intros Ha Hy Hs Hin Hp Hk (H1 & H2 & H3 & H4). unfold attempted. rewrite Ha. split_and!.
  - done.
  - rewrite H2, Hp, <-app_assoc. f_equal. cbn [app seq map]. f_equal. rewrite <-seq_shift, map_map.
    apply map_ext. intros i. rewrite Hin, drop_drop. by replace (2 + 2 * i)%nat with (2 * S i)%nat by lia.
  - destruct k as [|k]; [lia|]. replace (S (S k) - 1)%nat with (S (S k - 1)) by lia. exact H3.
  - intros [|i] Hi; [by exists a, y|]. simpl. apply H4. lia.
Qed.

Lemma posts_printed t d : postsOf (trace (record (Printed t) d)) = postsOf (trace d).
Proof. unfold postsOf. cbn [trace record]. by rewrite omap_app, app_nil_r. Qed.

Lemma loop_attempts left d d' r :
  loginLoop left d = (d', Returned r) →
  ∃ k x, (0 < k ≤ S left)%nat ∧ attempted k x d d' ∧
    if success x then r = x else k = S left ∧ r = noLogin.
Proof.
  revert d. induction left as [|left IH]; intros d; cbn [loginLoop];
    intros (d1 & x & (a & Ha & Hx & Hin & Hp)%attempt_inv & Hr)%bind_inv; destruct (success x) eqn:Hs; revert Hr;
    intros (d2 & [] & [= <-] & Hr)%bind_inv.
  1, 3: injection Hr as <- <-; exists 1%nat, x; rewrite Hs; split_and!; [lia..| |done]; unfold attempted; rewrite Ha; split_and!;
    [done|by rewrite posts_printed|by exists a|lia].
  - revert Hr. intros (d3 & [] & [= <-] & [= <- <-])%bind_inv. exists 1%nat, x. rewrite Hs. split_and!; [lia..| |done|done].
    unfold attempted. rewrite Ha. split_and!; [done|by rewrite !posts_printed|by exists a|lia].
  - revert Hr. intros (d3 & [] & [= <-] & Hr)%bind_inv. apply IH in Hr as (k & y & Hk & Hat & Hy).
    exists (S k), y. split_and!; [lia..| |destruct (success y); [done|]; naive_solver].
    match type of Hat with attempted _ _ ?d2 _ => apply (attempted_cons k y x d d2 d' a) end; try done; [by rewrite !posts_printed|lia].
Qed.

(** Logging in takes at most three attempts: each posts the next name and
    password that were typed, an attempt is made only after every one before it was
    refused, and the flow ends with the first answer that accepts, or, after three
    refusals, without a token. *)
Theorem login_three_attempts d d' r :
  runLoginFlow d = (d', Returned r) →
  ∃ k x, (0 < k ≤ 3)%nat ∧ attempted k x d d' ∧ if success x then r = x else k = 3%nat ∧ r = noLogin.
Proof. apply loop_attempts. Qed.

(** It ends, whatever is answered, when there are three answers it can read. *)
Definition readable (a : HttpAnswer) : Prop := ∃ x, readLogin (doRequest a) = Ok x.

Lemma transport_readable a : (∀ text, a ≠ Body text) → readable a.
Proof.
  intros Ha. destruct a; [..|by destruct (Ha text)]; eexists; unfold readLogin, doRequest, transportError; jfields;
    cbn [getBool getString mbind result_bind]; reflexivity.
Qed.
End LoginFlow.

(** ** The dialog *)

(** What the dialog gives is a valid name for a room, or the wish to leave. *)
Definition dialogOk (r : RoomDialogResult) : Prop :=
  action r = Cancel ∧ dialogName r = "" ∨ action r ≠ Cancel ∧ isValidRoomName (dialogName r) = true.

Lemma finish_ok a typed r r' warned : finish a typed r = (r', true, warned) → dialogOk r' ∧ warned = false.
Proof.
  unfold finish. destruct a.
  1, 2: destruct (String.eqb typed ""); [intros [= <- <-]; split; [by left|done]|];
    destruct (isValidRoomName typed) eqn:Hv; [|done]; intros [= <- <-]; split; [by right|done].
  intros [= <- <-]. split; [by left|done].
Qed.

Lemma finish_stays a typed r r' warned : finish a typed r = (r', false, warned) → r' = r.
Proof.
  unfold finish. destruct a; [..|done]; (destruct (String.eqb typed ""); [done|]);
    (destruct (isValidRoomName typed); [done|]); by intros [= <- _].
Qed.

Lemma dialogLoop_ok events r d d' r' : dialogOk r → dialogLoop events r d = (d', Returned r') → dialogOk r'.
Proof.
  intros Hr. revert d. induction events as [|e events IH]; intros d; [done|].
  assert (∀ b : option (Action * string), match b with
    | None => dialogLoop events r
    | Some (a, typed) =>
      let '(r, destroyed, warned) := finish a typed r in
      (if warned then emit InvalidName else (mret tt : Act unit));;
      if destroyed then modify (setQuit true);; mret r else dialogLoop events r
    end d = (d', Returned r') → dialogOk r') as Hb.
  { intros [[a typed]|]; [|apply IH]. destruct (finish a typed r) as [[r1 destroyed] warned] eqn:Hf.
    intros (d1 & [] & _ & Hd)%bind_inv. destruct destroyed.
    - revert Hd. intros (d2 & [] & _ & [= _ <-])%bind_inv. by apply finish_ok in Hf as [? _].
    - apply finish_stays in Hf as ->. by eapply IH. }
  destruct e; cbn [dialogLoop]; [apply Hb..|]. intros (d1 & [] & _ & Hd)%bind_inv. by eapply IH.
Qed.

Lemma dialog_ok d d' r : showRoomDialog d = (d', Returned r) → dialogOk r.
Proof.
  unfold showRoomDialog, messageLoop. intros (d1 & q & [= <- <-] & Hr)%bind_inv.
  destruct (quitPosted d); revert Hr; [intros (d2 & [] & _ & [= _ <-])%bind_inv; by left|].
  intros (d1 & l & [= <- <-] & Hr)%bind_inv. revert Hr. intros (d2 & [] & _ & Hr)%bind_inv.
  eapply dialogLoop_ok; [|exact Hr]. by left.
Qed.
