(* ===== verification/HomeView.v ===== *)
(** * The home screen ([client/app/HomeScreenView])

    The loop of frames that ends with a seat in a room or with the window
    closed.  A frame is what [cv::waitKey] dispatched and returned, whether the
    window is still visible, and whether the thread of [POST /play] got its answer
    before the frame's poll. *)
From S2P Require Import Prelude Model Text Double Rules Motion Arbiter ArbiterSteps Lifecycle Engine EngineSpec EngineTheorems Json Observers Codecs Session Registry BoardIO Server ClientInput Desk.
#[local] Open Scope Z_scope.

Definition colorFromRole (role : string) : Color :=
  if String.eqb role "White" then White else if String.eqb role "Black" then Black else NoColor.

Lemma colorFromRole_roleName c : colorFromRole (roleName c) = c.
Proof. by destruct c. Qed.

Record RoomJoinOutcome := mkJoin {
  jo_roomName : string; jo_moveLog : json;
  jo_whiteName : string; jo_whiteElo : Z; jo_blackName : string; jo_blackElo : Z;
  jo_role : Color
}.
Definition noJoin : RoomJoinOutcome := mkJoin "" JNull "" 0 "" 0 NoColor.

Definition emptyMoveLog : json := jObj [("white", JArray []); ("black", JArray [])].

(** [HomeScreenResult] *)
Record HomeScreenResult := mkHome { joinedRoom : bool; joinedAs : RoomJoinOutcome }.
Definition notJoined : HomeScreenResult := mkHome false (mkJoin "" emptyMoveLog "" 0 "" 0 NoColor).

Record HomeFrame := mkFrame { mouse : list (Z * Z * Z); key : Z; visible : bool; playAnswer : option HttpAnswer }.

(** How an iteration ends: by [break], or with [searching] for the next one. *)
Inductive FrameEnd := Leave (r : HomeScreenResult) | Stay (searching : bool).

Section HomeView.
Context `{JsonText}.

(** [GraphicalApplication::connect]: waits until the connection is open. *)
Definition connect (shardHint : string) : Act unit :=
  emit (Connected shardHint);;
  l ← gets connections;
  match l with
  | Some batches :: l => modify (setConnections l batches)
  | _ => block
  end.

Definition authRequest (token : string) : Message := mkMessage Auth (jObj [("token", JString token)]).
Definition enterRequest (token roomName : string) : Message :=
  mkMessage EnterRoom (jObj [("token", JString token); ("roomName", JString roomName)]).

Definition authenticateConnection (token : string) : Act bool :=
  reply ← sendAndWaitForReply (authRequest token) Auth;
  success ← lift (jValue getBool "success" false reply);
  if success : bool then mret true
  else
    message ← lift (jValue getString "message" "" reply);
    showRoomError message;;
    mret false.

Definition readJoin (roomName : string) (reply : json) : result RoomJoinOutcome :=
  n ← jValue getString "roomName" roomName reply;
  log ← jValue getJson "moveLog" emptyMoveLog reply;
  wn ← jValue getString "whiteName" "" reply;
  we ← jValue getInt "whiteElo" 0 reply;
  bn ← jValue getString "blackName" "" reply;
  be ← jValue getInt "blackElo" 0 reply;
  r ← jValue getString "role" "" reply;
  Ok (mkJoin n log wn we bn be (colorFromRole r)).

Definition enterRoomOnShard (token shard roomName : string) : Act RoomJoinOutcome :=
  connect shard;;
  authenticated ← authenticateConnection token;
  if negb authenticated then mret noJoin
  else
    reply ← sendAndWaitForReply (enterRequest token roomName) EnterRoom;
    success ← lift (jValue getBool "success" false reply);
    if negb success then
      message ← lift (jValue getString "message" "" reply);
      showRoomError message;;
      mret noJoin
    else lift (readJoin roomName reply).

Definition roomPath (a : Action) (roomName : string) : string :=
  match a with Create => "/rooms" | _ => "/rooms/" +:+ roomName +:+ "/join" end.
Definition roomBody (a : Action) (token roomName : string) : json :=
  match a with
  | Create => jObj [("token", JString token); ("name", JString roomName)]
  | _ => jObj [("token", JString token)]
  end.

Definition sendRoomRequest (token : string) (a : Action) (roomName : string) : Act RoomJoinOutcome :=
  restReply ← post (roomPath a roomName) (roomBody a token roomName);
  success ← lift (jValue getBool "success" false restReply);
  if negb success then
    message ← lift (jValue getString "message" "" restReply);
    showRoomError message;;
    mret noJoin
  else
    shard ← lift (jValue getString "shard" "" restReply);
    resolvedName ← lift (jValue getString "roomName" roomName restReply);
    enterRoomOnShard token shard resolvedName.

(** The thread posts; an exception in it ends the process. *)
Definition sendPlayRequest (token : string) : Act unit :=
  n ← gets playThreads;
  match dumpR (jObj [("token", JString token)]) with
  | Throw what => terminate what
  | Ok body => modify (setPlay None (S n));; emit (PlayPosted body)
  end.

(** One of the threads stores what its call returned. *)
Definition playThread (a : HttpAnswer) (d : Desk) : Desk :=
  match playThreads d with
  | O => d
  | S n => record PlayAnswered (setPlay (Some (doRequest a)) n d)
  end.

Definition pollGameFound : Act (option json) :=
  r ← gets g_playResult;
  match r with
  | None => mret None
  | Some reply => n ← gets playThreads; modify (setPlay None n);; mret (Some reply)
  end.

(** [cv::waitKey] takes every message of the queue, a [WM_QUIT] too. *)
Definition waitKey (f : HomeFrame) (d : Desk) : Desk :=
  let d := foldl (λ d e, onHomeMouseEvent e.1.1 e.1.2 e.2 d) (setQuit false d) (mouse f) in
  match playAnswer f with Some a => playThread a d | None => d end.

Definition clearChoice : Act unit := modify (setChoice NoChoice).

Definition joinedResult (outcome : RoomJoinOutcome) : HomeScreenResult := mkHome true outcome.

(** [if (searching)] *)
Definition searchingFrame (token : string) : Act FrameEnd :=
  found ← pollGameFound;
  match found with
  | None => clearChoice;; mret (Stay true)
  | Some found =>
    success ← lift (jValue getBool "success" false found);
    if success : bool then
      shard ← lift (jValue getString "shard" "" found);
      roomName ← lift (jValue getString "roomName" "" found);
      outcome ← enterRoomOnShard token shard roomName;
      if String.eqb (jo_roomName outcome) "" then mret (Stay false)
      else mret (Leave (joinedResult outcome))
    else
      lift (jValue getString "message" "" found);;
      message ← lift (jValue getString "message" "no players available" found);
      showRoomError message;;
      clearChoice;;
      mret (Stay false)
  end.

(** The Room button. *)
Definition roomFrame (token : string) : Act FrameEnd :=
  clearChoice;;
  dialogResult ← showRoomDialog;
  if bool_decide (action dialogResult = Cancel) || String.eqb (dialogName dialogResult) "" then mret (Stay false)
  else
    outcome ← sendRoomRequest token (action dialogResult) (dialogName dialogResult);
    if negb (String.eqb (jo_roomName outcome) "") then mret (Leave (joinedResult outcome))
    else clearChoice;; mret (Stay false).

Definition idleFrame (token : string) : Act FrameEnd :=
  choice ← gets g_pendingChoice;
  match choice with
  | PlayChoice => clearChoice;; sendPlayRequest token;; clearChoice;; mret (Stay true)
  | RoomChoice => roomFrame token
  | NoChoice => clearChoice;; mret (Stay false)
  end.

(** One iteration of the loop. *)
Definition homeFrame (token : string) (searching : bool) (f : HomeFrame) : Act FrameEnd :=
  p ← gets g_mousePos;
  emit (Shown (hitTest p.1 p.2) searching);;
  modify (waitKey f);;
  if key f =? 27 then mret (Leave notJoined)
  else if negb (visible f) then mret (Leave notJoined)
  else if searching then searchingFrame token
  else idleFrame token.

(** Frames without end: a list of them that is used up leaves the loop waiting. *)
Fixpoint homeLoop (token : string) (searching : bool) (frames : list HomeFrame) : Act HomeScreenResult :=
  match frames with
  | [] => block
  | f :: frames =>
    e ← homeFrame token searching f;
    match e with
    | Leave r => mret r
    | Stay searching => homeLoop token searching frames
    end
  end.

Definition runHomeScreen (token : string) (frames : list HomeFrame) : Act HomeScreenResult :=
  modify (setChoice NoChoice);;
  modify (setMouse (-1, -1));;
  homeLoop token false frames.
End HomeView.

(** ** One search at a time *)
Section Searching.
Context `{JsonText}.

Definition countOut (P : DeskOut → bool) (l : list DeskOut) : nat := length (filter (λ o, P o = true) l).
Definition isPlayPosted (o : DeskOut) : bool := match o with PlayPosted _ => true | _ => false end.
Definition isPlayAnswered (o : DeskOut) : bool := match o with PlayAnswered => true | _ => false end.

(** What the searches are about. *)
Record Plays := mkPlays { inFlight : nat; stored : option json; playsPosted : nat; playsAnswered : nat }.
Definition playsOf (d : Desk) : Plays :=
  mkPlays (playThreads d) (g_playResult d) (countOut isPlayPosted (trace d)) (countOut isPlayAnswered (trace d)).

Definition quiet {A} (m : Act A) : Prop := ∀ x, keeps (λ d, playsOf d = x) m.

Lemma countOut_snoc P l o : countOut P (l ++ [o]) = (countOut P l + if P o then 1 else 0)%nat.
Proof. unfold countOut. rewrite filter_app, length_app, filter_cons. by destruct (P o). Qed.

Lemma quiet_bind {A B} (m : Act A) (f : A → Act B) : quiet m → (∀ a, quiet (f a)) → quiet (m ≫= f).
Proof. intros Hm Hf x. apply keeps_bind; [apply Hm|intros a; apply Hf]. Qed.

Lemma quiet_modify f : (∀ d, playsOf (f d) = playsOf d) → quiet (modify f).
Proof. intros Hf x d. cbn. by rewrite Hf. Qed.

Lemma quiet_emit o : isPlayPosted o = false → isPlayAnswered o = false → quiet (emit o).
Proof.
  intros Hp Ha. apply quiet_modify. intros d. unfold playsOf. cbn [trace record playThreads g_playResult].
  by rewrite !countOut_snoc, Hp, Ha, !Nat.add_0_r.
Qed.

Lemma mouse_quiet e x y d : playsOf (onHomeMouseEvent e x y d) = playsOf d.
Proof. unfold onHomeMouseEvent. destruct (negb _); [done|]. by destruct (hitTest x y). Qed.

Lemma quiet_ret {A} (a : A) : quiet (mret a).
Proof. intros x. apply keeps_ret. Qed.
Lemma quiet_gets {A} (f : Desk → A) : quiet (gets f).
Proof. intros x. apply keeps_gets. Qed.
Lemma quiet_block {A} : quiet (block : Act A).
Proof. intros x. apply keeps_block. Qed.
Lemma quiet_terminate {A} what : quiet (terminate what : Act A).
Proof. intros x. apply keeps_terminate. Qed.
Lemma quiet_lift {A} (r : result A) : quiet (lift r).
Proof. intros x. apply keeps_lift. Qed.

#[local] Hint Resolve quiet_ret quiet_gets quiet_block quiet_terminate quiet_lift : quiet.
#[local] Hint Extern 1 (quiet (emit _)) => apply quiet_emit; reflexivity : quiet.
#[local] Hint Extern 2 (quiet (modify _)) => apply quiet_modify; intros; try apply mouse_quiet; reflexivity : quiet.

Ltac quiet :=
  repeat first
    [ solve [auto with quiet]
    | apply quiet_bind; [|intros ?]
    | match goal with |- quiet (match ?x with _ => _ end) => destruct x end
    | progress cbn zeta ].

Lemma errorLoop_quiet events : quiet (errorLoop events).
Proof. induction events as [|[] events IH]; cbn [errorLoop]; quiet; exact IH. Qed.

Lemma dialogLoop_quiet events r : quiet (dialogLoop events r).
Proof.
  revert r. induction events as [|[code id typed| |e x y] events IH]; intros r; cbn [dialogLoop]; [quiet|..]; quiet; apply IH.
Qed.

Lemma showRoomError_quiet m : quiet (showRoomError m).
Proof. unfold showRoomError, messageLoop. quiet. apply errorLoop_quiet. Qed.

Lemma showRoomDialog_quiet : quiet showRoomDialog.
Proof. unfold showRoomDialog, messageLoop. quiet. apply dialogLoop_quiet. Qed.

Lemma request_quiet m t : quiet (sendAndWaitForReply m t).
Proof. unfold sendAndWaitForReply. quiet. Qed.
#[local] Hint Resolve showRoomError_quiet showRoomDialog_quiet request_quiet : quiet.

Lemma enter_quiet token shard name : quiet (enterRoomOnShard token shard name).
Proof. unfold enterRoomOnShard, connect, authenticateConnection. quiet. Qed.
#[local] Hint Resolve enter_quiet : quiet.

Lemma roomFrame_quiet token : quiet (roomFrame token).
Proof. unfold roomFrame, sendRoomRequest, post, clearChoice. quiet. Qed.

(** While searching, one request is under way or its answer is stored; else
    there is neither. *)
Definition searchState (searching : bool) (p : Plays) : Prop :=
  playsPosted p = (playsAnswered p + inFlight p)%nat ∧
  match stored p with
  | Some _ => searching = true ∧ inFlight p = 0%nat
  | None => inFlight p = if searching then 1%nat else 0%nat
  end.
Definition searchOk (searching : bool) (d : Desk) : Prop := searchState searching (playsOf d).

Lemma quiet_keeps {A} (m : Act A) s : quiet m → keeps (searchOk s) m.
Proof. intros Hm d Hd. unfold searchOk. by rewrite (Hm (playsOf d) d eq_refl). Qed.

Lemma waitKey_ok s f : keeps (searchOk s) (modify (waitKey f)).
Proof.
  intros d Hd. cbn. unfold waitKey. set (d1 := foldl _ _ _).
  assert (searchOk s d1) as Hd1.
  { unfold d1. apply foldl_ind; [exact Hd|]. intros d' e _. unfold searchOk. by rewrite mouse_quiet. }
  destruct (playAnswer f) as [a|]; [|done]. unfold playThread. destruct (playThreads d1) as [|n] eqn:Hn; [done|].
  destruct Hd1 as [Hc Hs]. unfold searchOk, searchState, playsOf in *. cbn -[countOut] in *. rewrite Hn in *.
  rewrite !countOut_snoc. cbn -[countOut]. destruct (g_playResult d1) as [r|]; [by destruct Hs|]. destruct s; [|done].
  injection Hs as ->. split; [|done]. lia.
Qed.

(** What a frame leaves for the next one, and for good. *)
Definition frameOk (o : outcome FrameEnd) (d : Desk) : Prop :=
  match o with
  | Returned (Stay searching) => searchOk searching d
  | _ => ∃ searching, searchOk searching d
  end.

Lemma frameOk_any s o d : searchOk s d → (∀ s', o = Returned (Stay s') → s' = s) → frameOk o d.
Proof. intros Hd Ho. destruct o as [[r|s']| | |]; simpl; [by exists s|by rewrite (Ho s')|by exists s..]. Qed.

Lemma quiet_frame (m : Act FrameEnd) s d :
  quiet m → searchOk s d → (∀ d' s', m d = (d', Returned (Stay s')) → s' = s) → frameOk (m d).2 (m d).1.
Proof.
  intros Hm Hd Hs. pose proof (quiet_keeps m s Hm d Hd) as Hk. destruct (m d) as [d' o]. simpl in *.
  apply (frameOk_any s); [done|]. intros s' ->. by eapply Hs.
Qed.

Lemma roomFrame_stays token d d' s : roomFrame token d = (d', Returned (Stay s)) → s = false.
Proof.
  unfold roomFrame. intros (d1 & [] & _ & Hr)%bind_inv. revert Hr. intros (d2 & r & _ & Hr)%bind_inv.
  destruct (_ || _); [by injection Hr|]. revert Hr. intros (d3 & o & _ & Hr)%bind_inv.
  destruct (negb _); [done|]. revert Hr. by intros (d4 & [] & _ & [= _ <-])%bind_inv.
Qed.

Lemma idleFrame_ok token d : searchOk false d → frameOk (idleFrame token d).2 (idleFrame token d).1.
Proof.
  intros Hd. unfold idleFrame. rewrite (bind_Returned _ _ d d (g_pendingChoice d)) by done.
  destruct (g_pendingChoice d).
  - exact Hd.
  - unfold clearChoice, sendPlayRequest, mbind, act_bind, modify, gets, emit. cbn -[dumpR].
    destruct (dumpR _) as [body|what]; [|by exists false]. destruct Hd as [Hc Hs]. cbn.
    unfold searchOk, searchState, playsOf in *. cbn -[countOut] in *. rewrite !countOut_snoc. cbn -[countOut].
    destruct (g_playResult d) as [r|]; [by destruct Hs|]. rewrite Hs in *. split; [lia|done].
  - apply (quiet_frame _ false); [apply roomFrame_quiet|done|]. intros d' s' Hr. by eapply roomFrame_stays.
Qed.

Lemma searchingFrame_ok token d : searchOk true d → frameOk (searchingFrame token d).2 (searchingFrame token d).1.
Proof.
  intros Hd. unfold searchingFrame. destruct (g_playResult d) as [found|] eqn:Hf.
  - rewrite (bind_Returned _ _ d (setPlay None (playThreads d) d) (Some found)).
    2: { unfold pollGameFound, mbind, act_bind, gets, modify. by rewrite Hf. }
    assert (searchOk false (setPlay None (playThreads d) d)) as Hd'.
    { destruct Hd as [Hc Hs]. unfold searchOk, searchState, playsOf in *. cbn -[countOut] in *. rewrite Hf in Hs.
      destruct Hs as [_ Hn]. rewrite Hn in *. done. }
    apply (quiet_frame _ false); [unfold clearChoice; quiet|exact Hd'|].
    intros d' s'. intros (d1 & b & _ & Hr)%bind_inv. destruct b; revert Hr.
    + intros (d2 & x & _ & Hr)%bind_inv. revert Hr. intros (d3 & y & _ & Hr)%bind_inv. revert Hr.
      intros (d4 & o & _ & Hr)%bind_inv. destruct (String.eqb _ _); [by injection Hr|done].
    + intros (d2 & x & _ & Hr)%bind_inv. revert Hr. intros (d3 & y & _ & Hr)%bind_inv. revert Hr.
      intros (d4 & [] & _ & Hr)%bind_inv. revert Hr. by intros (d5 & [] & _ & [= _ <-])%bind_inv.
  - rewrite (bind_Returned _ _ d d None); [exact Hd|]. unfold pollGameFound, mbind, act_bind, gets. by rewrite Hf.
Qed.

Lemma homeFrame_ok token s f d : searchOk s d → frameOk (homeFrame token s f d).2 (homeFrame token s f d).1.
Proof.
  intros Hd. unfold homeFrame. rewrite (bind_Returned _ _ d d (g_mousePos d)) by done.
  set (d1 := record (Shown (hitTest (g_mousePos d).1 (g_mousePos d).2) s) d).
  rewrite (bind_Returned _ _ d d1 tt) by done. rewrite (bind_Returned _ _ d1 (waitKey f d1) tt) by done.
  assert (searchOk s (waitKey f d1)) as Hd2.
  { apply (waitKey_ok s f). unfold d1.
    apply (quiet_keeps (emit (Shown (hitTest (g_mousePos d).1 (g_mousePos d).2) s)) s); [auto with quiet|done]. }
  destruct (key f =? 27); [by exists s|]. destruct (negb (visible f)); [by exists s|].
  destruct s; [by apply searchingFrame_ok|by apply idleFrame_ok].
Qed.

Lemma homeLoop_ok token frames s d : searchOk s d → ∃ s', searchOk s' (homeLoop token s frames d).1.
Proof.
  revert s d. induction frames as [|f frames IH]; intros s d Hd; cbn [homeLoop]; [by exists s|].
  pose proof (homeFrame_ok token s f d Hd) as Hf. unfold mbind, act_bind.
  destruct (homeFrame token s f d) as [d1 [[r|s1]| | |]]; cbn [fst snd frameOk] in *; [exact Hf|by apply IH|exact Hf..].
Qed.

(** The home screen searches for one opponent at a time: however the player
    clicks and the frames, dialogs and answers interleave, and wherever the screen
    is when one looks, at most one [POST /play] waits for its answer, and every
    other one that was made has been answered. *)
Theorem one_search_at_a_time token frames d :
  playThreads d = 0%nat → g_playResult d = None → playsPosted (playsOf d) = playsAnswered (playsOf d) →
  let p := playsOf (runHomeScreen token frames d).1 in
  playsPosted p = (playsAnswered p + inFlight p)%nat ∧ (inFlight p ≤ 1)%nat.
Proof.
  intros Hn Hr Hc. unfold runHomeScreen. rewrite !(bind_Returned (modify _) _ _ _ tt eq_refl).
  destruct (homeLoop_ok token frames false (setMouse (-1, -1) (setChoice NoChoice d))) as [s [H1 H2]].
  { cbn -[countOut] in *. split; cbn -[countOut]; [lia|]. by rewrite Hr, Hn. }
  split; [exact H1|]. destruct (stored _); [by destruct H2 as [_ ->]; lia|rewrite H2; destruct s; lia].
Qed.
End Searching.

(** ** How the screen is left *)
Section Seats.
Context `{JsonText}.

(** [batches] is what the connection to [shard] brought: the first handler saw
    the token accepted, the second the seat in [name]. *)
Inductive Seated (token shard name : string) (d d' : Desk) (o : RoomJoinOutcome) : Prop :=
  | mkSeated batches auth enter authReply reply :
      head (connections d) = Some (Some batches) →
      MessageCodec.encode (authRequest token) = Ok auth →
      MessageCodec.encode (enterRequest token name) = Ok enter →
      trace d' = trace d ++ [Connected shard; Sent auth; Sent enter] →
      deliver "AUTH" (default [] (batches !! 0%nat)) None = Ok (Some authReply) →
      jValue getBool "success" false authReply = Ok true →
      deliver "ENTER_ROOM" (default [] (batches !! 1%nat)) None = Ok (Some reply) →
      jValue getBool "success" false reply = Ok true →
      readJoin name reply = Ok o →
      handlers d' = drop 2 batches →
      Seated token shard name d d' o.

Lemma connect_inv shard d d' :
  connect shard d = (d', Returned tt) →
  ∃ batches l, connections d = Some batches :: l ∧ d' = setConnections l batches (record (Connected shard) d).
Proof.
  unfold connect. intros (d1 & [] & [= <-] & Hr)%bind_inv. revert Hr.
  intros (d1 & l & [= <- <-] & Hr)%bind_inv. cbn in Hr.
  destruct (connections d) as [|[batches|] l]; [done| |done]. injection Hr as <-. eauto.
Qed.

Lemma auth_inv token d d' :
  authenticateConnection token d = (d', Returned true) →
  ∃ auth reply, MessageCodec.encode (authRequest token) = Ok auth ∧
    d' = record (Sent auth) (setHandlers (tail (handlers d)) d) ∧
    deliver "AUTH" (default [] (head (handlers d))) None = Ok (Some reply) ∧ jValue getBool "success" false reply = Ok true.
Proof.
  unfold authenticateConnection. intros (d1 & reply & (name & text & [= <-] & He & -> & Hd)%request_inv & Hr)%bind_inv.
  revert Hr. intros (d2 & b & [Hb ->]%lift_inv & Hr)%bind_inv. destruct b.
  - injection Hr as <-. by exists text, reply.
  - revert Hr. intros (d3 & m & _ & Hr)%bind_inv. revert Hr. by intros (d4 & [] & _ & [=])%bind_inv.
Qed.

Lemma enter_inv token shard name d d' o :
  enterRoomOnShard token shard name d = (d', Returned o) → jo_roomName o ≠ "" → Seated token shard name d d' o.
Proof.
  unfold enterRoomOnShard. intros (d1 & [] & (batches & l & Hc & ->)%connect_inv & Hr)%bind_inv Ho. revert Hr.
  intros (d2 & a & Ha & Hr)%bind_inv. destruct a; [|by injection Hr as <- <-].
  apply auth_inv in Ha as (auth & areply & Hauth & -> & Had & Has). revert Hr.
  intros (d3 & reply & (ename & enter & [= <-] & He & -> & Hd)%request_inv & Hr)%bind_inv. revert Hr.
  intros (d4 & b & [Hb ->]%lift_inv & Hr)%bind_inv. destruct b.
  - apply lift_inv in Hr as [Hj ->]. apply (mkSeated _ _ _ _ _ _ batches auth enter areply reply).
    all: try done.
    + by rewrite Hc.
    + cbn [trace record setHandlers setConnections]. by rewrite <-!app_assoc.
    + by destruct batches.
    + by destruct batches as [|? [|]].
    + by destruct batches as [|? [|]].
  - revert Hr. intros (d5 & m & _ & Hr)%bind_inv. revert Hr. by intros (d6 & [] & _ & [= <- <-])%bind_inv.
Qed.

Lemma roomRequest_inv token a name d d' o :
  sendRoomRequest token a name d = (d', Returned o) → jo_roomName o ≠ "" →
  ∃ shard resolved d1, Seated token shard resolved d1 d' o.
Proof.
  unfold sendRoomRequest. intros (d1 & reply & _ & Hr)%bind_inv Ho. revert Hr.
  intros (d2 & b & _ & Hr)%bind_inv. destruct b; revert Hr.
  - intros (d3 & shard & _ & Hr)%bind_inv. revert Hr. intros (d4 & resolved & _ & Hr)%bind_inv.
    exists shard, resolved, d4. by apply enter_inv.
  - intros (d3 & m & _ & Hr)%bind_inv. revert Hr. by intros (d4 & [] & _ & [= <- <-])%bind_inv.
Qed.

Lemma homeFrame_leaves token s f d d' r :
  homeFrame token s f d = (d', Returned (Leave r)) →
  r = notJoined ∨ jo_roomName (joinedAs r) ≠ "" ∧ joinedRoom r = true ∧
    ∃ shard name d1, Seated token shard name d1 d' (joinedAs r).
Proof.
  unfold homeFrame. intros (d1 & p & _ & Hr)%bind_inv. revert Hr. intros (d2 & [] & _ & Hr)%bind_inv. revert Hr.
  intros (d3 & [] & _ & Hr)%bind_inv. destruct (key f =? 27); [injection Hr as <- <-; by left|].
  destruct (negb (visible f)); [injection Hr as <- <-; by left|]. destruct s.
  - revert Hr. intros (d4 & found & _ & Hr)%bind_inv. destruct found as [found|]; revert Hr;
      [|by intros (d5 & [] & _ & [=])%bind_inv].
    intros (d5 & b & _ & Hr)%bind_inv. destruct b; revert Hr.
    + intros (d6 & shard & _ & Hr)%bind_inv. revert Hr. intros (d7 & name & _ & Hr)%bind_inv. revert Hr.
      intros (d8 & o & Ho & Hr)%bind_inv. destruct (String.eqb_spec (jo_roomName o) ""); [done|].
      injection Hr as <- <-. right. split_and!; [done..|]. exists shard, name, d7. by apply enter_inv.
    + intros (d6 & x & _ & Hr)%bind_inv. revert Hr. intros (d7 & m & _ & Hr)%bind_inv. revert Hr.
      intros (d8 & [] & _ & Hr)%bind_inv. revert Hr. by intros (d9 & [] & _ & [=])%bind_inv.
  - revert Hr. intros (d4 & c & _ & Hr)%bind_inv. destruct c; revert Hr;
      [by intros (d5 & [] & _ & [=])%bind_inv|..].
    { intros (d5 & [] & _ & Hr)%bind_inv. revert Hr. intros (d6 & [] & _ & Hr)%bind_inv. revert Hr.
      by intros (d7 & [] & _ & [=])%bind_inv. }
    intros (d5 & [] & _ & Hr)%bind_inv. revert Hr. intros (d6 & dialog & _ & Hr)%bind_inv.
    destruct (_ || _); [done|]. revert Hr. intros (d7 & o & Ho & Hr)%bind_inv.
    destruct (String.eqb_spec (jo_roomName o) ""); cbn [negb] in Hr; revert Hr;
      [by intros (d8 & [] & _ & [=])%bind_inv|]. intros [= <- <-]. right. split_and!; [done..|]. by eapply roomRequest_inv.
Qed.

(** Nobody enters the game without a seat: when the home screen is left, either
    the window was closed and nothing was joined, or the last things the client did
    were to connect to a shard, to present its token there, which that shard
    accepted, and to ask for a room, which it granted; the name, colour, players and
    moves the game starts with are those of that grant. *)
Theorem home_leaves_seated token frames d d' r :
  runHomeScreen token frames d = (d', Returned r) →
  r = notJoined ∨ jo_roomName (joinedAs r) ≠ "" ∧ joinedRoom r = true ∧
    ∃ shard name d1, Seated token shard name d1 d' (joinedAs r).
Proof.
  unfold runHomeScreen. rewrite !(bind_Returned (modify _) _ _ _ tt eq_refl).
  generalize (setMouse (-1, -1) (setChoice NoChoice d)) as d0. generalize false as s.
  induction frames as [|f frames IH]; intros s d0; [done|]. cbn [homeLoop].
  intros (d1 & [r1|s1] & Hf & Hr)%bind_inv; [|by eapply IH]. injection Hr as <- <-. by eapply homeFrame_leaves.
Qed.
End Seats.
