(* ===== verification/Window.v ===== *)
(** * The game window ([client/app/GraphicalApplication])

    From the seat to the last frame: what the window draws, the mouse on it (a
    click or the drag of the resize handle), the sounds.  A frame of the loop is
    what the network thread did between its two looks at the shared state, whether
    [render] threw, and what happened during [cv::waitKey]. *)
From S2P Require Import Prelude Model Text Double Rules Motion Arbiter ArbiterSteps Lifecycle Engine EngineSpec EngineTheorems Json Observers Codecs Session SessionTheorems ClientNet Registry BoardIO Server ClientInput Desk HomeView.
#[local] Open Scope Z_scope.

(** [SoundNames.h], the sounds of the window *)
Definition CLICK_SOUND : string := "click.wav".
Definition JUMP_SOUND : string := "jump.wav".
Definition GAME_OVER_SOUND : string := "game over.wav".

Definition EVENT_MOUSEMOVE : Z := 0.
Definition EVENT_LBUTTONUP : Z := 4.

Definition playerLabel (name : string) (elo : Z) : string :=
  if String.eqb name "" then "Waiting for player..." else name +:+ " (" +:+ showInt elo +:+ ")".

(** What the setters of [ImageView] were given last. *)
Record View := mkView {
  vw_roomName : string; vw_white : string; vw_black : string;
  vw_disconnect : bool * string; vw_score : Z * Z;
  vw_moves : list MoveEntry * list MoveEntry; vw_spectators : Z
}.

(** [latestSnapshot] and [boardScale] are what the controller's references see;
    [client] is what the connection was given to send; [drawn] is the snapshots
    given to [render], and [soundPlayer] is the trace of the message handler's. *)
Record Window := mkWindow {
  controller : Controller;
  resizing_ : bool;
  dragStartX_ : Z;
  dragStartY_ : Z;
  dragStartCellSize_ : Z;
  networkHandler : NetworkMessageHandler;
  wasGameOver : bool;
  view : View;
  drawn : list GameSnapshot;
  client : list string
}.

Definition latestSnapshot (w : Window) : GameSnapshot := currentSnapshot (controller w).

Definition setController (c : Controller) (w : Window) : Window :=
  mkWindow c (resizing_ w) (dragStartX_ w) (dragStartY_ w) (dragStartCellSize_ w) (networkHandler w) (wasGameOver w) (view w) (drawn w) (client w).
Definition setNet (h : NetworkMessageHandler) (w : Window) : Window :=
  mkWindow (controller w) (resizing_ w) (dragStartX_ w) (dragStartY_ w) (dragStartCellSize_ w) h (wasGameOver w) (view w) (drawn w) (client w).
Definition setDrag (on : bool) (x y size : Z) (w : Window) : Window :=
  mkWindow (controller w) on x y size (networkHandler w) (wasGameOver w) (view w) (drawn w) (client w).
Definition setCell (size : Z) (c : Controller) : Controller :=
  mkController (selectedPos c) (currentSnapshot c) size (myColor_ c).
Definition setSnapshot (s : GameSnapshot) (c : Controller) : Controller :=
  mkController (selectedPos c) s (cellSize c) (myColor_ c).
Definition playSound (sound : string) (w : Window) : Window := setNet (play sound (networkHandler w)) w.
Definition sendTexts (texts : list string) (w : Window) : Window :=
  mkWindow (controller w) (resizing_ w) (dragStartX_ w) (dragStartY_ w) (dragStartCellSize_ w) (networkHandler w) (wasGameOver w) (view w) (drawn w) (client w ++ texts).

Section Window.
Context `{HashIter} `{JsonText}.

Definition onMouseClick (x y : Z) (w : Window) : result Window :=
  '(c, o, texts) ← handleMouseClick (x - PANEL_WIDTH) (y - BOARD_MARGIN) (controller w);
  Ok (playSound (match o with SendJump => JUMP_SOUND | _ => CLICK_SOUND end) (sendTexts texts (setController c w))).

Definition onMouseEvent (event x y : Z) (w : Window) : result Window :=
  let snap := latestSnapshot w in
  let size := cellSize (controller w) in
  if event =? EVENT_LBUTTONDOWN then
    if isInHandle size (board_width snap) (board_height snap) x y then Ok (setDrag true x y size w)
    else onMouseClick x y w
  else if event =? EVENT_MOUSEMOVE then
    if negb (resizing_ w) || (board_width snap <=? 0) then Ok w
    else
      let delta := Z.quot ((x - dragStartX_ w) + (y - dragStartY_ w)) 2 in
      let size := setCellSize (dragStartCellSize_ w + Z.quot delta (board_width snap)) in
      Ok (setController (setCell size (controller w)) w)
  else if event =? EVENT_LBUTTONUP then
    Ok (setDrag false (dragStartX_ w) (dragStartY_ w) (dragStartCellSize_ w) w)
  else Ok w.

(** One iteration up to [render]; [between] arrives after the check of the
    pending captures and before the state is copied. *)
Definition drawFrame (between : list string) (w : Window) : Window :=
  let h := foldl (λ h text, onMessage text h) (checkPendingCaptureSounds (networkHandler w)) between in
  let n := state_ h in
  let c := setSnapshot (ns_snapshot n) (controller w) in
  let over := gs_over (ns_snapshot n) in
  let h := if over && negb (wasGameOver w) then play GAME_OVER_SOUND h else h in
  let v := mkView (vw_roomName (view w)) (playerLabel (whiteName n) (ns_whiteElo n)) (playerLabel (blackName n) (ns_blackElo n))
    (disconnectActive n, disconnectMessage n) (ns_whiteScore n, ns_blackScore n) (ns_whiteMoves n, ns_blackMoves n) (ns_spectatorCount n) in
  mkWindow c (resizing_ w) (dragStartX_ w) (dragStartY_ w) (dragStartCellSize_ w) h over v (drawn w ++ [getSnapshot c]) (client w).

Inductive WindowEvent := Heard (text : string) | Mouse (event x y : Z).

Definition windowEvent (w : Window) (e : WindowEvent) : result Window :=
  match e with
  | Heard text => Ok (setNet (onMessage text (networkHandler w)) w)
  | Mouse event x y => onMouseEvent event x y w
  end.

Fixpoint windowEvents (es : list WindowEvent) (w : Window) : result Window :=
  match es with [] => Ok w | e :: es => w ← windowEvent w e; windowEvents es w end.

Record GameFrame := mkGameFrame {
  gf_between : list string; gf_renderThrows : bool; gf_waiting : list WindowEvent; gf_key : Z; gf_visible : bool
}.

(** The render loop; the boolean tells whether it has ended. *)
Fixpoint renderLoop (frames : list GameFrame) (w : Window) : result (Window * bool) :=
  match frames with
  | [] => Ok (w, false)
  | f :: frames =>
    let w := drawFrame (gf_between f) w in
    if gf_renderThrows f then Ok (w, true)
    else
      w ← windowEvents (gf_waiting f) w;
      if gf_key f =? 27 then Ok (w, true)
      else if negb (gf_visible f) then Ok (w, true)
      else renderLoop frames w
  end.

(** [run] after the home screen: [None] when no room was joined. *)
Definition startWindow (home : HomeScreenResult) : result (option Window) :=
  if negb (joinedRoom home) then Ok None
  else
    let j := joinedAs home in
    backfill ← MoveCodec.decodeAll (jo_moveLog j);
    let h := seedMoveLog (MoveCodec.white backfill) (MoveCodec.black backfill) newHandler in
    let v := mkView (jo_roomName j) (playerLabel (jo_whiteName j) (jo_whiteElo j)) (playerLabel (jo_blackName j) (jo_blackElo j))
      (false, "") (0, 0) ([], []) 0 in
    Ok (Some (mkWindow (mkController None emptySnapshot CELL_SIZE (Some (jo_role j))) false 0 0 0 h false v [] [])).
End Window.

(** ** The mouse *)
Section Mouse.
Context `{HashIter} `{JsonText}.

Definition mouse_int (x y : Z) : Prop := int_range (x - PANEL_WIDTH) ∧ int_range (y - BOARD_MARGIN).

Definition window_ok (w : Window) : Prop :=
  MIN_CELL_SIZE ≤ cellSize (controller w) ≤ MAX_CELL_SIZE ∧ ∀ p, selectedPos (controller w) = Some p → position_int p.

Lemma setCellSize_range n : MIN_CELL_SIZE ≤ setCellSize n ≤ MAX_CELL_SIZE.
Proof. unfold setCellSize, MIN_CELL_SIZE, MAX_CELL_SIZE. repeat case_match; b2p; lia. Qed.

Lemma setCellSize_id n : MIN_CELL_SIZE ≤ n ≤ MAX_CELL_SIZE → setCellSize n = n.
Proof. unfold setCellSize, MIN_CELL_SIZE, MAX_CELL_SIZE. intros. repeat case_match; b2p; lia. Qed.

(** A click keeps the size and the snapshot, and selects a square it is on. *)
Lemma click_keeps x y c c' o texts :
  handleMouseClick x y c = Ok (c', o, texts) →
  cellSize c' = cellSize c ∧ currentSnapshot c' = currentSnapshot c ∧ myColor_ c' = myColor_ c ∧
  (selectedPos c' = None ∨ c' = c ∨
   0 ≤ x ∧ 0 ≤ y ∧ selectedPos c' = Some (mapToPosition x y (cellSize c))).
Proof.
  unfold handleMouseClick. cbn zeta. destruct (_ || _) eqn:Hoff; [intros [= <- _ _]; naive_solver|].
  rewrite !orb_false_iff in Hoff. destruct Hoff as [[[Hx Hy] _] _]. b2p.
  pose proof (resolveClick_cases (currentSnapshot c) (selectedPos c) (mapToPosition x y (cellSize c)) (myColor_ c)) as Hc.
  cbn zeta in Hc. destruct (resolveClick _ _ _ _) as [t from to pos]. cbn in *. destruct t.
  - intros [= <- _ _]. naive_solver.
  - destruct Hc as [-> _]. intros [= <- _ _]. split_and!; [done..|]. right. by right.
  - intros (text & _ & [= <- _ _])%result_bind_inv. naive_solver.
  - intros (text & _ & [= <- _ _])%result_bind_inv. naive_solver.
Qed.

Lemma click_total x y w :
  window_ok w → mouse_int x y →
  ∃ c o texts, handleMouseClick (x - PANEL_WIDTH) (y - BOARD_MARGIN) (controller w) = Ok (c, o, texts) ∧
    clickEffect (x - PANEL_WIDTH) (y - BOARD_MARGIN) (controller w) c o texts.
Proof.
  intros [Hs Hp] [Hx Hy]. apply click_reaches_server_aux; [unfold MIN_CELL_SIZE in Hs; lia|done..].
Qed.

Lemma mouse_ok event x y w :
  window_ok w → mouse_int x y → ∃ w', onMouseEvent event x y w = Ok w' ∧ window_ok w'.
Proof.
  intros Hw Hm. unfold onMouseEvent. cbn zeta. destruct (event =? EVENT_LBUTTONDOWN).
  - destruct (isInHandle _ _ _ _ _); [by eexists|].
    destruct (click_total x y w Hw Hm) as (c & o & texts & Hc & _). unfold onMouseClick. rewrite Hc, result_bind_Ok.
    eexists. split; [done|]. apply click_keeps in Hc as (Hs & _ & _ & Hsel). destruct Hw as [Hw Hp]. split; [by rewrite <-Hs in Hw|].
    intros p. cbn. intros Hc. destruct Hsel as [Hn|[->|(Hx & Hy & Hc')]]; [congruence|by apply Hp|].
    assert (p = mapToPosition (x - PANEL_WIDTH) (y - BOARD_MARGIN) (cellSize (controller w))) as -> by congruence. apply click_int; [unfold MIN_CELL_SIZE in Hw; lia|done..|apply Hm|apply Hm].
  - destruct (event =? EVENT_MOUSEMOVE).
    + destruct (_ || _); [by exists w|]. eexists. split; [done|]. destruct Hw as [_ Hp]. split; [apply setCellSize_range|exact Hp].
    + destruct (event =? EVENT_LBUTTONUP); by eexists.
Qed.

(** What a press of the button does: on the resize handle it starts a drag and
    nothing else, so it never selects or sends; anywhere else it is the click on
    the board under it, panel and margin taken off, with a sound. *)
Theorem press_effect x y w :
  window_ok w → mouse_int x y →
  ∃ w', onMouseEvent EVENT_LBUTTONDOWN x y w = Ok w' ∧ window_ok w' ∧
    if isInHandle (cellSize (controller w)) (board_width (latestSnapshot w)) (board_height (latestSnapshot w)) x y
    then w' = setDrag true x y (cellSize (controller w)) w
    else ∃ o texts,
      clickEffect (x - PANEL_WIDTH) (y - BOARD_MARGIN) (controller w) (controller w') o texts ∧
      client w' = client w ++ texts ∧ resizing_ w' = resizing_ w ∧ drawn w' = drawn w ∧ latestSnapshot w' = latestSnapshot w ∧
      played (networkHandler w') = played (networkHandler w) ++ [match o with SendJump => JUMP_SOUND | _ => CLICK_SOUND end].
Proof.
  intros Hw Hm. destruct (mouse_ok EVENT_LBUTTONDOWN x y w Hw Hm) as (w' & Hr & Hw'). exists w'. split_and!; [done..|].
  unfold onMouseEvent in Hr. cbv zeta in Hr. change (EVENT_LBUTTONDOWN =? EVENT_LBUTTONDOWN) with true in Hr. cbn iota in Hr.
  destruct (isInHandle _ _ _ _ _); [by injection Hr as <-|].
  destruct (click_total x y w Hw Hm) as (c & o & texts & Hc & He). unfold onMouseClick in Hr.
  rewrite Hc, result_bind_Ok in Hr. injection Hr as <-. apply click_keeps in Hc as (_ & Hs & _). exists o, texts. by split_and!.
Qed.

(** ** The drag *)
Fixpoint moves (ps : list (Z * Z)) (w : Window) : result Window :=
  match ps with [] => Ok w | p :: ps => w ← onMouseEvent EVENT_MOUSEMOVE p.1 p.2 w; moves ps w end.

(** The size a drag from [w]'s grab point to [p] asks for. *)
Definition draggedSize (w : Window) (p : Z * Z) : Z :=
  setCellSize (dragStartCellSize_ w + Z.quot (Z.quot ((p.1 - dragStartX_ w) + (p.2 - dragStartY_ w)) 2) (board_width (latestSnapshot w))).

Lemma move_drags p w :
  resizing_ w = true → 0 < board_width (latestSnapshot w) →
  onMouseEvent EVENT_MOUSEMOVE p.1 p.2 w = Ok (setController (setCell (draggedSize w p) (controller w)) w).
Proof.
  intros Hr Hb. unfold onMouseEvent. cbn -[Z.leb]. rewrite Hr. destruct (Z.leb_spec (board_width (latestSnapshot w)) 0); [lia|done].
Qed.

Lemma moves_drag ps p w :
  resizing_ w = true → 0 < board_width (latestSnapshot w) →
  moves (ps ++ [p]) w = Ok (setController (setCell (draggedSize w p) (controller w)) w).
Proof.
  revert w. induction ps as [|q ps IH]; intros w Hr Hb; cbn [moves app]; rewrite (move_drags _ w) by done; rewrite result_bind_Ok.
  - done.
  - rewrite IH by done. done.
Qed.

(** The board is resized by its handle and by nothing else: after a press on
    the handle, any moves and the release, the squares have the size at the press
    plus the last displacement along the diagonal per column, within the limits;
    the selection, the messages sent and the sounds are as before; and a drag that
    ends where it began changes nothing. *)
Theorem drag_resizes x y ps p w :
  let width := board_width (latestSnapshot w) in
  let size := cellSize (controller w) in
  window_ok w → 0 < width → isInHandle size width (board_height (latestSnapshot w)) x y = true →
  ∃ w', (w1 ← onMouseEvent EVENT_LBUTTONDOWN x y w; w2 ← moves (ps ++ [p]) w1; onMouseEvent EVENT_LBUTTONUP p.1 p.2 w2) = Ok w' ∧
    controller w' = setCell (setCellSize (size + Z.quot (Z.quot ((p.1 - x) + (p.2 - y)) 2) width)) (controller w) ∧
    window_ok w' ∧ client w' = client w ∧ networkHandler w' = networkHandler w ∧ resizing_ w' = false ∧
    (p = (x, y) → controller w' = controller w).
Proof.
  intros width size [Hs Hp] Hw Hh.
  assert (onMouseEvent EVENT_LBUTTONDOWN x y w = Ok (setDrag true x y size w)) as -> by (unfold size, width in *; unfold onMouseEvent; cbv zeta; by rewrite Hh).
  rewrite result_bind_Ok, moves_drag, result_bind_Ok by done.
  eexists. split; [reflexivity|]. unfold draggedSize. cbn -[setCellSize Z.quot]. split; [done|].
  split; [split; [apply setCellSize_range|exact Hp]|]. split_and!; [done..|].
  intros ->. cbn [fst snd]. rewrite !Z.sub_diag. change (Z.quot (0 + 0) 2) with 0. change (board_width (latestSnapshot (setDrag true x y size w))) with width.
  rewrite Z.quot_0_l by lia.
  rewrite Z.add_0_r, setCellSize_id by done. by destruct (controller w).
Qed.
End Mouse.

(** ** The loop and its sounds *)
Section Loop.
Context `{HashIter} `{JsonText}.

Definition isGameOver (s : string) : bool := String.eqb s GAME_OVER_SOUND.
Definition gameOverSounds (h : NetworkMessageHandler) : nat := length (filter (λ s, isGameOver s = true) (played h)).

(** The flag of each picture that was drawn, and how often it rises. *)
Definition overs (w : Window) : list bool := map gs_over (drawn w).
Fixpoint rises (before : bool) (l : list bool) : nat :=
  match l with
  | [] => 0
  | x :: l => (if x && negb before then 1 else 0) + rises x l
  end%nat.

Lemma last_cons_default {A} (x d : A) l : List.last (x :: l) d = List.last l x.
Proof.
  revert x d. induction l as [|y l IH]; intros x d; [done|].
  change (List.last (y :: l) d = List.last (y :: l) x). by rewrite !IH.
Qed.

Lemma rises_snoc b l x : rises b (l ++ [x]) = (rises b l + if x && negb (List.last l b) then 1 else 0)%nat.
Proof.
  revert b. induction l as [|y l IH]; intros b; cbn [rises app]; [simpl; lia|]. rewrite IH.
  rewrite last_cons_default.
  lia.
Qed.

Lemma play_other s h : isGameOver s = false → gameOverSounds (play s h) = gameOverSounds h.
Proof. intros Hs. unfold gameOverSounds. cbn [played play]. by rewrite filter_app, length_app, filter_cons, Hs, Nat.add_0_r. Qed.

Lemma onJson_sounds j h h' : onJson j h = Ok h' → gameOverSounds h' = gameOverSounds h.
Proof.
  unfold onJson. destruct (n ← jValue getString "type" "" j; _) as [t|]; [|done]. rewrite result_bind_Ok.
  destruct t; try (by intros [= <-]).
  - intros (b & _ & [= <-])%result_bind_inv. destruct b; [done|]. by apply play_other.
  - intros (b & _ & [= <-])%result_bind_inv. destruct b; [done|]. by apply play_other.
  - unfold handleSnapshot. intros Hh.
    repeat match goal with H : _ ≫= _ = Ok _ |- _ => apply result_bind_inv in H as (? & _ & H) end.
    repeat case_match; repeat match goal with H : _ ≫= _ = Ok _ |- _ => apply result_bind_inv in H as (? & _ & H) end.
    by simplify_eq.
  - intros (p & _ & ([c e] & _ & [= <-])%result_bind_inv)%result_bind_inv. by rewrite play_other.
  - by intros (p & _ & (e & _ & [= <-])%result_bind_inv)%result_bind_inv.
Qed.

Lemma onMessage_sounds text h : gameOverSounds (onMessage text h) = gameOverSounds h.
Proof.
  unfold onMessage. destruct (parse text) as [j|]; simpl; [|done].
  destruct (onJson j h) as [h'|] eqn:E; [|done]. by eapply onJson_sounds.
Qed.

Lemma check_sounds h : gameOverSounds (checkPendingCaptureSounds h) = gameOverSounds h.
Proof.
  unfold gameOverSounds, checkPendingCaptureSounds. cbn [played]. rewrite filter_app, length_app.
  assert (∀ n, filter (λ s, isGameOver s = true) (replicate n Sounds.CAPTURE) = []) as ->; [|by rewrite Nat.add_0_r].
  intros n. induction n as [|n IH]; [done|]. cbn [replicate]. by rewrite filter_cons.
Qed.

(** The sounds so far are the rises so far. *)
Definition sounds_ok (w : Window) : Prop :=
  gameOverSounds (networkHandler w) = rises false (overs w) ∧ wasGameOver w = List.last (overs w) false.

Lemma drawFrame_sounds between w : sounds_ok w → sounds_ok (drawFrame between w).
Proof.
  intros [Hc Hl]. unfold drawFrame. cbn zeta. set (h := foldl _ _ between).
  assert (gameOverSounds h = gameOverSounds (networkHandler w)) as Hh.
  { unfold h. apply (foldl_ind (λ h, gameOverSounds h = gameOverSounds (networkHandler w))); [apply check_sounds|].
    intros h' text _ <-. apply onMessage_sounds. }
  unfold sounds_ok, overs. cbn [networkHandler drawn wasGameOver]. rewrite map_app. cbn [map]. rewrite rises_snoc. fold (overs w).
  assert (∀ c, gs_over (getSnapshot c) = gs_over (currentSnapshot c)) as -> by (intros c; unfold getSnapshot; by destruct (selectedPos c)).
  cbn [currentSnapshot setSnapshot]. rewrite Hl. split; [|by rewrite last_last].
  destruct (_ && _); [|by rewrite Nat.add_0_r, Hh]. unfold gameOverSounds in *. cbn [play played].
  rewrite filter_app, length_app, Hh, Hc. done.
Qed.

Lemma event_sounds w e w' : windowEvent w e = Ok w' → sounds_ok w → sounds_ok w'.
Proof.
  destruct e as [text|event x y]; cbn [windowEvent].
  - intros [= <-] [Hc Hl]. split; [|done]. cbn [networkHandler setNet overs drawn]. by rewrite onMessage_sounds.
  - unfold onMouseEvent. cbn zeta. destruct (event =? EVENT_LBUTTONDOWN).
    + destruct (isInHandle _ _ _ _ _); [by intros [= <-]|]. unfold onMouseClick.
      intros ([[c o] texts] & _ & [= <-])%result_bind_inv [Hc Hl]. split; [|done].
      cbn [networkHandler playSound setNet sendTexts setController overs drawn]. rewrite play_other; [done|by destruct o].
    + repeat case_match; by intros [= <-].
Qed.

Lemma events_sounds es w w' : windowEvents es w = Ok w' → sounds_ok w → sounds_ok w'.
Proof.
  revert w. induction es as [|e es IH]; intros w; cbn [windowEvents]; [by intros [= <-]|].
  intros (w1 & He & Hes)%result_bind_inv Hw. eapply IH; [done|]. by eapply event_sounds.
Qed.

Lemma loop_sounds frames w w' b : renderLoop frames w = Ok (w', b) → sounds_ok w → sounds_ok w'.
Proof.
  revert w. induction frames as [|f frames IH]; intros w; cbn [renderLoop]; [by intros [= <- _]|].
  cbn zeta. intros Hr Hw. apply (drawFrame_sounds (gf_between f)) in Hw.
  destruct (gf_renderThrows f); [by injection Hr as <- _|]. apply result_bind_inv in Hr as (w1 & He & Hr).
  apply (events_sounds _ _ _ He) in Hw. destruct (gf_key f =? 27); [by injection Hr as <- _|].
  destruct (negb (gf_visible f)); [by injection Hr as <- _|]. by eapply IH.
Qed.

Lemma start_sounds home w : startWindow home = Ok (Some w) → sounds_ok w ∧ window_ok w.
Proof.
  unfold startWindow. destruct (negb _); [done|]. intros (b & _ & [= <-])%result_bind_inv.
  split; [done|]. split; [done|]. by intros p.
Qed.

Lemma rises_once l : (∀ l1 l2, l = l1 ++ true :: l2 → Forall (λ x, x = true) l2) →
  rises false l = if existsb id l then 1%nat else 0%nat.
Proof.
  assert (∀ l, Forall (λ x, x = true) l → rises true l = 0%nat) as H1.
  { intros k. induction 1 as [|x k -> _ IH]; [done|exact IH]. }
  induction l as [|x l IH]; intros Hl; [done|]. destruct x; cbn [rises existsb id orb andb negb].
  - rewrite H1; [done|]. by apply (Hl [] l).
  - apply IH. intros l1 l2 ->. by apply (Hl (false :: l1)).
Qed.

(** The end of the game is heard when it is first seen: however messages, clicks
    and frames interleave, the sound of the end was played as often as a picture
    with the game over followed one without (or came first); so once, as long as a
    game that is over stays over. *)
Theorem game_over_heard home w0 frames w ended :
  startWindow home = Ok (Some w0) → renderLoop frames w0 = Ok (w, ended) →
  gameOverSounds (networkHandler w) = rises false (overs w) ∧
  ((∀ l1 l2, overs w = l1 ++ true :: l2 → Forall (λ x, x = true) l2) →
   gameOverSounds (networkHandler w) = if existsb id (overs w) then 1%nat else 0%nat).
Proof.
  intros [Hs _]%start_sounds Hl. apply (loop_sounds _ _ _ _ Hl) in Hs as [Hs _].
  split; [done|]. intros Ho. rewrite Hs. by apply rises_once.
Qed.

(** ** Nothing is thrown *)
Definition event_int (e : WindowEvent) : Prop := match e with Heard _ => True | Mouse _ x y => mouse_int x y end.

Lemma events_total es w : window_ok w → Forall event_int es → ∃ w', windowEvents es w = Ok w' ∧ window_ok w'.
Proof.
  intros Hw Hes. revert w Hw. induction Hes as [|e es He Hes IH]; intros w Hw; cbn [windowEvents]; [by exists w|].
  destruct e as [text|event x y]; cbn [windowEvent].
  - rewrite result_bind_Ok. by apply IH.
  - destruct (mouse_ok event x y w Hw He) as (w1 & -> & Hw1). rewrite result_bind_Ok. by apply IH.
Qed.

(** The render loop goes on whatever is heard and clicked: no message and no
    mouse event makes it throw, and the squares keep a legal size. *)
Theorem renderLoop_total frames w :
  window_ok w → Forall (λ f, Forall event_int (gf_waiting f)) frames →
  ∃ w' ended, renderLoop frames w = Ok (w', ended) ∧ window_ok w' ∧
    (ended = true → ∃ f, f ∈ frames ∧ (gf_renderThrows f = true ∨ gf_key f = 27 ∨ gf_visible f = false)).
Proof.
  intros Hw Hf. revert w Hw. induction Hf as [|f frames Hf Hfs IH]; intros w Hw; cbn [renderLoop]; [by exists w, false|].
  cbn zeta. assert (window_ok (drawFrame (gf_between f) w)) as Hd by exact Hw.
  destruct (gf_renderThrows f) eqn:Ht; [eexists _, true; split_and!; [done..|]; intros _; exists f; set_solver|].
  destruct (events_total _ _ Hd Hf) as (w1 & -> & Hw1). rewrite result_bind_Ok.
  destruct (gf_key f =? 27) eqn:Hk; [b2p; eexists _, true; split_and!; [done..|]; intros _; exists f; set_solver|].
  destruct (gf_visible f) eqn:Hv; cbn [negb]; [|eexists _, true; split_and!; [done..|]; intros _; exists f; set_solver].
  destruct (IH w1 Hw1) as (w' & b & -> & Hw' & Hb). exists w', b. split_and!; [done..|].
  intros (g & Hg & Hx)%Hb. exists g. split; [by right|done].
Qed.
End Loop.
