(* ===== verification/Img.v ===== *)
(** * Images ([client/view/src/img])

    An [Img] is a handle on a [cv::Mat]: copying it shares the buffer, [clone]
    makes another, and every drawing operation changes the buffer it is given.
    The buffers are a store; what has been drawn on one is the list of strokes on
    top of the picture it was loaded with.  OpenCV is an interface: what the
    decoder finds at a path, and which calls it refuses. *)
From S2P Require Import Prelude Text Double.
#[local] Open Scope Z_scope.

(** ** A state with exceptions

    The client catches what [render] throws at one place and leaves the loop
    there, so the state at the throw is not kept. *)
Definition Run (S A : Type) : Type := S → result (A * S).

#[export] Instance run_ret {S} : MRet (Run S) := λ A a s, Ok (a, s).
#[export] Instance run_bind {S} : MBind (Run S) := λ A B f m s,
  match m s with Ok (a, s) => f a s | Throw e => Throw e end.

Definition fails {S A} (what : string) : Run S A := λ _, Throw what.
Definition asks {S A} (f : S → A) : Run S A := λ s, Ok (f s, s).
Definition changes {S} (f : S → S) : Run S unit := λ s, Ok (tt, f s).
Definition tries {S A} (r : result A) : Run S A := λ s, match r with Ok a => Ok (a, s) | Throw e => Throw e end.
Definition unless {S} (c : bool) (m : Run S unit) : Run S unit := if c then mret tt else m.

(** An action on a part of the state. *)
Definition inside {S T A} (get : S → T) (put : T → S → S) (m : Run T A) : Run S A := λ s,
  match m (get s) with Ok (a, t) => Ok (a, put t s) | Throw e => Throw e end.

Fixpoint eachOf {S A} (f : A → Run S unit) (l : list A) : Run S unit :=
  match l with [] => mret tt | x :: l => f x ;; eachOf f l end.

(** [m] succeeds from [s], and its value and final state satisfy [Q]. *)
Definition succeeds {S A} (m : Run S A) (s : S) (Q : A → S → Prop) : Prop :=
  ∃ a s', m s = Ok (a, s') ∧ Q a s'.

Section Run.
Context {S : Type}.

Lemma succeeds_ret {A} (a : A) (s : S) Q : Q a s → succeeds (mret a) s Q.
Proof. intros H. by exists a, s. Qed.

Lemma succeeds_bind {A B} (m : Run S A) (f : A → Run S B) s Q :
  succeeds m s (λ a s', succeeds (f a) s' Q) → succeeds (m ≫= f) s Q.
Proof. intros (a & s' & Hm & Hf). unfold succeeds, mbind, run_bind. by rewrite Hm. Qed.

Lemma succeeds_mono {A} (m : Run S A) s (Q R : A → S → Prop) :
  succeeds m s Q → (∀ a s', Q a s' → R a s') → succeeds m s R.
Proof. intros (a & s' & Hm & HQ) H. exists a, s'. split; [done|by apply H]. Qed.

Lemma succeeds_each {A} (I : list A → S → Prop) (f : A → Run S unit) l s :
  I [] s →
  (∀ done x s, x ∈ l → I done s → succeeds (f x) s (λ _ s', I (done ++ [x]) s')) →
  succeeds (eachOf f l) s (λ _ s', I l s').
Proof.
  intros H0 Hf. cut (∀ past, I past s → succeeds (eachOf f l) s (λ _ s', I (past ++ l) s')); [by intros H; apply (H [])|].
  clear H0. revert s Hf. induction l as [|x l IH]; intros s Hf past Hp; simpl.
  - apply succeeds_ret. by rewrite app_nil_r.
  - apply succeeds_bind. eapply succeeds_mono; [apply Hf; [by left|done]|]. intros [] s' Hs'.
    replace (past ++ x :: l) with ((past ++ [x]) ++ l) by by rewrite <-app_assoc.
    apply IH; [|done]. intros past' y s'' Hy. apply Hf. by right.
Qed.
End Run.

(** ** OpenCV *)
Definition Scalar : Type := Z * Z * Z * Z.
Definition bgr (b g r : Z) : Scalar := (b, g, r, 0).

Class OpenCV := {
  (** the pixels of a picture, whatever they are *)
  Picture : Type;
  (** [cv::imread(path, IMREAD_UNCHANGED)]: rows, columns, channels; [None] is an empty [Mat] *)
  imread : string → option (Z * Z * Z * Picture);
  (** [cv::resize] to a width and a height *)
  resize : Z → Z → Picture → Picture;
  resizes : Z → Z → bool;
  (** [mat(cv::Rect(x, y, w, h))] of a [Mat] of so many rows and columns *)
  hasRegion : Z → Z → Z → Z → Z → Z → bool;
  (** [cv::circle] with a radius *)
  hasCircle : Z → bool
}.

(** What the documentation promises, and the code relies on. *)
Class OpenCVLaws `{OpenCV} := {
  resizes_positive : ∀ w h, 0 < w → 0 < h → resizes w h = true;
  hasRegion_inside : ∀ rows cols x y w h, 0 ≤ x → 0 ≤ y → 0 ≤ w → 0 ≤ h → x + w ≤ cols → y + h ≤ rows →
    hasRegion rows cols x y w h = true;
  hasCircle_positive : ∀ r, 0 ≤ r → hasCircle r = true
}.

Section Img.
Context `{OpenCV}.

(** A [cv::Mat] that is not empty: its size, and what is on it, bottom first.
    A stroke of [draw_on] keeps the source as it was then. *)
Inductive Mat := mkMat (rows cols channels : Z) (picture : Picture) (strokes : list Stroke)
with Stroke :=
  | Blit (source : Mat) (x y : Z) (blended : bool)
  | Fill (x y w h : Z) (color : Scalar) (alpha : double)
  | Text (txt : string) (x y : Z) (font_size : double) (color : Scalar) (thickness : Z)
  | Line (x1 y1 x2 y2 : Z) (color : Scalar) (thickness : Z)
  | Disc (centerX centerY radius : Z) (color : Scalar) (alpha : double).

Definition rows (m : Mat) : Z := let 'mkMat r _ _ _ _ := m in r.
Definition cols (m : Mat) : Z := let 'mkMat _ c _ _ _ := m in c.
Definition channels (m : Mat) : Z := let 'mkMat _ _ ch _ _ := m in ch.
Definition strokes (m : Mat) : list Stroke := let 'mkMat _ _ _ _ l := m in l.
Definition draw (s : Stroke) (m : Mat) : Mat := let 'mkMat r c ch p l := m in mkMat r c ch p (l ++ [s]).

(** The buffers that [Img] objects share; an [Img] is a buffer, or empty. *)
Record Buffers := mkBuffers { mats : gmap Z Mat; nextMat : Z }.
Definition Img : Type := option Z.

Definition matOf (i : Img) (b : Buffers) : option Mat := id ← i; mats b !! id.
Definition newMat (m : Mat) : Run Buffers Img := λ b,
  Ok (Some (nextMat b), mkBuffers (<[nextMat b := m]> (mats b)) (nextMat b + 1)).
Definition paint (i : Img) (s : Stroke) : Run Buffers unit := λ b,
  match i with Some id => Ok (tt, mkBuffers (alter (draw s) id (mats b)) (nextMat b)) | None => Ok (tt, b) end.

(** The scale of [keep_aspect], and the size asked of [cv::resize]. *)
Definition targetSize (w h : Z) (size : Z * Z) (keep_aspect : bool) : Z * Z :=
  if keep_aspect then
    let a := dRatio (fst size) w in
    let b := dRatio (snd size) h in
    let scale := if dLt b a then b else a in
    (dTrunc (dMul (dOfInt w) scale), dTrunc (dMul (dOfInt h) scale))
  else size.

(** The buffer that [read] leaves in the object. *)
Definition loadMat (path : string) (size : Z * Z) (keep_aspect : bool) : result Mat :=
  match imread path with
  | None => Throw ("Cannot load image: " +:+ path)
  | Some (h, w, ch, p) =>
    if (fst size =? 0) || (snd size =? 0) then Ok (mkMat h w ch p [])
    else
      let '(w', h') := targetSize w h size keep_aspect in
      if resizes w' h' then Ok (mkMat h' w' ch (resize w' h' p) []) else Throw "cv::resize"
  end.

Definition read (path : string) (size : Z * Z) (keep_aspect : bool) : Run Buffers Img :=
  m ← tries (loadMat path size keep_aspect); newMat m.

(** The channels of the source once [cv::cvtColor] made them those of the target. *)
Definition commonChannels (source target : Z) : Z :=
  if (source =? 3) && (target =? 4) then 4 else if (source =? 4) && (target =? 3) then 3 else source.

Definition draw_on (img other_img : Img) (x y : Z) : Run Buffers unit :=
  source ← asks (matOf img);
  target ← asks (matOf other_img);
  match source, target with
  | Some s, Some t =>
    if (rows t <? y + rows s) || (cols t <? x + cols s) then fails "Image does not fit at the specified position."
    else if negb (hasRegion (rows t) (cols t) x y (cols s) (rows s)) then fails "cv::Mat"
    else paint other_img (Blit s x y (commonChannels (channels s) (channels t) =? 4))
  | _, _ => fails "Both images must be loaded before drawing."
  end.

(** The drawing operations begin alike. *)
Definition loaded (img : Img) : Run Buffers Mat :=
  m ← asks (matOf img); match m with Some m => mret m | None => fails "Image not loaded." end.

Definition put_text (img : Img) (txt : string) (x y : Z) (font_size : double) (color : Scalar) (thickness : Z) : Run Buffers unit :=
  loaded img ;; paint img (Text txt x y font_size (0, 0, 0, 255) (thickness + 2)) ;; paint img (Text txt x y font_size color thickness).

Definition clone (img : Img) : Run Buffers Img :=
  m ← asks (matOf img); match m with Some m => newMat m | None => mret None end.

Definition fill_rect (img : Img) (x y width height : Z) (color : Scalar) (alpha : double) : Run Buffers unit :=
  m ← loaded img;
  if hasRegion (rows m) (cols m) x y width height then paint img (Fill x y width height color alpha) else fails "cv::Mat".

Definition line (img : Img) (x1 y1 x2 y2 : Z) (color : Scalar) (thickness : Z) : Run Buffers unit :=
  loaded img ;; paint img (Line x1 y1 x2 y2 color thickness).

(** The circle is drawn on a clone, and blended back. *)
Definition fill_circle (img : Img) (centerX centerY radius : Z) (color : Scalar) (alpha : double) : Run Buffers unit :=
  loaded img ;; clone img ;;
  if hasCircle radius then paint img (Disc centerX centerY radius color alpha) else fails "cv::circle".
End Img.
