(* ===== verification/Sprites.v ===== *)
(** * Sprites ([client/view/assets], [client/audio/SoundPlayer])

    Which picture a piece is drawn with: the layout of the files, the animation's
    configuration and frame, and the two caches on the way to the pixels.  The
    files are an argument: what [readWholeFile] finds at a path. *)
From S2P Require Import Prelude Model Text Scan Double Desk ClientNet Window Img.
From Stdlib Require Import Ascii SpecFloat.
#[local] Open Scope Z_scope.

(** ** [AnimationConfig.cpp] *)

Definition quote : ascii := ascii_of_nat 34.

(** [std::string::find] of a character that satisfies [P], from a position on. *)
Fixpoint findChar (P : ascii → bool) (from : nat) (s : string) : option nat :=
  match s with
  | EmptyString => None
  | String c s =>
    match from with
    | O => if P c then Some O else Nat.add 1 <$> findChar P O s
    | S from => Nat.add 1 <$> findChar P from s
    end
  end.

Definition isBlank (c : ascii) : bool :=
  Ascii.eqb c " " || Ascii.eqb c (ascii_of_nat 9) || Ascii.eqb c carriageReturn || Ascii.eqb c newline.
Definition endsValue (c : ascii) : bool :=
  Ascii.eqb c "," || Ascii.eqb c "}" || Ascii.eqb c carriageReturn || Ascii.eqb c newline.

(** [substr(from, end - from)], where no [end] is [npos]. *)
Definition slice (from : nat) (upto : option nat) (s : string) : string :=
  String.substring from (default (String.length s) upto - from) s.

Fixpoint trimEnd (s : string) : string :=
  match s with
  | EmptyString => ""
  | String c rest => match trimEnd rest with EmptyString => if isspace c then "" else String c "" | r => String c r end
  end.

(** [json[npos]] is outside the string. *)
Definition extractRawValue (json key : string) : result string :=
  match String.index 0 (String quote key +:+ String quote "") json with
  | None => Throw ("Missing key '" +:+ key +:+ "' in config")
  | Some keyPos =>
    let colon := findChar (Ascii.eqb ":") keyPos json in
    match findChar (λ c, negb (isBlank c)) (match colon with Some n => S n | None => O end) json with
    | None => Throw "undefined: json[npos]"
    | Some valueStart =>
      if bool_decide (String.get valueStart json = Some quote) then
        Ok (slice (S valueStart) (findChar (Ascii.eqb quote) (S valueStart) json) json)
      else Ok (trimEnd (slice valueStart (findChar endsValue valueStart json) json))
    end
  end.

(** [std::stod] of a decimal numeral, rounded to nearest; the hexadecimal form,
    the infinities and NaN are not read. *)
Definition dDecimal (negative : bool) (m k : Z) : double :=
  match m with
  | Z.pos _ =>
    let r := if 0 <=? k then binary_normalize prec emax (m * 10 ^ k) 0 false
             else let '(q, e, l) := SFdiv_core_binary prec emax m 0 (10 ^ (- k)) 0 in binary_round_aux prec emax false q e l in
    if negative then SFopp r else r
  | _ => S754_zero negative
  end.

Definition scanExponent (s : string) : Z :=
  match s with
  | String c rest =>
    if Ascii.eqb c "e" || Ascii.eqb c "E" then match scanSigned rest with Some (k, _) => k | None => 0 end else 0
  | EmptyString => 0
  end.

Definition stod (s : string) : result double :=
  let s := skipSpace s in
  let '(negative, s) := match s with
    | String c rest => if Ascii.eqb c "-" then (true, rest) else if Ascii.eqb c "+" then (false, rest) else (false, s)
    | EmptyString => (false, s) end in
  let '(whole, s') := scanDigits 0 s in
  let '(m, s'') := match s' with
    | String c rest => if Ascii.eqb c "." then scanDigits whole rest else (whole, s')
    | EmptyString => (whole, s') end in
  let point := if String.prefix "." s' then 1%nat else 0%nat in
  let digits := (String.length s - String.length s'' - point)%nat in
  if Nat.eqb digits 0 then Throw "stod"
  else
    let fraction := (String.length s' - String.length s'' - point)%nat in
    let d := dDecimal negative m (scanExponent s'' - Z.of_nat fraction) in
    match d with
    | S754_finite _ _ _ => Ok d
    | S754_zero _ => if m =? 0 then Ok d else Throw "stod"
    | _ => Throw "stod"
    end.

Record AnimationConfig := mkConfig {
  speed_m_per_sec : double;
  next_state_when_finished : State;
  frames_per_sec : Z;
  frame_count : Z;
  is_loop : bool
}.

Definition readWholeFile (files : string → option string) (path : string) : result string :=
  of_option ("Cannot open config file: " +:+ path) (files path).

Definition loadAnimationConfig (files : string → option string) (path : string) : result AnimationConfig :=
  json ← readWholeFile files path;
  speed ← (t ← extractRawValue json "speed_m_per_sec"; stod t);
  next ← (t ← extractRawValue json "next_state_when_finished"; stateFromString t);
  fps ← (t ← extractRawValue json "frames_per_sec"; stoi t);
  count ← (t ← extractRawValue json "frame_count"; stoi t);
  loop ← extractRawValue json "is_loop";
  Ok (mkConfig speed next fps count (String.eqb loop "true")).

(** ** [AnimationFrameSelector.cpp]: [None] where the product overflows [int] *)
Definition selectAnimationFrame (elapsedMs framesPerSec : Z) (isLoop : bool) (frameCount : Z) : option Z :=
  if (frameCount <=? 0) || (framesPerSec <=? 0) then Some 0
  else if decide (int_range (elapsedMs * framesPerSec)) then
    let rawIndex := Z.quot (elapsedMs * framesPerSec) 1000 in
    let index := if isLoop then Z.rem rawIndex frameCount else Z.min rawIndex (frameCount - 1) in
    Some (if index <? 0 then Z.rem (Z.rem index frameCount + frameCount) frameCount else index)
  else None.

(** ** [AssetPathBuilder.cpp], [AssetsRootConfig.cpp] *)
Definition pieceFolder (kind : Kind) (color : Color) : result string :=
  kindChar ← match kind with
    | King => Ok "K" | Queen => Ok "Q" | Rook => Ok "R" | Bishop => Ok "B" | Knight => Ok "N" | Pawn => Ok "P"
    | NoKind => Throw "No sprite folder for this piece kind" end;
  Ok ((match color with White => "w" | _ => "b" end) +:+ kindChar).

Definition stateDir (root : string) (kind : Kind) (color : Color) (state : State) : result string :=
  piece ← pieceFolder kind color;
  folder ← stateToFolderName state;
  Ok (root +:+ "/" +:+ piece +:+ "/states/" +:+ folder).

Definition configPath (root : string) (kind : Kind) (color : Color) (state : State) : result string :=
  dir ← stateDir root kind color state; Ok (dir +:+ "/config.json").

Definition spritePath (root : string) (kind : Kind) (color : Color) (state : State) (frameIndex : Z) : result string :=
  dir ← stateDir root kind color state; Ok (dir +:+ "/sprites/" +:+ showInt (frameIndex + 1) +:+ ".png").

Definition readAssetsRoot (files : string → option string) : result string :=
  text ← of_option "Cannot open client/view/paths_config.txt" (files "client/view/paths_config.txt");
  Ok (trimEnd (default "" (head (getlines text)))).

(** ** [CachingImageLoader.cpp], [FileImageLoader.cpp], [SpriteRepository.cpp] *)
#[export] Instance Kind_countable : Countable Kind.
Proof.
  refine (inj_countable' (λ k, match k with King => 0 | Queen => 1 | Rook => 2 | Bishop => 3 | Knight => 4 | Pawn => 5 | NoKind => 6 end)
    (λ n, if n =? 0 then King else if n =? 1 then Queen else if n =? 2 then Rook else if n =? 3 then Bishop
          else if n =? 4 then Knight else if n =? 5 then Pawn else NoKind) _).
  by intros [].
Defined.
#[export] Instance State_countable : Countable State.
Proof.
  refine (inj_countable' (λ s, match s with Idle => 0 | Moving => 1 | Jump => 2 | ShortRest => 3 | LongRest => 4 | Captured => 5 end)
    (λ n, if n =? 0 then Idle else if n =? 1 then Moving else if n =? 2 then Jump else if n =? 3 then ShortRest
          else if n =? 4 then LongRest else Captured) _).
  by intros [].
Defined.

Definition StateKey : Type := Kind * Color * State.

Section Sprites.
Context `{OpenCV}.

(** [asked]: what the file loader was asked for, latest last. *)
Record Sprites := mkSprites {
  buffers : Buffers;
  cache : gmap string Img;
  asked : list (string * (Z * Z));
  configCache : gmap StateKey AnimationConfig
}.
Definition setBuffers (b : Buffers) (s : Sprites) : Sprites := mkSprites b (cache s) (asked s) (configCache s).
Definition setCache (c : gmap string Img) (s : Sprites) : Sprites := mkSprites (buffers s) c (asked s) (configCache s).
Definition ask (a : string * (Z * Z)) (s : Sprites) : Sprites := mkSprites (buffers s) (cache s) (asked s ++ [a]) (configCache s).
Definition setConfigs (c : gmap StateKey AnimationConfig) (s : Sprites) : Sprites := mkSprites (buffers s) (cache s) (asked s) c.

Variable files : string → option string.
Variable assetsRoot : string.

(** [FileImageLoader::load] *)
Definition fileLoad (location : string) (targetSize : Z * Z) : Run Sprites Img :=
  changes (ask (location, targetSize)) ;; inside buffers setBuffers (read location targetSize false).

Definition cacheKey (location : string) (targetSize : Z * Z) : string :=
  location +:+ "@" +:+ showInt (fst targetSize) +:+ "x" +:+ showInt (snd targetSize).

(** [CachingImageLoader::load] *)
Definition load (location : string) (targetSize : Z * Z) : Run Sprites Img :=
  let key := cacheKey location targetSize in
  hit ← asks (λ s, cache s !! key);
  match hit with
  | Some img => mret img
  | None =>
    img ← fileLoad location targetSize;
    changes (λ s, setCache (<[key := img]> (cache s)) s) ;; mret img
  end.

Definition configOf (key : StateKey) : result AnimationConfig :=
  path ← configPath assetsRoot key.1.1 key.1.2 key.2; loadAnimationConfig files path.

Definition getConfig (key : StateKey) : Run Sprites AnimationConfig :=
  hit ← asks (λ s, configCache s !! key);
  match hit with
  | Some config => mret config
  | None =>
    config ← tries (configOf key);
    changes (λ s, setConfigs (<[key := config]> (configCache s)) s) ;; mret config
  end.

(** The file of the frame that [getSprite] asks for. *)
Definition framePath (kind : Kind) (color : Color) (state : State) (elapsedMs : Z) (config : AnimationConfig) : result string :=
  frameIndex ← of_option "signed overflow"
    (selectAnimationFrame elapsedMs (frames_per_sec config) (is_loop config) (frame_count config));
  spritePath assetsRoot kind color state frameIndex.

Definition getSprite (cellSize : Z) (kind : Kind) (color : Color) (state : State) (elapsedMs : Z) : Run Sprites Img :=
  config ← getConfig (kind, color, state);
  path ← tries (framePath kind color state elapsedMs config);
  load path (cellSize, cellSize).

(** The same with no cache: the pixels a piece is drawn with. *)
Definition spriteMat (cellSize : Z) (kind : Kind) (color : Color) (state : State) (elapsedMs : Z) : result Mat :=
  config ← configOf (kind, color, state);
  path ← framePath kind color state elapsedMs config;
  loadMat path (cellSize, cellSize) false.
End Sprites.

(** ** [SoundPlayer.cpp]: the commands sent to MCI, given the bytes of the file
    and whether the device could be opened *)
Definition isRealWav (file : option string) : bool :=
  match file with Some bytes => String.prefix "RIFF" bytes | None => false end.

Fixpoint alnumOf (s : string) : string :=
  match s with EmptyString => "" | String c s => if isalnum c then String c (alnumOf s) else alnumOf s end.
Definition aliasFor (fileName : string) : string := "kfc_" +:+ alnumOf fileName.

Definition playCommands (assetsRoot : string) (files : string → option string) (opens : string → bool) (fileName : string) : list string :=
  let path := assetsRoot +:+ "/sounds/" +:+ fileName in
  let alias := aliasFor fileName in
  let deviceType := if isRealWav (files path) then "waveaudio" else "MPEGVideo" in
  let openCmd := "open " +:+ String quote path +:+ String quote (" type " +:+ deviceType +:+ " alias " +:+ alias) in
  [("close " +:+ alias); openCmd] ++ (if opens openCmd then [("play " +:+ alias)] else []).

(** ** The text of the configurations *)
Definition jsonLine (s : string) : string := s +:+ String newline "".
Definition quoted (s : string) : string := String quote s +:+ String quote "".

(** The [config.json] of a state folder under [client/view/img]. *)
Definition configText (speed next fps : string) (loop : bool) : string :=
  jsonLine "{" +:+ jsonLine ("  " +:+ quoted "physics" +:+ ": {")
  +:+ jsonLine ("    " +:+ quoted "speed_m_per_sec" +:+ ": " +:+ speed +:+ ",")
  +:+ jsonLine ("    " +:+ quoted "next_state_when_finished" +:+ ": " +:+ quoted next) +:+ jsonLine "  },"
  +:+ jsonLine ("  " +:+ quoted "graphics" +:+ ": {")
  +:+ jsonLine ("    " +:+ quoted "frames_per_sec" +:+ ": " +:+ fps +:+ ",")
  +:+ jsonLine ("    " +:+ quoted "frame_count" +:+ ": 5,")
  +:+ jsonLine ("    " +:+ quoted "is_loop" +:+ ": " +:+ (if loop then "true" else "false")) +:+ jsonLine "  }" +:+ "}".

Definition stateConfig (state : State) : string :=
  match state with
  | Moving => configText "1.5" "long_rest" "8" true
  | Jump => configText "0" "short_rest" "10" false
  | ShortRest => configText "0" "long_rest" "6" false
  | LongRest => configText "0" "idle" "2" false
  | _ => configText "0" "idle" "4" true
  end.

Definition stateFrames (state : State) : AnimationConfig :=
  match state with
  | Moving => mkConfig (dRatio 3 2) LongRest 8 5 true
  | Jump => mkConfig d0 ShortRest 10 5 false
  | ShortRest => mkConfig d0 LongRest 6 5 false
  | LongRest => mkConfig d0 Idle 2 5 false
  | _ => mkConfig d0 Idle 4 5 true
  end.

Example configs_load state :
  loadAnimationConfig (λ _, Some (stateConfig state)) "config.json" = Ok (stateFrames state).
Proof. destruct state; vm_compute; reflexivity. Qed.

Example config_missing_key :
  loadAnimationConfig (λ _, Some "{}") "config.json" = Throw "Missing key 'speed_m_per_sec' in config".
Proof. vm_compute. reflexivity. Qed.

(** A key that ends the text: the colon is looked for from [npos], and the value
    is read from the beginning. *)
Example config_no_colon :
  extractRawValue (quoted "speed_m_per_sec") "speed_m_per_sec" = Ok "speed_m_per_sec".
Proof. vm_compute. reflexivity. Qed.
