(* ===== verification/SpriteTheorems.v ===== *)
(** * What a piece is drawn with

    The frame is one of the animation's, distinct pieces have distinct files, the
    caches do not show, and the files of the repository answer every request. *)
From S2P Require Import Prelude Model Text Scan Double Desk ClientNet Window Img Sprites.
From Stdlib Require Import Ascii SpecFloat.
#[local] Open Scope Z_scope.
(** ** The frame *)

Lemma rem_mod x n : 0 < n → Z.rem x n mod n = x mod n.
Proof.
  intros Hn. rewrite Z.rem_eq by lia. replace (x - n * (x ÷ n)) with (x + (- (x ÷ n)) * n) by lia. by apply Z.mod_add; lia.
Qed.

(** [(index % count + count) % count] *)
Lemma wrap_index x n : x < 0 → 0 < n → Z.rem (Z.rem x n + n) n = x mod n.
Proof.
  intros Hx Hn. pose proof (Z.rem_bound_pos_neg x n ltac:(lia) ltac:(lia)).
  rewrite Z.rem_mod_nonneg by lia. rewrite <-(Z.mul_1_l n) at 2. by rewrite Z.mod_add, rem_mod by lia.
Qed.

Lemma frame_in_range elapsedMs fps isLoop count :
  0 < fps → 0 < count → int_range (elapsedMs * fps) →
  ∃ i, selectAnimationFrame elapsedMs fps isLoop count = Some i ∧ 0 ≤ i < count ∧
    (let raw := Z.quot (elapsedMs * fps) 1000 in
     i = if isLoop || (raw <? 0) then raw mod count else Z.min raw (count - 1)).
Proof.
  intros Hf Hc Hr. unfold selectAnimationFrame.
  destruct (Z.leb_spec count 0), (Z.leb_spec fps 0); try lia. simpl orb.
  destruct (decide _) as [_|]; [|done]. cbv zeta. set (raw := Z.quot _ _).
  pose proof (Z.mod_pos_bound raw count Hc).
  cut (∀ i, i = (if isLoop || (raw <? 0) then raw mod count else Z.min raw (count - 1)) →
    (if (if isLoop then Z.rem raw count else Z.min raw (count - 1)) <? 0
     then Z.rem (Z.rem (if isLoop then Z.rem raw count else Z.min raw (count - 1)) count + count) count
     else if isLoop then Z.rem raw count else Z.min raw (count - 1)) = i).
  { intros Hi. exists (if isLoop || (raw <? 0) then raw mod count else Z.min raw (count - 1)).
    split; [f_equal; by apply Hi|]. split; [|done]. destruct isLoop, (Z.ltb_spec raw 0); simpl; lia. }
  intros i ->. destruct isLoop; simpl.
  - destruct (Z.ltb_spec (Z.rem raw count) 0).
    + by rewrite wrap_index, rem_mod by lia.
    + rewrite <-rem_mod by done. rewrite Z.mod_small; [done|]. split; [done|].
      destruct (Z.le_gt_cases 0 raw); [by apply Z.rem_bound_pos|]. pose proof (Z.rem_bound_pos_neg raw count ltac:(lia) ltac:(lia)). lia.
  - destruct (Z.ltb_spec raw 0), (Z.ltb_spec (Z.min raw (count - 1)) 0); try lia.
    rewrite Z.min_l by lia. by apply wrap_index.
Qed.

(** The frame is one of the animation's for every time, negative times
    included: a looping animation repeats, one that does not stops at its last
    frame. *)
Theorem selectAnimationFrame_spec elapsedMs fps isLoop count :
  0 < fps → 0 < count → int_range (elapsedMs * fps) →
  ∃ i, selectAnimationFrame elapsedMs fps isLoop count = Some i ∧ 0 ≤ i < count ∧
    (let raw := Z.quot (elapsedMs * fps) 1000 in
     i = if isLoop || (raw <? 0) then raw mod count else Z.min raw (count - 1)).
Proof. intros. by apply frame_in_range. Qed.

(** ** The paths *)

Lemma cacheKey_inj l1 s1 l2 s2 : cacheKey l1 s1 = cacheKey l2 s2 → l1 = l2 ∧ s1 = s2.
Proof.
  unfold cacheKey. destruct s1 as [w1 h1], s2 as [w2 h2]. cbn [fst snd]. rewrite !append_assoc.
  rewrite <-(append_assoc _ "x" (showInt h1)), <-(append_assoc _ "x" (showInt h2)).
  intros [H Hh]%append_last_inj; [|by apply showInt_without..].
  rewrite <-(append_assoc l1), <-(append_assoc l2) in H.
  apply append_last_inj in H as [-> Hw]; [|by apply showInt_without..].
  by rewrite (showInt_inj _ _ Hw), (showInt_inj _ _ Hh).
Qed.

(** Two pieces, states and frames with the same file are drawn alike. *)
Theorem spritePath_inj root k1 c1 s1 f1 k2 c2 s2 f2 path :
  spritePath root k1 c1 s1 f1 = Ok path → spritePath root k2 c2 s2 f2 = Ok path →
  k1 = k2 ∧ (c1 = White ↔ c2 = White) ∧ s1 = s2 ∧ f1 = f2.
Proof.
  assert (∀ k c s f, spritePath root k c s f = Ok path → ∃ kc folder,
    stateToFolderName s = Ok folder ∧ pieceFolder k c = Ok (String (if bool_decide (c = White) then "w" else "b") (String kc "")) ∧
    path = root +:+ String "/" (String (if bool_decide (c = White) then "w" else "b") (String kc
             ("/states/" +:+ folder +:+ "/sprites/" +:+ showInt (f + 1) +:+ ".png")))) as Hshape.
  { intros k c s f. unfold spritePath, stateDir. destruct (stateToFolderName s) as [folder|] eqn:Hs.
    2: by destruct (pieceFolder k c).
    destruct (pieceFolder k c) as [p|] eqn:Hp; [|done]. rewrite !result_bind_Ok. intros [= <-].
    unfold pieceFolder in Hp. destruct k, c; simplify_eq/=; eexists _, _; (split; [done|split; [done|]]);
      by rewrite <-!append_assoc. }
  intros (kc1 & d1 & Hd1 & Hp1 & ->)%Hshape (kc2 & d2 & Hd2 & Hp2 & He)%Hshape.
  apply append_inj_l in He.
  assert (kc1 = kc2 ∧ bool_decide (c1 = White) = bool_decide (c2 = White) ∧
    d1 +:+ "/sprites/" +:+ showInt (f1 + 1) +:+ ".png" = d2 +:+ "/sprites/" +:+ showInt (f2 + 1) +:+ ".png") as (-> & Hc & Ht).
  { injection He as Hc Hk He. split_and!; [done|by destruct c1, c2|]. exact He. }
  assert (k1 = k2) as -> by (clear -Hp1 Hp2; unfold pieceFolder in *; destruct k1, c1; simplify_eq/=; by destruct k2, c2; simplify_eq/=).
  assert (s1 = s2) as ->.
  { destruct s1, s2; simpl in Hd1, Hd2; simplify_eq; first [done|discriminate Ht]. }
  assert (d1 = d2) as -> by congruence. do 2 apply append_inj_l in Ht.
  apply append_last_inj in Ht as [Hf _]; [|done..]. apply showInt_inj in Hf.
  split_and!; [done| |done|lia]. by destruct c1, c2.
Qed.

(** ** The caches *)
Section Caches.
Context `{OpenCV}.
Variable files : string → option string.
Variable root : string.

(** Every image in the cache is still what the loader gives for its key, every
    configuration what its file says; each file was asked for once. *)
Record sprites_ok (s : Sprites) : Prop := {
  so_fresh : ∀ id m, mats (buffers s) !! id = Some m → id < nextMat (buffers s);
  so_cache : ∀ key img, cache s !! key = Some img →
    ∃ path size m, key = cacheKey path size ∧ (path, size) ∈ asked s ∧ loadMat path size false = Ok m ∧ matOf img (buffers s) = Some m;
  so_config : ∀ key config, configCache s !! key = Some config → configOf files root key = Ok config;
  so_once : NoDup (asked s);
  so_asked : ∀ path size, (path, size) ∈ asked s → is_Some (cache s !! cacheKey path size)
}.

(** [b'] has the buffers of [b], unchanged, and maybe others. *)
Definition extends (b b' : Buffers) : Prop :=
  mats b ⊆ mats b' ∧ nextMat b ≤ nextMat b'.

#[export] Instance extends_preorder : PreOrder extends.
Proof. split; [by intros b|]. intros a b c [? ?] [? ?]. split; [by etrans|lia]. Qed.

Lemma matOf_extends img b b' m : extends b b' → matOf img b = Some m → matOf img b' = Some m.
Proof. intros [Hs _]. unfold matOf. destruct img as [id|]; simpl; [|done]. intros Hm. by eapply lookup_weaken. Qed.

(** From [s] to [s'] the buffers extend, and what is new in the cache is new. *)
Definition grows (s s' : Sprites) : Prop :=
  extends (buffers s) (buffers s') ∧
  ∀ key id, cache s' !! key = Some (Some id) → cache s !! key = Some (Some id) ∨ nextMat (buffers s) ≤ id.

#[export] Instance grows_preorder : PreOrder grows.
Proof.
  split; [by intros s; split; [done|left]|]. intros a b c [He Hc] [He' Hc']. split; [by etrans|].
  intros key id [Hk|Hk]%Hc'; [by apply Hc|]. right. destruct He as [_ ?]. lia.
Qed.

Definition withMat (m : Mat) (b : Buffers) : Buffers := mkBuffers (<[nextMat b := m]> (mats b)) (nextMat b + 1).

Lemma withMat_extends m s : sprites_ok s → extends (buffers s) (withMat m (buffers s)).
Proof.
  intros Hs. split; [|simpl; lia]. apply insert_subseteq.
  destruct (mats (buffers s) !! _) as [m'|] eqn:Hm; [|done]. apply (so_fresh _ Hs) in Hm. lia.
Qed.

(** The state after a miss. *)
Definition afterMiss (path : string) (size : Z * Z) (m : Mat) (s : Sprites) : Sprites :=
  mkSprites (withMat m (buffers s)) (<[cacheKey path size := Some (nextMat (buffers s))]> (cache s))
    (asked s ++ [(path, size)]) (configCache s).

Lemma afterMiss_ok path size m s :
  sprites_ok s → cache s !! cacheKey path size = None → loadMat path size false = Ok m →
  sprites_ok (afterMiss path size m s).
Proof.
  intros Hs Hc Hm. pose proof (withMat_extends m s Hs) as He. split; simpl.
  - intros id m'. rewrite lookup_insert_Some. intros [[<- _]|[_ Hid]]; [lia|]. pose proof (so_fresh _ Hs _ _ Hid). lia.
  - intros key img. rewrite lookup_insert_Some. intros [[<- <-]|[_ Hk]].
    + exists path, size, m. split_and!; [done|set_solver|done|]. unfold matOf. simpl. by rewrite lookup_insert_eq.
    + destruct (so_cache _ Hs _ _ Hk) as (p & z & m' & -> & Ha & Hm' & Hi). exists p, z, m'.
      split_and!; [done|set_solver|done|by eapply matOf_extends].
  - apply Hs.
  - apply NoDup_app. split_and!; [apply Hs| |apply NoDup_singleton].
    intros x Hx ->%list_elem_of_singleton. apply (so_asked _ Hs) in Hx as [? Hx]. congruence.
  - intros p z. rewrite elem_of_app, list_elem_of_singleton. intros [Ha|[= -> ->]]; rewrite lookup_insert_is_Some'; [right|by left].
    by apply (so_asked _ Hs).
Qed.

Lemma load_spec path size s m :
  sprites_ok s → loadMat path size false = Ok m →
  succeeds (load path size) s (λ img s', matOf img (buffers s') = Some m ∧ sprites_ok s' ∧ grows s s').
Proof.
  intros Hs Hm. unfold load, asks, succeeds, mbind, run_bind. destruct (cache s !! cacheKey path size) as [img|] eqn:Hc.
  - destruct (so_cache _ Hs _ _ Hc) as (p & z & m' & [<- <-]%cacheKey_inj & _ & Hm' & Hi). simplify_eq.
    exists img, s. split_and!; [done|assert (m = m') as -> by congruence; done|done|done].
  - exists (Some (nextMat (buffers s))), (afterMiss path size m s). split; [|split_and!].
    + unfold fileLoad, changes, inside, read, tries, mbind, run_bind. by rewrite Hm.
    + unfold matOf. simpl. by rewrite lookup_insert_eq.
    + by apply afterMiss_ok.
    + split; [by apply withMat_extends|]. intros key id. simpl. rewrite lookup_insert_Some.
      intros [[_ [= <-]]|[_ Hk]]; [by right|by left].
Qed.

Lemma getConfig_spec key s config :
  sprites_ok s → configOf files root key = Ok config →
  succeeds (getConfig files root key) s (λ c s', c = config ∧ sprites_ok s' ∧ grows s s').
Proof.
  intros Hs Hc. unfold getConfig, asks, succeeds, mbind, run_bind. destruct (configCache s !! key) as [c|] eqn:Hk.
  - apply (so_config _ Hs) in Hk. assert (c = config) as -> by congruence. exists config, s. by split_and!.
  - unfold tries. rewrite Hc. eexists _, _. split; [done|]. split; [done|]. split; [|split; [done|simpl; by left]].
    destruct Hs. split; try done. simpl. intros k c. rewrite lookup_insert_Some. intros [[<- <-]|[_ Hk']]; auto.
Qed.

Lemma getSprite_spec cell kind color state elapsed s :
  sprites_ok s →
  match spriteMat files root cell kind color state elapsed with
  | Ok m => succeeds (getSprite files root cell kind color state elapsed) s
              (λ img s', matOf img (buffers s') = Some m ∧ sprites_ok s' ∧ grows s s')
  | Throw e => getSprite files root cell kind color state elapsed s = Throw e
  end.
Proof.
  intros Hs. unfold spriteMat, getSprite. destruct (configOf files root (kind, color, state)) as [config|e] eqn:Hc; simpl.
  - pose proof (getConfig_spec _ s config Hs Hc) as Hg.
    destruct (framePath root kind color state elapsed config) as [path|e] eqn:Hp; simpl.
    + destruct (loadMat path (cell, cell) false) as [m|e] eqn:Hm.
      * apply succeeds_bind. eapply succeeds_mono; [exact Hg|]. intros c s' (-> & Hs' & He).
        apply succeeds_bind. rewrite Hp. eexists _, _. split; [done|].
        eapply succeeds_mono; [by apply load_spec|]. intros img s'' (Hi & Hs'' & He'). split_and!; [done..|by etrans].
      * destruct Hg as (c & s' & Hg & -> & Hs' & He).
        unfold mbind at 1, run_bind at 1. rewrite Hg. unfold tries. rewrite Hp.
        unfold load, mbind, run_bind, asks, fileLoad, changes, inside, read, tries, mbind, run_bind. simpl.
        destruct (cache s' !! cacheKey path (cell, cell)) as [img|] eqn:Hk; [|by rewrite Hm].
        destruct (so_cache _ Hs' _ _ Hk) as (p & z & m' & [<- <-]%cacheKey_inj & _ & Hm' & _). congruence.
    + destruct Hg as (c & s' & Hg & -> & Hs' & He). unfold mbind at 1, run_bind at 1. rewrite Hg.
      unfold mbind, run_bind, tries. by rewrite Hp.
  - unfold getConfig, mbind, run_bind, asks, tries. destruct (configCache s !! _) as [c|] eqn:Hk; [|by rewrite Hc].
    apply (so_config _ Hs) in Hk. congruence.
Qed.
(** The caches are invisible: a piece gets the pixels that its file gives now,
    whatever was asked before, no image of the cache was drawn upon and no file is
    loaded twice at one size; and where the files give none, neither does the
    repository. *)
Theorem getSprite_uncached cell kind color state elapsed s :
  sprites_ok s →
  match spriteMat files root cell kind color state elapsed with
  | Ok m => succeeds (getSprite files root cell kind color state elapsed) s
              (λ img s', matOf img (buffers s') = Some m ∧ sprites_ok s' ∧ grows s s')
  | Throw e => getSprite files root cell kind color state elapsed s = Throw e
  end.
Proof. intros Hs. by apply getSprite_spec. Qed.
End Caches.

(** ** The files of the repository *)
Definition pieceKinds : list Kind := [King; Queen; Rook; Bishop; Knight; Pawn].
Definition liveStates : list State := [Idle; Moving; Jump; ShortRest; LongRest].

(** [client/view/paths_config.txt] *)
Definition imgRoot : string := "client/view/img".

Definition ofOk {A} (d : A) (r : result A) : A := match r with Ok a => a | Throw _ => d end.

(** [client/view/img]: a folder per piece and state with its configuration and
    five sprites. *)
Definition allKeys : list StateKey :=
  flat_map (λ k, flat_map (λ c, map (λ s, (k, c, s)) liveStates) [White; Black]) pieceKinds.
Definition imgFiles (path : string) : option string :=
  key ← find (λ key : StateKey, String.eqb path (ofOk "" (configPath imgRoot key.1.1 key.1.2 key.2))) allKeys;
  Some (stateConfig key.2).
Definition spriteFiles : list string :=
  flat_map (λ key : StateKey, map (λ i, ofOk "" (spritePath imgRoot key.1.1 key.1.2 key.2 i)) [0; 1; 2; 3; 4]) allKeys
  ++ [(imgRoot +:+ "/board.png"); (imgRoot +:+ "/canvas.png")].

Example root_read : readAssetsRoot (λ _, Some (imgRoot +:+ String newline "")) = Ok imgRoot.
Proof. vm_compute. reflexivity. Qed.

Lemma configs_found kind color state :
  kind ≠ NoKind → state ≠ Captured → configOf imgFiles imgRoot (kind, color, state) = Ok (stateFrames state).
Proof. intros Hk Hs. destruct kind, state, color; try done; vm_compute; reflexivity. Qed.

Lemma stateFrames_frames state : frame_count (stateFrames state) = 5 ∧ 0 < frames_per_sec (stateFrames state) ≤ 10.
Proof. by destruct state. Qed.

Lemma spriteFiles_complete kind color state i :
  kind ≠ NoKind → state ≠ Captured → 0 ≤ i < 5 →
  ∃ path, spritePath imgRoot kind color state i = Ok path ∧ path ∈ spriteFiles.
Proof.
  intros Hk Hs Hi. assert (i ∈ [0; 1; 2; 3; 4]) as Hin by (rewrite !elem_of_cons; lia).
  assert (∃ path, spritePath imgRoot kind color state i = Ok path ∧ existsb (String.eqb path) spriteFiles = true) as (path & Hp & He).
  { rewrite !elem_of_cons, elem_of_nil in Hin.
    destruct_or! Hin; try done; subst i; (destruct kind, color, state; try done; (eexists; split; [reflexivity|vm_compute; reflexivity])). }
  exists path. split; [done|]. apply existsb_exists in He as (p & Hp' & ->%String.eqb_eq). by apply list_elem_of_In.
Qed.

Lemma frame_found kind color state elapsed :
  kind ≠ NoKind → state ≠ Captured → int_range (10 * elapsed) →
  ∃ path, framePath imgRoot kind color state elapsed (stateFrames state) = Ok path ∧ path ∈ spriteFiles.
Proof.
  intros Hk Hs He. destruct (stateFrames_frames state) as [Hc Hf]. unfold framePath. rewrite Hc.
  destruct (frame_in_range elapsed (frames_per_sec (stateFrames state)) (is_loop (stateFrames state)) 5)
    as (i & -> & Hi & _); [lia|lia|unfold int_range, INT_MIN, INT_MAX in *; nia|].
  destruct (spriteFiles_complete kind color state i Hk Hs Hi) as (path & Hp & Hin). exists path. split; [exact Hp|done].
Qed.

(** The aliases of the six sounds are six: one is never closed for another. *)
Example aliases_distinct :
  NoDup (map aliasFor [CLICK_SOUND; Sounds.MOVE; Sounds.CAPTURE; Sounds.ILLEGAL_MOVE; JUMP_SOUND; GAME_OVER_SOUND]).
Proof. by vm_compute; repeat constructor; set_solver. Qed.

Example game_over_commands :
  playCommands imgRoot (λ _, Some "RIFF....") (λ _, true) GAME_OVER_SOUND =
    [ "close kfc_gameoverwav";
      "open " +:+ quoted "client/view/img/sounds/game over.wav" +:+ " type waveaudio alias kfc_gameoverwav";
      "play kfc_gameoverwav" ].
Proof. vm_compute. reflexivity. Qed.
