(* ===== verification/Drawing.v ===== *)
(** * A frame of the game window ([client/view/ImageView])

    [render]: the cached backdrop copied, the board, its frame and labels, the
    marks of legal moves, the pieces between their squares, the panels and the
    messages, and the picture shown. *)
From S2P Require Import Prelude Model Text Double Rules Engine Observers ClientInput Window Img Sprites.
#[local] Open Scope Z_scope.

(** ** The constants of [ImageView.cpp] *)
Definition LONG_REST_HIGHLIGHT : Scalar := bgr 0 165 255.
Definition SHORT_REST_HIGHLIGHT : Scalar := bgr 144 238 144.
Definition LEGAL_MOVE_MARKER : Scalar := bgr 60 60 60.
Definition PANEL_BORDER_COLOR : Scalar := bgr 0 0 0.
Definition PANEL_HEADER_BG : Scalar := bgr 70 70 70.
Definition PANEL_BODY_BG : Scalar := bgr 50 50 50.
Definition PANEL_TEXT_COLOR : Scalar := bgr 255 255 255.
Definition FRAME_COLOR : Scalar := bgr 0 0 0.
Definition LABEL_COLOR : Scalar := bgr 255 255 255.
Definition PANEL_Y : Z := 10.
Definition PANEL_HEADER_H : Z := 28.
Definition PANEL_INFO_H : Z := 40.
Definition PANEL_LINE_H : Z := 18.
Definition PANEL_MAX_LINES : Z := 20.
Definition PANEL_TOTAL_H : Z := PANEL_HEADER_H + PANEL_INFO_H + PANEL_MAX_LINES * PANEL_LINE_H.
Definition PLAYER_PANEL_WIDTH : Z := 220.
Definition PLAYER_PANEL_GAP_PX : Z := 15.

(** The defaults of [img.hpp] and the literals. *)
Definition defaultAlpha : double := dRatio 4 10.
Definition defaultColor : Scalar := (255, 255, 255, 255).
Definition half : double := dRatio 5 10.

Definition survivingKingColor (snapshot : GameSnapshot) : Color :=
  let has c := existsb (λ p, kindEqb (sp_kind p) King && colorEqb (sp_color p) c) (pieces snapshot) in
  if has White && negb (has Black) then White
  else if has Black && negb (has White) then Black
  else NoColor.

Definition pieceAt (snapshot : GameSnapshot) (pos : Position) : option SnapshotPiece :=
  find (λ p, posEq (sp_cell p) pos) (pieces snapshot).

(** A mark is hidden on a friend, unless the selected piece is a knight. *)
Definition marked (snapshot : GameSnapshot) (dest : Position) : bool :=
  match pieceAt snapshot (selected_cell snapshot), pieceAt snapshot dest with
  | Some selected, Some occupant =>
    negb (colorEqb (sp_color occupant) (sp_color selected)) || kindEqb (sp_kind selected) Knight
  | _, _ => true
  end.

Section Drawing.
Context `{OpenCV}.
Variable files : string → option string.
Variable root : string.

(** [ImageView] with what it draws from; [shown] and [titles] are what was given
    to [cv::imshow] and [cv::setWindowTitle]. *)
Record Screen := mkScreen {
  sprites : Sprites;
  background : Img;
  canvas : Img;
  lastRenderedCellSize : Z;
  titledRoomName : string;
  titles : list string;
  shown : list Mat
}.
Definition newScreen : Screen := mkScreen (mkSprites (mkBuffers ∅ 0) ∅ [] ∅) None None (-1) "" [] [].
Definition setSprites (x : Sprites) (s : Screen) : Screen :=
  mkScreen x (background s) (canvas s) (lastRenderedCellSize s) (titledRoomName s) (titles s) (shown s).
Definition setImages (b c : Img) (size : Z) (s : Screen) : Screen :=
  mkScreen (sprites s) b c size (titledRoomName s) (titles s) (shown s).
Definition setTitle (room : string) (s : Screen) : Screen :=
  mkScreen (sprites s) (background s) (canvas s) (lastRenderedCellSize s) room (titles s ++ ["Kung Fu Chess - Room " +:+ room]) (shown s).
Definition show (m : Mat) (s : Screen) : Screen :=
  mkScreen (sprites s) (background s) (canvas s) (lastRenderedCellSize s) (titledRoomName s) (titles s) (shown s ++ [m]).

(** An operation on images. *)
Definition onImages {A} (m : Run Buffers A) : Run Screen A := inside sprites setSprites (inside buffers setBuffers m).

Definition drawPlayerPanel (frame : Img) (panelX : Z) (title playerName : string) (score : Z) (moves : list MoveEntry) : Run Buffers unit :=
  let fill x y w h color := fill_rect frame x y w h color d1 in
  let text txt x y size := put_text frame txt x y size PANEL_TEXT_COLOR 1 in
  let totalHeight := PANEL_TOTAL_H in
  let panelWidth := PLAYER_PANEL_WIDTH in
  fill panelX PANEL_Y panelWidth totalHeight PANEL_BODY_BG ;;
  fill panelX PANEL_Y panelWidth 2 PANEL_BORDER_COLOR ;;
  fill panelX (PANEL_Y + totalHeight - 2) panelWidth 2 PANEL_BORDER_COLOR ;;
  fill panelX PANEL_Y 2 totalHeight PANEL_BORDER_COLOR ;;
  fill (panelX + panelWidth - 2) PANEL_Y 2 totalHeight PANEL_BORDER_COLOR ;;
  fill panelX PANEL_Y panelWidth PANEL_HEADER_H PANEL_HEADER_BG ;;
  text title (panelX + Z.quot panelWidth 2 - 20) (PANEL_Y + PANEL_HEADER_H - 9) (dRatio 6 10) ;;
  let y := PANEL_Y + PANEL_HEADER_H + 18 in
  text ("Name: " +:+ playerName) (panelX + 8) y (dRatio 45 100) ;;
  let y := y + 20 in
  text ("Score: " +:+ showInt score) (panelX + 8) y (dRatio 45 100) ;;
  let y := y + 20 in
  text "Time" (panelX + 8) y (dRatio 4 10) ;;
  text "Move" (panelX + 90) y (dRatio 4 10) ;;
  let y := y + PANEL_LINE_H in
  fill (panelX + 4) (y - 12) (panelWidth - 8) 1 PANEL_BORDER_COLOR ;;
  let y := y + 4 in
  let start := Z.max 0 (Z.of_nat (length moves) - PANEL_MAX_LINES) in
  eachOf (λ im : nat * MoveEntry,
    let y := y + Z.of_nat im.1 * PANEL_LINE_H in
    text (timestamp im.2) (panelX + 8) y (dRatio 35 100) ;;
    text (notation im.2) (panelX + 90) y (dRatio 35 100)) (indexed (drop (Z.to_nat start) moves)).

(** The reload at the head of [render]. *)
Definition reload (cell : Z) (snapshot : GameSnapshot) : Run Screen unit :=
  last ← asks lastRenderedCellSize;
  if cell =? last then mret tt
  else
    let reloadBoardW := (if 0 <? board_width snapshot then board_width snapshot else 8) * cell in
    let reloadBoardH := (if 0 <? board_height snapshot then board_height snapshot else 8) * cell in
    b ← onImages (read (root +:+ "/board.png") (reloadBoardW, reloadBoardH) false);
    let totalW := PANEL_WIDTH + reloadBoardW + BOARD_MARGIN + PLAYER_PANEL_GAP_PX + PLAYER_PANEL_WIDTH + PLAYER_PANEL_GAP_PX in
    let totalH := BOARD_MARGIN + reloadBoardH + BOARD_MARGIN in
    c ← onImages (read (root +:+ "/canvas.png") (totalW, totalH) false);
    changes (setImages b c cell).

(** The frame around the board and its coordinates. *)
Definition drawLabels (frame : Img) (cell : Z) (snapshot : GameSnapshot) : Run Buffers unit :=
  let boardW := board_width snapshot * cell in
  let boardH := board_height snapshot * cell in
  let boardX := PANEL_WIDTH in
  let boardY := BOARD_MARGIN in
  let margin := BOARD_MARGIN in
  let text txt x y := put_text frame txt x y half LABEL_COLOR 1 in
  fill_rect frame boardX (boardY - margin) boardW margin FRAME_COLOR d1 ;;
  fill_rect frame boardX (boardY + boardH) boardW margin FRAME_COLOR d1 ;;
  fill_rect frame (boardX - margin) (boardY - margin) margin (boardH + 2 * margin) FRAME_COLOR d1 ;;
  fill_rect frame (boardX + boardW) (boardY - margin) margin (boardH + 2 * margin) FRAME_COLOR d1 ;;
  eachOf (λ c,
    let file := String (Ascii.ascii_of_nat (Z.to_nat ((65 + c) mod 256))) "" in
    let labelX := boardX + c * cell + Z.quot cell 2 - 6 in
    text file labelX (boardY - Z.quot margin 2 + 5) ;;
    text file labelX (boardY + boardH + Z.quot margin 2 + 5)) (seqZ 0 (board_width snapshot)) ;;
  eachOf (λ r,
    let rank := showInt (board_height snapshot - r) in
    let labelY := boardY + r * cell + Z.quot cell 2 + 5 in
    text rank (boardX - margin + 8) labelY ;;
    text rank (boardX + boardW + Z.quot margin 2 - 4) labelY) (seqZ 0 (board_height snapshot)).

Definition drawMarks (frame : Img) (cell : Z) (snapshot : GameSnapshot) : Run Buffers unit :=
  if has_selection snapshot then
    eachOf (λ dest,
      unless (negb (marked snapshot dest))
        (fill_circle frame (PANEL_WIDTH + col dest * cell + Z.quot cell 2) (BOARD_MARGIN + row dest * cell + Z.quot cell 2)
           (Z.quot cell 6) LEGAL_MOVE_MARKER half)) (legalMoves snapshot)
  else mret tt.

(** Where the corner of a piece is drawn. *)
Definition drawX (cell : Z) (p : SnapshotPiece) : Z :=
  let fromX := PANEL_WIDTH + col (sp_cell p) * cell in
  let toX := PANEL_WIDTH + col (targetCell p) * cell in
  fromX + dTrunc (dMul (dOfInt (toX - fromX)) (travelProgress p)).
Definition drawY (cell : Z) (p : SnapshotPiece) : Z :=
  let fromY := BOARD_MARGIN + row (sp_cell p) * cell in
  let toY := BOARD_MARGIN + row (targetCell p) * cell in
  fromY + dTrunc (dMul (dOfInt (toY - fromY)) (travelProgress p)).
Definition restFill (cell : Z) (p : SnapshotPiece) : Z := dTrunc (dMul (dOfInt cell) (dSub d1 (restProgress p))).

Definition drawPiece (frame : Img) (cell : Z) (piece : SnapshotPiece) : Run Screen unit :=
  if kindEqb (sp_kind piece) NoKind then mret tt
  else
    let fromX := PANEL_WIDTH + col (sp_cell piece) * cell in
    let fromY := BOARD_MARGIN + row (sp_cell piece) * cell in
    unless (negb (isRestingState (sp_state piece)))
      (let color := if stateEqb (sp_state piece) LongRest then LONG_REST_HIGHLIGHT else SHORT_REST_HIGHLIGHT in
       let fillHeight := restFill cell piece in
       onImages (fill_rect frame fromX (fromY + (cell - fillHeight)) cell fillHeight color defaultAlpha)) ;;
    sprite ← inside sprites setSprites
      (getSprite files root cell (sp_kind piece) (sp_color piece) (sp_state piece) (elapsed_in_state_ms piece));
    onImages (draw_on sprite frame (drawX cell piece) (drawY cell piece)).

Definition gameOverMessage (snapshot : GameSnapshot) : string :=
  "Game Over" +:+ match survivingKingColor snapshot with
                  | White => " - White Wins!" | Black => " - Black Wins!" | NoColor => "" end.

(** The panels, the messages, the title and the handle. *)
Definition drawHandle (frame : Img) (cell : Z) (snapshot : GameSnapshot) : Run Buffers unit :=
  let '(hx, hy) := handleTopLeft cell (board_width snapshot) (board_height snapshot) in
  let right := hx + HANDLE_SIZE - 2 in
  let bottom := hy + HANDLE_SIZE - 2 in
  eachOf (λ offset,
    line frame (right - offset) bottom right (bottom - offset) (bgr 0 0 0) 2 ;;
    line frame (right - offset) bottom right (bottom - offset) (bgr 230 230 230) 1) [5; 10; 15].

Definition drawPanels (frame : Img) (cell : Z) (v : View) (snapshot : GameSnapshot) : Run Screen unit :=
  let boardW := board_width snapshot * cell in
  let boardH := board_height snapshot * cell in
  onImages
   (drawPlayerPanel frame 10 "Black" (vw_black v) (snd (vw_score v)) (snd (vw_moves v)) ;;
    drawPlayerPanel frame (PANEL_WIDTH + boardW + BOARD_MARGIN + PLAYER_PANEL_GAP_PX) "White" (vw_white v) (fst (vw_score v)) (fst (vw_moves v)) ;;
    unless (negb (gs_over snapshot))
      (put_text frame (gameOverMessage snapshot) (PANEL_WIDTH + Z.quot boardW 2 - 180) (BOARD_MARGIN + Z.quot boardH 2) d1 defaultColor 1)) ;;
  titled ← asks titledRoomName;
  unless (String.eqb (vw_roomName v) "" || String.eqb (vw_roomName v) titled) (changes (setTitle (vw_roomName v))) ;;
  onImages
   (put_text frame ("Spectators: " +:+ showInt (vw_spectators v)) 10 (PANEL_Y + PANEL_TOTAL_H + 20) (dRatio 6 10) (bgr 255 255 255) 1 ;;
    unless (negb (fst (vw_disconnect v)))
      (put_text frame (snd (vw_disconnect v)) (PANEL_WIDTH + Z.quot boardW 2 - 200) (BOARD_MARGIN + boardH + BOARD_MARGIN - 8)
         (dRatio 8 10) (bgr 0 0 255) 1) ;;
    drawHandle frame cell snapshot).

(** [render]; [cell] is [boardScale.cellSize()]. *)
Definition render (cell : Z) (v : View) (snapshot : GameSnapshot) : Run Screen unit :=
  reload cell snapshot ;;
  c ← asks canvas;
  frame ← onImages (clone c);
  b ← asks background;
  onImages (draw_on b frame PANEL_WIDTH BOARD_MARGIN) ;;
  onImages (drawLabels frame cell snapshot ;; drawMarks frame cell snapshot) ;;
  eachOf (drawPiece frame cell) (pieces snapshot) ;;
  drawPanels frame cell v snapshot ;;
  m ← asks (λ s, matOf frame (buffers (sprites s)));
  match m with Some m => changes (show m) | None => mret tt end.
End Drawing.
