(* ===== verification/DrawingTheorems.v ===== *)
(** * What [render] draws

    A frame is one picture, whatever was drawn and cached before it: the board
    under its pieces, each of them between its square and the square it heads
    for. *)
From S2P Require Import Prelude Model Text Double DoubleBounds Rules Motion Arbiter ArbiterSteps Lifecycle Engine EngineSpec EngineTheorems Overflow Observers ClientInput Window Img Sprites SpriteTheorems Drawing.
#[local] Open Scope Z_scope.
#[local] Set Default Proof Using "Type*".

(** ** Drawing on one buffer *)
Section Paints.
Context `{CV : OpenCV} `{Laws : !OpenCVLaws}.

Definition isBlit (s : Stroke) : bool := match s with Blit _ _ _ _ => true | _ => false end.
Definition blits (l : list Stroke) : list Stroke := filter isBlit l.
Definition drawAll (l : list Stroke) (m : Mat) : Mat := foldl (λ m s, draw s m) m l.

Lemma drawAll_size l m : rows (drawAll l m) = rows m ∧ cols (drawAll l m) = cols m ∧ channels (drawAll l m) = channels m.
Proof. revert m. induction l as [|s l IH]; intros m; simpl; [done|]. rewrite !(proj1 (IH _)), (proj1 (proj2 (IH _))), (proj2 (proj2 (IH _))). by destruct m. Qed.

Lemma drawAll_strokes l m : strokes (drawAll l m) = strokes m ++ l.
Proof.
  revert m. induction l as [|s l IH]; intros m; simpl; [by rewrite app_nil_r|].
  rewrite IH. destruct m. simpl. by rewrite <-app_assoc.
Qed.

Definition fresh (b : Buffers) : Prop := ∀ id m, mats b !! id = Some m → id < nextMat b.

(** The buffers of [b] other than [f] are in [b'], unchanged. *)
Definition keeps (f : Z) (b b' : Buffers) : Prop :=
  nextMat b ≤ nextMat b' ∧ ∀ id m, id ≠ f → mats b !! id = Some m → mats b' !! id = Some m.

#[export] Instance keeps_preorder f : PreOrder (keeps f).
Proof. split; [by intros b; split|]. intros a b c [? Ha] [? Hb]. split; [lia|]. intros id m Hf Hm. by apply Hb, Ha. Qed.

(** [m], given a frame of [H] rows and [W] columns, draws [l] on it. *)
Definition paints (H W : Z) (m : Z → Run Buffers unit) (l : list Stroke) : Prop :=
  ∀ f b M, fresh b → mats b !! f = Some M → rows M = H → cols M = W →
  succeeds (m f) b (λ _ b', mats b' !! f = Some (drawAll l M) ∧ fresh b' ∧ keeps f b b').

(** It draws no picture. *)
Definition plain (H W : Z) (m : Z → Run Buffers unit) : Prop := ∃ l, paints H W m l ∧ blits l = [].

Context {H W : Z}.

Lemma plain_ret : plain H W (λ _, mret tt).
Proof. exists []. split; [|done]. intros f b M Hb Hf _ _. apply succeeds_ret. by split_and!. Qed.

Lemma paints_seq m1 m2 l1 l2 :
  paints H W m1 l1 → paints H W m2 l2 → paints H W (λ f, m1 f ;; m2 f) (l1 ++ l2).
Proof.
  intros H1 H2 f b M Hb Hf Hr Hc. apply succeeds_bind. eapply succeeds_mono; [by apply (H1 f b M)|].
  intros _ b' (Hf' & Hb' & Hk). destruct (drawAll_size l1 M) as (Hr' & Hc' & _).
  eapply succeeds_mono; [apply (H2 f b' _ Hb' Hf'); congruence|]. intros _ b'' (Hf'' & Hb'' & Hk').
  split_and!; [|done|by etrans..]. rewrite Hf''. f_equal. unfold drawAll. by rewrite foldl_app.
Qed.

Lemma plain_seq m1 m2 : plain H W m1 → plain H W m2 → plain H W (λ f, m1 f ;; m2 f).
Proof.
  intros (l1 & H1 & Hl1) (l2 & H2 & Hl2). exists (l1 ++ l2). split; [by apply paints_seq|].
  unfold blits in *. by rewrite filter_app, Hl1, Hl2.
Qed.

Lemma plain_each {A} (g : Z → A → Run Buffers unit) l :
  (∀ x, x ∈ l → plain H W (λ f, g f x)) → plain H W (λ f, eachOf (g f) l).
Proof.
  induction l as [|x l IH]; intros Hg; simpl; [apply plain_ret|].
  apply plain_seq; [apply Hg; by left|]. apply IH. intros y Hy. apply Hg. by right.
Qed.

Lemma plain_unless c m : (c = false → plain H W m) → plain H W (λ f, unless c (m f)).
Proof. destruct c; simpl; [by intros; apply plain_ret|]. intros Hm. by apply Hm. Qed.

(** One stroke, wherever the operation accepts it. *)
Lemma paints_stroke s : paints H W (λ f, paint (Some f) s) [s].
Proof.
  intros f b M Hb Hf _ _. eexists _, _. split; [done|]. simpl. rewrite lookup_alter_eq, Hf. split_and!; [done| |split; [simpl; lia|]].
  - intros id m. simpl. destruct (decide (id = f)) as [->|]; [intros _; by eapply Hb|]. rewrite lookup_alter_ne by done. apply Hb.
  - intros id m Hid Hm. simpl. by rewrite lookup_alter_ne.
Qed.

Lemma loaded_some f b M : mats b !! f = Some M → loaded (Some f) b = Ok (M, b).
Proof. intros Hf. unfold loaded, asks, mbind, run_bind, matOf. simpl. by rewrite Hf. Qed.

Lemma plain_loaded (m : Z → Run Buffers unit) : plain H W m → plain H W (λ f, loaded (Some f) ;; m f).
Proof.
  intros (l & Hm & Hl). exists l. split; [|done]. intros f b M Hb Hf Hr Hc.
  apply succeeds_bind. eexists _, _. split; [by apply loaded_some|]. by apply (Hm f b M).
Qed.

Lemma plain_stroke s : isBlit s = false → plain H W (λ f, paint (Some f) s).
Proof. intros Hs. exists [s]. split; [apply paints_stroke|]. unfold blits. rewrite filter_cons_False; [done|]. rewrite Hs. by intros []. Qed.

Lemma plain_fill x y w h color alpha :
  0 ≤ x → 0 ≤ y → 0 ≤ w → 0 ≤ h → x + w ≤ W → y + h ≤ H → plain H W (λ f, fill_rect (Some f) x y w h color alpha).
Proof.
  intros ? ? ? ? ? ?. exists [Fill x y w h color alpha]. split; [|done]. intros f b M Hb Hf Hr Hc.
  apply succeeds_bind. eexists _, _. split; [by apply loaded_some|].
  rewrite hasRegion_inside by lia. by apply paints_stroke.
Qed.

Lemma plain_text txt x y size color thickness : plain H W (λ f, put_text (Some f) txt x y size color thickness).
Proof. apply plain_loaded, plain_seq; by apply plain_stroke. Qed.

Lemma plain_line x1 y1 x2 y2 color thickness : plain H W (λ f, line (Some f) x1 y1 x2 y2 color thickness).
Proof. by apply plain_loaded, plain_stroke. Qed.

Lemma clone_some f b M : mats b !! f = Some M → clone (Some f) b = Ok (Some (nextMat b), withMat M b).
Proof. intros Hf. unfold clone, asks, mbind, run_bind, matOf. simpl. by rewrite Hf. Qed.

Lemma withMat_fresh M b : fresh b → fresh (withMat M b) ∧ ∀ id m, mats b !! id = Some m → mats (withMat M b) !! id = Some m.
Proof.
  intros Hb. split; intros id m; simpl.
  - rewrite lookup_insert_Some. intros [[<- _]|[_ Hid]]; [lia|]. apply Hb in Hid. lia.
  - intros Hm. rewrite lookup_insert_ne; [done|]. apply Hb in Hm. lia.
Qed.

Lemma plain_clone (m : Z → Run Buffers unit) : plain H W m → plain H W (λ f, clone (Some f) ;; m f).
Proof.
  intros (l & Hm & Hl). exists l. split; [|done]. intros f b M Hb Hf Hr Hc.
  destruct (withMat_fresh M b Hb) as [Hb1 Hk1].
  apply succeeds_bind. eexists _, _. split; [by apply clone_some|].
  eapply succeeds_mono; [by apply (Hm f _ M); [|apply Hk1| |]|].
  intros _ b' (Hf' & Hb' & Hk & Hk'). split_and!; [done|done|split; [simpl in *; lia|auto]].
Qed.

Lemma plain_circle x y r color alpha : 0 ≤ r → plain H W (λ f, fill_circle (Some f) x y r color alpha).
Proof.
  intros Hr. apply plain_loaded, plain_clone. rewrite hasCircle_positive by done. by apply plain_stroke.
Qed.
End Paints.

(** The drawing functions, one operation at a time. *)
Create HintDb drawing.
#[local] Hint Resolve plain_ret plain_text plain_line : drawing.
#[local] Hint Extern 1 (plain _ _ (λ f, fill_rect _ _ _ _ _ _ _)) => apply plain_fill; lia : drawing.
#[local] Hint Extern 1 (plain _ _ (λ f, fill_circle _ _ _ _ _ _)) => apply plain_circle; lia : drawing.
#[local] Hint Extern 2 (plain _ _ (λ f, _ ;; _)) => apply plain_seq : drawing.
#[local] Hint Extern 1 (plain _ _ (λ f, unless _ _)) => apply plain_unless; intros _ : drawing.
#[local] Hint Extern 1 (plain _ _ (λ f, eachOf _ _)) => apply plain_each; intros ? _ : drawing.

(** ** Drawing on the screen's frame *)
Section Frames.
Context `{CV : OpenCV} `{Laws : !OpenCVLaws}.

(** The board is of eight squares a side; before the first snapshot it is empty. *)
Definition boardSize (s : GameSnapshot) : Prop :=
  board_width s = 8 ∧ board_height s = 8 ∨ board_width s = 0 ∧ board_height s = 0.

Definition totalW (cell : Z) : Z := PANEL_WIDTH + 8 * cell + BOARD_MARGIN + PLAYER_PANEL_GAP_PX + PLAYER_PANEL_WIDTH + PLAYER_PANEL_GAP_PX.
Definition totalH (cell : Z) : Z := BOARD_MARGIN + 8 * cell + BOARD_MARGIN.

Ltac sizes := unfold totalW, totalH, PANEL_WIDTH, BOARD_MARGIN, PLAYER_PANEL_WIDTH, PLAYER_PANEL_GAP_PX, PANEL_Y, PANEL_TOTAL_H,
  PANEL_HEADER_H, PANEL_INFO_H, PANEL_MAX_LINES, PANEL_LINE_H in *.

Lemma plain_panel cell panelX title name score moves :
  60 ≤ cell → 0 ≤ panelX → panelX + PLAYER_PANEL_WIDTH ≤ totalW cell →
  plain (totalH cell) (totalW cell) (λ f, drawPlayerPanel (Some f) panelX title name score moves).
Proof. intros Hc Hx Hw. unfold drawPlayerPanel. cbv zeta. sizes. eauto 40 with drawing. Qed.

Lemma plain_labels cell s : 60 ≤ cell → boardSize s →
  plain (totalH cell) (totalW cell) (λ f, drawLabels (Some f) cell s ;; drawMarks (Some f) cell s).
Proof.
  intros Hc Hs. unfold drawLabels, drawMarks. cbv zeta. sizes.
  pose proof (Z.quot_pos cell 6 ltac:(lia) ltac:(lia)). assert (board_width s = board_height s ∧ 0 ≤ board_width s ≤ 8) as [-> Hb] by (destruct Hs; lia).
  destruct (has_selection s); apply plain_seq; eauto 40 with drawing; repeat (apply plain_seq); try (apply plain_fill; nia); eauto 20 with drawing.
Qed.

Lemma plain_handle cell s H W : plain H W (λ f, drawHandle (Some f) cell s).
Proof. unfold drawHandle, handleTopLeft. eauto 20 with drawing. Qed.

Variable files : string → option string.
Variable root : string.
Notation sprites_ok := (sprites_ok files root).

(** The frame being drawn is a buffer of its own. *)
Record frameOn (f : Z) (M : Mat) (s : Screen) : Prop := {
  fo_sprites : sprites_ok (sprites s);
  fo_mat : mats (buffers (sprites s)) !! f = Some M;
  fo_off : ∀ key, cache (sprites s) !! key ≠ Some (Some f)
}.

(** Drawing leaves everything else alone. *)
Definition same (f : Z) (s s' : Screen) : Prop :=
  (background s' = background s ∧ canvas s' = canvas s ∧ lastRenderedCellSize s' = lastRenderedCellSize s ∧ shown s' = shown s) ∧
  keeps f (buffers (sprites s)) (buffers (sprites s')).

#[export] Instance same_preorder f : PreOrder (same f).
Proof.
  split; [by intros s|]. intros a b c [(H1 & H2 & H3 & H4) Hk] [(H1' & H2' & H3' & H4') Hk'].
  split; [|by etrans]. split_and!; congruence.
Qed.

Definition shaped (H W Ch : Z) (M : Mat) : Prop := rows M = H ∧ cols M = W ∧ channels M = Ch.

Lemma shaped_draw H W Ch l M : shaped H W Ch M → shaped H W Ch (drawAll l M).
Proof. unfold shaped. by destruct (drawAll_size l M) as (-> & -> & ->). Qed.

(** [m] draws the pictures [bl], among other strokes, on any frame of this shape. *)
Definition draws (H W Ch : Z) (m : Z → Run Screen unit) (bl : list Stroke) : Prop :=
  ∃ l, blits l = bl ∧ ∀ f s M, frameOn f M s → shaped H W Ch M →
    succeeds (m f) s (λ _ s', frameOn f (drawAll l M) s' ∧ same f s s').

Section Shape.
Context {H W Ch : Z}.

Lemma draws_seq m1 m2 bl1 bl2 :
  draws H W Ch m1 bl1 → draws H W Ch m2 bl2 → draws H W Ch (λ f, m1 f ;; m2 f) (bl1 ++ bl2).
Proof.
  intros (l1 & <- & H1) (l2 & <- & H2). exists (l1 ++ l2). split; [apply filter_app|]. intros f s M Hf HM.
  apply succeeds_bind. eapply succeeds_mono; [by apply (H1 f s M)|]. intros _ s' [Hf' Hs].
  eapply succeeds_mono; [apply (H2 f s' _ Hf'); by apply shaped_draw|]. intros _ s'' [Hf'' Hs'].
  split; [|by etrans]. unfold drawAll in *. by rewrite foldl_app.
Qed.

Lemma draws_ret : draws H W Ch (λ _, mret tt) [].
Proof. exists []. split; [done|]. intros f s M Hf _. by apply succeeds_ret. Qed.

Lemma draws_each {A} (g : Z → A → Run Screen unit) (bl : A → list Stroke) l :
  (∀ x, x ∈ l → draws H W Ch (λ f, g f x) (bl x)) → draws H W Ch (λ f, eachOf (g f) l) (flat_map bl l).
Proof.
  induction l as [|x l IH]; intros Hg; simpl; [apply draws_ret|].
  apply draws_seq; [apply Hg; by left|]. apply IH. intros y Hy. apply Hg. by right.
Qed.

Lemma sprites_ok_keeps f s b :
  sprites_ok s → (∀ key, cache s !! key ≠ Some (Some f)) → fresh b → keeps f (buffers s) b → sprites_ok (setBuffers b s).
Proof.
  intros Hs Hoff Hb [_ Hk]. destruct Hs as [Hf Hc Hcfg Ho Ha]. split; simpl; [done| |done..].
  intros key img Himg. destruct (Hc key img Himg) as (path & size & m & -> & Hin & Hm & Hi).
  exists path, size, m. split_and!; [done..|]. destruct img as [id|]; [|done]. unfold matOf in *. simpl in *.
  apply Hk; [|done]. intros ->. by apply (Hoff (cacheKey path size)).
Qed.

Lemma draws_images m : plain H W m → draws H W Ch (λ f, onImages (m f)) [].
Proof.
  intros (l & Hm & Hl). exists l. split; [done|]. intros f s M [Hs Hf Hoff] (Hr & Hc & _).
  destruct (Hm f (buffers (sprites s)) M (so_fresh _ _ _ Hs) Hf Hr Hc) as (a & b & Hrun & Hf' & Hb & Hk).
  exists a, (setSprites (setBuffers b (sprites s)) s). split; [unfold onImages, inside; by rewrite Hrun|].
  split; [|by split]. split; [by eapply sprites_ok_keeps|done|done].
Qed.

Lemma frameOn_grows f M s sp : frameOn f M s → sprites_ok sp → grows (sprites s) sp → frameOn f M (setSprites sp s) ∧ same f s (setSprites sp s).
Proof.
  intros [Hs Hf Hoff] Hsp [[He Hn] Hg]. pose proof (so_fresh _ _ _ Hs _ _ Hf). split.
  - split; simpl; [done|by eapply lookup_weaken|]. intros key Hkey. destruct (Hg key f Hkey) as [Hk|Hk]; [by eapply Hoff|lia].
  - split; [done|]. split; [done|]. intros id m _ Hm. simpl. by eapply lookup_weaken.
Qed.

Lemma draw_on_fits img f b M m x y :
  matOf img b = Some m → mats b !! f = Some M →
  0 ≤ x → 0 ≤ y → 0 ≤ cols m → 0 ≤ rows m → x + cols m ≤ cols M → y + rows m ≤ rows M →
  draw_on img (Some f) x y b = paint (Some f) (Blit m x y (commonChannels (channels m) (channels M) =? 4)) b.
Proof.
  intros Hm HM ? ? ? ? ? ?. unfold draw_on, asks, mbind, run_bind. rewrite Hm. unfold matOf. simpl. rewrite HM.
  destruct (Z.ltb_spec (rows M) (y + rows m)); [lia|]. destruct (Z.ltb_spec (cols M) (x + cols m)); [lia|].
  by rewrite hasRegion_inside by lia.
Qed.

(** A picture of the store is put on the frame. *)
Lemma draws_blit img f s M m x y :
  frameOn f M s → matOf img (buffers (sprites s)) = Some m →
  0 ≤ x → 0 ≤ y → 0 ≤ cols m → 0 ≤ rows m → x + cols m ≤ cols M → y + rows m ≤ rows M →
  succeeds (onImages (draw_on img (Some f) x y)) s (λ _ s',
    frameOn f (drawAll [Blit m x y (commonChannels (channels m) (channels M) =? 4)] M) s' ∧ same f s s').
Proof.
  intros [Hs Hf Hoff] Hm ? ? ? ? ? ?.
  destruct (paints_stroke (H := rows M) (W := cols M) (Blit m x y (commonChannels (channels m) (channels M) =? 4))
    f (buffers (sprites s)) M (so_fresh _ _ _ Hs) Hf eq_refl eq_refl) as (a & b & Hrun & Hf' & Hb & Hk).
  exists a, (setSprites (setBuffers b (sprites s)) s). split; [unfold onImages, inside; by rewrite draw_on_fits with (M := M) (m := m) by done; rewrite Hrun|].
  split; [|by split]. split; [by eapply sprites_ok_keeps|done|done].
Qed.
End Shape.

(** ** A piece *)
Definition onBoard (pos : Position) : Prop := 0 ≤ row pos < 8 ∧ 0 ≤ col pos < 8.

(** A piece as the snapshots of a game have it; the time is short of the 59 hours
    after which the frame's number overflows. *)
Record drawable (p : SnapshotPiece) : Prop := {
  dp_cell : onBoard (sp_cell p);
  dp_target : onBoard (targetCell p);
  dp_live : sp_state p ≠ Captured;
  dp_travel : dWithin false 1 (travelProgress p);
  dp_rest : dWithin false 1 (restProgress p);
  dp_time : int_range (10 * elapsed_in_state_ms p)
}.

(** What [drawPiece] puts on a frame of so many channels. *)
Definition pieceBlit (cell Ch : Z) (p : SnapshotPiece) : list Stroke :=
  if kindEqb (sp_kind p) NoKind then []
  else match spriteMat files root cell (sp_kind p) (sp_color p) (sp_state p) (elapsed_in_state_ms p) with
       | Ok m => [Blit m (drawX cell p) (drawY cell p) (commonChannels (channels m) Ch =? 4)]
       | Throw _ => []
       end.

Lemma share_between a b p : Z.abs (b - a) < 2 ^ 52 → dWithin false 1 p →
  Z.min a b ≤ a + dTrunc (dMul (dOfInt (b - a)) p) ≤ Z.max a b.
Proof. intros Hab Hp. pose proof (dTrunc_share (b - a) p Hab Hp) as Hs. destruct (Z.ltb_spec (b - a) 0); lia. Qed.

Lemma piece_between cell p : 60 ≤ cell ≤ 120 → drawable p →
  (PANEL_WIDTH + Z.min (col (sp_cell p)) (col (targetCell p)) * cell ≤ drawX cell p ≤
     PANEL_WIDTH + Z.max (col (sp_cell p)) (col (targetCell p)) * cell) ∧
  (BOARD_MARGIN + Z.min (row (sp_cell p)) (row (targetCell p)) * cell ≤ drawY cell p ≤
     BOARD_MARGIN + Z.max (row (sp_cell p)) (row (targetCell p)) * cell) ∧
  0 ≤ restFill cell p ≤ cell.
Proof.
  intros Hc [[Hr1 Hc1] [Hr2 Hc2] _ Ht Hr _]. unfold drawX, drawY, restFill, PANEL_WIDTH, BOARD_MARGIN. split_and!.
  1, 2: pose proof (share_between (280 + col (sp_cell p) * cell) (280 + col (targetCell p) * cell) _ ltac:(nia) Ht); nia.
  1, 2: pose proof (share_between (30 + row (sp_cell p) * cell) (30 + row (targetCell p) * cell) _ ltac:(nia) Ht); nia.
  all: pose proof (dTrunc_share cell _ ltac:(lia) (dSub_1_within _ Hr)) as Hs; destruct (Z.ltb_spec cell 0); lia.
Qed.

Definition sprites_found (cell : Z) : Prop := ∀ kind color state elapsed,
  kind ≠ NoKind → state ≠ Captured → int_range (10 * elapsed) →
  ∃ m, spriteMat files root cell kind color state elapsed = Ok m ∧ rows m = cell ∧ cols m = cell.

Lemma draws_piece cell Ch p : 60 ≤ cell ≤ 120 → sprites_found cell → drawable p →
  draws (totalH cell) (totalW cell) Ch (λ f, drawPiece files root (Some f) cell p) (pieceBlit cell Ch p).
Proof.
  intros Hc Hfound Hp. pose proof (piece_between cell p Hc Hp) as (HX & HY & HF). destruct Hp as [[? ?] [? ?] Hlive _ _ Htime].
  unfold drawPiece, pieceBlit. destruct (kindEqb (sp_kind p) NoKind) eqn:Hk; [apply draws_ret|]. apply kindEqb_false in Hk. cbv zeta.
  destruct (Hfound (sp_kind p) (sp_color p) (sp_state p) (elapsed_in_state_ms p) Hk Hlive Htime) as (m & Hm & Hrm & Hcm).
  rewrite Hm. change [?x] with ([] ++ [x]). apply draws_seq.
  - destruct (negb _); [apply draws_ret|]. apply draws_images, plain_fill; sizes; nia.
  - exists [Blit m (drawX cell p) (drawY cell p) (commonChannels (channels m) Ch =? 4)]. split; [done|]. intros f s M Hf (HrM & HcM & HchM). pose proof (getSprite_spec files root cell
      (sp_kind p) (sp_color p) (sp_state p) (elapsed_in_state_ms p) (sprites s) (fo_sprites _ _ _ Hf)) as Hget.
    rewrite Hm in Hget. destruct Hget as (img & sp & Hrun & Hi & Hsp & Hg).
    destruct (frameOn_grows f M s sp Hf Hsp Hg) as [Hf1 Hs1].
    apply succeeds_bind. exists img, (setSprites sp s). split; [unfold inside; by rewrite Hrun|].
    eapply succeeds_mono; [apply (draws_blit img f _ M m (drawX cell p) (drawY cell p) Hf1 Hi); sizes; nia|].
    intros _ s' [Hf2 Hs2]. rewrite HchM in Hf2. split; [done|by etrans].
Qed.


Lemma draws_title {H W Ch} (c : string → bool) room m bl :
  draws H W Ch m bl → draws H W Ch (λ f, titled ← asks titledRoomName; unless (c titled) (changes (setTitle room)) ;; m f) bl.
Proof.
  intros (l & Hl & Hm). exists l. split; [done|]. intros f s M Hf HM.
  apply succeeds_bind. eexists _, s. split; [done|]. apply succeeds_bind.
  destruct (c _); [eexists _, _; split; [done|by apply Hm]|].
  eexists _, _. split; [done|]. eapply succeeds_mono; [apply (Hm f _ M); [by destruct Hf|done]|].
  intros _ s' [Hf' Hs]. split; [done|]. etrans; [|exact Hs]. by split.
Qed.

Lemma draws_panels cell Ch v s : 60 ≤ cell ≤ 120 → boardSize s →
  draws (totalH cell) (totalW cell) Ch (λ f, drawPanels (Some f) cell v s) [].
Proof.
  intros Hc Hs. unfold drawPanels. cbv zeta. assert (0 ≤ board_width s ≤ 8) by (destruct Hs; lia).
  change (@nil Stroke) with (@nil Stroke ++ []). apply draws_seq.
  - apply draws_images, plain_seq; [apply plain_panel; sizes; nia|]. apply plain_seq; [apply plain_panel; sizes; nia|].
    apply plain_unless; intros _. apply plain_text.
  - apply (draws_title (λ titled, String.eqb (vw_roomName v) "" || String.eqb (vw_roomName v) titled)).
    apply draws_images, plain_seq; [apply plain_text|]. apply plain_seq; [|apply plain_handle].
    apply plain_unless; intros _. apply plain_text.
Qed.

(** ** A frame *)

(** The backdrop and the board at one size of the squares, as loaded. *)
Definition boardMat (cell : Z) : result Mat := loadMat (root +:+ "/board.png") (8 * cell, 8 * cell) false.
Definition canvasMat (cell : Z) : result Mat := loadMat (root +:+ "/canvas.png") (totalW cell, totalH cell) false.

(** Between frames the caches are clean, and so are the cached images of the
    last size drawn. *)
Record screen_ok (s : Screen) : Prop := {
  sc_sprites : sprites_ok (sprites s);
  sc_images : lastRenderedCellSize s = -1 ∨
    ∃ mb mc, boardMat (lastRenderedCellSize s) = Ok mb ∧ matOf (background s) (buffers (sprites s)) = Some mb ∧
      canvasMat (lastRenderedCellSize s) = Ok mc ∧ matOf (canvas s) (buffers (sprites s)) = Some mc
}.

Lemma newScreen_ok : screen_ok newScreen.
Proof. split; [|by left]. split; simpl; try done; [constructor|set_solver]. Qed.

(** A new buffer beside the caches. *)
Lemma sprites_ok_newMat m s : sprites_ok s → sprites_ok (setBuffers (withMat m (buffers s)) s).
Proof.
  intros Hs. pose proof (withMat_extends files root m s Hs) as He. destruct (withMat_fresh m _ (so_fresh _ _ _ Hs)) as [Hf _].
  destruct Hs as [_ Hc Hcfg Ho Ha]. split; simpl; [done| |done..].
  intros key img Hk. destruct (Hc key img Hk) as (path & size & m' & -> & Hin & Hm & Hi).
  exists path, size, m'. split_and!; [done..|by eapply matOf_extends].
Qed.

Lemma read_spec path size s m : sprites_ok (sprites s) → loadMat path size false = Ok m →
  succeeds (onImages (read path size false)) s (λ img s',
    s' = setSprites (setBuffers (withMat m (buffers (sprites s))) (sprites s)) s ∧
    sprites_ok (sprites s') ∧ matOf img (buffers (sprites s')) = Some m ∧ extends (buffers (sprites s)) (buffers (sprites s'))).
Proof.
  intros Hs Hm. eexists (Some _), _. split.
  - unfold onImages, inside, read, tries, mbind, run_bind. rewrite Hm. reflexivity.
  - split; [done|]. split; [by apply sprites_ok_newMat|]. split; [|by apply withMat_extends with files root].
    unfold matOf. simpl. by rewrite lookup_insert_eq.
Qed.

Lemma reload_spec cell snap s mb mc :
  60 ≤ cell → boardSize snap → screen_ok s → boardMat cell = Ok mb → canvasMat cell = Ok mc →
  succeeds (reload root cell snap) s (λ _ s', screen_ok s' ∧ lastRenderedCellSize s' = cell ∧ shown s' = shown s).
Proof.
  intros Hc Hsize Hs Hmb Hmc. unfold reload. apply succeeds_bind. eexists _, s. split; [done|].
  destruct (Z.eqb_spec cell (lastRenderedCellSize s)) as [->|]; [by apply succeeds_ret|].
  replace (if 0 <? board_width snap then board_width snap else 8) with 8 by (destruct Hsize, (Z.ltb_spec 0 (board_width snap)); lia).
  replace (if 0 <? board_height snap then board_height snap else 8) with 8 by (destruct Hsize, (Z.ltb_spec 0 (board_height snap)); lia).
  cbv zeta. apply succeeds_bind. eapply succeeds_mono; [apply read_spec; [apply Hs|exact Hmb]|].
  intros b s1 (-> & Hs1 & Hb & He1). apply succeeds_bind. eapply succeeds_mono; [apply read_spec; [apply Hs1|exact Hmc]|].
  intros c s2 (-> & Hs2 & Hc2 & He2). eexists _, _. split; [done|]. split; [|done].
  split; [done|]. right. exists mb, mc. split_and!; [done|by eapply matOf_extends|done|done].
Qed.

Lemma loadMat_size path w h m : w ≠ 0 → h ≠ 0 → loadMat path (w, h) false = Ok m →
  rows m = h ∧ cols m = w ∧ strokes m = [].
Proof.
  intros Hw Hh. unfold loadMat. destruct (imread path) as [[[[h0 w0] ch] p]|]; [|done]. cbn [fst snd].
  destruct (Z.eqb_spec w 0), (Z.eqb_spec h 0); try done. simpl. destruct (resizes w h); [|done]. by intros [= <-].
Qed.

(** The copy of the backdrop is a frame. *)
Lemma clone_canvas s mc : screen_ok s → matOf (canvas s) (buffers (sprites s)) = Some mc →
  ∃ f s', onImages (clone (canvas s)) s = Ok (Some f, s') ∧ frameOn f mc s' ∧ same f s s' ∧
    nextMat (buffers (sprites s)) ≤ f ∧ screen_ok s'.
Proof.
  intros [Hs Him] Hmc. set (b := buffers (sprites s)) in *. destruct (canvas s) as [id|] eqn:Hcv; [|done].
  assert (mats b !! id = Some mc) as Hid by exact Hmc.
  exists (nextMat b), (setSprites (setBuffers (withMat mc b) (sprites s)) s).
  pose proof (withMat_extends files root mc (sprites s) Hs) as Hext. destruct (Hext) as [He Hn].
  split; [unfold onImages, inside; fold b; by rewrite (clone_some id b mc Hid)|].
  split_and!; [| |lia|].
  - split; simpl; [by apply sprites_ok_newMat|by rewrite lookup_insert_eq|].
    intros key Hk. destruct (so_cache _ _ _ Hs _ _ Hk) as (p & z & m & _ & _ & _ & Hm).
    apply (so_fresh _ _ _ Hs) in Hm. fold b in Hm. lia.
  - split; [done|]. split; [exact Hn|]. intros i m _ Hm. by eapply lookup_weaken.
  - split; [by apply sprites_ok_newMat|]. destruct Him as [|(mb & mc' & H1 & H2 & H3 & H4)]; [by left|right].
    exists mb, mc'. split_and!; [done| |done|]; (eapply matOf_extends; [exact Hext|]); [done|]. simpl. by rewrite Hcv.
Qed.

(** A screen whose frame is done is as it was. *)
Lemma screen_ok_same f s s' M : screen_ok s → frameOn f M s' → same f s s' →
  (∀ i, i ∈ [background s; canvas s] → i ≠ Some f) → screen_ok s'.
Proof.
  intros [_ Him] [Hs _ _] [(Hb & Hc & Hl & _) [_ Hk]] Hne. split; [done|]. rewrite Hb, Hc, Hl.
  destruct Him as [|(mb & mc & H1 & H2 & H3 & H4)]; [by left|right]. exists mb, mc.
  assert (∀ i m, i ≠ Some f → matOf i (buffers (sprites s)) = Some m → matOf i (buffers (sprites s')) = Some m) as Hm.
  { intros [i|] m Hi Hm; [|done]. apply Hk; [congruence|exact Hm]. }
  split_and!; [done|apply Hm; [apply Hne; by left|done]|done|apply Hm; [apply Hne; by right; left|done]].
Qed.

Lemma below_next s i m f : screen_ok s → matOf i (buffers (sprites s)) = Some m → nextMat (buffers (sprites s)) ≤ f → i ≠ Some f.
Proof. intros [Hs _] Hm Hf ->. apply (so_fresh _ _ _ Hs) in Hm. lia. Qed.

Lemma render_spec cell v snap mb mc :
  60 ≤ cell ≤ 120 → boardSize snap → sprites_found cell → (∀ p, p ∈ pieces snap → drawable p) →
  boardMat cell = Ok mb → canvasMat cell = Ok mc →
  ∃ picture, rows picture = totalH cell ∧ cols picture = totalW cell ∧
    blits (strokes picture) = Blit mb PANEL_WIDTH BOARD_MARGIN (commonChannels (channels mb) (channels mc) =? 4)
                              :: flat_map (pieceBlit cell (channels mc)) (pieces snap) ∧
    ∀ s, screen_ok s → succeeds (render files root cell v snap) s (λ _ s', screen_ok s' ∧ shown s' = shown s ++ [picture]).
Proof.
  intros Hc Hsize Hfound Hps Hmb Hmc.
  destruct (loadMat_size _ (8 * cell) (8 * cell) mb ltac:(lia) ltac:(lia) Hmb) as (Hrb & Hcb & _).
  destruct (loadMat_size _ (totalW cell) (totalH cell) mc ltac:(sizes; lia) ltac:(sizes; lia) Hmc) as (Hrc & Hcc & Hsc).
  set (blit := Blit mb _ _ _).
  destruct (draws_images (Ch := channels mc) _ (plain_labels cell snap ltac:(lia) Hsize)) as (l1 & Hl1 & H1).
  destruct (draws_each (λ f, drawPiece files root (Some f) cell) (pieceBlit cell (channels mc)) (pieces snap)
    (λ p Hp, draws_piece cell (channels mc) p Hc Hfound (Hps p Hp))) as (l2 & Hl2 & H2).
  destruct (draws_panels cell (channels mc) v snap Hc Hsize) as (l3 & Hl3 & H3).
  assert (shaped (totalH cell) (totalW cell) (channels mc) mc) as Hsh by done.
  exists (drawAll l3 (drawAll l2 (drawAll l1 (drawAll [blit] mc)))).
  split_and!; [apply shaped_draw with (W := totalW cell) (Ch := channels mc); by repeat apply shaped_draw
              |apply shaped_draw with (H := totalH cell) (Ch := channels mc); by repeat apply shaped_draw| |].
  { rewrite !drawAll_strokes, Hsc, app_nil_l. unfold blits in *. rewrite !filter_app, Hl1, Hl2, Hl3, !app_nil_r. done. }
  intros s Hs. unfold render. apply succeeds_bind. eapply succeeds_mono; [by apply (reload_spec cell snap s mb mc); [lia|..]|].
  intros _ s1 (Hs1 & Hlast & Hsh1). destruct (sc_images _ Hs1) as [|(mb' & mc' & Hb1 & Hb2 & Hc1 & Hc2)]; [lia|].
  rewrite Hlast in Hb1, Hc1. assert (mb' = mb) as -> by congruence. assert (mc' = mc) as -> by congruence.
  apply succeeds_bind. eexists _, s1. split; [done|]. apply succeeds_bind.
  destruct (clone_canvas s1 mc Hs1 Hc2) as (f & s2 & Hrun & Hf2 & Hsame & Hf & Hs2).
  exists (Some f), s2. split; [done|]. apply succeeds_bind. eexists _, s2. split; [done|].
  assert (background s2 = background s1 ∧ canvas s2 = canvas s1) as [Hbg Hcv] by by destruct Hsame as [(?&?&_) _].
  pose proof (below_next _ _ _ _ Hs1 Hb2 Hf) as Hnb. pose proof (below_next _ _ _ _ Hs1 Hc2 Hf) as Hnc.
  apply succeeds_bind. eapply succeeds_mono.
  { apply (draws_blit _ f s2 mc mb); [done| |sizes; lia..].
    rewrite Hbg. destruct (background s1) as [i|]; [|done]. destruct Hsame as [_ [_ Hk]]. apply Hk; [congruence|done]. }
  intros _ s3 [Hf3 Hs3]. apply succeeds_bind. eapply succeeds_mono; [by apply (H1 f s3 _ Hf3), shaped_draw|].
  intros _ s4 [Hf4 Hs4]. apply succeeds_bind. eapply succeeds_mono; [by apply (H2 f s4 _ Hf4); repeat apply shaped_draw|].
  intros _ s5 [Hf5 Hs5]. apply succeeds_bind. eapply succeeds_mono; [by apply (H3 f s5 _ Hf5); repeat apply shaped_draw|].
  intros _ s6 [Hf6 Hs6]. apply succeeds_bind. eexists _, s6. split; [done|].
  unfold matOf. simpl. rewrite (fo_mat _ _ _ Hf6). eexists _, _. split; [done|].
  assert (same f s1 s6) as Hall by (etrans; [exact Hsame|]; etrans; [exact Hs3|]; etrans; [exact Hs4|]; by etrans).
  assert (screen_ok s6) as [Hok Him].
  { eapply screen_ok_same; [exact Hs1|exact Hf6|done|]. intros i. rewrite !elem_of_cons, elem_of_nil. intros [->|[->|[]]]; done. }
  split; [by split|]. simpl. destruct Hall as [(_ & _ & _ & ->) _]. by rewrite Hsh1.
Qed.
End Frames.

(** ** The pieces of a game can be drawn *)
Section Game.
Context `{HashIter}.

Lemma dMin1_within N d : dWithin false N d → dWithin false 1 (dMin1 d).
Proof. intros Hd. unfold dMin1. destruct (dLt d d1) eqn:Hlt; [by eapply dLt_1_within|apply dOne_within]. Qed.

(** The snapshot of one piece: where it is and heads for, and the proportions. *)
Lemma snapshotPiece_shares a t c p :
  timely t 8 a → aloft a → 0 ≤ t → onBoard c →
  let sp := snapshotPiece a c p in
  t + LONG_REST_MS ≤ 214748364 →
  onBoard (targetCell sp) ∧ dWithin false 1 (travelProgress sp) ∧ dWithin false 1 (restProgress sp) ∧
  0 ≤ elapsed_in_state_ms sp ≤ 214748364.
Proof.
  intros [Hclk Hfl Hcool] Hal H0 Hc. unfold snapshotPiece.
  set (x := match find _ _ with Some m => _ | None => _ end). cbv zeta. intros Ht.
  assert (onBoard x.1 ∧ dWithin false 1 x.2) as [Hx1 Hx2].
  { unfold x. destruct (find _ _) as [m|] eqn:Hf; [|by split]. apply find_some in Hf as [Hm%list_elem_of_In _].
    destruct (Hfl m Hm) as [(Hst & Hat & Hps & _ & Hto) _]. pose proof (Hal m Hm).
    split; [exact Hto|]. simpl. unfold MS_PER_SQUARE_TRAVELED in Hat.
    destruct (Z.ltb_spec 0 (arrival_time_ms m - start_time_ms m)); [|done]. apply dRatio_within; lia. }
  assert (0 ≤ game_clock_ms a - getStateStartMs a (getId p) (getState p) ≤ 214748364) as He.
  { unfold getStateStartMs. unfold LONG_REST_MS in *. destruct (find _ _) as [m|] eqn:Hf.
    - apply find_some in Hf as [Hm%list_elem_of_In _]. destruct (Hfl m Hm) as [[? _] ?]. lia.
    - destruct (cooldown_until_ms a !! getId p) as [u|] eqn:Hu; [|lia]. pose proof (Hcool _ _ Hu).
      unfold SHORT_REST_MS, LONG_REST_MS in *. destruct (getState p); lia. }
  destruct x as [target progress]. simpl. split_and!; [done|done| |lia..].
  destruct (getState p); try done; apply (dMin1_within 214748364), dRatio_within; unfold SHORT_REST_MS, LONG_REST_MS; lia.
Qed.

(** Every piece of a game on the usual board can be drawn, whatever was
    commanded, for 59 hours. *)
Lemma snapshot_drawable sim b cs :
  board_ok b → width b = 8 → height b = 8 → Forall (λ c, 0 ≤ waited c) cs → totalWait cs + LONG_REST_MS ≤ 214748364 →
  let e := play sim (newEngine b) cs in
  board_ok (board (arbiter e)) ∧ ∀ sp, sp ∈ pieces (snapshot e) → drawable sp.
Proof.
  intros Hb Hw Hh Hcs Htime e. destruct (play_flies sim 8 b cs Hb Hcs) as (Hok & Ht & Hal); [rewrite Hw, Hh; done|]. fold e in Hok, Ht, Hal.
  pose proof (totalWait_nonneg cs Hcs) as H0. split; [done|].
  assert (width (board (arbiter e)) = 8 ∧ height (board (arbiter e)) = 8) as [Hw' Hh'] 
    by (destruct (play_size sim (newEngine b) cs Hb) as [E1 E2]; fold e in E1, E2; split; [by rewrite E1|by rewrite E2]).
  intros sp Hsp. rewrite snapshot_listed in Hsp by done. apply list_elem_of_fmap in Hsp as (p & -> & Hp).
  apply (elem_of_livePieces _ _ (board_grid _ Hok)) in Hp as [_ [pos Hpos]].
  pose proof (board_cell _ Hok _ _ Hpos) as Hcell. subst pos.
  pose proof (proj1 (isWithinBounds_spec _ _) (getPiece_bounds _ _ _ Hpos)) as Hin. rewrite Hw', Hh' in Hin.
  destruct (snapshotPiece_shares (arbiter e) _ (getCell p) p Ht Hal H0 Hin Htime) as (Hto & Htr & Hre & Hel).
  assert (sp_cell (snapshotPiece (arbiter e) (getCell p) p) = getCell p ∧ sp_state (snapshotPiece (arbiter e) (getCell p) p) = getState p) as [Hc Hs]
    by (unfold snapshotPiece; by destruct (find _ _)).
  split; [by rewrite Hc|done| |done|done|unfold int_range, INT_MIN, INT_MAX; lia].
  rewrite Hs. by apply (board_piece _ Hok _ _ Hpos).
Qed.
End Game.

(** ** With the files of the repository *)
Section Repository.
Context `{CV : OpenCV} `{Laws : !OpenCVLaws}.

(** Every image under [client/view/img] can be decoded. *)
Definition images_found : Prop := ∀ path, path ∈ spriteFiles → is_Some (imread path).

Lemma loadMat_found path w h : 0 < w → 0 < h → is_Some (imread path) → ∃ m, loadMat path (w, h) false = Ok m.
Proof.
  intros Hw Hh [[[[h0 w0] ch] p] Hr]. unfold loadMat. rewrite Hr. cbn [fst snd].
  destruct (Z.eqb_spec w 0), (Z.eqb_spec h 0); try lia. simpl. rewrite resizes_positive by done. eauto.
Qed.

Lemma repository_sprites cell : 0 < cell → images_found → sprites_found imgFiles imgRoot cell.
Proof.
  intros Hc Him kind color state elapsed Hk Hs He. unfold spriteMat.
  rewrite configs_found by done. rewrite result_bind_Ok.
  destruct (frame_found kind color state elapsed Hk Hs He) as (path & Hp & Hin). rewrite Hp, result_bind_Ok.
  destruct (loadMat_found path cell cell Hc Hc (Him path Hin)) as [m Hm]. exists m. split; [done|].
  by destruct (loadMat_size path cell cell m ltac:(lia) ltac:(lia) Hm) as (? & ? & _).
Qed.

Lemma repository_backdrop cell : 60 ≤ cell → images_found →
  ∃ mb mc, boardMat imgRoot cell = Ok mb ∧ canvasMat imgRoot cell = Ok mc.
Proof.
  intros Hc Him.
  destruct (loadMat_found (imgRoot +:+ "/board.png") (8 * cell) (8 * cell)) as [mb Hb]; [lia..| |].
  { apply Him. unfold spriteFiles. apply elem_of_app. right. by left. }
  destruct (loadMat_found (imgRoot +:+ "/canvas.png") (totalW cell) (totalH cell)) as [mc Hm];
    [unfold totalW, PANEL_WIDTH, BOARD_MARGIN, PLAYER_PANEL_GAP_PX, PLAYER_PANEL_WIDTH; lia|unfold totalH, BOARD_MARGIN; lia| |].
  { apply Him. unfold spriteFiles. apply elem_of_app. right. right. by left. }
  by exists mb, mc.
Qed.

(** C19 A frame of a usual snapshot never fails, and it depends on nothing but what
    it is given.  On an eight by eight board (or the empty one before the first
    snapshot), with squares of 60 to 120 pixels, pieces that stand on the board
    with proportions between nought and one and have not stood for 59 hours, and
    the images of the repository, there is one picture, the same for every state
    that the caches and earlier such frames can have left ([screen_ok], which holds
    of a new screen and is kept): drawn on a clean copy of the backdrop, the board
    first and then exactly the pieces of the snapshot, in their order, each with
    the pixels of its own sprite.  On a wider board it can fail. *)
Theorem render_draws cell v snap :
  images_found → 60 ≤ cell ≤ 120 → boardSize snap → (∀ p, p ∈ pieces snap → drawable p) →
  ∃ mb mc picture, boardMat imgRoot cell = Ok mb ∧ canvasMat imgRoot cell = Ok mc ∧
    rows picture = totalH cell ∧ cols picture = totalW cell ∧
    blits (strokes picture) = Blit mb PANEL_WIDTH BOARD_MARGIN (commonChannels (channels mb) (channels mc) =? 4)
                              :: flat_map (pieceBlit imgFiles imgRoot cell (channels mc)) (pieces snap) ∧
    ∀ s, screen_ok imgFiles imgRoot s →
      succeeds (render imgFiles imgRoot cell v snap) s (λ _ s', screen_ok imgFiles imgRoot s' ∧ shown s' = shown s ++ [picture]).
Proof.
  intros Him Hc Hsize Hps. destruct (repository_backdrop cell ltac:(lia) Him) as (mb & mc & Hb & Hm).
  destruct (render_spec imgFiles imgRoot cell v snap mb mc Hc Hsize (repository_sprites cell ltac:(lia) Him) Hps Hb Hm)
    as (picture & Hr & Hw & Hbl & Hrun).
  exists mb, mc, picture. by split_and!.
Qed.

(** C20 A game can always be drawn.  On any well-formed board of eight by eight,
    after any commands at all — legal or not, jumps of resting pieces included —
    with waits that are not negative and come to less than 59 hours, and whatever
    the client had drawn before ([screen_ok]: a new screen, then frames that
    succeeded), the frame of the game's snapshot is drawn, at every size of the
    squares the client allows, with one sprite for each piece on the board. *)
Theorem game_drawn `{HashIter} cell v snap sim b cs s :
  images_found → 60 ≤ cell ≤ 120 → board_ok b → width b = 8 → height b = 8 →
  Forall (λ c, 0 ≤ waited c) cs → totalWait cs + LONG_REST_MS ≤ 214748364 →
  let e := play sim (newEngine b) cs in
  board_width snap = 8 → board_height snap = 8 → pieces snap = pieces (snapshot e) →
  screen_ok imgFiles imgRoot s →
  succeeds (render imgFiles imgRoot cell v snap) s (λ _ s', screen_ok imgFiles imgRoot s' ∧
    ∃ picture, shown s' = shown s ++ [picture] ∧
      length (blits (strokes picture)) = S (length (livePieces (board (arbiter e))))).
Proof.
  intros Him Hc Hb0 Hw Hh Hcs Htime e Hsw Hsh Hsp Hs.
  destruct (snapshot_drawable sim b cs Hb0 Hw Hh Hcs Htime) as [Hok Hd]. fold e in Hok, Hd. rewrite <-Hsp in Hd.
  destruct (repository_backdrop cell ltac:(lia) Him) as (mb & mc & Hb & Hm).
  destruct (render_spec imgFiles imgRoot cell v snap mb mc Hc (or_introl (conj Hsw Hsh)) (repository_sprites cell ltac:(lia) Him) Hd Hb Hm)
    as (picture & _ & _ & Hbl & Hrun).
  eapply succeeds_mono; [by apply Hrun|]. intros _ s' [Hs' Hshown]. split; [done|]. exists picture. split; [done|].
  rewrite Hbl. simpl. f_equal. rewrite Hsp in Hd |- *. rewrite snapshot_listed in Hd |- * by exact Hok.
  assert (∀ p, p ∈ livePieces (board (arbiter e)) → getKind p ≠ NoKind) as Hlive.
  { intros p [Hr _]%list_elem_of_filter. apply isReal_true. by destruct (isReal p). }
  induction (livePieces (board (arbiter e))) as [|p l IH]; [done|]. simpl. rewrite length_app, IH.
  2: { intros sp Hin. apply Hd. by right. } 2: { intros q Hq. apply Hlive. by right. }
  f_equal. assert (sp_kind (snapshotPiece (arbiter e) (getCell p) p) = getKind p) as Hk by (unfold snapshotPiece; by destruct (find _ _)).
  unfold pieceBlit. rewrite Hk, (proj2 (kindEqb_false _ _)) by (apply Hlive; by left).
  destruct (Hd (snapshotPiece (arbiter e) (getCell p) p)) as [_ _ Hl _ _ Ht]; [by left|].
  destruct (repository_sprites cell ltac:(lia) Him (getKind p) (sp_color (snapshotPiece (arbiter e) (getCell p) p))
    _ _ (Hlive p ltac:(by left)) Hl Ht) as (m & -> & _). done.
Qed.
End Repository.
