(* ===== verification/Script.v ===== *)
(** * The script harness ([texttests])

    [ScriptParser] reads the commands of a script, [ScriptRunner] drives the
    engine with them the way two clicks of a player do, and compares the boards.
    The integration scripts of the repository are run at the end. *)
From S2P Require Import Prelude Model Text Scan Double Rules Motion Arbiter ArbiterSteps Lifecycle Engine EngineSpec EngineTheorems Json Observers Codecs Session Registry BoardIO Server ClientInput.
#[local] Open Scope Z_scope.

Inductive ScriptCommand :=
  | Click (x y : Z)
  | JumpAt (x y : Z)
  | Wait (ms : Z)
  | PrintBoard (expectedBoard : list string).

(** [ls >> cmd.x >> cmd.y], into variables that hold 0. *)
Definition readTwo (stream : string) : Z * Z :=
  let '(x, rest) := readInt 0 (Some stream) in
  let '(y, _) := readInt 0 rest in (x, y).

(** The loop of [ScriptParser::parse]; [need] lines of an expected board are
    still to be read, those read are [expected]. *)
Fixpoint parseLines (boardHeight : nat) (lines : list string) (need : nat) (expected : list string)
    : result (list ScriptCommand) :=
  match lines with
  | [] => match need with O => Ok [] | S _ => Throw "ERROR MISSING_EXPECTED_BOARD" end
  | line :: rest =>
    let line := chomp line in
    match need with
    | S k =>
      let expected := expected ++ [line] in
      match k with
      | O => cmds ← parseLines boardHeight rest 0 []; Ok (PrintBoard expected :: cmds)
      | S _ => parseLines boardHeight rest k expected
      end
    | O =>
      if String.eqb line "" then parseLines boardHeight rest 0 []
      else
        let '(word, ls) := readWord line in
        if String.eqb word "click" then
          let '(x, y) := readTwo ls in cmds ← parseLines boardHeight rest 0 []; Ok (Click x y :: cmds)
        else if String.eqb word "jump" then
          let '(x, y) := readTwo ls in cmds ← parseLines boardHeight rest 0 []; Ok (JumpAt x y :: cmds)
        else if String.eqb word "wait" then
          let '(ms, _) := readInt 0 (Some ls) in cmds ← parseLines boardHeight rest 0 []; Ok (Wait ms :: cmds)
        else if String.eqb word "print" then
          if negb (String.eqb (readWord ls).1 "board") then Throw "ERROR UNKNOWN_COMMAND"
          else match boardHeight with
               | O => cmds ← parseLines boardHeight rest 0 []; Ok (PrintBoard [] :: cmds)
               | S _ => parseLines boardHeight rest boardHeight []
               end
        else Throw "ERROR UNKNOWN_COMMAND"
    end
  end.

Definition parseScript (lines : list string) (boardHeight : Z) : result (list ScriptCommand) :=
  parseLines (Z.to_nat boardHeight) lines 0 [].

(** What [parseBoardOnly] leaves in the stream: the lines after [Commands:]. *)
Fixpoint afterBoard (lines : list string) : list string :=
  match lines with
  | [] => []
  | line :: rest =>
    match splitLine (chomp line) with
    | t0 :: _ => if String.eqb t0 "Commands:" then rest else afterBoard rest
    | [] => afterBoard rest
    end
  end.

Record ScriptResult := mkResult { passed : bool; message : string }.

(** [ViewConfig::CELL_SIZE] is the scale of a script. *)
Definition outOfBounds (snap : GameSnapshot) (x y : Z) : bool :=
  let boardWidthPx := board_width snap * CELL_SIZE in
  let boardHeightPx := board_height snap * CELL_SIZE in
  (x <? 0) || (y <? 0) || (boardWidthPx <=? x) || (boardHeightPx <=? y).

Definition pieceColorAt (snap : GameSnapshot) (pos : Position) : Color :=
  match find (λ p, posEq (sp_cell p) pos) (pieces snap) with Some p => sp_color p | None => NoColor end.

Section Script.
Context `{HashIter}.

(** [GameEngine engine(board)]: without the simultaneous mode. *)
Definition scriptMode : bool := false.

(** [CommandDispatcher::dispatch] on a bare engine. *)
Definition commandAt (pos : Position) (f : GameEngine → GameEngine * MoveResult) (senderColor : Color)
    (e : GameEngine) : GameEngine :=
  match pieceAt (snapshot e) pos with
  | None => e
  | Some mover => if negb (colorEqb (sp_color mover) senderColor) then e else (f e).1
  end.

Definition dispatchEngine (sim : bool) (m : Message) (senderColor : Color) (e : GameEngine) : GameEngine :=
  let command :=
    match msg_type m with
    | Move =>
      from ← (v ← jAt "from" (payload m); positionFromJson v);
      to ← (v ← jAt "to" (payload m); positionFromJson v);
      Ok (commandAt from (requestMove sim from to) senderColor e)
    | JumpMsg =>
      pos ← (v ← jAt "pos" (payload m); positionFromJson v);
      Ok (commandAt pos (requestJump pos) senderColor e)
    | _ => Throw "no command"
    end in
  if colorEqb senderColor NoColor then e else match command with Ok e => e | Throw _ => e end.

(** One command: the selection and the engine afterwards, and the failure it
    reports.  Printing a piece outside the grid is undefined in the code. *)
Definition runCommand (cmd : ScriptCommand) (selected : option Position) (e : GameEngine)
    : result (option Position * GameEngine * option string) :=
  match cmd with
  | Click x y =>
    let snap := snapshot e in
    if outOfBounds snap x y then Ok (None, e, None)
    else
      let clicked := mapToPosition x y CELL_SIZE in
      let outcome := resolveClick snap selected clicked None in
      match co_type outcome with
      | Selected => Ok (Some (co_pos outcome), e, None)
      | SendMove =>
        Ok (None, dispatchEngine scriptMode (moveMessage (co_from outcome) (co_to outcome))
              (pieceColorAt snap (co_from outcome)) e, None)
      | SendJump =>
        Ok (None, dispatchEngine scriptMode (jumpMessage (co_pos outcome)) (pieceColorAt snap (co_pos outcome)) e, None)
      | NoOp => Ok (selected, e, None)
      end
  | JumpAt x y =>
    let snap := snapshot e in
    if outOfBounds snap x y then Ok (selected, e, None)
    else
      let pos := mapToPosition x y CELL_SIZE in
      Ok (selected, dispatchEngine scriptMode (jumpMessage pos) (pieceColorAt snap pos) e, None)
  | Wait ms => Ok (selected, wait scriptMode ms e, None)
  | PrintBoard expectedBoard =>
    actual ← of_option "a piece outside the grid" (printSnapshot (snapshot e));
    let expected := foldr (λ line acc, line +:+ endl +:+ acc) "" expectedBoard in
    Ok (selected, e, if String.eqb actual expected then None
                     else Some ("expected:" +:+ endl +:+ expected +:+ "actual:" +:+ endl +:+ actual))
  end.

Fixpoint runCommands (cmds : list ScriptCommand) (selected : option Position) (e : GameEngine)
    : result (GameEngine * ScriptResult) :=
  match cmds with
  | [] => Ok (e, mkResult true "")
  | cmd :: cmds =>
    '(selected, e, failure) ← runCommand cmd selected e;
    match failure with Some text => Ok (e, mkResult false text) | None => runCommands cmds selected e end
  end.

(** [ScriptRunner::run], with the counter of piece ids. *)
Definition runScript (input : string) (idCounter : Z) : result (GameEngine * ScriptResult) :=
  '(board, _) ← parseBoardOnly input idCounter;
  commands ← parseScript (afterBoard (getlines input)) (height board);
  runCommands commands None (newEngine board).
End Script.

(** ** What a script does to the engine *)
Section ScriptTheorems.
Context `{HashIter}.

Lemma positionJson_decode p : position_int p → positionFromJson (posJson p) = Ok p.
Proof. exact (decode_encodePosition p). Qed.

(** A scripted command acts as the owner of the piece on the square. *)
Lemma dispatch_move from to sp e :
  position_int from → position_int to → findAt (snapshot e) from = Some sp → sp_color sp ≠ NoColor →
  dispatchEngine scriptMode (moveMessage from to) (pieceColorAt (snapshot e) from) e =
    (requestMove scriptMode from to e).1.
Proof.
  intros Hf Ht Hp Hc. unfold dispatchEngine, pieceColorAt, moveMessage. unfold findAt in Hp. rewrite Hp.
  cbn [msg_type payload]. jfields. rewrite !positionJson_decode by done. cbn [mbind result_bind].
  apply colorEqb_false in Hc. rewrite Hc. unfold commandAt, pieceAt. rewrite Hp.
  by rewrite (proj2 (colorEqb_true _ _)).
Qed.

Lemma dispatch_jump pos sp e :
  position_int pos → findAt (snapshot e) pos = Some sp → sp_color sp ≠ NoColor →
  dispatchEngine scriptMode (jumpMessage pos) (pieceColorAt (snapshot e) pos) e = (requestJump pos e).1.
Proof.
  intros Hf Hp Hc. unfold dispatchEngine, pieceColorAt, jumpMessage. unfold findAt in Hp. rewrite Hp.
  cbn [msg_type payload]. jfields. rewrite !positionJson_decode by done. cbn [mbind result_bind].
  apply colorEqb_false in Hc. rewrite Hc. unfold commandAt, pieceAt. rewrite Hp.
  by rewrite (proj2 (colorEqb_true _ _)).
Qed.

Lemma dispatchEngine_exec m c e :
  dispatchEngine scriptMode m c e = e ∨ ∃ cmd, dispatchEngine scriptMode m c e = exec scriptMode e cmd.
Proof.
  unfold dispatchEngine. destruct (colorEqb c NoColor); [by left|].
  assert (∀ pos f, (∃ cmd, (f e).1 = exec scriptMode e cmd) →
    commandAt pos f c e = e ∨ ∃ cmd, commandAt pos f c e = exec scriptMode e cmd) as Hc.
  { intros pos f Hf. unfold commandAt. destruct (pieceAt _ _); [|by left]. destruct (negb _); [by left|by right]. }
  destruct (msg_type m); try by left.
  - destruct (_ ≫= _) as [e'|] eqn:E; [|by left]. apply result_bind_inv in E as (f & _ & E).
    apply result_bind_inv in E as (t & _ & [= <-]). apply Hc. by exists (CMove f t).
  - destruct (_ ≫= _) as [e'|] eqn:E; [|by left]. apply result_bind_inv in E as (p & _ & [= <-]).
    apply Hc. by exists (CJump p).
Qed.

Lemma runCommand_exec cmd sel e sel' e' f :
  runCommand cmd sel e = Ok (sel', e', f) → e' = e ∨ ∃ c, e' = exec scriptMode e c.
Proof.
  destruct cmd as [x y|x y|ms|ls]; cbn [runCommand].
  - destruct (outOfBounds _ _ _); [intros [= _ <- _]; by left|].
    destruct (co_type _); intros [= _ <- _]; try (by left); apply dispatchEngine_exec.
  - destruct (outOfBounds _ _ _); intros [= _ <- _]; [by left|apply dispatchEngine_exec].
  - intros [= _ <- _]. right. by exists (CWait ms).
  - intros (? & _ & [= _ <- _])%result_bind_inv. by left.
Qed.

Lemma runCommands_play cmds sel e e' r :
  runCommands cmds sel e = Ok (e', r) → ∃ cs, e' = play scriptMode e cs.
Proof.
  revert sel e. induction cmds as [|cmd cmds IH]; intros sel e; cbn [runCommands].
  - intros [= <- _]. by exists [].
  - intros ([[sel1 e1] f] & Hc & Hr)%result_bind_inv.
    assert (∃ cs, e' = play scriptMode e1 cs) as [cs ->].
    { destruct f; [injection Hr as <- _; by exists []|by eapply IH]. }
    apply runCommand_exec in Hc as [->|[c ->]]; [by exists cs|by exists (c :: cs)].
Qed.

(** Whatever a script says, the engine it leaves is reached from the parsed
    board by commands and waits alone; no piece is lost or duplicated on the
    way and the board stays well formed, whether the script passes or not. *)
Theorem script_conserves input n e r :
  0 < n → runScript input n = Ok (e, r) →
  ∃ b n' cs, parseBoardOnly input n = Ok (b, n') ∧ e = play scriptMode (newEngine b) cs ∧
    board_ok (board (arbiter e)) ∧ material (arbiter e) ≡ₚ seqZ n (n' - n).
Proof.
  unfold runScript. intros Hn ([b n'] & Hb & (cmds & _ & Hr)%result_bind_inv)%result_bind_inv.
  apply runCommands_play in Hr as [cs ->]. exists b, n', cs.
  assert (board_ok b ∧ liveIds b = seqZ n (n' - n)) as [Hok Hids].
  { apply parseBoardOnly_Ok in Hb as (token & w & h & ? & ? & Hv & -> & ->).
    destruct (placedBoard_ok token w h n ltac:(lia) ltac:(lia) Hv) as (? & ? & _). done. }
  destruct (play_kept scriptMode cs (newEngine b) Hok) as [Hok' Hm]. split_and!; [done..|].
  rewrite Hm. unfold material. simpl. by rewrite Hids, app_nil_r.
Qed.

(** The square a pixel of the window is on. *)
Definition squareOf (x y : Z) : Position := mapToPosition x y CELL_SIZE.

(** Two clicks are a move: the first on a piece selects it, the second on
    another square asks the engine for that move, whoever owns the piece, and
    clears the selection.  (A second click on a friend selects the friend
    instead, unless a knight is selected.) *)
Theorem script_two_clicks x y x' y' sp e :
  outOfBounds (snapshot e) x y = false → outOfBounds (snapshot e) x' y' = false →
  position_int (squareOf x y) → position_int (squareOf x' y') →
  squareOf x' y' ≠ squareOf x y →
  findAt (snapshot e) (squareOf x y) = Some sp → sp_color sp ≠ NoColor →
  ¬ friendAt (snapshot e) sp (squareOf x' y') →
  runCommands [Click x y; Click x' y'] None e =
    Ok ((requestMove scriptMode (squareOf x y) (squareOf x' y') e).1, mkResult true "").
Proof.
  intros Hin Hin' Hf Ht Hne Hp Hc Htarget.
  cbn [runCommands runCommand]. rewrite Hin. change (mapToPosition x y CELL_SIZE) with (squareOf x y).
  rewrite (resolveClick_none _ _ _ sp) by done. cbn [co_type co_pos mbind result_bind].
  rewrite Hin'. change (mapToPosition x' y' CELL_SIZE) with (squareOf x' y').
  rewrite (resolveClick_send _ _ _ sp) by done.
  cbn [co_type co_from co_to mbind result_bind]. by rewrite (dispatch_move _ _ sp).
Qed.
End ScriptTheorems.

(** ** The integration scripts of the repository *)
Definition script (lines : list string) : string := foldr (λ l acc, l +:+ endl +:+ acc) "" lines.

Definition board_parsing : string := script
  ["Board:"; ". . ."; ". wK ."; ". . ."; "Commands:"; "print board"; ". . ."; ". wK ."; ". . ."].
Definition click_to_move : string := script
  ["Board:"; ". wR ."; ". . ."; ". . ."; "Commands:"; "click 150 50"; "click 250 50"; "wait 1000";
   "print board"; ". . wR"; ". . ."; ". . ."].
Definition rook_moves : string := script
  ["Board:"; ". wR ."; ". . ."; ". . bK"; "Commands:"; "click 150 50"; "click 150 250"; "wait 1000";
   "print board"; ". wR ."; ". . ."; ". . bK"; "wait 1000"; "print board"; ". . ."; ". . ."; ". wR bK"].
Definition invalid_moves : string := script
  ["Board:"; "wR wP ."; ". . ."; ". . bK"; "Commands:"; "click 50 50"; "click 250 50"; "wait 3000";
   "print board"; "wR wP ."; ". . ."; ". . bK"].
Definition capture_script : string := script
  ["Board:"; "wR . bP"; ". . ."; ". . ."; "Commands:"; "click 50 50"; "click 250 50"; "wait 2000";
   "print board"; ". . wR"; ". . ."; ". . ."].
Definition game_over_script : string := script
  ["Board:"; "wR . bK"; ". . wN"; ". . ."; "Commands:"; "click 50 50"; "click 250 50"; "wait 2000";
   "print board"; ". . wR"; ". . wN"; ". . ."; "click 250 150"; "click 50 250"; "wait 2000";
   "print board"; ". . wR"; ". . wN"; ". . ."].

Definition scriptPasses (input : string) : bool :=
  match runScript (H := sorted_iter) input 1 with Ok (_, r) => passed r | Throw _ => false end.

(** The six integration scripts of the repository pass. *)
Theorem integration_scripts_pass :
  Forall (λ input, scriptPasses input = true)
    [board_parsing; click_to_move; rook_moves; invalid_moves; capture_script; game_over_script].
Proof. repeat constructor; vm_compute; reflexivity. Qed.

(** The rook of [click_to_move], clicked and sent. *)
Definition clickEngine : GameEngine :=
  match parseBoardOnly click_to_move 1 with Ok (b, _) => newEngine b | Throw _ => newEngine (newBoard 0 0) end.

Lemma script_two_clicks_witness :
  @runCommands sorted_iter [Click 150 50; Click 250 50] None clickEngine =
    Ok ((@requestMove scriptMode (mkPos 0 1) (mkPos 0 2) clickEngine).1, mkResult true "").
Proof.
  refine (script_two_clicks (H := sorted_iter) 150 50 250 50
    (mkSnapshotPiece 1 Rook White (mkPos 0 1) Idle 0 (mkPos 0 1) d0 d0) clickEngine _ _ _ _ _ _ _ _);
    [vm_compute; reflexivity..| | | |vm_compute; reflexivity|done|].
  - split; apply (bool_decide_unpack _); vm_compute; exact I.
  - split; apply (bool_decide_unpack _); vm_compute; exact I.
  - intros Heq. apply (f_equal col) in Heq. vm_compute in Heq. discriminate Heq.
  - intros (p & Hp & _). vm_compute in Hp. discriminate Hp.
Defined.

Lemma script_conserves_witness : ∃ e r, @runScript sorted_iter capture_script 1 = Ok (e, r) ∧
  board_ok (board (arbiter e)).
Proof.
  assert (match @runScript sorted_iter capture_script 1 with Ok _ => true | Throw _ => false end = true) as Hb
    by (vm_compute; reflexivity).
  destruct (@runScript sorted_iter capture_script 1) as [[e r]|what] eqn:Hr; [|discriminate Hb].
  exists e, r. split; [reflexivity|].
  destruct (script_conserves (H := sorted_iter) capture_script 1 e r ltac:(lia) Hr) as (b & n' & cs & _ & _ & Hok & _).
  exact Hok.
Defined.
