(* ===== verification/ServerTheorems.v ===== *)
(** * The contract of a shard

    Who may move what, where broadcasts go, what is answered to a text that
    cannot be read, and the conservation of ratings. *)
From S2P Require Import Prelude Model Text Double Rules Motion Arbiter ArbiterSteps Lifecycle Engine EngineSpec EngineTheorems Json Observers Codecs Session SessionTheorems Registry RegistryTheorems BoardIO Server.
From Stdlib Require Import SpecFloat.

(** ** Ratings *)

Lemma dRound_opp d : dRound (SFopp d) = - dRound d.
Proof. destruct d as [| | |[] m e]; simpl; try done. by rewrite Z.opp_involutive. Qed.

Lemma binary_round_aux_sign s m e l :
  binary_round_aux prec emax (negb s) m e l = SFopp (binary_round_aux prec emax s m e l).
Proof.
  unfold binary_round_aux. destruct (shr_fexp prec emax m e l) as [mrs' e'].
  destruct (shr_fexp prec emax _ e' loc_Exact) as [mrs'' e''].
  destruct (shr_m mrs''); try done. by destruct (e'' <=? emax - prec).
Qed.

Lemma dMul_opp a b : SFopp (dMul a b) = dMul a (SFopp b).
Proof.
  unfold dMul. destruct a as [[]|[]| |sa ma ea], b as [[]|[]| |sb mb eb]; simpl; try done;
    try (by destruct sa); try (by destruct sb).
  rewrite <-binary_round_aux_sign. f_equal. by destruct sa, sb.
Qed.

Lemma dRound_mul_neg k d : dRound (dMul k (dSub d0 d)) = - dRound (dMul k d).
Proof.
  rewrite <-dRound_opp, dMul_opp. unfold d0, dSub. destruct d as [[]|[]| |s m e]; simpl; try done;
    unfold dMul; destruct k as [[]|[]| |[] km ke]; done.
Qed.

(** A game moves rating points from the loser to the winner and creates none:
    the sum of the two ratings is kept, whatever the ratings and whatever the
    platform's [pow] answers. *)
Theorem elo_zero_sum pow10 w l :
  (applyElo pow10 w l).1 + (applyElo pow10 w l).2 = w + l.
Proof. unfold applyElo. cbv zeta. cbn [fst snd]. rewrite dRound_mul_neg. lia. Qed.

(** ** How sessions evolve *)

(** Every room of [r'] was a room of [r], and its session went through [Q]. *)
Definition evolve (Q : string → GameSession → GameSession → Prop) (r r' : SessionRegistry) : Prop :=
  ∀ n rm', rooms_ r' !! n = Some rm' → ∃ rm, rooms_ r !! n = Some rm ∧ Q n (session rm) (session rm').

Definition unchanged (n : string) (s s' : GameSession) : Prop := s' = s.

(** The session of one room went through [f]. *)
Definition changedBy (m : string) (f : GameSession → GameSession) (n : string) (s s' : GameSession) : Prop :=
  s' = s ∨ n = m ∧ s' = f s.

Lemma evolve_refl Q r : (∀ n s, Q n s s) → evolve Q r r.
Proof. intros HQ n rm Hn. eauto. Qed.

Lemma evolve_trans (Q1 Q2 Q : string → GameSession → GameSession → Prop) r1 r2 r3 :
  (∀ n s1 s2 s3, Q1 n s1 s2 → Q2 n s2 s3 → Q n s1 s3) → evolve Q1 r1 r2 → evolve Q2 r2 r3 → evolve Q r1 r3.
Proof.
  intros HQ H1 H2 n rm3 Hn. destruct (H2 n rm3 Hn) as (rm2 & Hn2 & ?).
  destruct (H1 n rm2 Hn2) as (rm1 & Hn1 & ?). eauto.
Qed.

Lemma evolve_weaken (Q Q' : string → GameSession → GameSession → Prop) r r' :
  (∀ n s s', Q n s s' → Q' n s s') → evolve Q r r' → evolve Q' r r'.
Proof. intros HQ He n rm' Hn. destruct (He n rm' Hn) as (rm & ? & ?). eauto. Qed.

Lemma evolve_insert Q r n rm rm' c ts k :
  (∀ n s, Q n s s) → rooms_ r !! n = Some rm → Q n (session rm) (session rm') →
  evolve Q r (mkRegistry (<[n := rm']> (rooms_ r)) c ts k).
Proof.
  intros Hrefl Hn HQ m x. simpl. intros [[<- <-]|[_ Hx]]%lookup_insert_Some; eauto.
Qed.

Lemma evolve_onRoom Q r n f :
  (∀ n s, Q n s s) → (∀ rm, rooms_ r !! n = Some rm → Q n (session rm) (session (f rm))) →
  evolve Q r (onRoom n f r).
Proof.
  intros Hrefl HQ m x. unfold onRoom; simpl. destruct (decide (m = n)) as [->|Hne].
  - rewrite lookup_alter_eq. destruct (rooms_ r !! n) as [rm|] eqn:Hn; [|done]. intros [= <-]. eauto.
  - rewrite lookup_alter_ne by done. eauto.
Qed.

Lemma evolve_onSession r n f : evolve (changedBy n f) r (onRoom n (withSession f) r).
Proof. apply evolve_onRoom; [by left|]. intros rm _. by right. Qed.

Section Evolve.
Context `{HashIter} `{JsonText}.
Variable directory : bool.
Variable reconnectStore : bool.

Lemma evolve_join n h u r : evolve unchanged r (joinRoom n h u r).1.
Proof.
  unfold joinRoom. destruct (rooms_ r !! n) as [rm|] eqn:Hn; [|by apply evolve_refl].
  by eapply evolve_insert.
Qed.

Lemma evolve_reserve n w b r : evolve unchanged r (reserveSeats n w b r).
Proof. by apply evolve_onRoom. Qed.

Lemma evolve_erase n r : evolve unchanged r (eraseRoom directory n r).1.
Proof. intros m x. simpl. intros [_ Hx]%lookup_delete_Some. by eexists. Qed.

Lemma evolve_leave h r : evolve unchanged r (leave directory h r).1.1.
Proof.
  unfold leave. destruct (connectionRoom_ r !! h) as [n|]; [|by apply evolve_refl].
  destruct (rooms_ r !! n) as [rm|] eqn:Hn; [|intros m x Hx; by eexists].
  cbn [roles session]. destruct (decide _); [destruct (tickInFlight _)|].
  - unfold setRooms; simpl. by eapply evolve_insert.
  - intros m x. simpl. intros [_ Hx]%lookup_delete_Some. by eexists.
  - unfold setRooms; simpl. by eapply evolve_insert.
Qed.

Lemma evolve_reap n r : evolve unchanged r (reapIfSafe directory n r).1.
Proof.
  unfold reapIfSafe. destruct (rooms_ r !! n) as [rm|]; [|by apply evolve_refl].
  destruct (_ && _); [apply evolve_erase|by apply evolve_refl].
Qed.

Lemma evolve_start n c u e r : evolve unchanged r (startDisconnectCountdown n c u e r).
Proof.
  unfold startDisconnectCountdown. destruct (rooms_ r !! n) as [rm|] eqn:Hn; [|by apply evolve_refl].
  by eapply evolve_insert.
Qed.

Lemma evolve_cancel n c u r :
  evolve (changedBy n (setDisconnectStatus noDisconnect)) r (cancelDisconnectCountdown reconnectStore n c u r).1.1.
Proof.
  unfold cancelDisconnectCountdown.
  destruct (rooms_ r !! n) as [rm|] eqn:Hn; [|by apply evolve_refl; left].
  destruct (pendingDisconnects rm !! c) as [pd|]; [|by apply evolve_refl; left].
  destruct (negb _); [by apply evolve_refl; left|]. eapply evolve_insert; [by left|done|by right].
Qed.
End Evolve.

(** ** Authority over pieces *)

(** A command that concerns the piece on one square. *)
Definition commandOf (pos : Position) (c : Command) : Prop :=
  match c with CMove f _ => f = pos | CJump p => p = pos | CWait _ => False end.

(** What one message may do to a room: nothing to its engine, or one command of
    the sender's own piece, from the sender's own room. *)
Definition authorised `{HashIter} (room : option string) (role : Color) (n : string) (s s' : GameSession) : Prop :=
  engine_ s' = engine_ s ∨
  (room = Some n ∧ role ≠ NoColor ∧ ∃ pos c sp, commandOf pos c ∧
     engine_ s' = exec (simultaneousMode_ s) (engine_ s) c ∧
     pieceAt (snapshot (engine_ s)) pos = Some sp ∧ sp_color sp = role).

Section Shard.
Context `{HashIter} `{JsonText} {U : Type} `{UserStore U}.
Variable pow10 : double → double.
Variable directory : bool.
Variable shardAddress : string.
Variable reconnectStore : bool.
Variable sessionStore : option (string → option (string * Z)).
Variables nats history stateStore : bool.

Lemma unchanged_authorised room role r r' : evolve unchanged r r' → evolve (authorised room role) r r'.
Proof. apply evolve_weaken. intros n s s' ->. by left. Qed.

Lemma commandPiece_authorised pos c f role s s' dr n :
  commandPiece pos f role s = Ok (s', dr) → role ≠ NoColor → commandOf pos c →
  (f (engine_ s)).1 = exec (simultaneousMode_ s) (engine_ s) c →
  authorised (Some n) role n s s'.
Proof.
  intros Hc Hr Hpos Hf. unfold commandPiece in Hc.
  destruct (pieceAt _ _) as [sp|] eqn:Hsp; [|injection Hc as <- <-; by left].
  destruct (negb _) eqn:Hcol; [injection Hc as <- <-; by left|].
  apply result_bind_inv in Hc as ([s1 r] & Hrun & [= <- <-]).
  apply runEngine_inv in Hrun as (ps & He & _). right. split_and!; [done..|].
  exists pos, c, sp. apply negb_false_iff in Hcol. unfold colorEqb in Hcol. b2p.
  split_and!; try done. by rewrite He.
Qed.

Lemma dispatch_authorised m s role n : authorised (Some n) role n s (dispatch m s role).1.
Proof.
  unfold dispatch. destruct (dispatchTry m s role) as [[s' dr]|] eqn:Hd; [|by left]. simpl.
  unfold dispatchTry in Hd. destruct (msg_type m); try (injection Hd as <- <-; by left).
  - destruct (colorEqb role NoColor) eqn:Hr; [injection Hd as <- <-; by left|].
    apply result_bind_inv in Hd as (f & _ & Hd). apply result_bind_inv in Hd as (t & _ & Hd).
    eapply (commandPiece_authorised f (CMove f t)); try done. by apply colorEqb_false in Hr.
  - destruct (colorEqb role NoColor) eqn:Hr; [injection Hd as <- <-; by left|].
    apply result_bind_inv in Hd as (p & _ & Hd).
    eapply (commandPiece_authorised p (CJump p)); try done. by apply colorEqb_false in Hr.
Qed.

(** What the handlers do to the rooms. *)
Lemma handle_unchanged id h p (v : Server U) room role :
  evolve (authorised room role) (registry v) (registry (handle reconnectStore sessionStore nats id h p v).1.1).
Proof.
  assert (∀ r, evolve (authorised room role) r r) as Hrefl by (intros; apply evolve_refl; by left).
  destruct id; simpl.
  - unfold handleLogin. destruct (_ ≫= _) as [[u pw]|]; [|done].
    destruct (login u pw (users v)) as [us r]. simpl. by destruct (lr_success r).
  - unfold handleJoinRoom. destruct (jStr _ _) as [name|]; [|done]. destruct (negb _); [done|].
    apply unchanged_authorised, evolve_join.
  - unfold handleFindGame. destruct (negb nats); [done|]. destruct (sessionFor _ _); [|done].
    by destruct (addTicket _ _).
  - unfold handleEnterRoom. destruct (_ ≫= _) as [[t name]|]; [|done].
    destruct (default _ _ t) as [[u e]|]; [|done]. destruct (negb _); [done|]. simpl.
    match goal with |- context [cancelDisconnectCountdown _ ?n ?c ?u ?r] =>
      pose proof (evolve_cancel reconnectStore n c u r) as Hc;
      destruct (cancelDisconnectCountdown reconnectStore n c u r) as [[r' ok] out] end.
    simpl in *. eapply evolve_trans; [|apply evolve_join|exact Hc].
    intros m s1 s2 s3 -> [->|[_ ->]]; by left.
  - unfold handleAuth. destruct (jStr _ _) as [t|]; [|done]. by destruct (default _ _ t) as [[u e]|].
Qed.

(** C10 Nobody moves another's pieces: whatever text a connection sends, no room
    is created, and the engine of a room changes only by one move or jump, in
    the room of the connection, of a piece of the colour the connection plays
    there; a spectator changes nothing. *)
Theorem process_authorised h text (v : Server U) :
  evolve (authorised (roomOf h (registry v)) (roleOf h (registry v))) (registry v)
    (registry (process reconnectStore sessionStore nats h text v).1.1).
Proof.
  unfold process, processJson. destruct (MessageCodec.decode text) as [m|];
    [|simpl; apply evolve_refl; by left].
  set (v1 := match findHandler _ _ with Some _ => _ | None => _ end).
  assert (evolve (authorised (roomOf h (registry v)) (roleOf h (registry v))) (registry v) (registry v1.1.1)) as Hv.
  { unfold v1. destruct (findHandler _ _) as [id|]; [apply handle_unchanged|].
    unfold command. destruct (roomOf h (registry v)) as [n|] eqn:Hroom; [|apply evolve_refl; by left].
    destruct (Registry.room n (registry v)) as [s|] eqn:Hs; [|apply evolve_refl; by left].
    pose proof (dispatch_authorised m s (roleOf h (registry v)) n) as Ha.
    destruct (dispatch m s _) as [s' dr]. simpl in *. apply evolve_onRoom; [by left|].
    intros rm Hrm. unfold Registry.room in Hs. rewrite Hrm in Hs. injection Hs as <-. exact Ha. }
  destruct v1 as [[v2 out] [reply|what]]; [|done]. simpl in *.
  destruct (jContains "type" reply); [done|]. by destruct (_ ≫= _).
Qed.

(** ** Where broadcasts go *)

Lemma moveLogTopic_inj a b : moveLogTopic a = moveLogTopic b → a = b.
Proof. unfold moveLogTopic. intros Heq. by apply string_app_inj in Heq as [_ ?]. Qed.
Lemma captureTopic_inj a b : captureTopic a = captureTopic b → a = b.
Proof. unfold captureTopic. intros Heq. by apply string_app_inj in Heq as [_ ?]. Qed.
Lemma topics_disjoint a b : moveLogTopic a ≠ captureTopic b ∧ moveLogTopic a ≠ gameEndedTopic b ∧ captureTopic a ≠ gameEndedTopic b.
Proof. done. Qed.

(** A session only ever queues notifications of its own room, and sends
    snapshots to it. *)
Definition session_of (n : string) (s : GameSession) : Prop :=
  roomName_ s = n ∧ (snapshotSender_ s = None ∨ snapshotSender_ s = Some n) ∧
  ∀ p, p ∈ pending_ s → pp_topic p = moveLogTopic n ∨ pp_topic p = captureTopic n.

Definition bus_ok (b : EventBus) : Prop :=
  ∀ t id n, SubBroadcaster id n ∈ default [] (b !! t) → t = moveLogTopic n ∨ t = captureTopic n.

Definition server_ok (v : Server U) : Prop :=
  (∀ n rm, rooms_ (registry v) !! n = Some rm → session_of n (session rm)) ∧ bus_ok (bus v).

(** The steps of the event loop. *)
Inductive loop_step (v : Server U) : Server U → Prop :=
  | loop_message h text : loop_step v (process reconnectStore sessionStore nats h text v).1.1
  | loop_close h : loop_step v (onClose directory nats h v).1
  | loop_allocate req : loop_step v (doAllocate directory shardAddress req v).1.1
  | loop_begin n : loop_step v (beginTick n v).1
  | loop_worker ms n v' payload : workerStep ms n v = Some (Ok (v', payload)) → loop_step v v'
  | loop_finish n payload v' outs r :
      finishTick pow10 directory history stateStore n payload v = Some (v', outs, r) → loop_step v v'
  | loop_expire id : loop_step v (setRegistry (timerExpire id (registry v)) v)
  | loop_timer id v' outs r :
      timerStep pow10 reconnectStore history stateStore id v = Some (v', outs, r) → loop_step v v'
  | loop_assigned event : loop_step v (handleAssigned event v).1.1
  | loop_timeout event : loop_step v (handleTimeout event v).1.1.

Lemma subscribe_lookup t s b t' x :
  x ∈ default [] (subscribe t s b !! t') ↔ x ∈ default [] (b !! t') ∨ (t' = t ∧ x = s).
Proof.
  unfold subscribe. destruct (decide (t' = t)) as [->|Hne].
  - rewrite lookup_insert_eq. simpl. rewrite elem_of_app, list_elem_of_singleton. naive_solver.
  - rewrite lookup_insert_ne by done. naive_solver.
Qed.

Lemma bus_ok_subscribe t s b :
  (∀ id n, s = SubBroadcaster id n → t = moveLogTopic n ∨ t = captureTopic n) → bus_ok b → bus_ok (subscribe t s b).
Proof. intros Hs Hb t' id n [?|[-> Heq]]%subscribe_lookup; [by eapply Hb|by eapply Hs]. Qed.

Lemma session_of_evolve Q r r' :
  (∀ n rm, rooms_ r !! n = Some rm → session_of n (session rm)) →
  evolve Q r r' → (∀ n s s', session_of n s → Q n s s' → session_of n s') →
  ∀ n rm, rooms_ r' !! n = Some rm → session_of n (session rm).
Proof. intros Hr He HQ n rm Hn. destruct (He n rm Hn) as (rm0 & Hn0 & Hq). eauto. Qed.

Lemma session_of_runEngine {A} (f : GameEngine → GameEngine * A) n s s' a :
  session_of n s → runEngine f s = Ok (s', a) → session_of n s'.
Proof.
  intros (Hn & Hs & Hp) Hr. pose proof (runEngine_inv _ _ _ _ Hr) as (ps & _ & Hn' & Hps & Hq & _).
  assert (snapshotSender_ s' = snapshotSender_ s) as Hs'.
  { unfold runEngine in Hr. destruct (f (engine_ s)). by apply result_bind_inv in Hr as (? & _ & [= <- _]). }
  split_and!; [congruence|by rewrite Hs'|]. intros p. rewrite Hq, elem_of_app. intros [?|Hin]; [by apply Hp|].
  destruct (mapR_elem _ _ _ _ Hps Hin) as [x Hx]. subst n.
  unfold enqueue in Hx. destruct x;
    apply result_bind_inv in Hx as (? & _ & Hx); apply result_bind_inv in Hx as (? & _ & Hx);
    apply result_bind_inv in Hx as (? & _ & [= <-]); simpl; [by left|by right].
Qed.

Lemma session_of_publishStep n payload s : session_of n s → session_of n (publishStep payload s).1.1.
Proof.
  intros (Hn & Hs & Hp). unfold publishStep. destruct (negb _ && _).
  - unfold publishGameEnded. destruct (ResultCodec.encode _); simpl;
      (split_and!; [done|done|by intros p ?%elem_of_nil]).
  - simpl. split_and!; [done|done|by intros p ?%elem_of_nil].
Qed.

Lemma session_of_resign n c u e s : session_of n s → session_of n (markDisconnectResign c u e s).1.1.
Proof.
  intros Hs. unfold markDisconnectResign. destruct (_ || _); [done|].
  unfold publishGameEnded. by destruct (ResultCodec.encode _).
Qed.

Lemma session_of_dispatch n m s role : session_of n s → session_of n (dispatch m s role).1.
Proof.
  intros Hs. unfold dispatch. destruct (dispatchTry m s role) as [[s' dr]|] eqn:Hd; [|done]. simpl.
  assert (∀ pos f s' dr, commandPiece pos f role s = Ok (s', dr) → session_of n s') as Hc.
  { intros pos f s1 dr1 Hc. unfold commandPiece in Hc. destruct (pieceAt _ _); [|by injection Hc as <- _].
    destruct (negb _); [by injection Hc as <- _|].
    apply result_bind_inv in Hc as ([s2 r] & Hrun & [= <- _]). by eapply session_of_runEngine. }
  unfold dispatchTry in Hd. destruct (msg_type m); try (by injection Hd as <- _);
    (destruct (colorEqb role NoColor); [by injection Hd as <- _|]).
  - apply result_bind_inv in Hd as (f & _ & Hd). apply result_bind_inv in Hd as (t & _ & Hd). by eapply Hc.
  - apply result_bind_inv in Hd as (p & _ & Hd). by eapply Hc.
Qed.

(** What subscribers do to the server: they only write the users table. *)
Lemma runSubscriber_frame s data (v v' : Server U) out r :
  runSubscriber pow10 history stateStore s data v = Some (v', out, r) →
  registry v' = registry v ∧ bus v' = bus v ∧ clients v' = clients v.
Proof.
  destruct s; simpl.
  - case_decide; [|done]. by intros [= <- _ _].
  - unfold onGameEndedElo. destruct (ResultCodec.decode data); [|by intros [= <- _ _]].
    destruct (_ || _); [by intros [= <- _ _]|]. by intros [= <- _ _].
  - unfold onGameEndedHistory. destruct (negb history); [by intros [= <- _ _]|].
    destruct (ResultCodec.decode data); [|by intros [= <- _ _]].
    destruct (_ || _); by intros [= <- _ _].
  - unfold mirror. destruct (negb stateStore); [by intros [= <- _ _]|].
    destruct (Registry.room _ _); [|by intros [= <- _ _]].
    destruct (SnapshotCodec.encode _); by intros [= <- _ _].
  - by intros [= <- _ _].
Qed.

Lemma runAll_frame {A} (act : A → Server U → option (Done unit)) (P : ServerOut → Prop) l v v' out r :
  (∀ x v1 v2 o q, x ∈ l → registry v1 = registry v → bus v1 = bus v → act x v1 = Some (v2, o, q) →
     registry v2 = registry v ∧ bus v2 = bus v ∧ ∀ y, y ∈ o → P y) →
  runAll act l v = Some (v', out, r) → registry v' = registry v ∧ bus v' = bus v ∧ ∀ y, y ∈ out → P y.
Proof.
  intros Hact. assert (∀ l' v1, (∀ x, x ∈ l' → x ∈ l) → registry v1 = registry v → bus v1 = bus v →
    ∀ v' out r, runAll act l' v1 = Some (v', out, r) →
    registry v' = registry v ∧ bus v' = bus v ∧ ∀ y, y ∈ out → P y) as Hgen.
  { induction l' as [|x l' IH]; intros v1 Hsub Hr Hb v2 out2 r2; simpl.
    - intros [= <- <- <-]. split_and!; [done..|by intros y ?%elem_of_nil].
    - destruct (act x v1) as [[[v3 o3] [u|what]]|] eqn:Hx; [| |done]; simpl.
      + destruct (Hact x v1 v3 o3 (Ok u) (Hsub x ltac:(by left)) Hr Hb Hx) as (Hr3 & Hb3 & Ho3).
        destruct (runAll act l' v3) as [[[v4 o4] r4]|] eqn:Hl; [|done]. simpl. intros [= <- <- <-].
        destruct (IH v3 ltac:(intros; apply Hsub; by right) Hr3 Hb3 _ _ _ Hl) as (? & ? & Ho4).
        split_and!; [done..|]. intros y [?|?]%elem_of_app; auto.
      + intros [= <- <- <-]. by apply (Hact x v1 v3 o3 (Throw what)); [apply Hsub; left|..]. }
  by apply Hgen.
Qed.

Definition pushesInto (n : string) (r : SessionRegistry) (o : ServerOut) : Prop :=
  ∀ h text, o = Push h text → h ∈ connectionsInRoom n r.

Lemma sendToRoom_pushes n text (v : Server U) y : y ∈ sendToRoom n text v → pushesInto n (registry v) y.
Proof. unfold sendToRoom. intros (h & -> & Hh)%list_elem_of_fmap h' text' [= <- _]. done. Qed.

(** Publishing on a topic that belongs to room [n] only reaches room [n]. *)
Lemma publish_pushes n t data (v v' : Server U) out r :
  bus_ok (bus v) → (∀ m, t = moveLogTopic m ∨ t = captureTopic m → m = n) →
  publish pow10 history stateStore t data v = Some (v', out, r) →
  registry v' = registry v ∧ bus v' = bus v ∧ ∀ y, y ∈ out → pushesInto n (registry v) y.
Proof.
  intros Hb Ht. apply runAll_frame. intros s v1 v2 o q Hs Hr1 Hb1 Hrun.
  destruct (runSubscriber_frame _ _ _ _ _ _ Hrun) as (Hr2 & Hb2 & _). split_and!; [congruence..|].
  intros y Hy. destruct s as [id m| |m|m|m]; simpl in Hrun.
  - case_decide; [|done]. injection Hrun as <- <- <-. rewrite <-Hr1. rewrite <-(Ht m) by (by apply (Hb t id)).
    by eapply sendToRoom_pushes.
  - unfold onGameEndedElo in Hrun. destruct (ResultCodec.decode data); [|by injection Hrun as <- <- <-; set_solver].
    destruct (_ || _); injection Hrun as <- <- <-; set_solver.
  - unfold onGameEndedHistory in Hrun. destruct (negb history); [by injection Hrun as <- <- <-; set_solver|].
    destruct (ResultCodec.decode data); [|by injection Hrun as <- <- <-; set_solver].
    destruct (_ || _); injection Hrun as <- <- <-; [set_solver|].
    apply list_elem_of_singleton in Hy as ->. by intros h text.
  - unfold mirror in Hrun. destruct (negb stateStore); [by injection Hrun as <- <- <-; set_solver|].
    destruct (Registry.room _ _); [|by injection Hrun as <- <- <-; set_solver].
    destruct (SnapshotCodec.encode _); injection Hrun as <- <- <-; [|set_solver].
    apply list_elem_of_singleton in Hy as ->. by intros h text.
  - injection Hrun as <- <- <-. destruct stateStore; [|set_solver].
    apply list_elem_of_singleton in Hy as ->. by intros h text.
Qed.

(** An output of a session of room [n] only reaches room [n]. *)
Lemma runSessionOut_pushes n o (v v' : Server U) out r :
  bus_ok (bus v) →
  match o with Publish t _ => ∀ m, t = moveLogTopic m ∨ t = captureTopic m → m = n | SendSnapshot m _ => m = n end →
  runSessionOut pow10 history stateStore o v = Some (v', out, r) →
  registry v' = registry v ∧ bus v' = bus v ∧ ∀ y, y ∈ out → pushesInto n (registry v) y.
Proof.
  intros Hb Ho. destruct o as [t d|m text]; simpl; [by apply publish_pushes|].
  subst m. intros [= <- <- <-]. split_and!; [done..|]. intros y. apply sendToRoom_pushes.
Qed.

Lemma connectionsInRoom_onRoom n m f r :
  connectionsInRoom n (onRoom m (withSession f) r) = connectionsInRoom n r.
Proof.
  unfold connectionsInRoom, onRoom; simpl. destruct (decide (n = m)) as [->|Hne].
  - rewrite lookup_alter_eq. by destruct (rooms_ r !! m).
  - by rewrite lookup_alter_ne.
Qed.

Lemma publishStep_outs n payload s o :
  session_of n s → o ∈ (publishStep payload s).1.2 →
  match o with Publish t _ => ∀ m, t = moveLogTopic m ∨ t = captureTopic m → m = n | SendSnapshot m _ => m = n end.
Proof.
  intros (Hn & Hs & Hp). unfold publishStep.
  set (pub := map _ (pending_ s)). set (sent := match snapshotSender_ _ with Some _ => _ | None => _ end).
  assert (o ∈ pub ++ sent → match o with
    | Publish t _ => ∀ m, t = moveLogTopic m ∨ t = captureTopic m → m = n | SendSnapshot m _ => m = n end) as Hps.
  { rewrite elem_of_app. unfold pub, sent. intros [(p & -> & Hin)%list_elem_of_fmap|Hin].
    - intros m Hm. destruct (Hp p Hin) as [He|He], Hm as [Hm|Hm]; rewrite He in Hm.
      + by apply moveLogTopic_inj in Hm.
      + done.
      + symmetry in Hm. by apply topics_disjoint in Hm.
      + by apply captureTopic_inj in Hm.
    - simpl in Hin. destruct Hs as [Hs|Hs]; rewrite Hs in Hin; [by apply elem_of_nil in Hin|].
      by apply list_elem_of_singleton in Hin as ->. }
  destruct (negb _ && _); [|exact Hps].
  unfold publishGameEnded. destruct (ResultCodec.encode _) as [data|]; simpl; rewrite app_assoc.
  - intros [?|Ho]%elem_of_app; [by apply Hps|]. apply list_elem_of_singleton in Ho as ->.
    intros m [Hm|Hm]; symmetry in Hm; by apply topics_disjoint in Hm.
  - rewrite app_nil_r. exact Hps.
Qed.

Lemma finishTick_pushes n payload (v v' : Server U) outs r :
  server_ok v → finishTick pow10 directory history stateStore n payload v = Some (v', outs, r) →
  server_ok v' ∧ ∀ y, y ∈ outs → pushesInto n (registry v) y.
Proof.
  intros [Hses Hbus]. unfold finishTick. destruct (Registry.room n (registry v)) as [s|] eqn:Hroom; [|done]. simpl.
  assert (session_of n s) as Hs.
  { unfold Registry.room in Hroom. destruct (rooms_ (registry v) !! n) as [rm|] eqn:Hn; [|done].
    injection Hroom as <-. by apply Hses. }
  pose proof (session_of_publishStep n payload s Hs) as Hs'.
  pose proof (publishStep_outs n payload s) as Houts.
  destruct (publishStep payload s) as [[s' souts] exn]. simpl in *.
  set (v1 := setRegistry (onRoom n (withSession (λ _, s')) (registry v)) v).
  assert (server_ok v1) as [Hses1 Hbus1].
  { split; [|done]. eapply session_of_evolve; [exact Hses|apply evolve_onSession|].
    intros m x y Hx [->|[-> ->]]; [done|exact Hs']. }
  destruct (runAll _ souts v1) as [[[v2 o2] r2]|] eqn:Hrun; [|done]. simpl.
  assert (registry v2 = registry v1 ∧ bus v2 = bus v1 ∧ ∀ y, y ∈ o2 → pushesInto n (registry v1) y)
    as (Hr2 & Hb2 & Ho2).
  { eapply runAll_frame; [|exact Hrun]. intros x w1 w2 o q Hin Hr Hb Hx.
    destruct (runSessionOut_pushes n x w1 w2 o q) as (Hr' & Hb' & Ho'); [by rewrite Hb|by apply Houts|done|].
    rewrite Hr', Hb', Hr, Hb in *. done. }
  assert (∀ y, y ∈ o2 → pushesInto n (registry v) y) as Hpush.
  { intros y Hy h t Heq. specialize (Ho2 y Hy h t Heq). unfold v1 in Ho2; simpl in Ho2.
    by rewrite connectionsInRoom_onRoom in Ho2. }
  assert (server_ok v2) as Hok2 by (split; [by rewrite Hr2|by rewrite Hb2]).
  destruct r2 as [u|what]; [destruct exn as [what|]|].
  - intros [= <- <- <-]. by split.
  - destruct (reapIfSafe directory n _) as [r3 store] eqn:Hreap. intros [= <- <- <-]. split.
    + split; [|apply Hok2]. simpl.
      eapply (session_of_evolve (λ _ x y, y = x ∨ y = endTick x)); [exact (proj1 Hok2)| |].
      * pose proof (evolve_reap directory n (onRoom n (withSession endTick) (registry v2))) as He. rewrite Hreap in He.
        eapply evolve_trans; [|apply evolve_onSession|exact He].
        intros m s1 s2 s3 [->|[_ ->]] ->; [by left|by right].
      * intros m x y Hx [->| ->]; done.
    + intros y [?|(o & -> & _)%list_elem_of_fmap]%elem_of_app; [by apply Hpush|]. by intros h t.
  - intros [= <- <- <-]. by split.
Qed.

(** *** Every step keeps rooms and bus apart *)

Lemma server_ok_registry Q (v v' : Server U) :
  server_ok v → bus v' = bus v → evolve Q (registry v) (registry v') →
  (∀ n s s', session_of n s → Q n s s' → session_of n s') → server_ok v'.
Proof. intros [Hs Hb] Hbus He HQ. split; [by eapply session_of_evolve|by rewrite Hbus]. Qed.

Lemma server_ok_same (v v' : Server U) :
  server_ok v → bus v' = bus v → evolve unchanged (registry v) (registry v') → server_ok v'.
Proof. intros Hok Hb He. eapply server_ok_registry; [done..|]. by intros n s s' ? ->. Qed.

Lemma handle_bus id h p (v : Server U) : bus (handle reconnectStore sessionStore nats id h p v).1.1 = bus v.
Proof.
  destruct id; simpl.
  - unfold handleLogin. destruct (_ ≫= _) as [[u pw]|]; [|done].
    destruct (login u pw (users v)) as [us r]. simpl. by destruct (lr_success r).
  - unfold handleJoinRoom. destruct (jStr _ _); [|done]. by destruct (negb _).
  - unfold handleFindGame. destruct (negb nats); [done|]. destruct (sessionFor _ _); [|done]. by destruct (addTicket _ _).
  - unfold handleEnterRoom. destruct (_ ≫= _) as [[t name]|]; [|done].
    destruct (default _ _ t) as [[u e]|]; [|done]. destruct (negb _); [done|]. simpl.
    by destruct (cancelDisconnectCountdown _ _ _ _ _) as [[r' ok] out].
  - unfold handleAuth. destruct (jStr _ _) as [t|]; [|done]. by destruct (default _ _ t) as [[u e]|].
Qed.

(** The registry part of [handle]: joins and a cancelled countdown. *)
Lemma handle_evolve id h p (v : Server U) :
  evolve (λ _ s s', s' = s ∨ s' = setDisconnectStatus noDisconnect s) (registry v)
    (registry (handle reconnectStore sessionStore nats id h p v).1.1).
Proof.
  assert (∀ r, evolve (λ _ s s', s' = s ∨ s' = setDisconnectStatus noDisconnect s) r r) as Hrefl
    by (intros; apply evolve_refl; by left).
  destruct id; simpl.
  - unfold handleLogin. destruct (_ ≫= _) as [[u pw]|]; [|done].
    destruct (login u pw (users v)) as [us r]. simpl. by destruct (lr_success r).
  - unfold handleJoinRoom. destruct (jStr _ _); [|done]. destruct (negb _); [done|].
    eapply evolve_weaken; [|apply evolve_join]. intros n s s' ->. by left.
  - unfold handleFindGame. destruct (negb nats); [done|]. destruct (sessionFor _ _); [|done]. by destruct (addTicket _ _).
  - unfold handleEnterRoom. destruct (_ ≫= _) as [[t name]|]; [|done].
    destruct (default _ _ t) as [[u e]|]; [|done]. destruct (negb _); [done|]. simpl.
    match goal with |- context [cancelDisconnectCountdown _ ?n ?c ?u ?r] =>
      pose proof (evolve_cancel reconnectStore n c u r) as Hc;
      destruct (cancelDisconnectCountdown reconnectStore n c u r) as [[r' ok] out] end.
    simpl in *. eapply evolve_trans; [|apply evolve_join|exact Hc].
    intros m s1 s2 s3 -> [->|[_ ->]]; [by left|by right].
  - unfold handleAuth. destruct (jStr _ _) as [t|]; [|done]. by destruct (default _ _ t) as [[u e]|].
Qed.

Lemma server_ok_process h text (v : Server U) :
  server_ok v → server_ok (process reconnectStore sessionStore nats h text v).1.1.
Proof.
  intros Hok. unfold process, processJson. destruct (MessageCodec.decode text) as [m|]; [|done].
  set (v1 := match findHandler _ _ with Some _ => _ | None => _ end).
  assert (server_ok v1.1.1) as Hv.
  { unfold v1. destruct (findHandler _ _) as [id|].
    - eapply server_ok_registry; [exact Hok|apply handle_bus|apply handle_evolve|].
      by intros n s s' ? [->| ->].
    - unfold command. destruct (roomOf h (registry v)) as [n|]; [|done].
      destruct (Registry.room n (registry v)) as [s|] eqn:Hs; [|done].
      pose proof (session_of_dispatch n m s (roleOf h (registry v))) as Hd.
      destruct (dispatch m s _) as [s' dr]. simpl in *.
      eapply (server_ok_registry (λ n' _ x, session_of n' x)); [exact Hok|done| |by intros].
      intros n' rm Hn'. unfold onRoom in Hn'; simpl in Hn'. destruct (decide (n' = n)) as [->|Hne].
      + rewrite lookup_alter_eq in Hn'. unfold Registry.room in Hs.
        destruct (rooms_ (registry v) !! n) as [rm0|] eqn:E; [|done]. injection Hn' as <-. injection Hs as <-.
        exists rm0. split; [done|]. apply Hd. by apply (proj1 Hok).
      + rewrite lookup_alter_ne in Hn' by done. exists rm. split; [done|]. by apply (proj1 Hok). }
  destruct v1 as [[v2 out] [reply|what]]; [|done]. simpl in *.
  destruct (jContains "type" reply); [done|]. by destruct (_ ≫= _).
Qed.

Lemma server_ok_attach n (v : Server U) : server_ok v → server_ok (attach n v).
Proof.
  intros [Hs Hb]. split.
  - change (registry (attach n v)) with (onRoom n (withSession (setSnapshotSender n)) (registry v)).
    eapply session_of_evolve; [exact Hs|apply evolve_onSession|].
    intros m x y Hx [->|[-> ->]]; [done|]. destruct Hx as (Hn & _ & Hp). split_and!; [done|by right|done].
  - simpl. repeat (apply bus_ok_subscribe; [intros ? ? ?; try done; simplify_eq; auto|]). done.
Qed.

Lemma server_ok_allocate req (v : Server U) :
  server_ok v → server_ok (doAllocate directory shardAddress req v).1.1.
Proof.
  intros Hok. unfold doAllocate. destruct (_ ≫= _) as [[[name w] b]|]; [|done].
  destruct (makeStartingBoard (idCounter v)) as [[bd ids]|]; [|done].
  destruct (createRoom directory shardAddress name bd true (registry v)) as [[r created] out] eqn:Hc.
  unfold createRoom in Hc. destruct (rooms_ (registry v) !! name) as [rm|] eqn:Hn; injection Hc as <- <- <-.
  { simpl. by destruct Hok. }
  cbn [negb]. set (v1 := mkServer _ _ _ _ _ _ _ _).
  assert (server_ok v1) as Hok1.
  { split; [|apply Hok]. intros m rm. simpl. intros [[<- <-]|[_ Hm]]%lookup_insert_Some; [|by apply (proj1 Hok)].
    split_and!; [done|by left|by intros p ?%elem_of_nil]. }
  apply (server_ok_attach name) in Hok1. destruct (_ && _); [|done].
  eapply server_ok_same; [exact Hok1|done|apply evolve_reserve].
Qed.

Lemma server_ok_close h (v : Server U) : server_ok v → server_ok (onClose directory nats h v).1.
Proof.
  intros Hok. unfold onClose. pose proof (evolve_leave directory h (registry v)) as Hl.
  destruct (leave directory h (registry v)) as [[r role] store].
  destruct (match sessionFor h (clients v) with Some _ => _ | None => _ end) as [u e].
  destruct (cancelTicket h (tickets v)) as [t cancelled]. simpl in *.
  eapply server_ok_same; [exact Hok|done|]. simpl. destruct (_ && _); [|done].
  eapply evolve_trans; [|exact Hl|apply evolve_start]. by intros m s1 s2 s3 -> ->.
Qed.

Lemma server_ok_begin n (v : Server U) : server_ok v → server_ok (beginTick n v).1.
Proof.
  intros Hok. unfold beginTick. destruct (rooms_ (registry v) !! n) as [rm|] eqn:Hn; [|done].
  set (s0 := setIdentity _ _). assert (session_of n (tryBeginTick s0).1) as Hs.
  { pose proof (proj1 Hok n rm Hn) as Hs. unfold tryBeginTick. by destruct (tickInFlight_ s0). }
  destruct (tryBeginTick s0) as [s begun]. simpl in *.
  eapply server_ok_registry; [exact Hok|done|apply evolve_onSession|].
  intros m x y Hx [->|[-> ->]]; [done|exact Hs].
Qed.

Lemma server_ok_worker ms n (v v' : Server U) payload :
  server_ok v → workerStep ms n v = Some (Ok (v', payload)) → server_ok v'.
Proof.
  intros Hok. unfold workerStep. destruct (Registry.room n (registry v)) as [s|] eqn:Hs; [|done]. simpl.
  intros [= Hw]. apply result_bind_inv in Hw as ([s' p] & Hc & [= <- <-]).
  apply computeStep_inv in Hc as [Hr _].
  eapply server_ok_registry; [exact Hok|done|apply evolve_onSession|].
  intros m x y Hx [->|[-> ->]]; [done|]. eapply session_of_runEngine; [|exact Hr].
  unfold Registry.room in Hs. destruct (rooms_ (registry v) !! n) as [rm|] eqn:Hn; [|done].
  injection Hs as <-. by apply (proj1 Hok).
Qed.

Lemma server_ok_tickets (v v' : Server U) :
  server_ok v → registry v' = registry v → bus v' = bus v → server_ok v'.
Proof. intros [Hs Hb] Hr Hbus. split; [by rewrite Hr|by rewrite Hbus]. Qed.

Lemma assignSide_frame event side (v : Server U) :
  registry (assignSide event side v).1.1 = registry v ∧ bus (assignSide event side v).1.1 = bus v.
Proof.
  unfold assignSide. destruct (jStr _ _); [|done]. destruct (resolveTicket _ _) as [t [h|]]; [|done].
  by destruct (_ ≫= _).
Qed.

Lemma server_ok_assigned event (v : Server U) : server_ok v → server_ok (handleAssigned event v).1.1.
Proof.
  intros Hok. unfold handleAssigned. pose proof (assignSide_frame event "A" v) as [Hr Hb].
  destruct (assignSide event "A" v) as [[v1 o1] [u|what]]; simpl in *; [|by eapply server_ok_tickets].
  pose proof (assignSide_frame event "B" v1) as [Hr2 Hb2].
  destruct (assignSide event "B" v1) as [[v2 o2] r2]. simpl in *. eapply server_ok_tickets; [done|congruence..].
Qed.

Lemma server_ok_timeout event (v : Server U) : server_ok v → server_ok (handleTimeout event v).1.1.
Proof.
  intros Hok. unfold handleTimeout. destruct (jStr _ _); [|done]. destruct (resolveTicket _ _) as [t [h|]];
    [|by eapply server_ok_tickets]. destruct (MessageCodec.encode _); by eapply server_ok_tickets.
Qed.

Lemma server_ok_timer id (v v' : Server U) outs r :
  server_ok v → timerStep pow10 reconnectStore history stateStore id v = Some (v', outs, r) → server_ok v'.
Proof.
  intros Hok. unfold timerStep. destruct (timerFire reconnectStore id (registry v)) as [[rg out0] exn] eqn:Hf.
  assert (server_ok (setRegistry rg v)) as Hok1.
  { eapply (server_ok_registry (λ n s s', session_of n s → session_of n s')); [exact Hok|done| |auto].
    unfold timerFire in Hf. destruct (timers (registry v) !! id) as [c|]; [|injection Hf as <- _ _; by apply evolve_refl].
    destruct (queued c); [|injection Hf as <- _ _; by apply evolve_refl].
    simpl in Hf. destruct (rooms_ (registry v) !! cd_room c) as [rm|] eqn:Hn;
      [|injection Hf as <- _ _; intros m x Hx; by exists x].
    destruct (remaining c <=? 0).
    - pose proof (session_of_resign (cd_room c) (cd_color c) (cd_username c) (cd_elo c)
        (session (withSession (setDisconnectStatus (mkDisconnect true (cd_color c) (remaining c))) rm))) as Hres.
      simpl in *. destruct (markDisconnectResign _ _ _ _) as [[s o] x]. injection Hf as <- _ _.
      unfold setRooms, setTimers; simpl. rewrite insert_insert_eq. by eapply evolve_insert.
    - injection Hf as <- _ _. unfold setRooms, setTimers; simpl. by eapply evolve_insert. }
  destruct (runAll _ out0 _) as [[[v2 o2] r2]|] eqn:Hrun; [|done]. simpl.
  assert (registry v2 = rg ∧ bus v2 = bus v ∧ ∀ y, y ∈ o2 → True) as (Hr2 & Hb2 & _).
  { change rg with (registry (setRegistry rg v)). change (bus v) with (bus (setRegistry rg v)).
    eapply (runAll_frame _ (λ _, True)); [|exact Hrun]. intros o v1 v3 o3 q Ho Hr1 Hb1 Hrun1.
    destruct o as [| | | |[t d|m text]]; simpl in Hrun1; try (by injection Hrun1 as <- _ _).
    assert (registry v3 = registry v1 ∧ bus v3 = bus v1 ∧ ∀ y, y ∈ o3 → True) as (? & ? & _);
      [|split_and!; congruence || done].
    eapply (runAll_frame _ (λ _, True)); [|exact Hrun1]. intros s w1 w2 o4 q4 _ Hw1 Hw2 Hsub.
    destruct (runSubscriber_frame _ _ _ _ _ _ Hsub) as (? & ? & _). split_and!; congruence || done. }
  assert (server_ok v2) by (eapply server_ok_tickets; [exact Hok1|done..]).
  destruct r2, exn; by intros [= <- _ _].
Qed.

Lemma server_ok_reachable (u : U) (v : Server U) :
  rtc loop_step (newServer shardAddress u) v → server_ok v.
Proof.
  assert (∀ v1 v2, rtc loop_step v1 v2 → server_ok v1 → server_ok v2) as Hgen.
  { induction 1 as [|v1 v2 v3 Hstep _ IH]; [done|]. intros Hok. apply IH.
    destruct Hstep; [by apply server_ok_process|by apply server_ok_close|by apply server_ok_allocate|
      by apply server_ok_begin|by eapply server_ok_worker|by eapply finishTick_pushes|exact Hok|by eapply server_ok_timer|
      by apply server_ok_assigned|by apply server_ok_timeout]. }
  intros Hr. apply (Hgen _ _ Hr). split; [intros n rm; simpl; by rewrite lookup_empty|].
  intros t id n. simpl. rewrite lookup_empty. by intros ?%elem_of_nil.
Qed.

(** C28 One room's game never leaks into another: in every state the event loop
    can reach, whatever the delivery step of a room sends — snapshots, moves,
    captures, with the subscribers of all rooms on one bus — goes to
    connections of that room only. *)
Theorem broadcasts_stay_in_room (u : U) (v : Server U) n payload v' outs r h text :
  rtc loop_step (newServer shardAddress u) v →
  finishTick pow10 directory history stateStore n payload v = Some (v', outs, r) →
  Push h text ∈ outs → h ∈ connectionsInRoom n (registry v).
Proof.
  intros Hr Hf Hin. apply server_ok_reachable in Hr.
  destruct (finishTick_pushes _ _ _ _ _ _ Hr Hf) as [_ Hp]. by eapply Hp.
Qed.

(** ** Unreadable texts *)

(** C40 A text that is not JSON changes nothing and is answered with a failure
    that quotes the parser's message — unless that message is not UTF-8, as
    when it quotes half of a multi-byte character: then writing the reply
    throws outside the [try], into the event loop. *)
Theorem process_unreadable h text (v : Server U) what :
  parse text = Throw what →
  process reconnectStore sessionStore nats h text v =
    (v, [], if utf8 ("decode failed: " +:+ what)
            then Ok (dump (jObj [("success", JBool false); ("message", JString ("decode failed: " +:+ what))]))
            else Throw "[json.exception.type_error.316] invalid UTF-8 byte").
Proof.
  intros Hp. unfold process, processJson, MessageCodec.decode. rewrite Hp. cbn [mbind result_bind].
  unfold dumpR. set (m := "decode failed: " +:+ what).
  change (jObj [("success", JBool false); ("message", JString m)]) with
    (JObject [("message", JString m); ("success", JBool false)]).
  simpl. rewrite (utf8_ascii7 "message"), (utf8_ascii7 "success") by done. simpl. by rewrite andb_true_r.
Qed.
End Shard.
