(* ===== verification/WsGateway.v ===== *)
(** * The WebSocket gateway ([gateway/WsGateway], [shared/discovery/ShardRegistry])

    A link joins a client's connection with the connection the gateway opened to
    a shard for it.  Both maps of the gateway hold the same shared [Link], so the
    links are a store and the maps hold its keys.  The sockets are outputs; that
    [get_connection] gives a new handle or fails is an argument of the handler. *)
From S2P Require Import Prelude Text Double Json.
#[local] Open Scope Z_scope.

(** ** [ShardRegistry.cpp]: the time is in milliseconds *)
Definition staleAfterSeconds : Z := 15.

Definition onShardHeartbeat (now : Z) (event : json) (lastSeen : gmap string Z) : gmap string Z :=
  match jStr "shard" event with Ok shard => <[shard := now]> lastSeen | Throw _ => lastSeen end.

(** [duration_cast<seconds>] truncates. *)
Definition isStale (now seen : Z) : bool := staleAfterSeconds <? Z.quot (now - seen) 1000.

(** The registry afterwards and the answer, in the order of the hash map. *)
Definition liveShards (now : Z) (lastSeen : gmap string Z) : gmap string Z * list string :=
  let live := filter (λ kv, isStale now kv.2 = false) lastSeen in
  (live, (map_to_list live).*1).

(** The shards [liveShards] answers are those whose last heartbeat is less than
    sixteen seconds old. *)
Lemma liveShards_spec now lastSeen s :
  s ∈ (liveShards now lastSeen).2 ↔ ∃ seen, lastSeen !! s = Some seen ∧ now - seen < 16000.
Proof.
  unfold liveShards. cbn [snd]. rewrite list_elem_of_fmap. unfold isStale, staleAfterSeconds. split.
  - intros ([k seen] & -> & Hin%elem_of_map_to_list). apply map_lookup_filter_Some in Hin as [Hk Hs].
    exists seen. split; [done|]. simpl in Hs. b2p.
    assert (Z.quot (now - seen) 1000 < 16) as Hq by lia. clear Hs.
    destruct (Z.le_gt_cases 16000 (now - seen)) as [Hle|]; [|lia].
    assert (Z.quot 16000 1000 ≤ Z.quot (now - seen) 1000) by (apply Z.quot_le_mono; lia). change (Z.quot 16000 1000) with 16 in *. lia.
  - intros (seen & Hk & Hlt). exists (s, seen). split; [done|]. apply elem_of_map_to_list, map_lookup_filter_Some.
    split; [done|]. simpl. apply Z.ltb_ge.
    assert (Z.quot (now - seen) 1000 ≤ Z.quot 15999 1000) by (apply Z.quot_le_mono; lia).
    by change (Z.quot 15999 1000) with 15 in *.
Qed.

(** ** [PrometheusText.h]; the values are counts *)
Definition metric (type name help : string) (value : Z) : string :=
  "# HELP " +:+ name +:+ " " +:+ help +:+ endl +:+ "# TYPE " +:+ name +:+ " " +:+ type +:+ endl +:+
  name +:+ " " +:+ showInt value +:+ ".000000" +:+ endl.
Definition gaugeMetric : string → string → Z → string := metric "gauge".
Definition counterMetric : string → string → Z → string := metric "counter".

(** ** The gateway *)
Notation handle := Z (only parsing).
Inductive Opcode := OpText | OpBinary.

Record Link := mkLink {
  downstreamHdl : handle;
  upstreamHdl : handle;
  upstreamOpen : bool;
  linkPending : list string
}.

Record WsGateway := mkGateway {
  links : gmap positive Link;
  nextLink : positive;
  byDownstream : gmap handle positive;
  byUpstream : gmap handle positive;
  roundRobinNext : Z
}.

Definition newGateway : WsGateway := mkGateway ∅ 1 ∅ ∅ 0.

Inductive GwOut :=
  | UpConnect (h : handle) (uri : string)
  | UpSend (h : handle) (text : string) (op : Opcode)
  | DownSend (h : handle) (text : string) (op : Opcode)
  | UpClose (h : handle)
  | DownClose (h : handle) (why : string)
  | HttpText (h : handle) (text : string).

Definition setLinks (ls : gmap positive Link) (g : WsGateway) : WsGateway :=
  mkGateway ls (nextLink g) (byDownstream g) (byUpstream g) (roundRobinNext g).

(** [++roundRobinNext] on a [size_t]. *)
Definition SIZE_MOD : Z := 18446744073709551616.

(** The shard a client is sent to: the hinted one while it is live, else the next. *)
Definition chooseShard (hint : option string) (live : list string) (next : Z) : string * Z :=
  let hinted := match hint with
                | Some s => negb (String.eqb s "") && bool_decide (s ∈ live)
                | None => false end in
  if hinted then (default "" hint, next)
  else (default "" (live !! Z.to_nat (next mod Z.of_nat (length live))), (next + 1) mod SIZE_MOD).

Definition downOpen (h : handle) (hint : option string) (live : list string) (con : string → option handle)
    (g : WsGateway) : WsGateway * list GwOut :=
  match live with
  | [] => (g, [DownClose h "no shard available"])
  | _ =>
    let '(uri, next) := chooseShard hint live (roundRobinNext g) in
    match con uri with
    | None => (mkGateway (links g) (nextLink g) (byDownstream g) (byUpstream g) next, [DownClose h "upstream unavailable"])
    | Some u =>
      let p := nextLink g in
      (mkGateway (<[p := mkLink h u false []]> (links g)) (Pos.succ p)
         (<[h := p]> (byDownstream g)) (<[u := p]> (byUpstream g)) next, [UpConnect u uri])
    end
  end.

(** The link behind a handle. *)
Definition linkOf (m : gmap handle positive) (h : handle) (g : WsGateway) : option (positive * Link) :=
  p ← m !! h; l ← links g !! p; Some (p, l).

Definition downMessage (h : handle) (text : string) (op : Opcode) (g : WsGateway) : WsGateway * list GwOut :=
  match linkOf (byDownstream g) h g with
  | None => (g, [])
  | Some (p, l) =>
    if upstreamOpen l then (g, [UpSend (upstreamHdl l) text op])
    else (setLinks (<[p := mkLink (downstreamHdl l) (upstreamHdl l) false (linkPending l ++ [text])]> (links g)) g, [])
  end.

Definition eraseHandles (h u : handle) (g : WsGateway) : WsGateway :=
  mkGateway (links g) (nextLink g) (delete h (byDownstream g)) (delete u (byUpstream g)) (roundRobinNext g).

Definition downClose (h : handle) (g : WsGateway) : WsGateway * list GwOut :=
  match linkOf (byDownstream g) h g with
  | None => (g, [])
  | Some (p, l) => (eraseHandles h (upstreamHdl l) g, [UpClose (upstreamHdl l)])
  end.

(** The queued texts are sent in order, always as text frames. *)
Definition upOpen (u : handle) (g : WsGateway) : WsGateway * list GwOut :=
  match linkOf (byUpstream g) u g with
  | None => (g, [])
  | Some (p, l) =>
    (setLinks (<[p := mkLink (downstreamHdl l) (upstreamHdl l) true []]> (links g)) g,
     map (λ t, UpSend u t OpText) (linkPending l))
  end.

Definition upMessage (u : handle) (text : string) (op : Opcode) (g : WsGateway) : WsGateway * list GwOut :=
  match linkOf (byUpstream g) u g with
  | None => (g, [])
  | Some (_, l) => (g, [DownSend (downstreamHdl l) text op])
  end.

(** [onUpstreamGone]: the close and the fail handler. *)
Definition upGone (u : handle) (g : WsGateway) : WsGateway * list GwOut :=
  match linkOf (byUpstream g) u g with
  | None => (g, [])
  | Some (_, l) => (eraseHandles (downstreamHdl l) u g, [DownClose (downstreamHdl l) "upstream lost"])
  end.

(** The plain HTTP handler. *)
Definition gwHttp (h : handle) (uri : string) (g : WsGateway) : WsGateway * list GwOut :=
  (g, [HttpText h (if String.eqb uri "/metrics"
    then gaugeMetric "active_links" "Client<->shard links currently proxied by this gateway" (Z.of_nat (size (byDownstream g)))
    else "OK")]).

Inductive GwEvent :=
  | EDownOpen (h : handle) (hint : option string) (live : list string) (con : string → option handle)
  | EDownMessage (h : handle) (text : string) (op : Opcode)
  | EDownClose (h : handle)
  | EUpOpen (u : handle)
  | EUpMessage (u : handle) (text : string) (op : Opcode)
  | EUpGone (u : handle)
  | EHttp (h : handle) (uri : string).

Definition gwStep (e : GwEvent) (g : WsGateway) : WsGateway * list GwOut :=
  match e with
  | EDownOpen h hint live con => downOpen h hint live con g
  | EDownMessage h text op => downMessage h text op g
  | EDownClose h => downClose h g
  | EUpOpen u => upOpen u g
  | EUpMessage u text op => upMessage u text op g
  | EUpGone u => upGone u g
  | EHttp h uri => gwHttp h uri g
  end.

(** ** The two maps *)

(** A client's connection [h] and a shard's connection [u] share the link [l]. *)
Definition live (g : WsGateway) (h u : handle) (p : positive) (l : Link) : Prop :=
  byDownstream g !! h = Some p ∧ byUpstream g !! u = Some p ∧ links g !! p = Some l ∧
  downstreamHdl l = h ∧ upstreamHdl l = u.

Record gw_ok (g : WsGateway) : Prop := {
  ok_down : ∀ h p, byDownstream g !! h = Some p → ∃ u l, live g h u p l;
  ok_up : ∀ u p, byUpstream g !! u = Some p → ∃ h l, live g h u p l;
  ok_flushed : ∀ p l, links g !! p = Some l → upstreamOpen l = true → linkPending l = [];
  ok_next : ∀ p, is_Some (links g !! p) → (p < nextLink g)%positive
}.

Lemma live_same g h u p l h' u' p' l' :
  live g h u p l → live g h' u' p' l' → h = h' ∨ u = u' ∨ p = p' → h = h' ∧ u = u' ∧ p = p' ∧ l = l'.
Proof.
  intros (H1 & H2 & H3 & H4 & H5) (G1 & G2 & G3 & G4 & G5) Hs.
  assert (p = p') as <- by (destruct Hs as [?|[?|?]]; congruence).
  assert (l = l') as <- by congruence. by subst.
Qed.

Lemma linkOf_down g h : gw_ok g →
  match linkOf (byDownstream g) h g with
  | Some (p, l) => ∃ u, live g h u p l
  | None => byDownstream g !! h = None
  end.
Proof.
  intros Hg. unfold linkOf. destruct (byDownstream g !! h) as [p|] eqn:E; [|done].
  destruct (ok_down _ Hg _ _ E) as (u & l & Hl). pose proof Hl as (_ & _ & E2 & _). cbn. rewrite E2. by exists u.
Qed.

Lemma linkOf_up g u : gw_ok g →
  match linkOf (byUpstream g) u g with
  | Some (p, l) => ∃ h, live g h u p l
  | None => byUpstream g !! u = None
  end.
Proof.
  intros Hg. unfold linkOf. destruct (byUpstream g !! u) as [p|] eqn:E; [|done].
  destruct (ok_up _ Hg _ _ E) as (h & l & Hl). pose proof Hl as (_ & _ & E2 & _). cbn. rewrite E2. by exists h.
Qed.

(** What the three changes of the state do to the live links. *)
Lemma live_new g h u next :
  gw_ok g → byDownstream g !! h = None → byUpstream g !! u = None →
  let p := nextLink g in
  let g' := mkGateway (<[p := mkLink h u false []]> (links g)) (Pos.succ p)
              (<[h := p]> (byDownstream g)) (<[u := p]> (byUpstream g)) next in
  ∀ h' u' p' l', live g' h' u' p' l' ↔
    h' = h ∧ u' = u ∧ p' = p ∧ l' = mkLink h u false [] ∨ live g h' u' p' l'.
Proof.
  intros Hg Hh Hu p g' h' u' p' l'.
  assert (∀ q, is_Some (links g !! q) → q ≠ p) as Hne by (intros q Hq%(ok_next _ Hg); unfold p; lia).
  unfold live, g'; cbn [links byDownstream byUpstream]. split.
  - intros (H1 & H2 & H3 & <- & <-). apply lookup_insert_Some in H3 as [[<- <-]|[Hp H3]]; [by left|right].
    rewrite lookup_insert_Some in H1. rewrite lookup_insert_Some in H2.
    destruct H1 as [[_ ?]|[_ H1]]; [done|]. destruct H2 as [[_ ?]|[_ H2]]; [done|]. done.
  - intros [(-> & -> & -> & ->)|(H1 & H2 & H3 & <- & <-)]; [by rewrite !lookup_insert_eq|].
    rewrite !lookup_insert_ne by (congruence || (apply not_eq_sym, Hne; by eexists)). done.
Qed.

Lemma live_set g p l l1 h u :
  live g h u p l1 → downstreamHdl l = h → upstreamHdl l = u →
  ∀ h' u' p' l', live (setLinks (<[p := l]> (links g)) g) h' u' p' l' ↔
    h' = h ∧ u' = u ∧ p' = p ∧ l' = l ∨ p' ≠ p ∧ live g h' u' p' l'.
Proof.
  intros (H1 & H2 & H3 & H4 & H5) Hd Hu h' u' p' l'. unfold live; cbn [setLinks links byDownstream byUpstream]. split.
  - intros (G1 & G2 & [[<- <-]|[Hp G3]]%lookup_insert_Some & <- & <-); [left; by subst|by right].
  - intros [(-> & -> & -> & ->)|(Hp & G1 & G2 & G3 & <- & <-)]; [by rewrite lookup_insert_eq|].
    by rewrite lookup_insert_ne.
Qed.

Lemma live_erase g h u p l :
  live g h u p l → ∀ h' u' p' l', live (eraseHandles h u g) h' u' p' l' ↔ h' ≠ h ∧ live g h' u' p' l'.
Proof.
  intros Hl h' u' p' l'. split.
  - intros (G1 & G2 & G3 & G4 & G5). cbn [eraseHandles links byDownstream byUpstream] in *.
    apply lookup_delete_Some in G1 as [? G1]. by apply lookup_delete_Some in G2 as [? G2].
  - intros [Hne Hl']. assert (u' ≠ u) as Hnu
      by (intros ->; destruct (live_same _ _ _ _ _ _ _ _ _ Hl Hl') as (? & _); [auto|congruence]).
    destruct Hl' as (G1 & G2 & G3 & G4 & G5). unfold live; cbn [eraseHandles links byDownstream byUpstream].
    by rewrite !lookup_delete_ne by congruence.
Qed.

(** A handle that has just been given is in neither map. *)
Definition given (e : GwEvent) (g : WsGateway) : Prop :=
  match e with
  | EDownOpen h _ _ con => byDownstream g !! h = None ∧ ∀ uri u, con uri = Some u → byUpstream g !! u = None
  | _ => True
  end.

Lemma gw_ok_set g p l l1 h u :
  gw_ok g → live g h u p l1 → downstreamHdl l = h → upstreamHdl l = u → (upstreamOpen l = true → linkPending l = []) →
  gw_ok (setLinks (<[p := l]> (links g)) g).
Proof.
  intros Hg Hl Hd Hu Hf. pose proof (live_set g p l l1 h u Hl Hd Hu) as Hs. split.
  - intros h' p' Hp. destruct (ok_down _ Hg _ _ Hp) as (u' & l' & Hl').
    destruct (decide (p' = p)) as [->|Hne]; [|exists u', l'; apply Hs; by right].
    destruct (live_same _ _ _ _ _ _ _ _ _ Hl Hl') as (-> & -> & _); [auto|]. exists u', l. apply Hs. by left.
  - intros u' p' Hp. destruct (ok_up _ Hg _ _ Hp) as (h' & l' & Hl').
    destruct (decide (p' = p)) as [->|Hne]; [|exists h', l'; apply Hs; by right].
    destruct (live_same _ _ _ _ _ _ _ _ _ Hl Hl') as (-> & -> & _); [auto|]. exists h', l. apply Hs. by left.
  - cbn [setLinks links]. intros q k [[<- <-]|[_ Hk]]%lookup_insert_Some; [done|by eapply ok_flushed].
  - cbn [setLinks links nextLink]. intros q [k [[<- <-]|[_ Hk]]%lookup_insert_Some]; apply (ok_next _ Hg);
      [destruct Hl as (_ & _ & -> & _)|rewrite Hk]; by eexists.
Qed.

Lemma gw_ok_erase g h u p l : gw_ok g → live g h u p l → gw_ok (eraseHandles h u g).
Proof.
  intros Hg Hl. pose proof (live_erase g h u p l Hl) as Hs. split; try apply Hg; cbn [eraseHandles byDownstream byUpstream].
  - intros h' p' [Hne Hp]%lookup_delete_Some. destruct (ok_down _ Hg _ _ Hp) as (u' & l' & Hl').
    exists u', l'. by apply Hs.
  - intros u' p' [Hne Hp]%lookup_delete_Some. destruct (ok_up _ Hg _ _ Hp) as (h' & l' & Hl').
    exists h', l'. apply Hs. split; [|done]. intros ->.
    destruct (live_same _ _ _ _ _ _ _ _ _ Hl Hl') as (_ & ? & _); [auto|congruence].
Qed.

Lemma gw_ok_new g h u next :
  gw_ok g → byDownstream g !! h = None → byUpstream g !! u = None →
  let p := nextLink g in
  gw_ok (mkGateway (<[p := mkLink h u false []]> (links g)) (Pos.succ p)
           (<[h := p]> (byDownstream g)) (<[u := p]> (byUpstream g)) next).
Proof.
  intros Hg Hh Hu p. pose proof (live_new g h u next Hg Hh Hu) as Hs. split.
  - cbn [byDownstream]. intros h' p' [[<- <-]|[Hne Hp]]%lookup_insert_Some; [exists u, (mkLink h u false []); apply Hs; by left|].
    destruct (ok_down _ Hg _ _ Hp) as (u' & l' & Hl'). exists u', l'. apply Hs. by right.
  - cbn [byUpstream]. intros u' p' [[<- <-]|[Hne Hp]]%lookup_insert_Some; [exists h, (mkLink h u false []); apply Hs; by left|].
    destruct (ok_up _ Hg _ _ Hp) as (h' & l' & Hl'). exists h', l'. apply Hs. by right.
  - cbn [links]. intros q k [[<- <-]|[_ Hk]]%lookup_insert_Some; [done|by eapply ok_flushed].
  - cbn [links nextLink]. intros q [k [[<- _]|[_ Hk]]%lookup_insert_Some]; [unfold p; lia|].
    pose proof (ok_next _ Hg q ltac:(by eexists)). unfold p. lia.
Qed.

Lemma gw_ok_step e g : gw_ok g → given e g → gw_ok (gwStep e g).1.
Proof.
  intros Hg Hgiven. destruct e as [h hint lv con|h t op|h|u|u t op|u|h uri]; cbn [gwStep].
  - unfold downOpen. destruct lv; [done|]. destruct (chooseShard _ _ _) as [uri next].
    destruct Hgiven as [Hh Hu]. destruct (con uri) as [u|] eqn:Hc; cbn [fst]; [|by split; apply Hg].
    apply gw_ok_new; eauto.
  - unfold downMessage. pose proof (linkOf_down g h Hg) as Hl. destruct (linkOf _ _ _) as [[p l]|]; [|done].
    destruct Hl as [u Hl]. destruct (upstreamOpen l); [done|]. eapply gw_ok_set; try done; by destruct Hl as (_ & _ & _ & ? & ?).
  - unfold downClose. pose proof (linkOf_down g h Hg) as Hl. destruct (linkOf _ _ _) as [[p l]|]; [|done].
    destruct Hl as [u Hl]. assert (upstreamHdl l = u) as -> by apply Hl. by eapply gw_ok_erase.
  - unfold upOpen. pose proof (linkOf_up g u Hg) as Hl. destruct (linkOf _ _ _) as [[p l]|]; [|done].
    destruct Hl as [h Hl]. eapply gw_ok_set; try done; by destruct Hl as (_ & _ & _ & ? & ?).
  - unfold upMessage. by destruct (linkOf _ _ _) as [[p l]|].
  - unfold upGone. pose proof (linkOf_up g u Hg) as Hl. destruct (linkOf _ _ _) as [[p l]|]; [|done].
    destruct Hl as [h Hl]. assert (downstreamHdl l = h) as -> by apply Hl. by eapply gw_ok_erase.
  - done.
Qed.

(** ** A run of the gateway *)

Definition clientTexts (h : handle) (es : list GwEvent) : list string :=
  omap (λ e, match e with EDownMessage h' t _ => if h' =? h then Some t else None | _ => None end) es.
Definition shardTexts (u : handle) (es : list GwEvent) : list string :=
  omap (λ e, match e with EUpMessage u' t _ => if u' =? u then Some t else None | _ => None end) es.
Definition sentUp (u : handle) (outs : list GwOut) : list string :=
  omap (λ o, match o with UpSend u' t _ => if u' =? u then Some t else None | _ => None end) outs.
Definition sentDown (h : handle) (outs : list GwOut) : list string :=
  omap (λ o, match o with DownSend h' t _ => if h' =? h then Some t else None | _ => None end) outs.

Definition aboutDown (h : handle) (e : GwEvent) : bool :=
  match e with EDownOpen h' _ _ _ => h' =? h | EDownMessage h' _ _ => h' =? h | _ => false end.
Definition aboutUp (u : handle) (e : GwEvent) : bool := match e with EUpMessage u' _ _ => u' =? u | _ => false end.
Definition connects (u : handle) (o : GwOut) : bool := match o with UpConnect u' _ => u' =? u | _ => false end.

(** A connection's handle is new when it opens. *)
Definition fresh (es : list GwEvent) (outs : list GwOut) (e : GwEvent) : Prop :=
  match e with
  | EDownOpen h _ _ con => existsb (aboutDown h) es = false ∧
      ∀ uri u, con uri = Some u → existsb (aboutUp u) es = false ∧ existsb (connects u) outs = false
  | _ => True
  end.

Inductive gw_run : list GwEvent → WsGateway → list GwOut → Prop :=
  | gw_nil : gw_run [] newGateway []
  | gw_snoc es g outs e : gw_run es g outs → fresh es outs e →
      gw_run (es ++ [e]) (gwStep e g).1 (outs ++ (gwStep e g).2).

(** What both sides of a live link have received. *)
Definition carried (es : list GwEvent) (outs : list GwOut) (h u : handle) (l : Link) : Prop :=
  sentUp u outs ++ linkPending l = clientTexts h es ∧ sentDown h outs = shardTexts u es.

Record run_ok (es : list GwEvent) (g : WsGateway) (outs : list GwOut) : Prop := {
  ro_ok : gw_ok g;
  ro_known : ∀ h u p l, live g h u p l → existsb (aboutDown h) es = true ∧ existsb (connects u) outs = true;
  ro_sentUp : ∀ u, existsb (connects u) outs = false → sentUp u outs = [];
  ro_sentDown : ∀ h, existsb (aboutDown h) es = false → sentDown h outs = [];
  ro_carried : ∀ h u p l, live g h u p l → carried es outs h u l
}.

Lemma clientTexts_app h es es' : clientTexts h (es ++ es') = clientTexts h es ++ clientTexts h es'.
Proof. apply omap_app. Qed.
Lemma shardTexts_app u es es' : shardTexts u (es ++ es') = shardTexts u es ++ shardTexts u es'.
Proof. apply omap_app. Qed.
Lemma sentUp_app u os os' : sentUp u (os ++ os') = sentUp u os ++ sentUp u os'.
Proof. apply omap_app. Qed.
Lemma sentDown_app h os os' : sentDown h (os ++ os') = sentDown h os ++ sentDown h os'.
Proof. apply omap_app. Qed.

Lemma silent_texts h u es :
  (existsb (aboutDown h) es = false → clientTexts h es = []) ∧ (existsb (aboutUp u) es = false → shardTexts u es = []).
Proof.
  split; induction es as [|e es IH]; [done| |done|]; simpl; intros [He Hes]%orb_false_iff;
    unfold clientTexts, shardTexts in *; csimpl; rewrite IH by done; by destruct e; simpl in He |- *; rewrite ?He.
Qed.

Lemma sentUp_flush u u' ts : sentUp u (map (λ t, UpSend u' t OpText) ts) = if u' =? u then ts else [].
Proof.
  unfold sentUp. induction ts as [|t ts IH]; csimpl; [by destruct (_ =? _)|]. rewrite IH. by destruct (_ =? _).
Qed.

Lemma sentDown_flush h u ts : sentDown h (map (λ t, UpSend u t OpText) ts) = [].
Proof. unfold sentDown. by induction ts. Qed.

(** What one step does for a link that is live afterwards. *)
Definition stepCarries (e : GwEvent) (g : WsGateway) : Prop :=
  let '(g', out) := gwStep e g in
  ∀ h u p l', live g' h u p l' →
    (∃ l, live g h u p l ∧ sentUp u out ++ linkPending l' = linkPending l ++ clientTexts h [e] ∧
       sentDown h out = shardTexts u [e]) ∨
    (∃ hint lv con uri, e = EDownOpen h hint lv con ∧ con uri = Some u ∧ out = [UpConnect u uri] ∧ linkPending l' = []).

Lemma carries_quiet e g :
  (∀ h, clientTexts h [e] = []) → (∀ h u p l, live g h u p l → shardTexts u [e] = []) →
  ∀ h u p l, live g h u p l → [] ++ linkPending l = linkPending l ++ clientTexts h [e] ∧ [] = shardTexts u [e].
Proof. intros Hc Hs h u p l Hl. rewrite Hc, app_nil_r. by erewrite Hs. Qed.

Lemma eqb_ne (a b : Z) : a ≠ b → (a =? b) = false.
Proof. apply Z.eqb_neq. Qed.

Lemma carries_downMessage h t op g : gw_ok g → stepCarries (EDownMessage h t op) g.
Proof.
  intros Hg. unfold stepCarries. cbn [gwStep]. unfold downMessage, clientTexts, shardTexts.
  pose proof (linkOf_down g h Hg) as Hl. destruct (linkOf _ _ _) as [[p l]|].
  - destruct Hl as [u Hl]. pose proof Hl as (_ & _ & Hp & Hd & Hu). destruct (upstreamOpen l) eqn:Ho.
    + intros h' u' p' l' Hl'. left. exists l'. split; [done|]. csimpl. rewrite Hu. unfold sentUp, sentDown; csimpl.
      destruct (decide (h' = h)) as [->|Hne].
      * destruct (live_same _ _ _ _ _ _ _ _ _ Hl Hl') as (_ & <- & _ & <-); [auto|].
        by rewrite !Z.eqb_refl, (ok_flushed _ Hg _ _ Hp Ho).
      * rewrite !eqb_ne; [by rewrite app_nil_r|congruence|].
        intros <-. destruct (live_same _ _ _ _ _ _ _ _ _ Hl Hl') as (<- & _); auto.
    + intros h' u' p' l' Hl'. left. apply (live_set g p (mkLink _ _ _ _) l h u Hl Hd Hu) in Hl'.
      destruct Hl' as [(-> & -> & -> & ->)|[Hne Hl']].
      * exists l. split; [done|]. csimpl. by rewrite Z.eqb_refl.
      * exists l'. split; [done|]. csimpl. rewrite eqb_ne; [by rewrite app_nil_r|].
        intros <-. destruct (live_same _ _ _ _ _ _ _ _ _ Hl Hl') as (_ & _ & <- & _); auto.
  - intros h' u' p' l' Hl'. left. exists l'. split; [done|]. csimpl. rewrite eqb_ne; [by rewrite app_nil_r|].
    intros <-. by destruct Hl' as (? & _); simplify_eq.
Qed.

Lemma carries_upMessage u t op g : gw_ok g → stepCarries (EUpMessage u t op) g.
Proof.
  intros Hg. unfold stepCarries. cbn [gwStep]. unfold upMessage, clientTexts, shardTexts.
  pose proof (linkOf_up g u Hg) as Hl. destruct (linkOf _ _ _) as [[p l]|].
  - destruct Hl as [h Hl]. pose proof Hl as (_ & _ & Hp & Hd & Hu).
    intros h' u' p' l' Hl'. left. exists l'. split; [done|]. unfold sentUp, sentDown; csimpl. rewrite app_nil_r, Hd.
    split; [done|]. destruct (decide (u' = u)) as [->|Hne].
    + destruct (live_same _ _ _ _ _ _ _ _ _ Hl Hl') as (<- & _); [auto|]. by rewrite !Z.eqb_refl.
    + rewrite !eqb_ne; [done|congruence|].
      intros <-. destruct (live_same _ _ _ _ _ _ _ _ _ Hl Hl') as (_ & <- & _); auto.
  - intros h' u' p' l' Hl'. left. exists l'. split; [done|]. csimpl. rewrite app_nil_r, eqb_ne; [done|].
    intros <-. by destruct Hl' as (_ & ? & _); simplify_eq.
Qed.

Lemma carries_upOpen u g : gw_ok g → stepCarries (EUpOpen u) g.
Proof.
  intros Hg. unfold stepCarries. cbn [gwStep]. unfold upOpen, clientTexts, shardTexts.
  pose proof (linkOf_up g u Hg) as Hl. destruct (linkOf _ _ _) as [[p l]|].
  - destruct Hl as [h Hl]. pose proof Hl as (_ & _ & Hp & Hd & Hu).
    intros h' u' p' l' Hl'. left. apply (live_set g p (mkLink _ _ _ _) l h u Hl Hd Hu) in Hl'.
    rewrite sentUp_flush, sentDown_flush. csimpl. destruct Hl' as [(-> & -> & -> & ->)|[Hne Hl']].
    + exists l. split; [done|]. by rewrite Z.eqb_refl.
    + exists l'. split; [done|]. rewrite eqb_ne; [by rewrite app_nil_r|].
      intros <-. destruct (live_same _ _ _ _ _ _ _ _ _ Hl Hl') as (_ & _ & <- & _); auto.
  - intros h' u' p' l' Hl'. left. exists l'. split; [done|]. csimpl. by rewrite app_nil_r.
Qed.

Lemma carries_step e g : gw_ok g → given e g → stepCarries e g.
Proof.
  intros Hg Hgiven. destruct e as [h hint lv con|h t op|h|u|u t op|u|h uri];
    [|by apply carries_downMessage| |by apply carries_upOpen|by apply carries_upMessage| |];
    unfold stepCarries; cbn [gwStep].
  - unfold downOpen. destruct lv as [|s lv]; [intros h' u' p' l' Hl'; left; exists l'; split; [done|]; csimpl; by rewrite app_nil_r|].
    destruct (chooseShard _ _ _) as [uri next]. destruct Hgiven as [Hh Hu]. destruct (con uri) as [u|] eqn:Hc.
    + intros h' u' p' l' [(-> & -> & -> & ->)|Hl']%(live_new g h u next Hg Hh (Hu _ _ Hc)).
      * right. by exists hint, (s :: lv), con, uri.
      * left. exists l'. split; [done|]. csimpl. by rewrite app_nil_r.
    + intros h' u' p' l' Hl'. left. exists l'. split; [exact Hl'|]. csimpl. by rewrite app_nil_r.
  - unfold downClose. pose proof (linkOf_down g h Hg) as Hl. destruct (linkOf _ _ _) as [[p l]|].
    + destruct Hl as [u Hl]. assert (upstreamHdl l = u) as -> by apply Hl.
      intros h' u' p' l' [_ Hl']%(live_erase g h u p l Hl). left. exists l'. split; [done|]. csimpl. by rewrite app_nil_r.
    + intros h' u' p' l' Hl'. left. exists l'. split; [done|]. csimpl. by rewrite app_nil_r.
  - unfold upGone. pose proof (linkOf_up g u Hg) as Hl. destruct (linkOf _ _ _) as [[p l]|].
    + destruct Hl as [h Hl]. assert (downstreamHdl l = h) as -> by apply Hl.
      intros h' u' p' l' [_ Hl']%(live_erase g h u p l Hl). left. exists l'. split; [done|]. csimpl. by rewrite app_nil_r.
    + intros h' u' p' l' Hl'. left. exists l'. split; [done|]. csimpl. by rewrite app_nil_r.
  - intros h' u' p' l' Hl'. left. exists l'. split; [done|]. csimpl. by rewrite app_nil_r.
Qed.

(** Nothing is sent to a connection without a link. *)
Lemma sends_to_live e g :
  gw_ok g → (∀ u, sentUp u (gwStep e g).2 ≠ [] → ∃ h p l, live g h u p l) ∧
  (∀ h, sentDown h (gwStep e g).2 ≠ [] → ∃ u p l, live g h u p l).
Proof.
  intros Hg. destruct e as [h hint lv con|h t op|h|u|u t op|u|h uri]; cbn [gwStep].
  - unfold downOpen. destruct lv; [done|]. destruct (chooseShard _ _ _) as [uri next]. by destruct (con uri).
  - unfold downMessage. pose proof (linkOf_down g h Hg) as Hl. destruct (linkOf _ _ _) as [[p l]|]; [|done].
    destruct Hl as [u Hl]. assert (upstreamHdl l = u) as -> by apply Hl. destruct (upstreamOpen l); [|done].
    split; [|done]. intros u' Hs. unfold sentUp in Hs; csimpl in Hs. destruct (u =? u') eqn:E; [|done]. apply Z.eqb_eq in E as <-. eauto.
  - unfold downClose. destruct (linkOf _ _ _) as [[p l]|]; done.
  - unfold upOpen. pose proof (linkOf_up g u Hg) as Hl. destruct (linkOf _ _ _) as [[p l]|]; [|done].
    destruct Hl as [h Hl]. cbn [snd]. split; intros x; rewrite ?sentUp_flush, ?sentDown_flush; [|done].
    destruct (u =? x) eqn:E; [|done]. apply Z.eqb_eq in E as <-. eauto.
  - unfold upMessage. pose proof (linkOf_up g u Hg) as Hl. destruct (linkOf _ _ _) as [[p l]|]; [|done].
    destruct Hl as [h Hl]. assert (downstreamHdl l = h) as -> by apply Hl.
    split; [done|]. intros h' Hs. unfold sentDown in Hs; csimpl in Hs. destruct (h =? h') eqn:E; [|done]. apply Z.eqb_eq in E as <-. eauto.
  - unfold upGone. destruct (linkOf _ _ _) as [[p l]|]; done.
  - done.
Qed.

Lemma existsb_app_false {A} (f : A → bool) l k : existsb f (l ++ k) = false → existsb f l = false ∧ existsb f k = false.
Proof. rewrite existsb_app. apply orb_false_iff. Qed.

Lemma gw_run_ok es g outs : gw_run es g outs → run_ok es g outs.
Proof.
  induction 1 as [|es g outs e _ IH Hf].
  { assert (∀ h u p l, ¬ live newGateway h u p l) as Hno by (intros h u p l (? & _); done).
    split; [split; [done..|by intros p [? ?]]|intros h u p l []%Hno|done|done|intros h u p l []%Hno]. }
  destruct IH as [Hok Hknown Hup Hdown Hcar].
  assert (given e g) as Hgiven.
  { destruct e as [h hint lv con| | | | | |]; try done. destruct Hf as [Hh Hu]. split.
    - destruct (byDownstream g !! h) as [p|] eqn:E; [|done]. destruct (ok_down _ Hok _ _ E) as (u & l & Hl).
      apply Hknown in Hl as [? _]. congruence.
    - intros uri u Hc. destruct (byUpstream g !! u) as [p|] eqn:E; [|done]. destruct (ok_up _ Hok _ _ E) as (h' & l & Hl).
      apply Hknown in Hl as [_ ?]. destruct (Hu _ _ Hc). congruence. }
  pose proof (carries_step e g Hok Hgiven) as Hs. pose proof (gw_ok_step e g Hok Hgiven) as Hok'.
  destruct (sends_to_live e g Hok) as [Hsu Hsd]. unfold stepCarries in Hs. destruct (gwStep e g) as [g' out].
  cbn [fst snd] in *. split; [done|..].
  - intros h u p l Hl. rewrite !existsb_app. destruct (Hs _ _ _ _ Hl) as [(l0 & Hl0 & _)|(hint & lv & con & uri & -> & _ & -> & _)].
    + by destruct (Hknown _ _ _ _ Hl0) as [-> ->].
    + simpl. by rewrite !Z.eqb_refl, !orb_true_r.
  - intros u [Ho _]%existsb_app_false. rewrite sentUp_app, (Hup u Ho). simpl.
    destruct (decide (sentUp u out = [])) as [|Hne]; [done|]. destruct (Hsu u Hne) as (h & p & l & Hl).
    apply Hknown in Hl as [_ ?]. congruence.
  - intros h [Ho _]%existsb_app_false. rewrite sentDown_app, (Hdown h Ho). simpl.
    destruct (decide (sentDown h out = [])) as [|Hne]; [done|]. destruct (Hsd h Hne) as (u & p & l & Hl).
    apply Hknown in Hl as [? _]. congruence.
  - intros h u p l Hl. unfold carried. rewrite sentUp_app, sentDown_app, clientTexts_app, shardTexts_app.
    destruct (Hs _ _ _ _ Hl) as [(l0 & Hl0 & H1 & H2)|(hint & lv & con & uri & -> & Hc & -> & Hp)].
    + destruct (Hcar _ _ _ _ Hl0) as [C1 C2]. by rewrite <-app_assoc, H1, app_assoc, C1, C2, H2.
    + destruct Hf as [Hh Hu]. destruct (Hu _ _ Hc) as [Hu1 Hu2].
      rewrite (Hup u Hu2), (Hdown h Hh), Hp. destruct (silent_texts h u es) as [-> ->]; done.
Qed.

(** C15 The gateway is transparent: for every client with a link, whatever it has
    sent was passed on to its shard in order, apart from what still waits for
    the shard's connection to open, and nothing else was; and what the shard
    has sent on that connection is exactly what the client was sent. *)
Theorem gateway_transparent es g outs h u p l :
  gw_run es g outs → live g h u p l →
  sentUp u outs ++ linkPending l = clientTexts h es ∧ sentDown h outs = shardTexts u es ∧
  (upstreamOpen l = true → linkPending l = []).
Proof.
  intros Hr Hl. apply gw_run_ok in Hr. destruct (ro_carried _ _ _ Hr _ _ _ _ Hl) as [H1 H2].
  split_and!; [done..|]. intros Ho. pose proof Hl as (_ & _ & Hp & _). exact (ok_flushed _ (ro_ok _ _ _ Hr) _ _ Hp Ho).
Qed.

(** A client is always routed to a live shard, and to the one its hint names
    while that one is live; otherwise clients are dealt round. *)
Theorem routed_to_live_shard hint shards next :
  shards ≠ [] →
  (chooseShard hint shards next).1 ∈ shards ∧
  (∀ s, hint = Some s → s ≠ "" → s ∈ shards → chooseShard hint shards next = (s, next)) ∧
  (hint = None → 0 ≤ next → ∀ k, shards !! k = Some ((chooseShard hint shards next).1) →
     NoDup shards → Z.of_nat k = next mod Z.of_nat (length shards)).
Proof.
  intros Hne. assert (0 < Z.of_nat (length shards)) as Hlen by (destruct shards; simpl; [done|lia]).
  assert (∀ n, ∃ s, shards !! Z.to_nat (n mod Z.of_nat (length shards)) = Some s) as Hlk.
  { intros n. apply lookup_lt_is_Some. pose proof (Z.mod_pos_bound n _ Hlen). lia. }
  unfold chooseShard. split_and!.
  - destruct (match hint with Some s => _ | None => _ end) eqn:Hh.
    + destruct hint as [s|]; [|done]. simpl. apply andb_true_iff in Hh as [_ Hh]. by apply bool_decide_eq_true in Hh.
    + destruct (Hlk next) as [s Hs]. rewrite Hs. simpl. by eapply list_elem_of_lookup_2.
  - intros s -> Hs Hin. rewrite bool_decide_eq_true_2 by done. by destruct (String.eqb_spec s "").
  - intros -> Hn k Hk Hnd. destruct (Hlk next) as [s Hs]. rewrite Hs in Hk. simpl in Hk.
    rewrite (NoDup_lookup _ _ _ _ Hnd Hk Hs). pose proof (Z.mod_pos_bound next _ Hlen). lia.
Qed.

Definition gwRun (es : list GwEvent) : WsGateway * list GwOut :=
  foldl (λ s e, ((gwStep e s.1).1, s.2 ++ (gwStep e s.1).2)) (newGateway, []) es.

(** ** A client that speaks before the shard's connection is open *)
Definition proxied : list GwEvent :=
  [EDownOpen 1 None ["ws://a"] (λ _, Some 10); EDownMessage 1 "hello" OpText; EDownMessage 1 "again" OpText;
   EUpOpen 10; EUpMessage 10 "welcome" OpText; EDownMessage 1 "bye" OpText].

Lemma proxied_run : gw_run proxied (gwRun proxied).1 (gwRun proxied).2.
Proof.
  change proxied with (((((([] ++ [EDownOpen 1 None ["ws://a"] (λ _, Some 10)]) ++ [EDownMessage 1 "hello" OpText]) ++
    [EDownMessage 1 "again" OpText]) ++ [EUpOpen 10]) ++ [EUpMessage 10 "welcome" OpText]) ++ [EDownMessage 1 "bye" OpText]).
  repeat (eapply gw_snoc; [|try exact I]); [exact gw_nil|]. by split.
Qed.

Lemma gateway_transparent_witness : sentUp 10 (gwRun proxied).2 ++ [] = ["hello"; "again"; "bye"].
Proof.
  exact (proj1 (gateway_transparent proxied (gwRun proxied).1 (gwRun proxied).2 1 10 1 (mkLink 1 10 true [])
    proxied_run (conj eq_refl (conj eq_refl (conj eq_refl (conj eq_refl eq_refl)))))).
Defined.

Lemma routed_to_live_shard_witness : chooseShard (Some "ws://b") ["ws://a"; "ws://b"] 0 = ("ws://b", 0).
Proof.
  refine (proj1 (proj2 (routed_to_live_shard (Some "ws://b") ["ws://a"; "ws://b"] 0 _)) "ws://b" eq_refl _ _).
  - discriminate.
  - discriminate.
  - right. left.
Defined.
