(* ===== verification/ApiGateway.v ===== *)
(** * The REST gateway ([gateway/ApiGateway])

    The http handler, with one definition per route, the throwaway connections
    that relay a login to a shard, the tickets of players who wait for a match
    and the threads that wait for the allocator.

    A response is an output; an exception leaves the handler for [io.run()].
    What the http library and the other services answer is an argument: the
    live shards, the connection [get_connection] makes, the 128 random bits of
    [makeToken], the directory's and the history's content. *)
From S2P Require Import Prelude Model Text Scan Double Rules Motion Arbiter ArbiterSteps Lifecycle Engine EngineSpec EngineTheorems Json Redis Observers Codecs Session SessionTheorems Registry RegistryTheorems Stores BoardIO Server WsGateway.
#[local] Open Scope Z_scope.

Record RelayState := mkRelay { outgoing : string; callbackCon : handle; callbackUser : string; relayDone : bool }.

Record ApiGateway (S : Type) := mkApi {
  relays : gmap handle RelayState;
  apiRoundRobin : Z;
  playTickets : gmap string handle;
  (** The detached threads of [POST /rooms]. *)
  allocating : list (handle * string);
  sessions : S
}.
Arguments mkApi {S}.
Arguments relays {S}.
Arguments apiRoundRobin {S}.
Arguments playTickets {S}.
Arguments allocating {S}.
Arguments sessions {S}.

Inductive ApiOut :=
  | Respond (con : handle) (status : Z) (body : string)
  | RespondText (con : handle) (body : string)
  | RelayConnect (h : handle) (uri : string)
  | RelaySend (h : handle) (text : string)
  | RelayClose (h : handle)
  | PublishNats (subject : string) (data : json)
  | StartAllocation (con : handle) (name : string).

(** What a request finds outside the gateway. *)
Record ApiEnv := mkEnv {
  liveNow : list string;
  getConnection : string → option handle;
  token : string;
  directoryAddress : string → string;
  directoryNames : list string;
  gameHistory : option (list GameRecord)
}.

(** ** Paths *)
Definition joinPrefix : string := "/rooms/".
Definition joinSuffix : string := "/join".
Definition extractJoinRoomName (uri : string) : string :=
  let n := String.length uri in
  if Nat.leb n (String.length joinPrefix + String.length joinSuffix) then ""
  else if negb (String.eqb (String.substring 0 (String.length joinPrefix) uri) joinPrefix) then ""
  else if negb (String.eqb (String.substring (n - String.length joinSuffix) (String.length joinSuffix) uri) joinSuffix) then ""
  else String.substring (String.length joinPrefix) (n - String.length joinPrefix - String.length joinSuffix) uri.

Definition answer (success : bool) (message : string) : json :=
  jObj [("success", JBool success); ("message", JString message)].

Definition roomAnswer (message : string) (roomName shard : json) : json :=
  jObj [("success", JBool true); ("message", JString message); ("roomName", roomName); ("shard", shard)].

Definition recordJson (r : GameRecord) : json :=
  jObj [("roomName", JString (rec_room r)); ("winnerUsername", JString (rec_winner r)); ("winnerElo", JInt (rec_winnerElo r));
    ("loserUsername", JString (rec_loser r)); ("loserElo", JInt (rec_loserElo r)); ("reason", JString (rec_reason r));
    ("moveLog", rec_moveLog r)].

(** [gameHistory->list(50)] *)
Definition historyLimit : nat := 50.

Section ApiGateway.
Context `{JT : JsonText} {S : Type} `{SS : !ClientSessionStore S}.
Notation Api := (ApiGateway S).

Definition newApi (s : S) : Api := mkApi ∅ 0 ∅ [] s.
Definition setRelays (m : gmap handle RelayState) (g : Api) : Api :=
  mkApi m (apiRoundRobin g) (playTickets g) (allocating g) (sessions g).
Definition setPlayTickets (m : gmap string handle) (g : Api) : Api :=
  mkApi (relays g) (apiRoundRobin g) m (allocating g) (sessions g).
Definition setAllocating (l : list (handle * string)) (g : Api) : Api :=
  mkApi (relays g) (apiRoundRobin g) (playTickets g) l (sessions g).

Definition Handled : Type := Api * list ApiOut * result unit.

(** [respondSync], [respondDeferred]: writing the body may throw. *)
Definition respond (con : handle) (status : Z) (body : json) (g : Api) : Handled :=
  match dumpR body with
  | Ok text => (g, [Respond con status text], Ok tt)
  | Throw what => (g, [], Throw what)
  end.

Definition pickShard (live : list string) (g : Api) : Api * option string :=
  match live with
  | [] => (g, None)
  | _ => (mkApi (relays g) ((apiRoundRobin g + 1) mod SIZE_MOD) (playTickets g) (allocating g) (sessions g),
          live !! Z.to_nat (apiRoundRobin g mod Z.of_nat (length live)))
  end.

(** The callback of [POST /login]. *)
Definition loginCallback (con : handle) (username : string) (token : string) (ok : bool) (reply : json) (g : Api) : Handled :=
  if negb ok then respond con 502 (answer false "upstream unavailable") g
  else match jValue getBool "success" false reply with
  | Throw what => (g, [], Throw what)
  | Ok false => respond con 401 reply g
  | Ok true =>
    match jValue getInt "elo" 0 reply with
    | Throw what => (g, [], Throw what)
    | Ok elo =>
      let g := mkApi (relays g) (apiRoundRobin g) (playTickets g) (allocating g) (sessPut token username elo (sessions g)) in
      match jValue getString "message" "" reply with
      | Throw what => (g, [], Throw what)
      | Ok message =>
        respond con 200 (jObj [("success", JBool true); ("message", JString message); ("elo", JInt elo); ("token", JString token)]) g
      end
    end
  end.

(** [relayToShard] of a login. *)
Definition relayToShard (uri typeName : string) (payload : json) (con : handle) (username : string) (env : ApiEnv) (g : Api)
    : Handled :=
  let envelope := jObj [("type", JString typeName); ("payload", payload)] in
  match getConnection env uri with
  | None => loginCallback con username (token env) false jEmpty g
  | Some h =>
    match dumpR envelope with
    | Throw what => (g, [], Throw what)
    | Ok text => (setRelays (<[h := mkRelay text con username false]> (relays g)) g, [RelayConnect h uri], Ok tt)
    end
  end.

Definition relayOpen (h : handle) (g : Api) : Handled :=
  match relays g !! h with
  | None => (g, [], Ok tt)
  | Some st => (g, [RelaySend h (outgoing st)], Ok tt)
  end.

Definition relayMessage (h : handle) (text : string) (token : string) (g : Api) : Handled :=
  match relays g !! h with
  | None => (g, [], Ok tt)
  | Some st =>
    let g := setRelays (<[h := mkRelay (outgoing st) (callbackCon st) (callbackUser st) true]> (relays g)) g in
    let '(ok, reply) := match parse text with Ok j => (true, j) | Throw _ => (false, JNull) end in
    match loginCallback (callbackCon st) (callbackUser st) token ok reply g with
    | (g, out, Throw what) => (g, out, Throw what)
    | (g, out, Ok _) => (setRelays (delete h (relays g)) g, out ++ [RelayClose h], Ok tt)
    end
  end.

(** [onRelayGone] *)
Definition relayGone (h : handle) (g : Api) : Handled :=
  match relays g !! h with
  | None => (g, [], Ok tt)
  | Some st =>
    match (if relayDone st then (g, [], Ok tt) else loginCallback (callbackCon st) (callbackUser st) "" false jEmpty g) with
    | (g, out, Throw what) => (g, out, Throw what)
    | (g, out, Ok _) => (setRelays (delete h (relays g)) g, out, Ok tt)
    end
  end.

(** ** Matchmaking *)
Definition resolveSide (event : json) (side : string) (g : Api) : Handled :=
  match jStr ("ticket" +:+ side) event with
  | Throw what => (g, [], Throw what)
  | Ok ticketId =>
    match playTickets g !! ticketId with
    | None => (g, [], Ok tt)
    | Some con =>
      match (r ← jAt "roomName" event; s ← jAt "shard" event; Ok (r, s)) with
      | Throw what => (g, [], Throw what)
      | Ok (roomName, shard) =>
        match respond con 200 (roomAnswer "match found" roomName shard) g with
        | (g, out, Ok _) => (setPlayTickets (delete ticketId (playTickets g)) g, out, Ok tt)
        | x => x
        end
      end
    end
  end.

Definition onAssigned (event : json) (g : Api) : Handled :=
  match resolveSide event "A" g with
  | (g, out, Ok _) => let '(g, out', r) := resolveSide event "B" g in (g, out ++ out', r)
  | x => x
  end.

Definition onTimeout (event : json) (g : Api) : Handled :=
  match jStr "ticketId" event with
  | Throw what => (g, [], Throw what)
  | Ok ticketId =>
    match playTickets g !! ticketId with
    | None => (g, [], Ok tt)
    | Some con =>
      match respond con 200 (answer false "no players available") g with
      | (g, out, Ok _) => (setPlayTickets (delete ticketId (playTickets g)) g, out, Ok tt)
      | x => x
      end
    end
  end.

(** ** Rooms *)

(** What the thread of [POST /rooms] posts back. *)
Definition removeFirst (con : handle) (l : list (handle * string)) : list (handle * string) :=
  match list_find (λ x, x.1 = con) l with Some (i, _) => delete i l | None => l end.

Definition onAllocated (con : handle) (reply : option json) (g : Api) : Handled :=
  let g := setAllocating (removeFirst con (allocating g)) g in
  match reply with
  | None => respond con 502 (answer false "upstream unavailable") g
  | Some reply =>
    match jValue getBool "success" false reply with
    | Throw what => (g, [], Throw what)
    | Ok false => respond con 409 reply g
    | Ok true =>
      match (m ← jValue getString "message" "" reply; n ← jValue getString "roomName" "" reply;
             s ← jValue getString "shard" "" reply; Ok (m, n, s)) with
      | Throw what => (g, [], Throw what)
      | Ok (m, n, s) => respond con 200 (roomAnswer m (JString n) (JString s)) g
      end
    end
  end.

(** ** The routes *)
Definition postLogin (con : handle) (request : json) (env : ApiEnv) (g : Api) : Handled :=
  match (u ← jValue getString "username" "" request; p ← jValue getString "password" "" request; Ok (u, p)) with
  | Throw what => (g, [], Throw what)
  | Ok (username, password) =>
    match pickShard (liveNow env) g with
    | (g, None) => respond con 503 (answer false "no game-server shard available") g
    | (g, Some uri) =>
      relayToShard uri "LOGIN" (jObj [("username", JString username); ("password", JString password)]) con username env g
    end
  end.

Definition postRooms (con : handle) (request : json) (g : Api) : Handled :=
  match (t ← jValue getString "token" "" request; n ← jValue getString "name" "" request; Ok (t, n)) with
  | Throw what => (g, [], Throw what)
  | Ok (token, name) =>
    match sessGet token (sessions g) with
    | None => respond con 401 (answer false "invalid or expired token") g
    | Some _ => (setAllocating (allocating g ++ [(con, name)]) g, [StartAllocation con name], Ok tt)
    end
  end.

Definition postPlay (con : handle) (request : json) (env : ApiEnv) (g : Api) : Handled :=
  match jValue getString "token" "" request with
  | Throw what => (g, [], Throw what)
  | Ok t =>
    match sessGet t (sessions g) with
    | None => respond con 401 (answer false "invalid or expired token") g
    | Some (username, elo) =>
      let ticketId := token env in
      (setPlayTickets (<[ticketId := con]> (playTickets g)) g,
       [PublishNats "matchmaking.request" (jObj [("ticketId", JString ticketId); ("username", JString username); ("elo", JInt elo)])],
       Ok tt)
    end
  end.

Definition postJoin (con : handle) (roomName : string) (request : json) (env : ApiEnv) (g : Api) : Handled :=
  match jValue getString "token" "" request with
  | Throw what => (g, [], Throw what)
  | Ok t =>
    match sessGet t (sessions g) with
    | None => respond con 401 (answer false "invalid or expired token") g
    | Some _ =>
      let shardUri := directoryAddress env roomName in
      if String.eqb shardUri "" then respond con 404 (answer false "room not found") g
      else respond con 200 (roomAnswer "room found" (JString roomName) (JString shardUri)) g
    end
  end.

Definition apiMetrics (g : Api) : string :=
  gaugeMetric "pending_play_tickets" "POST /play requests waiting on a match" (Z.of_nat (size (playTickets g))) +:+
  gaugeMetric "in_flight_shard_relays" "Relay connections waiting on a shard reply" (Z.of_nat (size (relays g))).

Definition httpHandler (con : handle) (method uri body : string) (env : ApiEnv) (g : Api) : Handled :=
  match (if String.eqb body "" then Ok jEmpty else parse body) with
  | Throw what => respond con 400 (answer false ("malformed body: " +:+ what)) g
  | Ok request =>
    let post := String.eqb method "POST" in
    let get := String.eqb method "GET" in
    let joinRoomName := extractJoinRoomName uri in
    if post && String.eqb uri "/login" then postLogin con request env g
    else if post && String.eqb uri "/rooms" then postRooms con request g
    else if post && String.eqb uri "/play" then postPlay con request env g
    else if post && negb (String.eqb joinRoomName "") then postJoin con joinRoomName request env g
    else if get && String.eqb uri "/health" then respond con 200 (jObj [("success", JBool true)]) g
    else if get && String.eqb uri "/metrics" then (g, [RespondText con (apiMetrics g)], Ok tt)
    else if get && String.eqb uri "/rooms" then
      respond con 200 (jObj [("success", JBool true); ("rooms", JArray (map JString (directoryNames env)))]) g
    else if get && String.eqb uri "/history" then
      respond con 200 (jObj [("success", JBool true);
        ("games", JArray (map recordJson (take historyLimit (default [] (gameHistory env)))))]) g
    else respond con 404 (answer false "no such route") g
  end.

Inductive ApiEvent :=
  | AHttp (con : handle) (method uri body : string) (env : ApiEnv)
  | ARelayOpen (h : handle)
  | ARelayMessage (h : handle) (text token : string)
  | ARelayGone (h : handle)
  | AAssigned (event : json)
  | ATimeout (event : json)
  | AAllocated (con : handle) (reply : option json).

Definition apiStep (e : ApiEvent) (g : Api) : Handled :=
  match e with
  | AHttp con method uri body env => httpHandler con method uri body env g
  | ARelayOpen h => relayOpen h g
  | ARelayMessage h text token => relayMessage h text token g
  | ARelayGone h => relayGone h g
  | AAssigned event => onAssigned event g
  | ATimeout event => onTimeout event g
  | AAllocated con reply => onAllocated con reply g
  end.
End ApiGateway.

(** ** Paths are read back *)
Lemma length_append (s t : string) : String.length (s +:+ t) = (String.length s + String.length t)%nat.
Proof. induction s as [|c s IH]; simpl; [done|]. f_equal. exact IH. Qed.

Lemma substring_all s : String.substring 0 (String.length s) s = s.
Proof. induction s as [|c s IH]; simpl; [done|]. by rewrite IH. Qed.

Lemma substring_prefix s t : String.substring 0 (String.length s) (s +:+ t) = s.
Proof. induction s as [|c s IH]; [by destruct t|]. rewrite string_app_cons. simpl. by rewrite IH. Qed.

Lemma substring_skip s t n : String.substring (String.length s) n (s +:+ t) = String.substring 0 n t.
Proof. induction s as [|c s IH]; [done|]. rewrite string_app_cons. simpl. exact IH. Qed.

Lemma substring_split k s : (k ≤ String.length s)%nat →
  s = String.substring 0 k s +:+ String.substring k (String.length s - k) s.
Proof.
  revert k. induction s as [|c s IH]; intros k Hk; simpl in *.
  - by replace k with 0%nat by lia.
  - destruct k as [|k]; simpl; [by rewrite substring_all|]. rewrite string_app_cons. f_equal. apply IH. lia.
Qed.

Lemma substring_length k n s : (k + n ≤ String.length s)%nat → String.length (String.substring k n s) = n.
Proof.
  revert k n. induction s as [|c s IH]; intros k n Hk; simpl in *.
  - assert (k = 0 ∧ n = 0)%nat as [-> ->] by lia. done.
  - destruct k as [|k]; [destruct n as [|n]; simpl; [done|]; f_equal; apply IH; lia|]. apply IH. lia.
Qed.

Lemma substring_sub k n s a b : (a + b ≤ n)%nat → (k + n ≤ String.length s)%nat →
  String.substring a b (String.substring k n s) = String.substring (k + a) b s.
Proof.
  revert k n a b. induction s as [|c s IH]; intros k n a b Hab Hk; simpl in *.
  - assert (k = 0 ∧ n = 0 ∧ a = 0 ∧ b = 0)%nat as (-> & -> & -> & ->) by lia. done.
  - destruct k as [|k]; [|apply IH; lia]. destruct n as [|n]; [by assert (a = 0 ∧ b = 0)%nat as [-> ->] by lia|].
    simpl. destruct a as [|a]; [destruct b as [|b]; [done|]|]; simpl.
    + f_equal. apply (IH 0%nat); lia.
    + apply (IH 0%nat); lia.
Qed.

(** The path of a join names its room: the name that is read from a path is
    not empty exactly for the paths [/rooms/<name>/join], whatever characters the
    name has, slashes included, and then it is that name. *)
Theorem extractJoinRoomName_spec uri n :
  n ≠ "" → extractJoinRoomName uri = n ↔ uri = "/rooms/" +:+ n +:+ "/join".
Proof.
  intros Hn. unfold extractJoinRoomName. change (String.length joinPrefix) with 7%nat. change (String.length joinSuffix) with 5%nat.
  assert (0 < String.length n)%nat as Hlen by (destruct n; simpl; [done|lia]). split.
  - destruct (Nat.leb_spec (String.length uri) (7 + 5)); [by intros <-|].
    destruct (String.eqb_spec (String.substring 0 7 uri) joinPrefix) as [Hp|]; [|by intros <-].
    destruct (String.eqb_spec (String.substring (String.length uri - 5) 5 uri) joinSuffix) as [Hs|]; [|by intros <-].
    cbn [negb]. intros <-. rewrite (substring_split 7 uri) at 1 by lia. rewrite Hp. f_equal.
    rewrite (substring_split (String.length uri - 7 - 5) (String.substring 7 (String.length uri - 7) uri)) at 1
      by (rewrite substring_length; lia).
    rewrite substring_length, !substring_sub by lia.
    replace (7 + (String.length uri - 7 - 5))%nat with (String.length uri - 5)%nat by lia.
    replace (String.length uri - 7 - (String.length uri - 7 - 5))%nat with 5%nat by lia. by rewrite Hs.
  - intros ->. rewrite !length_append. change (String.length "/rooms/") with 7%nat. change (String.length "/join") with 5%nat.
    destruct (Nat.leb_spec (7 + (String.length n + 5)) (7 + 5)); [lia|].
    change 7%nat with (String.length "/rooms/") at 1. rewrite substring_prefix. cbn [negb String.eqb].
    replace (7 + (String.length n + 5) - 5)%nat with (String.length ("/rooms/" +:+ n))
      by (rewrite length_append; change (String.length "/rooms/") with 7%nat; lia).
    rewrite append_assoc, substring_skip. cbn [negb].
    replace (7 + (String.length n + 5) - 7 - 5)%nat with (String.length n) by lia.
    rewrite <-append_assoc. change 7%nat with (String.length "/rooms/") at 1. rewrite substring_skip. apply substring_prefix.
Qed.

(** ** Every request is answered once *)

(** How many values of a map satisfy [P]. *)
Definition countIf {K A} `{Countable K} (P : A → bool) (m : gmap K A) : nat :=
  length (filter (λ kv, P kv.2 = true) (map_to_list m)).

Lemma countIf_insert {K A} `{Countable K} (P : A → bool) (m : gmap K A) k x :
  m !! k = None → countIf P (<[k := x]> m) = ((if P x then 1 else 0) + countIf P m)%nat.
Proof.
  intros Hk. unfold countIf. rewrite map_to_list_insert by done. rewrite filter_cons. simpl. by destruct (P x).
Qed.

Lemma countIf_delete {K A} `{Countable K} (P : A → bool) (m : gmap K A) k x :
  m !! k = Some x → countIf P m = ((if P x then 1 else 0) + countIf P (delete k m))%nat.
Proof.
  intros Hk. rewrite <-(insert_delete_id m k x) at 1 by done. apply countIf_insert. apply lookup_delete_eq.
Qed.

Section Answers.
Context `{JT : JsonText} {S : Type} `{SS : !ClientSessionStore S}.
Notation Api := (ApiGateway S).
Implicit Types g : Api.

Definition answers (con : handle) (outs : list ApiOut) : nat :=
  length (filter (λ o, match o with Respond c _ _ | RespondText c _ => c =? con | _ => false end = true) outs).

(** The places a request waits in for its answer. *)
Definition waiting (con : handle) (g : Api) : nat :=
  (countIf (λ st, negb (relayDone st) && (Z.eqb (callbackCon st) con)) (relays g) +
   countIf (λ c, Z.eqb c con) (playTickets g) +
   length (filter (λ x, Z.eqb x.1 con = true) (allocating g)))%nat.

Lemma answers_app con o1 o2 : answers con (o1 ++ o2) = (answers con o1 + answers con o2)%nat.
Proof. unfold answers. by rewrite filter_app, length_app. Qed.

Lemma respond_inv con st b g g' out :
  respond con st b g = (g', out, Ok tt) → g' = g ∧ ∀ c, answers c out = if con =? c then 1%nat else 0%nat.
Proof.
  unfold respond. destruct (dumpR b); intros [= <- <-]. split; [done|]. intros c. unfold answers.
  rewrite filter_cons. simpl. by destruct (con =? c).
Qed.

(** The callback only writes to the session store. *)
Definition sameWaiting (g g' : Api) : Prop :=
  relays g' = relays g ∧ playTickets g' = playTickets g ∧ allocating g' = allocating g.

Lemma login_inv con u t ok reply g g' out :
  loginCallback con u t ok reply g = (g', out, Ok tt) →
  sameWaiting g g' ∧ ∀ c, answers c out = if con =? c then 1%nat else 0%nat.
Proof.
  unfold loginCallback. destruct (negb ok); [intros [-> ?]%respond_inv; by split|].
  destruct (jValue getBool _ _ _) as [[]|]; [| |done]; [|intros [-> ?]%respond_inv; by split].
  destruct (jValue getInt _ _ _) as [elo|]; [|done]. destruct (jValue getString _ _ _) as [m|]; [|done].
  intros [-> ?]%respond_inv. by split.
Qed.

(** The handles and tickets that a step makes are new. *)
Definition freshApi (e : ApiEvent) (g : Api) : Prop :=
  match e with
  | AHttp con _ _ _ env => playTickets g !! token env = None ∧ ∀ uri h, getConnection env uri = Some h → relays g !! h = None
  | AAllocated con _ => con ∈ (allocating g).*1
  | _ => True
  end.

Definition asked (con : handle) (e : ApiEvent) : nat :=
  match e with AHttp c _ _ _ _ => if c =? con then 1%nat else 0%nat | _ => 0%nat end.

(** The relays that are still in the map have not answered. *)
Definition noneDone (g : Api) : Prop := ∀ h st, relays g !! h = Some st → relayDone st = false.

Definition balanced (con : handle) (n : nat) (g g' : Api) (out : list ApiOut) : Prop :=
  (answers con out + waiting con g' = n + waiting con g)%nat.

Lemma waiting_same con g g' : sameWaiting g g' → waiting con g' = waiting con g.
Proof. intros (H1 & H2 & H3). unfold waiting. by rewrite H1, H2, H3. Qed.

Lemma balanced_respond con c st b g g' out :
  respond c st b g = (g', out, Ok tt) → noneDone g → balanced con (if Z.eqb c con then 1 else 0) g g' out ∧ noneDone g'.
Proof. intros [-> Ha]%respond_inv Hn. split; [|done]. unfold balanced. rewrite Ha. lia. Qed.

Lemma balanced_pickShard con n live g g1 uri g' out :
  pickShard live g = (g1, uri) → balanced con n g1 g' out → balanced con n g g' out.
Proof.
  intros Hp. assert (sameWaiting g g1) as Hs by (unfold pickShard in Hp; destruct live; by injection Hp as <- _).
  unfold balanced. by rewrite (waiting_same con g g1).
Qed.

Lemma step_login c request env g g' out con :
  postLogin c request env g = (g', out, Ok tt) → noneDone g →
  (∀ uri h, getConnection env uri = Some h → relays g !! h = None) →
  balanced con (if Z.eqb c con then 1 else 0) g g' out ∧ noneDone g'.
Proof.
  intros Hs Hn Hf. unfold postLogin in Hs. destruct (_ ≫= _) as [[u p]|]; [|done].
  destruct (pickShard (liveNow env) g) as [g1 uri] eqn:Hp.
  assert (sameWaiting g g1) as Hsame by (unfold pickShard in Hp; destruct (liveNow env); by injection Hp as <- _).
  assert (noneDone g1) as Hn1 by (intros h st; rewrite (proj1 Hsame); apply Hn).
  destruct uri as [uri|].
  - unfold relayToShard in Hs. destruct (getConnection env uri) as [h|] eqn:Hh.
    + destruct (dumpR _) as [text|]; [|done]. injection Hs as <- <-. split.
      * eapply balanced_pickShard; [exact Hp|]. unfold balanced, waiting. cbn [relays playTickets allocating setRelays].
        rewrite countIf_insert by (rewrite (proj1 Hsame); by eapply Hf). simpl. destruct (c =? con); unfold answers; simpl; lia.
      * intros h' st. cbn [relays setRelays]. intros [[<- <-]|[_ Hst]]%lookup_insert_Some; [done|by eapply Hn1].
    + apply login_inv in Hs as [Hw Ha]. split.
      * eapply balanced_pickShard; [exact Hp|]. unfold balanced. rewrite Ha, (waiting_same _ _ _ Hw). lia.
      * intros h' st. rewrite (proj1 Hw). apply Hn1.
  - eapply (balanced_respond con) in Hs as [Hb ?]; [|done]. split; [|done]. by eapply balanced_pickShard.
Qed.

Lemma step_http c method uri body env g g' out con :
  httpHandler c method uri body env g = (g', out, Ok tt) → noneDone g → freshApi (AHttp c method uri body env) g →
  balanced con (if Z.eqb c con then 1 else 0) g g' out ∧ noneDone g'.
Proof.
  intros Hs Hn [Ht Hf]. unfold httpHandler in Hs.
  destruct (if String.eqb body "" then _ else _) as [request|]; [|by eapply balanced_respond]. cbn zeta in Hs.
  destruct (_ && String.eqb uri "/login"); [by eapply step_login|].
  destruct (_ && String.eqb uri "/rooms").
  { unfold postRooms in Hs. destruct (_ ≫= _) as [[t n]|]; [|done]. destruct (sessGet t _); [|by eapply balanced_respond].
    injection Hs as <- <-. split; [|exact Hn]. unfold balanced, waiting. cbn [relays playTickets allocating setAllocating].
    rewrite filter_app, length_app, filter_cons. simpl. destruct (c =? con); unfold answers; simpl; lia. }
  destruct (_ && String.eqb uri "/play").
  { unfold postPlay in Hs. destruct (jValue _ _ _ _) as [t|]; [|done].
    destruct (sessGet t _) as [[u e]|]; [|by eapply balanced_respond].
    injection Hs as <- <-. split; [|exact Hn]. unfold balanced, waiting. cbn [relays playTickets allocating setPlayTickets].
    rewrite countIf_insert by done. destruct (c =? con); unfold answers; simpl; lia. }
  destruct (_ && negb _).
  { unfold postJoin in Hs. destruct (jValue _ _ _ _) as [t|]; [|done].
    destruct (sessGet t _) as [[u e]|]; [|by eapply balanced_respond]. cbn zeta in Hs.
    destruct (String.eqb _ _); by eapply balanced_respond. }
  destruct (_ && String.eqb uri "/health"); [by eapply balanced_respond|].
  destruct (_ && String.eqb uri "/metrics").
  { injection Hs as <- <-. split; [|exact Hn]. unfold balanced, answers. rewrite filter_cons. simpl.
    destruct (c =? con); simpl; lia. }
  destruct (_ && String.eqb uri "/rooms"); [by eapply balanced_respond|].
  destruct (_ && String.eqb uri "/history"); by eapply balanced_respond.
Qed.

(** An answered relay leaves the map. *)
Lemma balanced_relay con h st g g1 out out' :
  relays g !! h = Some st → noneDone g → relays g1 = relays g ∨ (∃ x, relays g1 = <[h := x]> (relays g)) →
  playTickets g1 = playTickets g → allocating g1 = allocating g →
  (∀ c, answers c out = if callbackCon st =? c then 1%nat else 0%nat) → answers con out' = 0%nat →
  balanced con 0 g (setRelays (delete h (relays g1)) g1) (out ++ out') ∧ noneDone (setRelays (delete h (relays g1)) g1).
Proof.
  intros Hst Hn Hr Hp Ha Hout Hout'.
  assert (delete h (relays g1) = delete h (relays g)) as Hd by (destruct Hr as [->|[x ->]]; [done|by rewrite delete_insert_eq]).
  split.
  - unfold balanced, waiting. cbn [relays playTickets allocating setRelays]. rewrite Hd, Hp, Ha, answers_app, Hout, Hout'.
    rewrite (countIf_delete _ (relays g) h st) by done. rewrite (Hn _ _ Hst). simpl. destruct (Z.eqb (callbackCon st) con); lia.
  - intros h' st'. cbn [relays setRelays]. rewrite Hd. intros [_ ?]%lookup_delete_Some. by eapply Hn.
Qed.

Lemma step_message h text t g g' out con :
  relayMessage h text t g = (g', out, Ok tt) → noneDone g → balanced con 0 g g' out ∧ noneDone g'.
Proof.
  intros Hs Hn. unfold relayMessage in Hs. destruct (relays g !! h) as [st|] eqn:Hst; [|by injection Hs as <- <-].
  destruct (match parse text with Ok _ => _ | Throw _ => _ end) as [ok reply].
  destruct (loginCallback _ _ _ _ _ _) as [[g1 o1] [[]|]] eqn:Hl; [|done]. injection Hs as <- <-.
  apply login_inv in Hl as [(Hr & Hp & Ha) Hout]. eapply balanced_relay; try done. right. eexists. exact Hr.
Qed.

Lemma step_gone h g g' out con :
  relayGone h g = (g', out, Ok tt) → noneDone g → balanced con 0 g g' out ∧ noneDone g'.
Proof.
  intros Hs Hn. unfold relayGone in Hs. destruct (relays g !! h) as [st|] eqn:Hst; [|by injection Hs as <- <-].
  rewrite (Hn _ _ Hst) in Hs. destruct (loginCallback _ _ _ _ _ _) as [[g1 o1] [[]|]] eqn:Hl; [|done]. injection Hs as <- <-.
  apply login_inv in Hl as [(Hr & Hp & Ha) Hout]. rewrite <-(app_nil_r o1). eapply balanced_relay; try done. by left.
Qed.

(** An answered ticket leaves the map. *)
Lemma balanced_ticket con t c st b g g1 out :
  playTickets g !! t = Some c → respond c st b g = (g1, out, Ok tt) → noneDone g →
  balanced con 0 g (setPlayTickets (delete t (playTickets g1)) g1) out ∧ noneDone (setPlayTickets (delete t (playTickets g1)) g1).
Proof.
  intros Ht [-> Ha]%respond_inv Hn. split; [|exact Hn]. unfold balanced, waiting.
  cbn [relays playTickets allocating setPlayTickets]. rewrite Ha, (countIf_delete _ (playTickets g) t c) by done. lia.
Qed.

Lemma step_side event side g g' out con :
  resolveSide event side g = (g', out, Ok tt) → noneDone g → balanced con 0 g g' out ∧ noneDone g'.
Proof.
  intros Hs Hn. unfold resolveSide in Hs. destruct (jStr _ _) as [t|]; [|done].
  destruct (playTickets g !! t) as [c|] eqn:Ht; [|by injection Hs as <- <-].
  destruct (_ ≫= _) as [[r s]|]; [|done]. destruct (respond _ _ _ _) as [[g1 o1] [[]|]] eqn:Hr; [|done].
  injection Hs as <- <-. by eapply balanced_ticket.
Qed.

Lemma step_assigned event g g' out con :
  onAssigned event g = (g', out, Ok tt) → noneDone g → balanced con 0 g g' out ∧ noneDone g'.
Proof.
  intros Hs Hn. unfold onAssigned in Hs. destruct (resolveSide event "A" g) as [[g1 o1] [[]|]] eqn:H1; [|done].
  destruct (resolveSide event "B" g1) as [[g2 o2] r2] eqn:H2. injection Hs as <- <- ->.
  destruct (step_side _ _ _ _ _ con H1 Hn) as [B1 N1]. destruct (step_side _ _ _ _ _ con H2 N1) as [B2 N2].
  split; [|done]. unfold balanced in *. rewrite answers_app. lia.
Qed.

Lemma step_timeout event g g' out con :
  onTimeout event g = (g', out, Ok tt) → noneDone g → balanced con 0 g g' out ∧ noneDone g'.
Proof.
  intros Hs Hn. unfold onTimeout in Hs. destruct (jStr _ _) as [t|]; [|done].
  destruct (playTickets g !! t) as [c|] eqn:Ht; [|by injection Hs as <- <-].
  destruct (respond _ _ _ _) as [[g1 o1] [[]|]] eqn:Hr; [|done]. injection Hs as <- <-. by eapply balanced_ticket.
Qed.

Lemma removeFirst_count con c l :
  c ∈ l.*1 → (length (filter (λ x, Z.eqb x.1 con = true) (removeFirst c l)) + (if Z.eqb c con then 1 else 0) =
              length (filter (λ x, Z.eqb x.1 con = true) l))%nat.
Proof.
  intros Hin. unfold removeFirst. destruct (list_find _ l) as [[i x]|] eqn:Hf.
  - apply list_find_Some in Hf as (Hi & <- & _). rewrite (delete_take_drop l i).
    rewrite <-(take_drop_middle l i x Hi) at 3. rewrite !filter_app, !length_app, filter_cons. simpl.
    destruct (x.1 =? con); simpl; lia.
  - exfalso. apply list_elem_of_fmap in Hin as (x & -> & Hx). apply list_find_None in Hf.
    rewrite Forall_forall in Hf. by apply (Hf x Hx).
Qed.

Lemma step_allocated c reply g g' out con :
  onAllocated c reply g = (g', out, Ok tt) → noneDone g → c ∈ (allocating g).*1 → balanced con 0 g g' out ∧ noneDone g'.
Proof.
  intros Hs Hn Hin. set (g1 := setAllocating (removeFirst c (allocating g)) g).
  assert (∃ st b, respond c st b g1 = (g', out, Ok tt)) as (st & b & Hr).
  { unfold onAllocated in Hs. fold g1 in Hs. destruct reply as [reply|]; [|by eauto].
    destruct (jValue getBool _ _ _) as [[]|]; [|by eauto|done]. destruct (m ← _; _) as [[[m n] s]|]; [|done]. eauto. }
  apply respond_inv in Hr as [-> Ha]. split; [|exact Hn]. unfold balanced. rewrite Ha.
  unfold g1, waiting. cbn [relays playTickets allocating setAllocating].
  pose proof (removeFirst_count con c (allocating g) Hin). lia.
Qed.

Lemma apiStep_balanced e g g' out con :
  apiStep e g = (g', out, Ok tt) → noneDone g → freshApi e g → balanced con (asked con e) g g' out ∧ noneDone g'.
Proof.
  destruct e as [c method uri body env|h|h text t|h|event|event|c reply]; cbn [apiStep asked].
  - intros. by eapply step_http.
  - unfold relayOpen. destruct (relays g !! h); intros [= <- <-] Hn _; by split.
  - intros. by eapply step_message.
  - intros. by eapply step_gone.
  - intros. by eapply step_assigned.
  - intros. by eapply step_timeout.
  - intros. by eapply step_allocated.
Qed.

(** ** A handler that throws *)

(** At most one request of [con] is neither answered nor waiting any more, and
    none has gained an answer. *)
Definition oneShort (con : handle) (n : nat) (g g' : Api) (out : list ApiOut) : Prop :=
  (answers con out + waiting con g' ≤ n + waiting con g ≤ answers con out + waiting con g' + 1)%nat.

Lemma respond_throws c st b g g' out what : respond c st b g = (g', out, Throw what) → g' = g ∧ out = [].
Proof. unfold respond. destruct (dumpR b); by intros [= <- <-]. Qed.

Lemma login_throws con u t ok reply g g' out what :
  loginCallback con u t ok reply g = (g', out, Throw what) → sameWaiting g g' ∧ out = [].
Proof.
  unfold loginCallback. destruct (negb ok); [intros [-> ->]%respond_throws; done|].
  destruct (jValue getBool _ _ _) as [[]|]; [| |by intros [= <- <-]]; [|intros [-> ->]%respond_throws; done].
  destruct (jValue getInt _ _ _) as [elo|]; [|by intros [= <- <-]].
  destruct (jValue getString _ _ _) as [m|]; [|by intros [= <- <-]].
  intros [-> ->]%respond_throws. done.
Qed.

(** A thrown request is lost, nothing else. *)
Lemma short_same con n g g' : (n ≤ 1)%nat → sameWaiting g g' → oneShort con n g g' [].
Proof. intros Hn Hs. unfold oneShort. rewrite (waiting_same con g g' Hs). unfold answers. simpl. lia. Qed.

Lemma asked_le con c : ((if Z.eqb c con then 1 else 0) ≤ 1)%nat.
Proof. destruct (c =? con); lia. Qed.

Lemma pickShard_same live g g1 uri : pickShard live g = (g1, uri) → sameWaiting g g1.
Proof. unfold pickShard. destruct live; by intros [= <- _]. Qed.

Lemma throws_http c method uri body env g g' out what con :
  httpHandler c method uri body env g = (g', out, Throw what) →
  oneShort con (if Z.eqb c con then 1 else 0) g g' out.
Proof.
  intros Hs. assert (sameWaiting g g' ∧ out = []) as [Hw ->]; [|by apply short_same; [apply asked_le|]].
  unfold httpHandler in Hs.
  destruct (if String.eqb body "" then _ else _) as [request|]; [|by apply respond_throws in Hs as [-> ->]]. cbn zeta in Hs.
  destruct (_ && String.eqb uri "/login").
  { unfold postLogin in Hs. destruct (_ ≫= _) as [[u p]|]; [|by injection Hs as <- <-].
    destruct (pickShard (liveNow env) g) as [g1 [uri'|]] eqn:Hp; apply pickShard_same in Hp as (E1 & E2 & E3).
    - unfold relayToShard in Hs. destruct (getConnection env uri') as [h|].
      + destruct (dumpR _) as [text|]; [done|]. by injection Hs as <- <-.
      + apply login_throws in Hs as [(F1 & F2 & F3) ->]. split; [|done]. split_and!; congruence.
    - by apply respond_throws in Hs as [-> ->]. }
  destruct (_ && String.eqb uri "/rooms").
  { unfold postRooms in Hs. destruct (_ ≫= _) as [[t n]|]; [|by injection Hs as <- <-].
    destruct (sessGet t _); [done|by apply respond_throws in Hs as [-> ->]]. }
  destruct (_ && String.eqb uri "/play").
  { unfold postPlay in Hs. destruct (jValue _ _ _ _) as [t|]; [|by injection Hs as <- <-].
    destruct (sessGet t _) as [[u e]|]; [done|by apply respond_throws in Hs as [-> ->]]. }
  destruct (_ && negb _).
  { unfold postJoin in Hs. destruct (jValue _ _ _ _) as [t|]; [|by injection Hs as <- <-].
    destruct (sessGet t _) as [[u e]|]; [|by apply respond_throws in Hs as [-> ->]]. cbn zeta in Hs.
    destruct (String.eqb _ _); by apply respond_throws in Hs as [-> ->]. }
  destruct (_ && String.eqb uri "/health"); [by apply respond_throws in Hs as [-> ->]|].
  destruct (_ && String.eqb uri "/metrics"); [done|].
  destruct (_ && String.eqb uri "/rooms"); [by apply respond_throws in Hs as [-> ->]|].
  destruct (_ && String.eqb uri "/history"); by apply respond_throws in Hs as [-> ->].
Qed.

Lemma throws_message h text t g g' out what con :
  relayMessage h text t g = (g', out, Throw what) → noneDone g → oneShort con 0 g g' out.
Proof.
  intros Hs Hn. unfold relayMessage in Hs. destruct (relays g !! h) as [st|] eqn:Hst; [|done].
  destruct (match parse text with Ok _ => _ | Throw _ => _ end) as [ok reply].
  destruct (loginCallback _ _ _ _ _ _) as [[g1 o1] [[]|]] eqn:Hl; [done|]. injection Hs as <- <- _.
  apply login_throws in Hl as [(Hr & Hp & Ha) ->]. unfold oneShort, waiting. rewrite Hr, Hp, Ha.
  cbn [relays playTickets allocating setRelays]. rewrite (countIf_delete _ (relays g) h st) by done.
  rewrite <-insert_delete_eq, countIf_insert by apply lookup_delete_eq. rewrite (Hn _ _ Hst). cbn [relayDone negb andb].
  unfold answers. simpl. destruct (Z.eqb (callbackCon st) con); lia.
Qed.

Lemma throws_gone h g g' out what con :
  relayGone h g = (g', out, Throw what) → oneShort con 0 g g' out.
Proof.
  intros Hs. unfold relayGone in Hs. destruct (relays g !! h) as [st|]; [|done]. destruct (relayDone st); [done|].
  destruct (loginCallback _ _ _ _ _ _) as [[g1 o1] [[]|]] eqn:Hl; [done|]. injection Hs as <- <- _.
  apply login_throws in Hl as [Hw ->]. by apply short_same; [lia|].
Qed.

Lemma throws_side event side g g' out what :
  resolveSide event side g = (g', out, Throw what) → g' = g ∧ out = [].
Proof.
  unfold resolveSide. destruct (jStr _ _) as [t|]; [|by intros [= <- <-]].
  destruct (playTickets g !! t) as [c|]; [|done]. destruct (_ ≫= _) as [[r s]|]; [|by intros [= <- <-]].
  destruct (respond _ _ _ _) as [[g1 o1] [[]|]] eqn:Hr; [done|]. intros [= <- <- _]. by apply respond_throws in Hr.
Qed.

Lemma throws_assigned event g g' out what con :
  onAssigned event g = (g', out, Throw what) → noneDone g → oneShort con 0 g g' out.
Proof.
  intros Hs Hn. unfold onAssigned in Hs. destruct (resolveSide event "A" g) as [[g1 o1] [[]|]] eqn:H1.
  - destruct (resolveSide event "B" g1) as [[g2 o2] r2] eqn:H2. injection Hs as <- <- ->.
    apply throws_side in H2 as [-> ->]. rewrite app_nil_r.
    destruct (step_side _ _ _ _ _ con H1 Hn) as [B1 _]. unfold balanced in B1. unfold oneShort. lia.
  - injection Hs as <- <- _. apply throws_side in H1 as [-> ->]. by apply short_same; [lia|].
Qed.

Lemma throws_timeout event g g' out what con : onTimeout event g = (g', out, Throw what) → oneShort con 0 g g' out.
Proof.
  intros Hs. assert (g' = g ∧ out = []) as [-> ->]; [|by apply short_same; [lia|]].
  unfold onTimeout in Hs. destruct (jStr _ _) as [t|]; [|by injection Hs as <- <-].
  destruct (playTickets g !! t) as [c|]; [|done]. destruct (respond _ _ _ _) as [[g1 o1] [[]|]] eqn:Hr; [done|].
  injection Hs as <- <- _. by apply respond_throws in Hr.
Qed.

Lemma throws_allocated c reply g g' out what con :
  onAllocated c reply g = (g', out, Throw what) → c ∈ (allocating g).*1 → oneShort con 0 g g' out.
Proof.
  intros Hs Hin. set (g1 := setAllocating (removeFirst c (allocating g)) g).
  assert (g' = g1 ∧ out = []) as [-> ->].
  { unfold onAllocated in Hs. fold g1 in Hs. destruct reply as [reply|]; [|by apply respond_throws in Hs].
    destruct (jValue getBool _ _ _) as [[]|]; [|by apply respond_throws in Hs|by injection Hs as <- <-].
    destruct (m ← _; _) as [[[m n] s]|]; [by apply respond_throws in Hs|by injection Hs as <- <-]. }
  pose proof (removeFirst_count con c (allocating g) Hin) as Hc.
  unfold oneShort, g1, waiting, answers. cbn [relays playTickets allocating setAllocating]. simpl.
  destruct (c =? con); lia.
Qed.

Lemma apiStep_throws e g g' out what con :
  apiStep e g = (g', out, Throw what) → noneDone g → freshApi e g → oneShort con (asked con e) g g' out.
Proof.
  destruct e as [c method uri body env|h|h text t|h|event|event|c reply]; cbn [apiStep asked].
  - intros Hs _ _. by eapply throws_http.
  - unfold relayOpen. by destruct (relays g !! h).
  - intros. by eapply throws_message.
  - intros. by eapply throws_gone.
  - intros. by eapply throws_assigned.
  - intros. by eapply throws_timeout.
  - intros. by eapply throws_allocated.
Qed.

(** The life of the gateway: handlers that return.  One that throws is the last. *)
Inductive api_run (s : S) : list ApiEvent → Api → list ApiOut → Prop :=
  | api_nil : api_run s [] (newApi s) []
  | api_snoc es g outs e g' out : api_run s es g outs → freshApi e g → apiStep e g = (g', out, Ok tt) →
      api_run s (es ++ [e]) g' (outs ++ out).

(** C14 Every request is answered once: however requests, relays, matches, timeouts
    and allocations interleave, as long as no handler has thrown, the answers a
    connection was given and the places its requests wait in together are the
    requests it made — so a request that is no longer waiting was answered, and
    none is answered twice.  When a handler throws, which ends the gateway, still
    nothing was answered twice, and of the requests a connection made at most the
    one that the event concerned is neither answered nor waiting. *)
Theorem requests_answered_once s es g outs con :
  api_run s es g outs →
  (answers con outs + waiting con g = sum_list (asked con <$> es))%nat ∧
  ∀ e g' out what, freshApi e g → apiStep e g = (g', out, Throw what) →
    (answers con (outs ++ out) + waiting con g' ≤ sum_list (asked con <$> es ++ [e])
       ≤ answers con (outs ++ out) + waiting con g' + 1)%nat.
Proof.
  intros Hr. assert ((answers con outs + waiting con g = sum_list (asked con <$> es))%nat ∧ noneDone g) as [Hsum Hn].
  - induction Hr as [|es g outs e g' out _ [IH Hn] Hf Hs].
    + split; [done|]. intros h st. unfold newApi; simpl. by rewrite lookup_empty.
    + destruct (apiStep_balanced e g g' out con Hs Hn Hf) as [Hb Hn']. split; [|done].
      rewrite answers_app, fmap_app, sum_list_with_app. simpl. unfold balanced in Hb. lia.
  - split; [done|]. intros e g' out what Hf Hs. pose proof (apiStep_throws e g g' out what con Hs Hn Hf) as Hb.
    rewrite answers_app, fmap_app, sum_list_with_app. simpl. unfold oneShort in Hb. lia.
Qed.
End Answers.

(** ** Logging in and playing *)
Section Login.
Context `{HI : HashIter} `{JT : JsonText} {U : Type} `{US : UserStore U} {S : Type} `{SS : !ClientSessionStore S}.
Variable reconnectStore : bool.
Variable sessionStore : option (string → option (string * Z)).
Variable nats : bool.
Notation Api := (ApiGateway S).

Definition loginPayload (username password : string) : json :=
  jObj [("username", JString username); ("password", JString password)].

(** What a shard answers to the relayed login. *)
Definition shardReply (r : LoginResult) : json :=
  JObject [("elo", JInt (lr_elo r)); ("message", JString (lr_message r)); ("success", JBool (lr_success r)); ("type", JString "LOGIN")].

Lemma router_login : findHandler Login (router sessionStore) = Some HLogin.
Proof. unfold router. by destruct sessionStore. Qed.

Lemma shard_login hd username password (v : Server U) us r :
  utf8 username = true → utf8 password = true → utf8 (lr_message r) = true →
  login username password (users v) = (us, r) →
  ∃ v' env, MessageCodec.encode (mkMessage Login (loginPayload username password)) = Ok env ∧
    process reconnectStore sessionStore nats hd env v = (v', [], Ok (dump (shardReply r))).
Proof.
  intros Hu Hp Hm Hl.
  destruct (message_decodes (mkMessage Login (loginPayload username password))) as (env & He & Hd).
  { apply jsonText_obj. cbn [forallb fst snd jsonText]. by rewrite Hu, Hp, !utf8_ascii7. }
  unfold process, processJson. eexists _, env. split; [done|]. rewrite Hd. cbn [msg_type payload].
  rewrite router_login. cbn [Server.handle]. unfold handleLogin, loginPayload. jfields. cbn [getString mbind result_bind].
  rewrite Hl. cbn [jContains]. rewrite jContains_obj. cbn [findField String.eqb Ascii.eqb Bool.eqb].
  rewrite bool_decide_eq_false_2 by (by intros [? ?]).
  change (MessageCodec.typeName Login) with (Ok "LOGIN" : result string). rewrite result_bind_Ok.
  change (jSet "type" (JString "LOGIN") (jObj [("success", JBool (lr_success r)); ("message", JString (lr_message r)); ("elo", JInt (lr_elo r))]))
    with (Ok (shardReply r)).
  unfold dumpR, shardReply. cbn [jsonStrings forallb fst snd]. by rewrite Hm, !utf8_ascii7.
Qed.

Lemma dump_ok (j : json) : jsonStrings utf8 j = true → dumpR j = Ok (dump j).
Proof. unfold dumpR. by intros ->. Qed.

Lemma reply_opens h con username tk r env (g : Api) :
  utf8 username = true → utf8 (lr_message r) = true → utf8 tk = true → int_range (lr_elo r) →
  relays g !! h = Some (mkRelay env con username false) →
  if lr_success r
  then ∃ g1 body, relayMessage h (dump (shardReply r)) tk g = (g1, [Respond con 200 body; RelayClose h], Ok tt) ∧
         sessGet tk (sessions g1) = Some (username, lr_elo r)
  else ∃ g1 body, relayMessage h (dump (shardReply r)) tk g = (g1, [Respond con 401 body; RelayClose h], Ok tt) ∧
         sessions g1 = sessions g.
Proof.
  intros Hu Hm Ht He Hrel. unfold relayMessage. rewrite Hrel. cbn [outgoing callbackCon callbackUser].
  assert (jsonText utf8 (shardReply r) = true) as Htext
    by (unfold shardReply; cbn [jsonText forallb fst snd]; by rewrite Hm, !utf8_ascii7).
  rewrite parse_dump by done. unfold loginCallback, respond. cbn [negb].
  destruct (lr_success r) eqn:Hs; unfold shardReply at 1; cbn [jValue findField String.eqb Ascii.eqb Bool.eqb getBool]; rewrite Hs.
  - cbn [jValue shardReply findField String.eqb Ascii.eqb Bool.eqb getString]. rewrite getInt_JInt by done.
    rewrite dump_ok by (apply jsonStrings_obj; cbn [forallb fst snd jsonStrings]; by rewrite Hm, Ht, !utf8_ascii7).
    eexists _, _. split; [done|]. cbn [sessions setRelays]. by apply sessGet_put.
  - rewrite dump_ok by (unfold shardReply; cbn [jsonStrings forallb fst snd]; by rewrite Hm, !utf8_ascii7).
    eexists _, _. split; [done|]. done.
Qed.

(** C29 Logging in, end to end: the shard the gateway relays a login to answers it,
    and the gateway then gives the client a token exactly when the users table
    accepted the name and password; the token stands for that user with that
    rating — a request to play with it asks the matchmaker for a match for this
    user — and a refused login leaves every session as it was. *)
Theorem login_end_to_end hd username password (v : Server U) us r con h tk (g : Api) :
  utf8 username = true → utf8 password = true → utf8 (lr_message r) = true → utf8 tk = true → int_range (lr_elo r) →
  login username password (users v) = (us, r) →
  ∃ env v' text,
    MessageCodec.encode (mkMessage Login (loginPayload username password)) = Ok env ∧
    process reconnectStore sessionStore nats hd env v = (v', [], Ok text) ∧
    (relays g !! h = Some (mkRelay env con username false) →
     ∃ g1 body, relayMessage h text tk g = (g1, [Respond con (if lr_success r then 200 else 401) body; RelayClose h], Ok tt) ∧
       if lr_success r
       then ∀ con2 request ae, jValue getString "token" "" request = Ok tk →
         (postPlay con2 request ae g1).1.2 = [PublishNats "matchmaking.request"
           (jObj [("ticketId", JString (token ae)); ("username", JString username); ("elo", JInt (lr_elo r))])]
       else sessions g1 = sessions g).
Proof.
  intros Hu Hp Hm Ht He Hl. destruct (shard_login hd username password v us r Hu Hp Hm Hl) as (v' & env & Henc & Hproc).
  exists env, v', (dump (shardReply r)). split_and!; [done..|]. intros Hrel.
  pose proof (reply_opens h con username tk r env g Hu Hm Ht He Hrel) as Ho.
  destruct (lr_success r); destruct Ho as (g1 & body & Ho & Hs); exists g1, body; (split; [done|]); [|done].
  intros con2 request ae Hreq. unfold postPlay. by rewrite Hreq, Hs.
Qed.

(** A token is needed: without a session behind the token that a request
    carries, creating a room, playing and joining are answered 401, and nothing
    else happens. *)
Theorem token_required con uri body ae (g : Api) request t :
  (if String.eqb body "" then Ok jEmpty else parse body) = Ok request →
  uri = "/rooms" ∨ uri = "/play" ∨ extractJoinRoomName uri ≠ "" →
  jValue getString "token" "" request = Ok t → (∃ n, jValue getString "name" "" request = Ok n) →
  sessGet t (sessions g) = None →
  httpHandler con "POST" uri body ae g = respond con 401 (answer false "invalid or expired token") g.
Proof.
  intros Hreq Huri Ht [n Hn] Hs. unfold httpHandler. rewrite Hreq. cbn zeta. cbn [String.eqb Ascii.eqb Bool.eqb andb].
  assert (String.eqb uri "/login" = false) as ->.
  { destruct (String.eqb_spec uri "/login") as [->|]; [|done]. by destruct Huri as [?|[?|Hx]]. }
  destruct (String.eqb_spec uri "/rooms") as [->|Hr].
  { unfold postRooms. by rewrite Ht, result_bind_Ok, Hn, result_bind_Ok, Hs. }
  destruct (String.eqb_spec uri "/play") as [->|Hpl]; [unfold postPlay; by rewrite Ht, Hs|].
  destruct Huri as [?|[?|Hj]]; [done..|]. destruct (String.eqb_spec (extractJoinRoomName uri) ""); [done|].
  cbn [negb]. unfold postJoin. by rewrite Ht, Hs.
Qed.

(** A body that is JSON but no object makes the handler throw: the exception
    leaves [io.run()] and with it the process. *)
Lemma login_body_crashes con body ae (g : Api) :
  body ≠ "" → parse body = Ok (JArray []) →
  httpHandler con "POST" "/login" body ae g = (g, [], Throw "[json.exception.type_error.306] cannot use value() with array").
Proof. intros Hb Hp. unfold httpHandler. destruct (String.eqb_spec body ""); [done|]. by rewrite Hp. Qed.
End Login.
