(* ===== verification/Tokens.v ===== *)
(** * Tokens ([makeToken] of [gateway/ApiGateway])

    A session's token and a ticket of POST [/play] are two 64-bit random numbers
    in hexadecimal.  The numbers are arguments; that no two draws are the same is
    what the gateway relies on. *)
From S2P Require Import Prelude Text Scan Double Json Matchmaking Codecs Registry Stores Server WsGateway ApiGateway.
#[local] Open Scope Z_scope.

Definition hexChar (d : Z) : Ascii.ascii := Ascii.ascii_of_nat (Z.to_nat (if d <? 10 then 48 + d else 87 + d)).

(** [std::hex]: the digits of an unsigned number, without leading zeros. *)
Fixpoint hexDigits (fuel : nat) (n : Z) (acc : string) : string :=
  match fuel with
  | O => acc
  | S fuel =>
    let acc := String (hexChar (n mod 16)) acc in
    if n / 16 =? 0 then acc else hexDigits fuel (n / 16) acc
  end.
Definition hex (n : Z) : string := hexDigits 16 n "".

(** [std::setfill('0')], [std::setw] *)
Fixpoint zeros (n : nat) : string := match n with O => "" | S n => String (hexChar 0) (zeros n) end.
Definition setw (w : nat) (s : string) : string := zeros (w - String.length s) +:+ s.

Definition makeToken (a b : Z) : string := setw 16 (hex a) +:+ setw 16 (hex b).

Definition uint64 (n : Z) : Prop := 0 ≤ n < 2 ^ 64.

(** ** A token stands for its numbers *)

Definition hexValue (c : Ascii.ascii) : Z :=
  let n := Z.of_nat (Ascii.nat_of_ascii c) in if n <? 58 then n - 48 else n - 87.
Fixpoint valueFrom (acc : Z) (s : string) : Z :=
  match s with EmptyString => acc | String c s => valueFrom (acc * 16 + hexValue c) s end.

Lemma hexChar_spec d : 0 ≤ d < 16 → hexValue (hexChar d) = d ∧ ascii7 (String (hexChar d) "") = true.
Proof.
  intros Hd. assert (Forall (λ d, hexValue (hexChar d) = d ∧ ascii7 (String (hexChar d) "") = true) (seqZ 0 16)) as Hall
    by repeat constructor.
  rewrite Forall_forall in Hall. apply Hall, elem_of_seqZ. lia.
Qed.

Lemma ascii7_app s t : ascii7 (s +:+ t) = ascii7 s && ascii7 t.
Proof. apply allChars_app. Qed.

Lemma hexDigits_spec fuel n acc :
  0 ≤ n < 16 ^ Z.of_nat fuel → ascii7 acc = true →
  valueFrom 0 (hexDigits fuel n acc) = valueFrom n acc ∧
  (String.length (hexDigits fuel n acc) ≤ fuel + String.length acc)%nat ∧ ascii7 (hexDigits fuel n acc) = true.
Proof.
  revert n acc. induction fuel as [|fuel IH]; intros n acc Hn Ha.
  { assert (n = 0) as -> by (simpl in Hn; lia). by simpl. }
  rewrite Nat2Z.inj_succ, Z.pow_succ_r in Hn by lia. simpl.
  pose proof (Z.mod_pos_bound n 16 ltac:(lia)) as Hm. pose proof (Z.div_mod n 16 ltac:(lia)) as Hdm.
  destruct (hexChar_spec (n mod 16) Hm) as [Hv Hc].
  assert (ascii7 (String (hexChar (n mod 16)) acc) = true) as Ha'.
  { change (String ?c acc) with (String c "" +:+ acc). by rewrite ascii7_app, Hc. }
  destruct (Z.eqb_spec (n / 16) 0) as [E|E].
  - simpl. rewrite Hv. split_and!; [f_equal; lia|lia|done].
  - destruct (IH (n / 16) (String (hexChar (n mod 16)) acc)) as (H1 & H2 & H3); [|done|].
    { split; [apply Z.div_pos; lia|]. apply Z.div_lt_upper_bound; lia. }
    rewrite H1. simpl in H2 |- *. rewrite Hv. split_and!; [f_equal; lia|lia|done].
Qed.

Lemma zeros_spec n s : valueFrom 0 (zeros n +:+ s) = valueFrom 0 s ∧ String.length (zeros n) = n ∧ ascii7 (zeros n) = true.
Proof. induction n as [|n (IH1 & IH2 & IH3)]; [done|]. split_and!; [exact IH1|simpl; by rewrite IH2|exact IH3]. Qed.

Lemma number_spec n : uint64 n →
  String.length (setw 16 (hex n)) = 16%nat ∧ valueFrom 0 (setw 16 (hex n)) = n ∧ ascii7 (setw 16 (hex n)) = true.
Proof.
  intros Hn. destruct (hexDigits_spec 16 n "") as (Hv & Hl & Ha); [exact Hn|done|]. fold (hex n) in *.
  unfold setw. destruct (zeros_spec (16 - String.length (hex n)) (hex n)) as (Hz & Hz' & Hz'').
  rewrite length_append, Hz', Hz, Hv, ascii7_app, Hz'', Ha. simpl in Hl. split_and!; [lia|done..].
Qed.

Lemma append_inj_length s1 s2 t1 t2 :
  String.length s1 = String.length s2 → s1 +:+ t1 = s2 +:+ t2 → s1 = s2 ∧ t1 = t2.
Proof.
  revert s2. induction s1 as [|c s1 IH]; intros [|d s2]; simpl; try done.
  intros [= Hl]. rewrite !string_app_cons. intros [= -> Ht]. destruct (IH s2 Hl Ht) as [-> ->]. done.
Qed.

Lemma token_inj a b a' b' :
  uint64 a → uint64 b → uint64 a' → uint64 b' → makeToken a b = makeToken a' b' → a = a' ∧ b = b'.
Proof.
  intros Ha Hb Ha' Hb' Heq. destruct (number_spec a Ha) as (L1 & V1 & _), (number_spec b Hb) as (_ & V2 & _).
  destruct (number_spec a' Ha') as (L3 & V3 & _), (number_spec b' Hb') as (_ & V4 & _).
  apply append_inj_length in Heq as [E1 E2]; [|congruence]. split; [by rewrite <-V1, E1|by rewrite <-V2, E2].
Qed.

(** A token has thirty-two plain characters. *)
Lemma token_text a b : uint64 a → uint64 b → String.length (makeToken a b) = 32%nat ∧ ascii7 (makeToken a b) = true.
Proof.
  intros Ha Hb. destruct (number_spec a Ha) as (L1 & _ & A1), (number_spec b Hb) as (L2 & _ & A2).
  unfold makeToken. by rewrite length_append, ascii7_app, L1, L2, A1, A2.
Qed.

(** ** The tickets of a gateway *)
Section Tickets.
Context `{JT : JsonText} {S : Type} `{SS : !ClientSessionStore S}.
Notation Api := (ApiGateway S).
Implicit Types g : Api.

(** The ticket a step may add. *)
Definition minted (e : ApiEvent) : option string := match e with AHttp _ _ _ _ env => Some (token env) | _ => None end.
Definition onlyMints (t : option string) (g g' : Api) : Prop :=
  ∀ k, is_Some (playTickets g' !! k) → is_Some (playTickets g !! k) ∨ t = Some k.

Lemma mints_same t g g' : playTickets g' = playTickets g → onlyMints t g g'.
Proof. intros E k. rewrite E. by left. Qed.
Lemma mints_respond t c st b g g' out : respond c st b g = (g', out, Ok tt) → onlyMints t g g'.
Proof. intros [-> _]%respond_inv. by apply mints_same. Qed.
Lemma mints_login t c u tk ok reply g g' out : loginCallback c u tk ok reply g = (g', out, Ok tt) → onlyMints t g g'.
Proof. intros [(_ & E & _) _]%login_inv. by apply mints_same. Qed.
Lemma mints_delete t k g g1 : playTickets g1 = playTickets g → onlyMints t g (setPlayTickets (delete k (playTickets g1)) g1).
Proof.
  intros E k' [c Hk]. cbn [playTickets setPlayTickets] in Hk. apply lookup_delete_Some in Hk as [_ Hk]. left. rewrite <-E. by exists c.
Qed.
Lemma mints_trans g g1 g2 : onlyMints None g g1 → onlyMints None g1 g2 → onlyMints None g g2.
Proof. intros H1 H2 k Hk. destruct (H2 k Hk) as [Hk1|]; [by apply H1|done]. Qed.

Hint Resolve mints_respond mints_login mints_same mints_delete : core.

Lemma mints_http c m uri body env g g' out :
  httpHandler c m uri body env g = (g', out, Ok tt) → onlyMints (Some (token env)) g g'.
Proof.
  unfold httpHandler. destruct (if String.eqb body "" then _ else _) as [request|]; [|by eauto]. cbn zeta.
  destruct (_ && String.eqb uri "/login").
  { unfold postLogin. destruct (_ ≫= _) as [[u p]|]; [|done]. destruct (pickShard (liveNow env) g) as [g1 shard] eqn:Hp.
    assert (playTickets g1 = playTickets g) as E by (unfold pickShard in Hp; destruct (liveNow env); by injection Hp as <- _).
    unfold onlyMints. rewrite <-E. fold (onlyMints (Some (token env)) g1 g'). destruct shard as [shard|]; [|by eauto].
    unfold relayToShard. destruct (getConnection env shard) as [h|]; [|by eauto].
    destruct (dumpR _) as [text|]; [|done]. intros [= <- _]. by apply mints_same. }
  destruct (_ && String.eqb uri "/rooms").
  { unfold postRooms. destruct (_ ≫= _) as [[t n]|]; [|done]. destruct (sessGet t _); [|by eauto]. intros [= <- _]. by apply mints_same. }
  destruct (_ && String.eqb uri "/play").
  { unfold postPlay. destruct (jValue _ _ _ _) as [t|]; [|done]. destruct (sessGet t _) as [[u e]|]; [|by eauto].
    intros [= <- _] k [x Hk]. cbn [playTickets setPlayTickets] in Hk.
    apply lookup_insert_Some in Hk as [[-> _]|[_ Hk]]; [by right|left; by exists x]. }
  destruct (_ && negb _).
  { unfold postJoin. destruct (jValue _ _ _ _) as [t|]; [|done]. destruct (sessGet t _) as [[u e]|]; [|by eauto].
    cbn zeta. destruct (String.eqb _ _); by eauto. }
  destruct (_ && String.eqb uri "/health"); [by eauto|].
  destruct (_ && String.eqb uri "/metrics"); [intros [= <- _]; by apply mints_same|].
  destruct (_ && String.eqb uri "/rooms"); [by eauto|]. destruct (_ && String.eqb uri "/history"); by eauto.
Qed.

Lemma mints_side event side g g' out : resolveSide event side g = (g', out, Ok tt) → onlyMints None g g'.
Proof.
  unfold resolveSide. destruct (jStr _ _) as [t|]; [|done]. destruct (playTickets g !! t); [|intros [= <- _]; by apply mints_same].
  destruct (_ ≫= _) as [[r s]|]; [|done]. destruct (respond _ _ _ _) as [[g1 o1] [[]|]] eqn:Hr; [|done].
  intros [= <- _]. apply respond_inv in Hr as [-> _]. by apply mints_delete.
Qed.

Lemma mints_relay h g g1 g' : onlyMints None (setRelays h g) g1 → playTickets g' = playTickets g1 → onlyMints None g g'.
Proof. intros H E k. rewrite E. apply H. Qed.

Lemma mints_step e g g' out : apiStep e g = (g', out, Ok tt) → onlyMints (minted e) g g'.
Proof.
  destruct e as [c m uri body env|h|h text t|h|event|event|c reply]; cbn [apiStep minted].
  - apply mints_http.
  - unfold relayOpen. destruct (relays g !! h); intros [= <- _]; by apply mints_same.
  - unfold relayMessage. destruct (relays g !! h) as [st|]; [|intros [= <- _]; by apply mints_same].
    destruct (match parse text with Ok _ => _ | Throw _ => _ end) as [ok reply].
    destruct (loginCallback _ _ _ _ _ _) as [[g1 o1] [[]|]] eqn:Hl; [|done]. intros [= <- _].
    apply (mints_login None) in Hl. by eapply mints_relay.
  - unfold relayGone. destruct (relays g !! h) as [st|]; [|intros [= <- _]; by apply mints_same].
    destruct (relayDone st); [intros [= <- _]; by apply mints_same|].
    destruct (loginCallback _ _ _ _ _ _) as [[g1 o1] [[]|]] eqn:Hl; [|done]. intros [= <- _]. exact (mints_login None _ _ _ _ _ _ _ _ Hl).
  - unfold onAssigned. destruct (resolveSide event "A" g) as [[g1 o1] [[]|]] eqn:H1; [|done].
    destruct (resolveSide event "B" g1) as [[g2 o2] r2] eqn:H2. intros [= <- _ ->].
    eapply mints_trans; eapply mints_side; eassumption.
  - unfold onTimeout. destruct (jStr _ _) as [t|]; [|done]. destruct (playTickets g !! t); [|intros [= <- _]; by apply mints_same].
    destruct (respond _ _ _ _) as [[g1 o1] [[]|]] eqn:Hr; [|done]. intros [= <- _].
    apply respond_inv in Hr as [-> _]. by apply mints_delete.
  - unfold onAllocated. set (g1 := setAllocating _ g). assert (playTickets g1 = playTickets g) as E by done.
    unfold onlyMints. rewrite <-E. fold (onlyMints None g1 g'). destruct reply as [reply|]; [|by eauto].
    destruct (jValue getBool _ _ _) as [[]|]; [|by eauto|done]. destruct (m ← _; _) as [[[m n] s]|]; [|done]. by eauto.
Qed.

(** A run whose requests draw their tokens, never twice the same. *)
Inductive drawn_run (s : S) : list (Z * Z) → list ApiEvent → Api → list ApiOut → Prop :=
  | drawn_nil : drawn_run s [] [] (newApi s) []
  | drawn_http ds es g outs c m uri body env a b g' out :
      drawn_run s ds es g outs → uint64 a → uint64 b → (a, b) ∉ ds → token env = makeToken a b →
      (∀ uri h, getConnection env uri = Some h → relays g !! h = None) →
      apiStep (AHttp c m uri body env) g = (g', out, Ok tt) →
      drawn_run s ((a, b) :: ds) (es ++ [AHttp c m uri body env]) g' (outs ++ out)
  | drawn_other ds es g outs e g' out :
      drawn_run s ds es g outs → minted e = None → freshApi e g → apiStep e g = (g', out, Ok tt) →
      drawn_run s ds (es ++ [e]) g' (outs ++ out).

Definition tickets_drawn (ds : list (Z * Z)) (g : Api) : Prop :=
  ∀ k, is_Some (playTickets g !! k) → ∃ a b, (a, b) ∈ ds ∧ uint64 a ∧ uint64 b ∧ k = makeToken a b.

(** Random tokens are tickets enough: in a run whose requests draw their
    tokens, and never the same two numbers twice, no ticket that is still waiting
    is handed out again, which is what a run of the gateway asks of its tickets. *)
Theorem draws_suffice s ds es g outs : drawn_run s ds es g outs → api_run s es g outs ∧ tickets_drawn ds g.
Proof.
  induction 1 as [|ds es g outs c m uri body env a b g' out _ [IH Ht] Ha Hb Hnew Htok Hf Hs|ds es g outs e g' out _ [IH Ht] Hm Hf Hs].
  - split; [constructor|]. intros k [x Hx]. unfold newApi in Hx; simpl in Hx. by rewrite lookup_empty in Hx.
  - split.
    + econstructor; [exact IH| |exact Hs]. split; [|exact Hf]. apply eq_None_not_Some. intros Hin.
      destruct (Ht _ Hin) as (a' & b' & Hd & Ha' & Hb' & E). rewrite Htok in E.
      apply Hnew. by apply token_inj in E as [-> ->].
    + intros k Hk. destruct (mints_step _ _ _ _ Hs k Hk) as [Hk'|[= <-]].
      * destruct (Ht k Hk') as (a' & b' & Hd & ?). exists a', b'. split; [by right|done].
      * exists a, b. split_and!; [by left|done..].
  - split; [by econstructor|]. intros k Hk. destruct (mints_step _ _ _ _ Hs k Hk) as [Hk'|Hk']; [by apply Ht|congruence].
Qed.
End Tickets.
