(* ===== verification/History.v ===== *)
(** * From a finished game to the history page

    The shard's [GameHistoryService], the Postgres repository and the API
    gateway's GET [/history] composed: what is published when games end is what
    the page shows. *)
From S2P Require Import Prelude Model Text Scan Double Rules Motion Arbiter Engine Json Observers Codecs Session Registry Stores BoardIO Server Users Postgres WsGateway ApiGateway.
#[local] Open Scope Z_scope.

Lemma Forall_filter {A} (P Q : A → Prop) `{!∀ x, Decision (P x)} (l : list A) : Forall Q l → Forall Q (filter P l).
Proof. rewrite !Forall_forall. intros Hl x [_ Hx]%list_elem_of_filter. by apply Hl. Qed.

Section History.
Context `{GamesTable} {U : Type} {S : Type} `{SS : !ClientSessionStore S}.

(** A finished game: when its result is published, and in which room. *)
Record Ended := mkEnded { en_time : Z; en_room : string; en_result : GameResult }.

(** What the outputs of the service do to the table. *)
Fixpoint insertAll (now : Z) (out : list ServerOut) (t : list GameRow) : result (list GameRow) :=
  match out with
  | [] => Ok t
  | RecordGame r :: out => t ← recordGame true now r t; insertAll now out t
  | _ :: out => insertAll now out t
  end.

(** Results published one after the other: the session encodes, the service
    decodes and records. *)
Fixpoint endGames (v : Server U) (es : list Ended) (t : list GameRow) : result (Server U * list GameRow) :=
  match es with
  | [] => Ok (v, t)
  | e :: es =>
    data ← ResultCodec.encode (en_result e);
    let '(v, out, r) := onGameEndedHistory true (en_room e) data v in
    t ← insertAll (en_time e) out t;
    match r with Ok _ => endGames v es t | Throw what => Throw what end
  end.

(** ** What is recorded *)
Definition recordOf (e : Ended) : GameRecord :=
  mkRecord (en_room e) (winnerUsername (en_result e)) (winnerElo (en_result e)) (loserUsername (en_result e)) (loserElo (en_result e))
    (match gr_reason (en_result e) with KingCapture => "KingCapture" | Disconnect => "Disconnect" end) (gr_moveLog (en_result e)).
(** Both seats were taken. *)
Definition bothNamed (e : Ended) : Prop := winnerUsername (en_result e) ≠ "" ∧ loserUsername (en_result e) ≠ "".

(** A result that has a winner, and texts that can be stored and sent. *)
Record endable (e : Ended) : Prop := {
  ea_winner : gr_winner (en_result e) ≠ NoColor;
  ea_storable : storable (recordOf e);
  ea_text : utf8 (en_room e) = true ∧ utf8 (winnerUsername (en_result e)) = true ∧ utf8 (loserUsername (en_result e)) = true
}.

Definition kept (es : list Ended) : list (Z * GameRecord) := map (λ e, (en_time e, recordOf e)) (filter bothNamed es).

Lemma endGames_records v es t :
  Forall endable es → ∃ t', recordAll (kept es) t = Ok t' ∧ endGames v es t = Ok (v, t').
Proof.
  intros Hes. revert t. induction Hes as [|e es He Hes IH]; intros t; [by exists t|].
  destruct He as [Hw Hst Hu]. destruct (gameResult_encodes (en_result e) Hw) as (data & Henc & Hdec); [apply Hst..|].
  simpl. rewrite Henc, result_bind_Ok. unfold onGameEndedHistory. simpl. rewrite Hdec. unfold kept. rewrite filter_cons.
  destruct (String.eqb_spec (winnerUsername (en_result e)) "") as [E|E].
  { rewrite decide_False by (unfold bothNamed; tauto). simpl. apply IH. }
  destruct (String.eqb_spec (loserUsername (en_result e)) "") as [E'|E'].
  { rewrite decide_False by (unfold bothNamed; tauto). simpl. apply IH. }
  rewrite decide_True by done. simpl. fold (recordOf e).
  destruct (recordGame_holds (en_time e) (recordOf e) t Hst) as (row & -> & _). rewrite !result_bind_Ok. apply IH.
Qed.

(** The page. *)
Definition historyPage (rs : list GameRecord) : json :=
  jObj [("success", JBool true); ("games", JArray (map recordJson rs))].

Lemma page_strings rs :
  Forall (λ r, jsonStrings utf8 (recordJson r) = true) rs → jsonStrings utf8 (historyPage rs) = true.
Proof.
  intros Hrs. unfold historyPage. apply jsonStrings_obj. cbn [forallb fst snd jsonStrings].
  rewrite !utf8_ascii7 by reflexivity. cbn [andb]. rewrite andb_true_r.
  induction Hrs as [|r rs Hr Hrs IH]; [done|]. cbn [map forallb]. by rewrite Hr, IH.
Qed.

Lemma record_strings e : endable e → jsonStrings utf8 (recordJson (recordOf e)) = true.
Proof.
  intros [_ [_ _ Hlog _] (H1 & H2 & H3)]. unfold recordJson. apply jsonStrings_obj. cbn [forallb fst snd jsonStrings recordOf
    rec_room rec_winner rec_winnerElo rec_loser rec_loserElo rec_reason rec_moveLog].
  assert (utf8 (rec_reason (recordOf e)) = true) as Hr by (simpl; destruct (gr_reason _); by apply utf8_ascii7).
  cbn [recordOf rec_reason rec_moveLog] in Hr, Hlog. by rewrite H1, H2, H3, Hr, Hlog, !utf8_ascii7 by reflexivity.
Qed.

(** C23 A finished game is on the history page: after any games have ended one
    after the other, whatever the shard was doing, GET [/history] shows the last
    fifty of those in which both seats were taken, newest first, each with its
    room, players, ratings, reason and moves; games without two players are never
    shown. *)
Theorem history_page v es con env (g : ApiGateway S) :
  Forall endable es → StronglySorted (λ a b, en_time a < en_time b) es →
  ∃ t rs, endGames v es [] = Ok (v, t) ∧ listGames true (Z.of_nat historyLimit) t = Ok rs ∧
    rs = take 50 (reverse (map recordOf (filter bothNamed es))) ∧
    (gameHistory env = Some rs →
     httpHandler con "GET" "/history" "" env g = (g, [Respond con 200 (dump (historyPage rs))], Ok tt)).
Proof.
  intros Hes Hsort. destruct (endGames_records v es [] Hes) as (t & Hrec & Hend).
  set (rs := take 50 (reverse (map recordOf (filter bothNamed es)))).
  assert (Forall endable (filter bothNamed es)) as Hes' by by apply Forall_filter.
  destruct (recordAll_holds (kept es) [] [] (Forall2_nil_2 _ _ _)) as (t' & Hrec' & Hholds).
  { unfold kept. rewrite Forall_map. eapply Forall_impl; [exact Hes'|]. by intros e []. }
  rewrite Hrec in Hrec'. injection Hrec' as <-. exists t, rs. split_and!; [done| |done|].
  - rewrite (listGames_holds (kept es) t).
    + f_equal. unfold rs, kept. f_equal. f_equal. by rewrite <-list_fmap_compose.
    + exact Hholds.
    + unfold kept. clear -Hsort. induction Hsort as [|e es Hs IH He]; [constructor|]. rewrite filter_cons. case_decide; [|done].
      simpl. constructor; [done|]. rewrite Forall_map. by apply Forall_filter.
    + done.
  - intros Henv. unfold httpHandler. simpl. unfold respond. rewrite Henv. simpl.
    assert (take historyLimit rs = rs) as ->.
    { apply take_ge. unfold rs. rewrite length_take. unfold historyLimit. lia. }
    change (jObj [("success", JBool true); ("games", JArray (map recordJson rs))]) with (historyPage rs).
    rewrite dump_ok; [done|]. apply page_strings. unfold rs. apply Forall_take, Forall_reverse, Forall_map.
    eapply Forall_impl; [exact Hes'|]. intros e. apply record_strings.
Qed.
End History.
