(* ===== verification/Process.v ===== *)
(** * The processes ([server_main], [allocator_main], [matchmaker_main],
    [api_gateway_main], [ws_gateway_main], the HTTP handlers)

    What each main reads from its environment and starts with, how it ends when it
    cannot, what a shard says of itself on the bus, and the answers to GET
    [/health] and [/metrics]. *)
From S2P Require Import Prelude Model Text Scan Double Rules Motion Arbiter ArbiterSteps Lifecycle Engine EngineSpec EngineTheorems Json Redis Matchmaking Allocator Observers Codecs Session Registry Stores BoardIO Server Users Postgres WsGateway.
#[local] Open Scope Z_scope.

(** ** The environment *)
Notation Env := (string → option string).

(** [std::atoi]; where the number does not fit the C function says nothing. *)
Definition atoi (s : string) : Z := match scanSigned (skipSpace s) with Some (n, _) => n | None => 0 end.

(** [static_cast<uint16_t>] *)
Definition toPort (z : Z) : Z := z mod 65536.

(** [envPort]: the conversion throws. *)
Definition envPort (env : Env) (name : string) (fallback : Z) : result Z :=
  match env name with Some value => n ← stoi value; Ok (toPort n) | None => Ok fallback end.

Definition envString (env : Env) (name fallback : string) : string := default fallback (env name).

(** [REDIS_PORT] as every main reads it. *)
Definition redisPort (env : Env) : Z := match env "REDIS_PORT" with Some p => atoi p | None => 6379 end.

(** ** A shard ([server_main.cpp]) *)

(** Which back ends the build has. *)
Record Build := mkBuild { have_postgres : bool; have_redis : bool; have_nats : bool }.

Inductive UserBackend := Sqlite (path : string) | Postgres (url : string).
Notation Address := (string * Z)%type.

Record ServerConfig := mkServerConfig {
  cf_users : UserBackend;
  cf_history : option string;
  cf_directory : option Address;
  cf_reconnect : option Address;
  cf_gameState : option Address;
  cf_sessions : option Address;
  cf_nats : option string;
  cf_shardAddress : string
}.

Definition kUserDbPath : string := "users.db".

Definition makeUserRepository (b : Build) (env : Env) : UserBackend :=
  match (if have_postgres b then env "DATABASE_URL" else None) with Some url => Postgres url | None => Sqlite kUserDbPath end.
Definition makeGameHistoryRepository (b : Build) (env : Env) : option string :=
  if have_postgres b then env "DATABASE_URL" else None.
(** The four stores behind [REDIS_HOST] are made alike. *)
Definition makeRedisStore (b : Build) (env : Env) : option Address :=
  if have_redis b then host ← env "REDIS_HOST"; Some (host, redisPort env) else None.
Definition makeNatsClient (b : Build) (env : Env) : option string := if have_nats b then env "NATS_URL" else None.

(** [gethostname] fails, or fills the buffer. *)
Definition deriveShardAddress (env : Env) (hostname : option string) : string :=
  match env "SHARD_ADDRESS" with
  | Some explicitAddress => explicitAddress
  | None => match hostname with None => "" | Some h => "ws://" +:+ c_str h +:+ ":9002" end
  end.

Definition serverConfig (b : Build) (env : Env) (hostname : option string) : ServerConfig :=
  mkServerConfig (makeUserRepository b env) (makeGameHistoryRepository b env) (makeRedisStore b env) (makeRedisStore b env)
    (makeRedisStore b env) (makeRedisStore b env) (makeNatsClient b env) (deriveShardAddress env hostname).

(** How a main ends; [Dies] is an exception that leaves it. *)
Inductive MainEnd (A : Type) := Runs (a : A) | Exits (status : Z) | Dies (what : string).
Arguments Runs {A}. Arguments Exits {A}. Arguments Dies {A}.

Definition guarded {A} (r : result A) : MainEnd A := match r with Ok a => Runs a | Throw _ => Exits 1 end.

(** [connects] tells of each configuration whether its clients can be made. *)
Definition serverMain (connects : ServerConfig → result unit) (b : Build) (env : Env) (hostname : option string) : MainEnd ServerConfig :=
  let config := serverConfig b env hostname in guarded (connects config ;; Ok config).

(** ** What the constructors throw *)

(** [redisConnect] gives no context, one with an error, or one that works. *)
Definition redisContext (ctx : option (option string)) : result unit :=
  match ctx with
  | None => Throw "Cannot allocate Redis context"
  | Some (Some errstr) => Throw ("Cannot connect to Redis: " +:+ errstr)
  | Some None => Ok tt
  end.
Definition natsConnection (status : option string) : result unit :=
  match status with Some text => Throw ("Cannot connect to NATS: " +:+ text) | None => Ok tt end.
Definition openUserDb (open create : option string) : result unit :=
  match open with
  | Some errmsg => Throw ("Cannot open user database: " +:+ errmsg)
  | None => match create with Some errMsg => Throw ("Cannot create users table: " +:+ errMsg) | None => Ok tt end
  end.

(** The services as a process finds them when it starts. *)
Record Surroundings := mkSurroundings {
  redisAt : Address → option (option string);
  natsAt : string → option string;
  postgresAt : string → option string;
  usersTable : CreateEnd;
  gamesTable : CreateEnd;
  sqliteOpen : option string;
  sqliteCreate : option string
}.

Definition whenSome {A} (f : A → result unit) (o : option A) : result unit := match o with Some a => f a | None => Ok tt end.

(** The objects of a shard in the order they are made. *)
Definition serverConnects (w : Surroundings) (c : ServerConfig) : result unit :=
  let redis := whenSome (λ a, redisContext (redisAt w a)) in
  redis (cf_directory c) ;;
  whenSome (λ url, natsConnection (natsAt w url)) (cf_nats c) ;;
  redis (cf_reconnect c) ;;
  match cf_users c with
  | Postgres url => openRepository "users" (postgresAt w url) (usersTable w)
  | Sqlite _ => openUserDb (sqliteOpen w) (sqliteCreate w)
  end ;;
  redis (cf_sessions c) ;;
  whenSome (λ url, openRepository "games" (postgresAt w url) (gamesTable w)) (cf_history c) ;;
  redis (cf_gameState c).

Definition kHeartbeatIntervalSeconds : Z := 5.

(** [startHeartbeat]: one turn of its loop. *)
Definition heartbeatJson (shardAddress : string) (r : SessionRegistry) : json :=
  jObj [("shard", JString shardAddress); ("roomCount", JInt (Z.of_nat (length (roomNames r))))].

(** [WsServer.cpp]: a plain GET *)
Definition shardHttp {U} (uri : string) (v : Server U) : string :=
  if String.eqb uri "/metrics" then
    gaugeMetric "active_rooms" "Rooms currently open on this shard" (Z.of_nat (length (roomNames (registry v)))) +:+
    gaugeMetric "active_connections" "Logged-in WebSocket connections on this shard" (Z.of_nat (size (clients v)))
  else "OK".

(** ** The other services *)

(** [allocator_main.cpp] and [matchmaker_main.cpp] begin alike: the bus, Redis,
    and the port of the health checks. *)
Definition serviceMain (connects : string → Address → result unit) (defaultHealthPort : Z) (env : Env) : MainEnd (string * Address * Z) :=
  let natsUrl := envString env "NATS_URL" "nats://localhost:4222" in
  match env "REDIS_HOST" with
  | None => Exits 1
  | Some host =>
    let healthPort := match env "HEALTH_PORT" with Some p => toPort (atoi p) | None => defaultHealthPort end in
    guarded (connects natsUrl (host, redisPort env) ;; Ok (natsUrl, (host, redisPort env), healthPort))
  end.
Definition allocatorMain (connects : string → Address → result unit) : Env → MainEnd (string * Address * Z) := serviceMain connects 9102.
Definition matchmakerMain (connects : string → Address → result unit) : Env → MainEnd (string * Address * Z) := serviceMain connects 9101.

Definition allocatorHttp (uri : string) (a : Allocator) : string :=
  if String.eqb uri "/metrics" then
    counterMetric "allocations_total" "Rooms successfully allocated by this replica" (allocationsTotal a) +:+
    gaugeMetric "known_shard_count" "Game-server shards heard from via shard.heartbeat" (Z.of_nat (size (shardLoad a)))
  else "OK".
Definition matchmakerHttp (uri : string) (matchesFoundTotal assignmentTimeoutsTotal : Z) : string :=
  if String.eqb uri "/metrics" then
    counterMetric "matches_found_total" "Matches found by this replica" matchesFoundTotal +:+
    counterMetric "assignment_timeouts_total" "Matches whose room assignment never arrived in time" assignmentTimeoutsTotal
  else "OK".

(** [api_gateway_main.cpp]: the port and the history repository are made outside
    the [try]. *)
Definition apiGatewayMain (opensHistory : string → result unit) (connects : string → Address → result unit) (env : Env)
    : MainEnd (Z * string * Address * option string) :=
  match envPort env "API_PORT" 8081 with
  | Throw what => Dies what
  | Ok apiPort =>
    match env "REDIS_HOST" with
    | None => Exits 1
    | Some host =>
      match env "NATS_URL" with
      | None => Exits 1
      | Some natsUrl =>
        match (match env "DATABASE_URL" with Some url => opensHistory url | None => Ok tt end) with
        | Throw what => Dies what
        | Ok _ => guarded (connects natsUrl (host, redisPort env) ;; Ok (apiPort, natsUrl, (host, redisPort env), env "DATABASE_URL"))
        end
      end
    end
  end.

Definition wsGatewayMain (connects : string → result unit) (env : Env) : MainEnd (Z * string) :=
  match envPort env "GATEWAY_PORT" 8080 with
  | Throw what => Dies what
  | Ok listenPort =>
    match env "NATS_URL" with
    | None => Exits 1
    | Some natsUrl => guarded (connects natsUrl ;; Ok (listenPort, natsUrl))
    end
  end.

(** ** What holds of them *)

(** The API gateway serves, refuses with status 1, or dies: it dies exactly
    when [API_PORT] is no number, or when everything it needs is there and the
    optional history cannot be opened, which the comment says is no reason to
    refuse the other routes. *)
Theorem apiGateway_ends opensHistory connects env :
  match apiGatewayMain opensHistory connects env with
  | Runs (port, natsUrl, (host, _), history) =>
      env "REDIS_HOST" = Some host ∧ env "NATS_URL" = Some natsUrl ∧ history = env "DATABASE_URL" ∧ 0 ≤ port < 65536
  | Exits status => status = 1
  | Dies what => (∃ p, env "API_PORT" = Some p ∧ stoi p = Throw what) ∨
      (is_Some (env "REDIS_HOST") ∧ is_Some (env "NATS_URL") ∧ ∃ url, env "DATABASE_URL" = Some url ∧ opensHistory url = Throw what)
  end.
Proof.
  unfold apiGatewayMain, envPort. destruct (env "API_PORT") as [p|] eqn:Hp.
  - destruct (stoi p) as [n|e] eqn:Hn; simpl; [|left; by exists p].
    pose proof (Z.mod_pos_bound n 65536 ltac:(lia)).
    destruct (env "REDIS_HOST"); [|done]. destruct (env "NATS_URL"); [|done]. destruct (env "DATABASE_URL") as [url|].
    + destruct (opensHistory url) as [|e] eqn:Ho; [|right; split_and!; eauto]. destruct (connects _ _); [|done]. simpl. by unfold toPort.
    + destruct (connects _ _); [|done]. simpl. by unfold toPort.
  - destruct (env "REDIS_HOST"); [|done]. destruct (env "NATS_URL"); [|done]. destruct (env "DATABASE_URL") as [url|].
    + destruct (opensHistory url) as [|e] eqn:Ho; [|right; split_and!; eauto]. by destruct (connects _ _).
    + by destruct (connects _ _).
Qed.

(** A shard's stores: with Redis there are all four of them, at one address. *)
Lemma serverConfig_stores b env hostname :
  let c := serverConfig b env hostname in
  cf_reconnect c = cf_directory c ∧ cf_gameState c = cf_directory c ∧ cf_sessions c = cf_directory c ∧
  (cf_history c = match cf_users c with Postgres url => Some url | Sqlite _ => None end).
Proof. split_and!; try done. unfold serverConfig, makeGameHistoryRepository, makeUserRepository; simpl. by destruct (have_postgres b), (env "DATABASE_URL"). Qed.

(** A table is there when it could be created, or another process was first. *)
Definition tableThere (e : CreateEnd) : Prop :=
  match e with Created => True | CreateFailed state _ => state = Some "42P07" ∨ state = Some "23505" end.

Lemma sqlState_is state code : code ≠ "" → String.eqb (default "" state) code = true ↔ state = Some code.
Proof. intros Hc. rewrite String.eqb_eq. destruct state as [s|]; simpl; [naive_solver|]. split; [by intros <-|done]. Qed.

Lemma openRepository_Ok table err create : openRepository table err create = Ok tt ↔ err = None ∧ tableThere create.
Proof.
  unfold openRepository. destruct err as [e|]; [split; [done|by intros []]|]. destruct create as [|state message]; simpl; [tauto|].
  rewrite <-!sqlState_is, <-orb_true_iff by done. destruct (_ || _); simpl; [tauto|]. split; [done|by intros []].
Qed.

Definition sqliteThere (w : Surroundings) : Prop := sqliteOpen w = None ∧ sqliteCreate w = None.
Definition postgresThere (w : Surroundings) (url : string) : Prop := postgresAt w url = None ∧ tableThere (usersTable w) ∧ tableThere (gamesTable w).

Lemma andThen_Ok (r : result unit) {A} (k : result A) a : (r ;; k) = Ok a ↔ r = Ok tt ∧ k = Ok a.
Proof. destruct r as [[]|]; simpl; [tauto|]. split; [done|by intros []]. Qed.
Lemma whenSome_Ok {A} (f : A → result unit) o : whenSome f o = Ok tt ↔ ∀ a, o = Some a → f a = Ok tt.
Proof. destruct o as [a|]; simpl; [|by split]. split; [by intros H ? [= <-]|by intros H; apply H]. Qed.
Lemma redisContext_Ok c : redisContext c = Ok tt ↔ c = Some None.
Proof. by destruct c as [[]|]. Qed.
Lemma natsConnection_Ok c : natsConnection c = Ok tt ↔ c = None.
Proof. by destruct c. Qed.

(** A shard starts exactly when what its environment names is there: Redis and
    NATS where they are named, Postgres where it is named and the local database
    where it is not; otherwise it ends with status 1, and it never dies. *)
Theorem server_starts w b env hostname :
  let config := serverConfig b env hostname in
  let ready := (∀ a, cf_directory config = Some a → redisAt w a = Some None) ∧
    (∀ url, cf_nats config = Some url → natsAt w url = None) ∧
    match cf_users config with Postgres url => postgresThere w url | Sqlite _ => sqliteThere w end in
  (ready → serverMain (serverConnects w) b env hostname = Runs config) ∧
  (¬ ready → serverMain (serverConnects w) b env hostname = Exits 1).
Proof.
  intros config ready. assert (serverConnects w config = Ok tt ↔ ready) as Hr.
  { unfold serverConnects. rewrite !andThen_Ok, !whenSome_Ok.
    change (cf_reconnect config) with (cf_directory config). change (cf_sessions config) with (cf_directory config).
    change (cf_gameState config) with (cf_directory config).
    setoid_rewrite redisContext_Ok. setoid_rewrite natsConnection_Ok. setoid_rewrite openRepository_Ok.
    assert (cf_history config = match cf_users config with Postgres url => Some url | Sqlite _ => None end) as ->.
    { unfold config, serverConfig, makeGameHistoryRepository, makeUserRepository; simpl. by destruct (have_postgres b), (env "DATABASE_URL"). }
    unfold ready, postgresThere, sqliteThere, openUserDb. destruct (cf_users config) as [path|url].
    - destruct (sqliteOpen w), (sqliteCreate w); naive_solver.
    - rewrite openRepository_Ok. naive_solver. }
  unfold serverMain. fold config. split; intros H.
  - by rewrite (proj2 Hr H).
  - destruct (serverConnects w config) as [[]|]; [|done]. destruct H. by apply Hr.
Qed.

(** ** The fleet: what the heartbeats tell the other services *)

(** A heartbeat: when it is heard, and the shard that sends it. *)
Record Beat := mkBeat { bt_time : Z; bt_shard : string; bt_registry : SessionRegistry }.
Definition roomsOf (b : Beat) : Z := Z.of_nat (length (roomNames (bt_registry b))).

(** An allocator hears every one of them, and so does a gateway. *)
Definition hear (w : Allocator * gmap string Z) (b : Beat) : Allocator * gmap string Z :=
  let event := heartbeatJson (bt_shard b) (bt_registry b) in
  (onHeartbeat event w.1, onShardHeartbeat (bt_time b) event w.2).
Definition fleet (beats : list Beat) : Allocator * gmap string Z := foldl hear (newAllocator, ∅) beats.

Definition lastBeat (s : string) (beats : list Beat) : option Beat := last (filter (λ b, bt_shard b = s) beats).

Lemma fleet_snoc beats b : fleet (beats ++ [b]) = hear (fleet beats) b.
Proof. unfold fleet. by rewrite foldl_app. Qed.
Lemma lastBeat_snoc s beats b : lastBeat s (beats ++ [b]) = if decide (bt_shard b = s) then Some b else lastBeat s beats.
Proof.
  unfold lastBeat. rewrite filter_app, filter_cons, filter_nil.
  by case_decide; [rewrite last_snoc|rewrite app_nil_r].
Qed.

(** The counts fit the integer they are sent as. *)
Definition counted (beats : list Beat) : Prop := Forall (λ b, roomsOf b < LLONG_MAX) beats.

Lemma hear_beat w b :
  roomsOf b < LLONG_MAX →
  hear w b = (mkAllocator (<[bt_shard b := roomsOf b]> (shardLoad w.1)) (allocationsTotal w.1), <[bt_shard b := bt_time b]> w.2).
Proof.
  intros Hb. replace (hear w b) with
    (mkAllocator (<[bt_shard b := wrap64 (roomsOf b)]> (shardLoad w.1)) (allocationsTotal w.1), <[bt_shard b := bt_time b]> w.2) by reflexivity.
  do 3 f_equal. unfold wrap64, roomsOf, LLONG_MAX in *. rewrite Z.mod_small; lia.
Qed.

Lemma fleet_heard beats s :
  counted beats →
  shardLoad (fleet beats).1 !! s = roomsOf <$> lastBeat s beats ∧ (fleet beats).2 !! s = bt_time <$> lastBeat s beats.
Proof.
  unfold counted. induction beats as [|b beats IH] using rev_ind; [done|].
  intros [Hc [Hb _]%Forall_cons]%Forall_app. destruct (IH Hc) as [IH1 IH2].
  rewrite fleet_snoc, lastBeat_snoc, hear_beat by done. cbn [fst snd shardLoad].
  case_decide as Hs; [rewrite Hs, !lookup_insert_eq|rewrite !lookup_insert_ne by done]; done.
Qed.

(** C25 What the services know of the fleet is each shard's latest heartbeat: a
    gateway routes exactly to the shards heard less than sixteen seconds ago, and
    an allocator, as long as any shard was ever heard, picks one whose latest
    count is no more than any other's. *)
Theorem fleet_view order beats now :
  (∀ l, order l ≡ₚ map_to_list l) → counted beats → lastBeat "" beats = None →
  (∀ s, s ∈ (liveShards now (fleet beats).2).2 ↔ ∃ b, lastBeat s beats = Some b ∧ now - bt_time b < 16000) ∧
  (beats ≠ [] → ∃ b, lastBeat (pickLeastLoadedShard (order (shardLoad (fleet beats).1))) beats = Some b ∧
    ∀ s b', lastBeat s beats = Some b' → roomsOf b ≤ roomsOf b').
Proof.
  intros Ho Hc Hno. split.
  - intros s. rewrite liveShards_spec. rewrite (proj2 (fleet_heard beats s Hc)). split.
    + intros (seen & Hs & Hlt). apply fmap_Some in Hs as (b & Hb & ->). by exists b.
    + intros (b & -> & Hlt). by exists (bt_time b).
  - intros Hne. destruct (pick_least (order (shardLoad (fleet beats).1)) _ (Ho _)) as [Hp1 Hp2]. cbv zeta in Hp1, Hp2.
    destruct Hp1 as (n & Hn & Hle).
    + intros He. destruct beats as [|b l _] using rev_ind; [done|].
      pose proof (fleet_heard (l ++ [b]) (bt_shard b) Hc) as [Hs _]. rewrite lastBeat_snoc, decide_True in Hs by done. simpl in Hs.
      specialize (Hp2 He _ _ Hs). rewrite lastBeat_snoc in Hno. case_decide as Hb; [done|].
      rewrite (proj1 (fleet_heard (l ++ [b]) "" Hc)), lastBeat_snoc, decide_False, Hno in Hp2 by done.
      specialize (Hp2 Hb eq_refl). apply Forall_app in Hc as [_ [Hc _]%Forall_cons]. lia.
    + rewrite (proj1 (fleet_heard beats _ Hc)) in Hn. apply fmap_Some in Hn as (b & Hb & ->). exists b. split; [done|].
      intros s b' Hs. apply (Hle s). by rewrite (proj1 (fleet_heard beats s Hc)), Hs.
Qed.

(** C26 A shard that died idle starves the matchmaking: the allocator has no
    counterpart of the gateway's sixteen seconds, so a shard whose last count was
    below every other's is asked for every match however long it has been silent,
    and every match is dropped. *)
Theorem dead_shard_starves `{Redis} order ask event beats s b now d :
  (∀ l, order l ≡ₚ map_to_list l) → counted beats → lastBeat s beats = Some b →
  (∀ s' b', s' ≠ s → lastBeat s' beats = Some b' → roomsOf b < roomsOf b') →
  bt_time b + 16000 ≤ now → (∀ j, ask (allocateSubject s) j = None) →
  s ∉ (liveShards now (fleet beats).2).2 ∧ (onMatched order ask event (fleet beats).1 d).2 = [].
Proof.
  intros Ho Hc Hb Hless Hnow Hask. split.
  { rewrite liveShards_spec, (proj2 (fleet_heard beats s Hc)), Hb. intros (seen & [= <-] & Hlt). lia. }
  assert (pickLeastLoadedShard (order (shardLoad (fleet beats).1)) = s) as Hpick.
  { destruct (lessLoaded_fold (order (shardLoad (fleet beats).1)) (LLONG_MAX, "")) as (H1 & H2 & _).
    assert (∀ k n, (k, n) ∈ order (shardLoad (fleet beats).1) ↔ roomsOf <$> lastBeat k beats = Some n) as Hin.
    { intros k n. by rewrite Ho, elem_of_map_to_list, (proj1 (fleet_heard beats k Hc)). }
    setoid_rewrite Hin in H2. rewrite Hin in H1. unfold pickLeastLoadedShard.
    specialize (H2 s (roomsOf b) ltac:(by rewrite Hb)).
    destruct H1 as [H1|[(b' & H1 & E)%fmap_Some _]].
    - rewrite H1 in H2. simpl in H2. unfold lastBeat in Hb. apply last_Some_elem_of, list_elem_of_filter in Hb as [_ Hb].
      unfold counted in Hc. rewrite Forall_forall in Hc. specialize (Hc b Hb). simpl in Hc. lia.
    - destruct (decide ((foldl lessLoaded (LLONG_MAX, "") (order (shardLoad (fleet beats).1))).2 = s)) as [|Hne]; [done|].
      specialize (Hless _ _ Hne H1). lia. }
  unfold onMatched. rewrite Hpick. destruct (String.eqb s ""); [done|].
  destruct (next kRoomCounter d) as [d' n]. destruct (w ← jStr "usernameA" event; _) as [[white black]|]; [|done].
  by rewrite Hask.
Qed.
