(* ===== verification/Scenarios.v ===== *)
(** * Concrete games

    A small board and runs on it: the theorems of the game core are applied
    to them, and some show what the rules do in the corners. *)
From S2P Require Import Prelude Model Text Rules Double Motion Collision Arrival Arbiter ArbiterSteps CollisionSpec Lifecycle Engine EngineSpec EngineTheorems Settling Overflow LoneMove Observers BoardIO.

#[local] Existing Instance sorted_iter.

(** A board with the given pieces, added as the parser adds them. *)
Definition boardOf (w h : Z) (ps : list (Z * Color * Kind * Position)) : Board :=
  foldl (λ b x, let '(id, c, k, pos) := x in addPiece b (mkPiece id c k pos Idle) pos)
    (newBoard w h) ps.

Definition properPieces (ps : list (Z * Color * Kind * Position)) : bool :=
  forallb (λ x, negb (colorEqb x.1.1.2 NoColor) && negb (kindEqb x.1.2 NoKind)) ps.

Lemma boardOf_ok w h ps : 0 ≤ w → 0 ≤ h → properPieces ps = true → board_ok (boardOf w h ps).
Proof.
  intros Hw Hh Hps. unfold boardOf. apply (foldl_ind board_ok); [by apply board_ok_newBoard|].
  intros b [[[id c] k] pos] Hx Hb. unfold properPieces in Hps. rewrite forallb_forall in Hps.
  apply list_elem_of_In, Hps in Hx. simpl in *. b2p. apply colorEqb_false in H. apply kindEqb_false in H0.
  apply board_ok_addPiece; [done..|]. unfold mkPiece.
  rewrite (proj2 (kindEqb_false _ _)) by done. unfold piece_ok; simpl. naive_solver.
Qed.

(** ** A duel

    White rook and king against black rook, knight and king. *)
Definition duel : Board :=
  boardOf 5 4 [(1, White, Rook, mkPos 0 0); (2, Black, Rook, mkPos 0 4);
               (3, Black, King, mkPos 3 4); (4, White, King, mkPos 3 0);
               (5, Black, Knight, mkPos 2 2)].

Lemma duel_ok : board_ok duel.
Proof. by apply boardOf_ok. Qed.

Definition duel0 : GameEngine := newEngine duel.

Lemma duel_new : engine_ok duel0.
Proof.
  apply newEngine_invariant; [apply duel_ok| | |].
  - apply (bool_decide_unpack _). vm_compute. exact I.
  - apply (bool_decide_unpack _). vm_compute. exact I.
  - apply Forall_forall. apply (bool_decide_unpack _). vm_compute. exact I.
Qed.

(** Both rooks start towards each other, white 300 ms earlier. *)
Definition duel1 : GameEngine := play true duel0 [CMove (mkPos 0 0) (mkPos 0 3)].
Definition duel2 : GameEngine := play true duel1 [CWait 300; CMove (mkPos 0 4) (mkPos 0 1)].

Lemma duel1_ok : engine_ok duel1.
Proof. apply engine_ok_requestMove; [done|apply duel_new|reflexivity]. Qed.

Lemma duel2_ok : engine_ok duel2.
Proof.
  apply engine_ok_requestMove; [done| |reflexivity].
  apply engine_ok_wait; [lia|apply duel1_ok].
Qed.

(** White's rook started first: it captures and slides on. *)
Example duel_captures :
  capturedIds (captured_pieces (arbiter (play true duel2 [CWait 2000]))) = [2].
Proof. vm_compute. reflexivity. Qed.

(** ** Applications of the theorems *)

Lemma validateMove_legal_witness :
  board_ok duel ∧ legal_move duel (mkPos 0 0) (mkPos 0 4) false.
Proof.
  split; [apply duel_ok|].
  apply (proj1 (validateMove_legal duel (mkPos 0 0) (mkPos 0 4) false duel_ok)). vm_compute; reflexivity.
Defined.

Lemma validateMove_reason_witness :
  validateMove duel (mkPos 0 0) (mkPos 1 1) false = mkValidation false "illegal_piece_move" ∧
  move_answer duel (mkPos 0 0) (mkPos 1 1) false (mkValidation false "illegal_piece_move").
Proof.
  split; [vm_compute; reflexivity|].
  exact (validateMove_reason duel (mkPos 0 0) (mkPos 1 1) false duel_ok).
Defined.

Lemma slideOneDirection_reaches_witness :
  let p := mkPiece 1 White Rook (mkPos 0 0) Idle in
  slideReaches duel p 0 1 false (mkPos 0 4) ∧ ¬ slideReaches duel p 0 1 false (mkPos 0 5).
Proof.
  intros p. split.
  - apply (slideOneDirection_reaches duel p 0 1 false); [right; lia|].
    apply (bool_decide_unpack _). vm_compute. exact I.
  - rewrite <-(proj2 (slideOneDirection_reaches duel p 0 1 false (mkPos 0 5) ltac:(right; lia))).
    apply (bool_decide_unpack _). vm_compute. exact I.
Defined.

Lemma tick_board_ok_witness : board_ok (board (tick true 2000 (arbiter duel2)).1).
Proof. exact (tick_board_ok true 2000 (arbiter duel2) (eng_board _ duel2_ok)). Defined.

Lemma tick_material_witness :
  material (tick true 2000 (arbiter duel2)).1 ≡ₚ material (arbiter duel2) ∧
  material (arbiter duel2) ≡ₚ [1; 2; 5; 4; 3].
Proof.
  split; [exact (tick_material true 2000 (arbiter duel2) (eng_board _ duel2_ok))|].
  apply (bool_decide_unpack _). vm_compute. exact I.
Defined.

Lemma tick_reports_witness :
  ∃ es, events (tick true 2000 (arbiter duel2)).1 = events (arbiter duel2) ++ es ∧
    captured_pieces (tick true 2000 (arbiter duel2)).1 =
      captured_pieces (arbiter duel2) ++ capturedOf es.
Proof.
  destruct (tick_reports true 2000 (arbiter duel2) (eng_board _ duel2_ok)) as (es & He & Hc & _).
  exact (ex_intro _ es (conj He Hc)).
Defined.

Definition whiteSlide : Motion := mkMotion (mkPos 0 0) (mkPos 0 3) 0 3000 1.

Lemma resolveCollisions_winner_witness :
  whiteSlide ∈ active_motions (arbiter duel2) ∧
  ¬ beaten (board (arbiter duel2)) 300 2300 (active_motions (arbiter duel2)) whiteSlide.
Proof.
  apply (resolveCollisions_winner 300 (setClock 2300 (arbiter duel2), false)
    (lc_pend _ _ _ _ (ok_life _ _ (eng_arbiter _ duel2_ok)))).
  apply (bool_decide_unpack _). vm_compute. exact I.
Defined.

Lemma applyNearMiss_spec_witness :
  let m := mkMotion (mkPos 2 2) (mkPos 0 1) 0 2000 5 in
  getPiece duel (mkPos 2 2) = Some (mkPiece 5 Black Knight (mkPos 2 2) Idle) ∧
  applyNearMiss duel [] m = Some m.
Proof.
  assert (getPiece duel (mkPos 2 2) = Some (mkPiece 5 Black Knight (mkPos 2 2) Idle)) as Hp
    by (vm_compute; reflexivity).
  split; [exact Hp|].
  exact (proj1 (applyNearMiss_spec duel [] (mkMotion (mkPos 2 2) (mkPos 0 1) 0 2000 5) _ Hp) eq_refl).
Defined.

Lemma tick_arbiter_ok_witness :
  arbiter_ok (homes (premoves duel2)) (tick true 2000 (arbiter duel2)).1.
Proof.
  refine (tick_arbiter_ok (homes (premoves duel2)) true 2000 (arbiter duel2) _ (eng_arbiter _ duel2_ok)).
  lia.
Defined.

Lemma game_settles_witness : active_motions (arbiter (play true duel2 (CWait <$> replicate 150 50))) = [].
Proof.
  refine (proj1 (game_settles 50 (replicate 150 50) duel2 duel2_ok ltac:(lia) _ _)); [|vm_compute; done].
  apply Forall_replicate. lia.
Defined.

(** Two moves that the rules of the document exclude: a pawn's opening step of
    two squares, and a knight onto a friend. *)
Example pawn_opens_two :
  let b := boardOf 8 8 [(1, White, Pawn, mkPos 6 3)] in
  validateMove b (mkPos 6 3) (mkPos 4 3) false = mkValidation true "ok".
Proof. vm_compute. reflexivity. Qed.

Example knight_takes_friend :
  let b := boardOf 8 8 [(1, White, Knight, mkPos 7 1); (2, White, Pawn, mkPos 5 2)] in
  validateMove b (mkPos 7 1) (mkPos 5 2) false = mkValidation true "ok".
Proof. vm_compute. reflexivity. Qed.

Lemma exec_engine_ok_witness : engine_ok (exec true duel2 (CWait 5000)).
Proof.
  refine (exec_engine_ok true duel2 (CWait 5000) eq_refl duel2_ok _). simpl. lia.
Defined.

Lemma requestMove_outcome_witness :
  move_outcome duel1 (mkPos 0 0) (mkPos 0 1) (duel1, mkResult false "motion_in_progress").
Proof.
  apply (requestMove_outcome true (mkPos 0 0) (mkPos 0 1) duel1 _ eq_refl (eng_board _ duel1_ok)).
  vm_compute. reflexivity.
Defined.

Lemma play_material_witness :
  material (arbiter (play true duel0 [CMove (mkPos 0 0) (mkPos 0 4); CJump (mkPos 0 4); CWait 4000]))
  ≡ₚ material (arbiter duel0).
Proof. exact (proj2 (play_material true _ duel0 (eng_board _ duel_new))). Defined.

(** The black king is taken by the white rook. *)
Definition kingHunt : Board :=
  boardOf 3 2 [(1, White, Rook, mkPos 0 0); (2, Black, King, mkPos 0 2); (3, White, King, mkPos 1 0)].

Lemma kingHunt_ok : board_ok kingHunt.
Proof. by apply boardOf_ok. Qed.

Definition kingTaken : GameEngine :=
  play true (newEngine kingHunt) [CMove (mkPos 0 0) (mkPos 0 2); CWait 2000].

Lemma game_over_final_witness :
  game_over kingTaken = true ∧
  requestMove true (mkPos 1 0) (mkPos 1 1) (play true kingTaken [CWait 10]) =
    (play true kingTaken [CWait 10], mkResult false "game_over").
Proof.
  split; [vm_compute; reflexivity|].
  refine (proj1 (proj2 (game_over_final true [CWait 10] kingTaken _)) _ _). vm_compute. reflexivity.
Defined.

Lemma game_over_king_witness :
  let e := play true (newEngine kingHunt) [CMove (mkPos 0 0) (mkPos 0 2)] in
  ∃ new p, captured_pieces (arbiter (exec true e (CWait 2000))) = captured_pieces (arbiter e) ++ new ∧
    p ∈ new ∧ getKind p = King ∧ getState p = Captured.
Proof.
  refine (game_over_king true (play true (newEngine kingHunt) [CMove (mkPos 0 0) (mkPos 0 2)])
    (CWait 2000) _ _ _); [|vm_compute; reflexivity..].
  destruct (exec_asteps true (newEngine kingHunt) (CMove (mkPos 0 0) (mkPos 0 2)) kingHunt_ok) as [k Hk].
  exact (asteps_board_ok _ _ Hk kingHunt_ok).
Defined.

Lemma newEngine_ok_witness : engine_ok (newEngine kingHunt).
Proof.
  apply newEngine_ok; [apply kingHunt_ok| | |].
  - apply (bool_decide_unpack _). vm_compute. exact I.
  - apply (bool_decide_unpack _). vm_compute. exact I.
  - apply Forall_forall. apply (bool_decide_unpack _). vm_compute. exact I.
Defined.

Lemma snapshot_pieces_witness :
  pieces (snapshot duel2) =
    map (λ p, snapshotPiece (arbiter duel2) (getCell p) p) (livePieces (board (arbiter duel2))).
Proof. refine (proj1 (snapshot_pieces duel2 duel2_ok _)). vm_compute. done. Defined.

(** ** Corners *)

(** Who captured whom, in order. *)
Definition capturePairs (a : Arbiter) : list (Z * Z) :=
  omap (λ e, match e with
             | onPieceCaptured p i => Some (getId p, capturingPieceId i)
             | onMoveCompleted _ _ _ _ _ => None end) (events a).

(** A white king walks onto a square whose black rook has just jumped. *)
Definition kingAtJumper : GameEngine :=
  play true
    (newEngine (boardOf 3 1 [(1, White, King, mkPos 0 0); (2, Black, Rook, mkPos 0 1)]))
    [CMove (mkPos 0 0) (mkPos 0 1); CWait 200; CJump (mkPos 0 1)].

(** A king captured by the piece that jumped on its destination does not end
    the game: the capture is recorded, the king is gone, play goes on. *)
Theorem king_lost_game_continues :
  let e := play true kingAtJumper [CWait 800] in
  (∃ p, p ∈ captured_pieces (arbiter e) ∧ getKind p = King) ∧
  (∀ p, p ∈ livePieces (board (arbiter e)) → getKind p ≠ King) ∧
  game_over e = false.
Proof.
  cbv zeta. split_and!; [|apply Forall_forall|]; vm_compute.
  - eexists. split; [by left|reflexivity].
  - repeat constructor; done.
  - reflexivity.
Qed.

(** White's rook 1 is captured on its square while it slides away; black's rook
    2, the captor, now stands there.  White's rook 6 then crosses the line. *)
Definition leftover : GameEngine :=
  play true
    (newEngine (boardOf 5 3 [(1, White, Rook, mkPos 0 0); (2, Black, Rook, mkPos 1 0);
       (3, Black, King, mkPos 2 4); (4, White, King, mkPos 2 0); (6, White, Rook, mkPos 1 2)]))
    [CMove (mkPos 1 0) (mkPos 0 0); CMove (mkPos 0 0) (mkPos 0 4); CWait 1000;
     CMove (mkPos 1 2) (mkPos 0 2); CWait 1000].

(** The motion of a piece captured on its source square stays in the list
    and is taken for a motion of the captor: white's rook 6 is captured by its
    own side's rook 1, which left the board a second earlier. *)
Theorem leftover_motion_captures :
  capturePairs (arbiter leftover) = [(1, 2); (6, 1)] ∧
  getColor (mkPiece 1 White Rook (mkPos 0 0) Idle) = getColor (mkPiece 6 White Rook (mkPos 1 2) Idle) ∧
  piece_id <$> active_motions (arbiter leftover) = [1] ∧
  (∀ p, p ∈ livePieces (board (arbiter leftover)) → getId p ≠ 1).
Proof.
  split_and!; [vm_compute; reflexivity..|]. apply Forall_forall. vm_compute.
  repeat constructor; done.
Qed.

(** A rook moves, and is asked to jump while it rests. *)
Definition restingJump : GameEngine :=
  play true (newEngine (boardOf 3 1 [(1, White, Rook, mkPos 0 0)]))
    [CMove (mkPos 0 0) (mkPos 0 1); CWait 1000].

(** A jump is accepted during a piece's rest although its state cannot
    change to [Jump]: the piece stays in its long rest, without the protection
    of a jump, and can start a second motion before the first has landed. *)
Theorem jump_accepted_at_rest :
  (requestJump (mkPos 0 1) restingJump).2 = mkResult true "ok" ∧
  (getState <$> livePieces (board (arbiter (exec true restingJump (CJump (mkPos 0 1)))))) = [LongRest] ∧
  piece_id <$> active_motions (arbiter (play true restingJump
    [CWait 900; CJump (mkPos 0 1); CWait 200; CMove (mkPos 0 1) (mkPos 0 2)])) = [1; 1].
Proof. split_and!; vm_compute; reflexivity. Qed.

(** ** Boards and observers *)

Lemma score_play_witness :
  let a := arbiter (play true duel0 [CMove (mkPos 0 0) (mkPos 0 3); CWait 300; CMove (mkPos 0 4) (mkPos 0 1); CWait 3000]) in
  getScore White (score (events a)) = 5 ∧ getScore Black (score (events a)) = 0.
Proof.
  destruct (score_play true duel [CMove (mkPos 0 0) (mkPos 0 3); CWait 300;
    CMove (mkPos 0 4) (mkPos 0 1); CWait 3000] duel_ok) as [Hw Hb].
  cbv zeta. split; [etransitivity; [exact Hw|]|etransitivity; [exact Hb|]]; vm_compute; reflexivity.
Defined.

Lemma moveLog_pushes_witness :
  map ce_capturedPieceId (pushedCaptures (pushes (newLog 8)
    [onPieceCaptured (mkPiece 7 Black Pawn (mkPos 0 0) Captured) (mkImpact 3 (mkPos 0 0) d1)])) = [7].
Proof.
  exact (proj2 (proj2 (moveLog_pushes White
    [onPieceCaptured (mkPiece 7 Black Pawn (mkPos 0 0) Captured) (mkImpact 3 (mkPos 0 0) d1)]
    (newLog 8) ltac:(discriminate)))).
Defined.

Lemma formatElapsed_inj_witness : 59999 = 59999.
Proof. exact (formatElapsed_inj 59999 59999 ltac:(lia) ltac:(lia) eq_refl). Defined.

Lemma parseBoardOnly_playable_witness :
  ∃ b, parseBoardOnly ("wK bQ" +:+ endl) 1 = Ok (b, 3) ∧ engine_ok (newEngine b).
Proof.
  eexists. split; [vm_compute; reflexivity|].
  exact (proj1 (parseBoardOnly_playable ("wK bQ" +:+ endl) 1 _ 3 ltac:(lia) ltac:(vm_compute; reflexivity))).
Defined.

Lemma parse_print_witness :
  ∃ b', parseBoardOnly (printBoard duel) 10 = Ok (b', 15) ∧ liveIds b' = [10; 11; 12; 13; 14].
Proof.
  destruct (parse_print duel 10 duel_ok ltac:(vm_compute; reflexivity) ltac:(vm_compute; reflexivity))
    as (b' & Hp & _ & _ & _ & Hids).
  exists b'. split; [exact Hp|exact Hids].
Defined.

Lemma makeStartingBoard_ok_witness : ∃ b, makeStartingBoard 33 = Ok (b, 65) ∧ engine_ok (newEngine b).
Proof.
  destruct (makeStartingBoard_ok 33 ltac:(lia)) as (b & Hb & He & _). exists b. split; [exact Hb|exact He].
Defined.

(** ** The clock's end

    A game may run for 24.8 days less its headroom; a tick later the clock would
    overflow. *)
Definition lastDay : list Command := [CMove (mkPos 0 0) (mkPos 0 3); CWait 300; CMove (mkPos 0 4) (mkPos 0 1); CWait (INT_MAX - 7600)].

Lemma ints_fit_witness :
  let a := arbiter (play true duel0 lastDay) in
  Forall int_range (arbiterInts a) ∧ Forall int_range (commandInts a (CWait 300)).
Proof.
  apply (ints_fit true duel lastDay (CWait 300)); [exact duel_ok| |vm_compute; congruence].
  by repeat constructor.
Defined.

Example clock_overflows :
  let a := arbiter (play true duel0 lastDay) in ¬ Forall int_range (commandInts a (CWait 7301)).
Proof. cbv zeta. refine (bool_decide_unpack (¬ _) _). vm_compute. exact I. Qed.

(** ** A rook takes a rook, with nothing in between *)
Lemma duel_quiet : quiet duel0.
Proof. by split; [exact duel_ok|..]. Qed.

Lemma duel_free : freeMove duel (mkPos 0 0) (mkPos 0 4)
  (mkPiece 1 White Rook (mkPos 0 0) Idle) (mkPiece 2 Black Rook (mkPos 0 4) Idle).
Proof.
  split; try reflexivity.
  - apply validateMove_decides; [exact duel_ok|reflexivity].
  - right. intros j Hj. change (dist _ _) with 4 in Hj. assert (j = 1 ∨ j = 2 ∨ j = 3) as [->|[->| ->]] by lia; reflexivity.
  - by right.
Qed.

Lemma free_move_lands_witness :
  let e' := waits (requestMove true (mkPos 0 0) (mkPos 0 4) duel0).1 [300; 2700; 999; 1; 500] in
  who (board (arbiter e')) (mkPos 0 4) = Some (1, White, Rook) ∧ getId <$> captured_pieces (arbiter e') = [2].
Proof.
  pose proof (free_move_lands duel0 (mkPos 0 0) (mkPos 0 4) _ _ [300; 2700; 999; 1; 500] duel_quiet duel_free
    ltac:(by repeat constructor)) as (_ & H1 & H2 & _).
  split; [exact (H1 (mkPos 0 4))|exact H2].
Defined.
