(* ===== verification/UnitTests.v ===== *)
(** * The unit tests of the game core

    The repository's tests of [RealTimeArbiter], [CollisionResolver],
    [ArrivalResolver], [GameEngine], [PieceRules], [SlidingPieceRules] and
    [RuleEngine], run on the model.  A case is the list of its statements in
    their order, a [CHECK] on the same value as in the test; the number before it
    is the line of its [TEST_CASE]. *)
From S2P Require Import Prelude Model Rules Double Motion Collision Arrival Arbiter Engine Scenarios.
#[local] Open Scope Z_scope.
#[local] Existing Instance sorted_iter.

(** ** A test of the arbiter and its resolvers *)

(** The variables of a test; [m] is the [Motion] that is resolved by itself. *)
Record Bench := mkBench { theArbiter : Arbiter; kingCaptured : bool; startedFlag : bool; theMotion : Motion }.
Inductive TestLine := Do (f : Bench → Bench) | Look (f : Bench → bool).

Fixpoint passes (ls : list TestLine) (b : Bench) : bool :=
  match ls with [] => true | Do f :: ls => passes ls (f b) | Look f :: ls => f b && passes ls b end.

Definition newBench : Bench := mkBench (newArbiter (newBoard 8 8)) false false (mkMotion (mkPos 0 0) (mkPos 0 0) 0 0 0).

Definition onArb (f : Arbiter → Arbiter) : TestLine := Do (λ b, mkBench (f (theArbiter b)) (kingCaptured b) (startedFlag b) (theMotion b)).
Definition onKing (f : Arbiter * bool → Arbiter * bool) : TestLine :=
  Do (λ b, let '(a, k) := f (theArbiter b, kingCaptured b) in mkBench a k (startedFlag b) (theMotion b)).

Definition put (id : Z) (c : Color) (k : Kind) (r x : Z) : TestLine :=
  onArb (onBoard (λ b, addPiece b (mkPiece id c k (mkPos r x) Idle) (mkPos r x))).
Definition turn (r x : Z) (s : State) : TestLine := onArb (transitionAt s (mkPos r x)).
Definition fly (r x r' x' s e id : Z) : TestLine :=
  onArb (λ a, setMotions (active_motions a ++ [mkMotion (mkPos r x) (mkPos r' x') s e id]) a).
Definition resolving (r x r' x' s e id : Z) : TestLine :=
  Do (λ b, mkBench (theArbiter b) (kingCaptured b) (startedFlag b) (mkMotion (mkPos r x) (mkPos r' x') s e id)).

Section Operations.
Variable collisionEnabled : bool.
Definition startsMotion (r x r' x' id : Z) : TestLine :=
  Do (λ b, let '(a, ok) := Arbiter.addMotion collisionEnabled (mkPos r x) (mkPos r' x') id (theArbiter b) in mkBench a (kingCaptured b) ok (theMotion b)).
Definition ticks (ms : Z) : TestLine := onKing (λ s, Arbiter.tick collisionEnabled ms s.1).
End Operations.
Definition startsJump (r x id : Z) : TestLine := onArb (Arbiter.addJump (mkPos r x) id).
Definition nearsMiss : TestLine :=
  Do (λ b, match Collision.applyNearMiss (board (theArbiter b)) (active_motions (theArbiter b)) (theMotion b) with
            | Some n => mkBench (theArbiter b) (kingCaptured b) true n
            | None => mkBench (theArbiter b) (kingCaptured b) false (theMotion b)
            end).
Definition collides (t t' : Z) : TestLine := onKing (λ s, Collision.resolveCollisions t (setClock t' s.1, s.2)).
Definition yields (t t' : Z) : TestLine := onArb (λ a, Collision.resolveMovingFriendlyBlocks t (setClock t' a)).
Definition stops (t t' : Z) : TestLine := onArb (λ a, Collision.resolveStationaryBlocks t (setClock t' a)).
Definition arrives (coll : bool) (t : Z) : TestLine :=
  Do (λ b, let '(a, k) := Arrival.resolve coll (setClock t (theArbiter b), kingCaptured b) (theMotion b) in mkBench a k (startedFlag b) (theMotion b)).

(** *** What a test looks at *)
Definition cellIs (r x : Z) (P : Piece → bool) : TestLine :=
  Look (λ b, match getPiece (board (theArbiter b)) (mkPos r x) with Some p => P p | None => false end).
Definition vacant (r x : Z) : TestLine := Look (λ b, isCellEmpty (board (theArbiter b)) (mkPos r x)).
Definition kindIs (r x : Z) (k : Kind) : TestLine := cellIs r x (λ p, kindEqb (getKind p) k).
Definition colorIs (r x : Z) (c : Color) : TestLine := cellIs r x (λ p, colorEqb (getColor p) c).
Definition stateIs (r x : Z) (s : State) : TestLine := cellIs r x (λ p, stateEqb (getState p) s).
Definition idIs (r x id : Z) : TestLine := cellIs r x (λ p, getId p =? id).

Definition clockIs (t : Z) : TestLine := Look (λ b, game_clock_ms (theArbiter b) =? t).
Definition isBusy (id : Z) (yes : bool) : TestLine := Look (λ b, eqb (isPieceBusy (theArbiter b) id) yes).
Definition cooling (id : Z) (yes : bool) : TestLine := Look (λ b, eqb (isPieceCoolingDown (theArbiter b) id) yes).
Definition coolsUntil (id t : Z) : TestLine := Look (λ b, bool_decide (cooldown_until_ms (theArbiter b) !! id = Some t)).
Definition kingIsCaptured (yes : bool) : TestLine := Look (λ b, eqb (kingCaptured b) yes).
Definition hasStarted (yes : bool) : TestLine := Look (λ b, eqb (startedFlag b) yes).

(** The [n]th of a list. *)
Definition nthOf {A} (l : Bench → list A) (n : nat) (P : A → bool) : TestLine :=
  Look (λ b, match l b !! n with Some x => P x | None => false end).
Definition countOf {A} (l : Bench → list A) (n : nat) : TestLine := Look (λ b, bool_decide (length (l b) = n)).

Definition flying (b : Bench) : list Motion := active_motions (theArbiter b).
Definition flights : nat → TestLine := countOf flying.
Definition nthTo (n : nat) (r x : Z) : TestLine := nthOf flying n (λ theMotion, posEq (to theMotion) (mkPos r x)).
Definition nthArrival (n : nat) (t : Z) : TestLine := nthOf flying n (λ theMotion, arrival_time_ms theMotion =? t).
Definition nthPiece (n : nat) (id : Z) : TestLine := nthOf flying n (λ theMotion, piece_id theMotion =? id).
Definition nthStays (n : nat) : TestLine := nthOf flying n isJump.
Definition ofPiece (id : Z) (P : Motion → bool) : TestLine :=
  Look (λ b, forallb (λ theMotion, negb (piece_id theMotion =? id) || P theMotion) (flying b)).
Definition headsFor (id r x : Z) : TestLine := ofPiece id (λ theMotion, posEq (to theMotion) (mkPos r x)).
Definition arrivesAt (id t : Z) : TestLine := ofPiece id (λ theMotion, arrival_time_ms theMotion =? t).
Definition motionTo (r x : Z) : TestLine := Look (λ b, posEq (to (theMotion b)) (mkPos r x)).
Definition motionArrival (t : Z) : TestLine := Look (λ b, arrival_time_ms (theMotion b) =? t).

Definition capturedCount : nat → TestLine := countOf (λ b, captured_pieces (theArbiter b)).
Definition nthCaptured (n : nat) (id : Z) : TestLine := nthOf (λ b, captured_pieces (theArbiter b)) n (λ p, getId p =? id).

(** What the observers recorded. *)
Definition notices (b : Bench) : list (Piece * CaptureImpact) :=
  omap (λ e, match e with onPieceCaptured p i => Some (p, i) | _ => None end) (events (theArbiter b)).
Definition noticeCount : nat → TestLine := countOf notices.
Definition nthNotice (n : nat) (id : Z) : TestLine := nthOf notices n (λ e, getId e.1 =? id).
Definition nthCapturer (n : nat) (id : Z) : TestLine := nthOf notices n (λ e, capturingPieceId e.2 =? id).
Definition nthCell (n : nat) (r x : Z) : TestLine := nthOf notices n (λ e, posEq (collisionCell e.2) (mkPos r x)).
(** [doctest::Approx(k / d)]; the model's progress is that double. *)
Definition nthProgress (n : nat) (k d : Z) : TestLine := nthOf notices n (λ e, dLe (impactProgress e.2) (dRatio k d) && dLe (dRatio k d) (impactProgress e.2)).
Definition completions (b : Bench) : list (Piece * Position * Position * bool) :=
  omap (λ e, match e with onMoveCompleted p f t took _ => Some (p, f, t, took) | _ => None end) (events (theArbiter b)).
Definition moveCount : nat → TestLine := countOf completions.
Definition nthMover (n : nat) (id : Z) : TestLine := nthOf completions n (λ e, getId e.1.1.1 =? id).
Definition nthMoveFrom (n : nat) (r x : Z) : TestLine := nthOf completions n (λ e, posEq e.1.1.2 (mkPos r x)).
Definition nthMoveTo (n : nat) (r x : Z) : TestLine := nthOf completions n (λ e, posEq e.1.2 (mkPos r x)).
Definition nthTook (n : nat) (yes : bool) : TestLine := nthOf completions n (λ e, eqb e.2 yes).

(** ** A test of the engine: the answer is that of the last request *)
Record EngineBench := mkEngineBench { eng : GameEngine; answer : MoveResult }.
Inductive EngineLine := Ask (f : EngineBench → EngineBench) | See (f : EngineBench → bool).

Fixpoint passesEngine (ls : list EngineLine) (p : EngineBench) : bool :=
  match ls with [] => true | Ask f :: ls => passesEngine ls (f p) | See f :: ls => f p && passesEngine ls p end.

Definition newEngineBench (w h : Z) : EngineBench := mkEngineBench (newEngine (newBoard w h)) (mkResult false "").
Definition place (id : Z) (c : Color) (k : Kind) (r x : Z) : EngineLine :=
  Ask (λ p, mkEngineBench (setArbiter (onBoard (λ b, addPiece b (mkPiece id c k (mkPos r x) Idle) (mkPos r x)) (arbiter (eng p))) (eng p)) (answer p)).

Section Requests.
Variable simultaneousMode : bool.
Definition asks (r x r' x' : Z) : EngineLine :=
  Ask (λ p, let '(e, a) := requestMove simultaneousMode (mkPos r x) (mkPos r' x') (eng p) in mkEngineBench e a).
Definition wait_ (ms : Z) : EngineLine := Ask (λ p, mkEngineBench (wait simultaneousMode ms (eng p)) (answer p)).
Definition destinations (r x : Z) (n : nat) : EngineLine :=
  See (λ p, bool_decide (length (legalDestinationsFrom simultaneousMode (mkPos r x) (eng p)) = n)).
Definition mayGo (r x r' x' : Z) : EngineLine :=
  See (λ p, existsb (posEq (mkPos r' x')) (legalDestinationsFrom simultaneousMode (mkPos r x) (eng p))).
End Requests.
Definition jump (r x : Z) : EngineLine := Ask (λ p, let '(e, a) := requestJump (mkPos r x) (eng p) in mkEngineBench e a).

Definition accepted (yes : bool) : EngineLine := See (λ p, eqb (is_accepted (answer p)) yes).
Definition because (why : string) : EngineLine := See (λ p, String.eqb (mr_reason (answer p)) why).
Definition over (yes : bool) : EngineLine := See (λ p, eqb (game_over (eng p)) yes).
Definition shownOver (yes : bool) : EngineLine := See (λ p, eqb (gs_over (snapshot (eng p))) yes).
Definition shownAs (r x : Z) (P : SnapshotPiece → bool) (p : EngineBench) : bool :=
  match find (λ q, posEq (sp_cell q) (mkPos r x)) (pieces (snapshot (eng p))) with Some q => P q | None => false end.
Definition shown (r x : Z) (yes : bool) : EngineLine := See (λ p, eqb (shownAs r x (λ _, true) p) yes).
Definition shownKind (r x : Z) (k : Kind) : EngineLine := See (shownAs r x (λ q, kindEqb (sp_kind q) k)).
Definition shownColor (r x : Z) (c : Color) : EngineLine := See (shownAs r x (λ q, colorEqb (sp_color q) c)).
Definition shownWidth (w : Z) : EngineLine := See (λ p, board_width (snapshot (eng p)) =? w).
Definition shownHeight (h : Z) : EngineLine := See (λ p, board_height (snapshot (eng p)) =? h).
Definition shownPieces (n : nat) : EngineLine := See (λ p, bool_decide (length (pieces (snapshot (eng p))) = n)).

(** ** A test of the rules: pieces on a board, and what is asked about it *)
Definition Query : Type := Board → bool.
Definition holdsOn (ps : list (Z * Color * Kind * (Z * Z))) (qs : list Query) : bool :=
  forallb (λ q, q (boardOf 8 8 (map (λ p, (p.1, mkPos p.2.1 p.2.2)) ps))) qs.

Definition destinationsAt (f : Board → Piece → list Position) (r x : Z) (P : list Position → bool) : Query :=
  λ b, match getPiece b (mkPos r x) with Some p => P (f b p) | None => false end.
Definition counts (n : nat) (l : list Position) : bool := bool_decide (length l = n).
Definition reaches (r x : Z) (l : list Position) : bool := existsb (posEq (mkPos r x)) l.
Definition misses (r x : Z) (l : list Position) : bool := negb (reaches r x l).

Definition rookGoes (ign : bool) := destinationsAt (λ b p, RookRules_moves b p ign).
Definition bishopGoes (ign : bool) := destinationsAt (λ b p, BishopRules_moves b p ign).
Definition queenGoes (ign : bool) := destinationsAt (λ b p, QueenRules_moves b p ign).
Definition kingGoes (ign : bool) := destinationsAt (λ b p, KingRules_moves b p ign).
Definition hopsKnight := destinationsAt KnightRules_moves.
Definition hopsPawn := destinationsAt PawnRules_moves.
Definition goes (ign : bool) := destinationsAt (λ b p, legalDestinations b p ign).
Definition slides (ds : list (Z * Z)) (ign : bool) := destinationsAt (λ b p, slide b p ds ign).
(** [EmptyPiece empty(pos)], which is on no board *)
Definition goesNowhere (r x : Z) (P : list Position → bool) : Query := λ b, P (legalDestinations b (makeEmpty (mkPos r x)) false).
Definition judged (relaxed : bool) (r x r' x' : Z) (ok : bool) (why : string) : Query := λ b,
  let v := validateMove b (mkPos r x) (mkPos r' x') relaxed in eqb (is_valid v) ok && String.eqb (reason v) why.

(** [test/test_RealTimeArbiter.cpp] *)
Definition arbiterTests : list (list TestLine) := [
  (* 19 *) [startsMotion false 3 3 3 4 1; flights 1%nat; nthArrival 0%nat 1000];
  (* 29 *) [startsMotion false 3 3 3 5 1; nthArrival 0%nat 2000];
  (* 38 *) [startsMotion false 0 0 3 3 1; nthArrival 0%nat 3000];
  (* 47 *) [ticks false 500; startsMotion false 3 3 3 4 1; nthArrival 0%nat 1500];
  (* 59 *) [startsJump 3 3 1; flights 1%nat; nthStays 0%nat; nthArrival 0%nat 1000];
  (* 72 *) [put 1 White Rook 3 3; isBusy 1 false; startsMotion false 3 3 3 4 1; isBusy 1 true; ticks false 1000; isBusy 1 false];
  (* 86 *) [put 1 White Rook 3 3; startsMotion false 3 3 3 4 1; ticks false 1000; cooling 1 true; ticks false 999;
     cooling 1 true; ticks false 1; cooling 1 false];
  (* 105 *) [ticks false 300; ticks false 700; clockIs 1000];
  (* 117 *) [put 1 White Rook 3 3; startsMotion false 3 3 3 4 1; ticks false 999; kindIs 3 3 Rook; vacant 3 4; flights 1%nat];
  (* 132 *) [put 1 White Rook 3 3; startsMotion false 3 3 3 4 1; ticks false 1000; vacant 3 3; kindIs 3 4 Rook; flights 0%nat];
  (* 145 *) [put 1 White Rook 0 0; put 2 White Rook 2 2; startsMotion false 0 0 0 1 1; startsMotion false 2 2 2 5 2;
     ticks false 1000; flights 1%nat; kindIs 0 1 Rook; kindIs 2 2 Rook];
  (* 163 *) [put 1 White Rook 3 3; put 2 Black Pawn 3 6; startsMotion false 3 3 3 6 1; ticks false 3000; kingIsCaptured false;
     kindIs 3 6 Rook; vacant 3 3];
  (* 177 *) [put 1 White Rook 3 3; put 2 Black King 3 6; startsMotion false 3 3 3 6 1; ticks false 3000; kingIsCaptured true;
     kindIs 3 6 Rook];
  (* 192 *) [put 1 White Rook 3 3; put 2 Black Knight 3 6; startsMotion false 3 3 3 6 1; ticks false 2000; startsJump 3 6 2;
     ticks false 1000; kingIsCaptured false; vacant 3 3; kindIs 3 6 Knight];
  (* 212 *) [put 1 White Rook 0 0; put 2 White Bishop 1 3; startsMotion true 0 0 0 3 1; startsMotion true 1 3 0 3 2;
     ticks true 1000; idIs 0 3 2; ticks true 2000; kingIsCaptured false; idIs 0 0 1; idIs 0 3 2];
  (* 231 *) [put 1 White Knight 0 0; put 2 White Bishop 1 3; startsMotion true 0 0 0 3 1; startsMotion true 1 3 0 3 2;
     ticks true 1000; idIs 0 3 2; ticks true 2000; kingIsCaptured false; vacant 0 0; kindIs 0 3 Knight];
  (* 250 *) [put 1 White Rook 0 0; put 2 White Bishop 1 3; startsMotion false 0 0 0 3 1; startsMotion false 1 3 0 3 2;
     ticks false 1000; ticks false 2000; kindIs 0 3 Rook; vacant 0 0];
  (* 268 *) [put 1 White Rook 0 0; put 2 Black Rook 0 3; startsMotion false 0 0 0 5 1; ticks false 3000;
     startsMotion false 0 3 0 4 2; ticks false 1000; isBusy 1 true; colorIs 0 4 Black];
  (* 288 *) [put 1 White Rook 0 0; put 2 Black Rook 1 4; startsMotion true 0 0 0 5 1; ticks true 3000; startsMotion true 1 4 0 4 2;
     ticks true 1000; kingIsCaptured false; vacant 1 4; isBusy 1 true];
  (* 310 *) [put 1 White Rook 0 0; put 2 Black King 1 4; startsMotion true 0 0 0 5 1; ticks true 3000; startsMotion true 1 4 0 4 2;
     ticks true 1000; kingIsCaptured true];
  (* 324 *) [put 1 White Rook 0 0; put 2 Black Knight 1 4; startsMotion true 0 0 0 5 1; ticks true 3000;
     startsMotion true 1 4 0 4 2; ticks true 1000; kingIsCaptured false; isBusy 2 false; kindIs 0 4 Knight];
  (* 346 *) [put 1 White Rook 0 0; put 2 White Queen 5 3; startsMotion true 0 0 0 5 1; startsMotion true 5 3 0 3 2;
     hasStarted true; headsFor 2 1 3; arrivesAt 2 4000; isBusy 2 true];
  (* 368 *) [put 1 White Rook 0 0; put 2 White Queen 1 1; startsMotion true 0 0 0 5 1; startsMotion true 1 1 0 1 2;
     hasStarted false; isBusy 2 false];
  (* 383 *) [put 1 White Rook 0 0; put 2 Black Pawn 0 3; startsMotion true 0 0 0 5 1; ticks true 3000; kingIsCaptured false;
     kindIs 0 3 Rook; colorIs 0 3 White; vacant 0 0; vacant 0 5; isBusy 1 false];
  (* 400 *) [put 1 White Rook 0 0; put 2 White Pawn 0 3; startsMotion true 0 0 0 5 1; ticks true 3000; kindIs 0 2 Rook;
     kindIs 0 3 Pawn; vacant 0 0; isBusy 1 false];
  (* 415 *) [put 1 White Queen 0 0; put 2 White Pawn 0 1; startsMotion true 0 0 0 5 1; ticks true 1000; isBusy 1 false;
     cooling 1 true; kindIs 0 0 Queen; stateIs 0 0 LongRest; kindIs 0 1 Pawn];
  (* 431 *) [put 1 White Knight 0 0; put 2 Black Pawn 0 1; startsMotion true 0 0 2 1 1; ticks true 2000; kindIs 2 1 Knight;
     kindIs 0 1 Pawn];
  (* 465 *) [put 1 White Rook 3 3; startsMotion false 3 3 3 4 1; ticks false 1000; noticeCount 0%nat; moveCount 1%nat; nthMover 0%nat 1;
     nthMoveFrom 0%nat 3 3; nthMoveTo 0%nat 3 4; nthTook 0%nat false];
  (* 486 *) [put 1 White Rook 3 3; startsJump 3 3 1; ticks false 1000; moveCount 0%nat];
  (* 500 *) [put 1 White Rook 3 3; put 2 Black Pawn 3 6; startsMotion false 3 3 3 6 1; ticks false 3000; noticeCount 1%nat;
     nthNotice 0%nat 2; moveCount 1%nat; nthMover 0%nat 1; nthMoveFrom 0%nat 3 3; nthMoveTo 0%nat 3 6; nthTook 0%nat true];
  (* 524 *) [put 1 White Rook 3 3; put 2 Black Pawn 3 4; startsJump 3 4 2; startsMotion false 3 3 3 4 1; ticks false 1000;
     noticeCount 1%nat; nthNotice 0%nat 1; moveCount 0%nat];
  (* 545 *) [put 1 White Rook 0 0; put 2 Black Rook 0 3; startsMotion true 0 0 0 5 1; ticks true 3000; startsMotion true 0 3 0 4 2;
     ticks true 1000; noticeCount 1%nat; nthNotice 0%nat 2];
  (* 564 *) [put 1 White Rook 0 0; put 2 White Knight 5 3; startsMotion true 0 0 0 5 1; startsMotion true 5 3 0 3 2;
     hasStarted true; headsFor 2 0 3; isBusy 2 true]].

(** [test/test_CollisionResolver.cpp] *)
Definition collisionTests : list (list TestLine) := [
  (* 28 *) [put 1 White Rook 0 0; put 2 White Queen 5 3; fly 0 0 0 5 0 5000 1; resolving 5 3 0 3 0 5000 2; nearsMiss;
     hasStarted true; motionTo 1 3; motionArrival 4000];
  (* 48 *) [put 1 White Rook 0 0; put 2 White Queen 1 1; fly 0 0 0 5 0 5000 1; resolving 1 1 0 1 0 1000 2; nearsMiss;
     hasStarted false];
  (* 66 *) [put 1 White Rook 0 0; put 2 White Knight 1 1; fly 0 0 0 5 0 5000 1; resolving 1 1 0 1 0 1000 2; nearsMiss;
     hasStarted true; motionTo 0 1];
  (* 87 *) [put 1 White Rook 0 0; put 2 Black Rook 0 3; fly 0 0 0 5 0 5000 1; fly 0 3 0 4 3000 4000 2;
     collides 3000 4000; kingIsCaptured false; vacant 0 3; capturedCount 1%nat; nthCaptured 0%nat 2; flights 1%nat;
     nthPiece 0%nat 1];
  (* 118 *) [put 1 White Rook 0 0; put 2 Black Rook 0 3; fly 0 0 0 5 0 5000 1; fly 0 3 0 4 3000 4000 2;
     collides 3000 4000; noticeCount 1%nat; nthCapturer 0%nat 1; nthCell 0%nat 0 4; nthProgress 0%nat 8 10];
  (* 147 *) [put 1 Black Rook 0 0; put 2 White Rook 0 3; fly 0 0 0 5 0 5000 1; fly 0 3 0 4 3000 4000 2;
     collides 3000 4000; capturedCount 1%nat; nthCaptured 0%nat 2; noticeCount 1%nat; nthCapturer 0%nat 1; nthCell 0%nat 0 4;
     nthProgress 0%nat 8 10];
  (* 172 *) [put 1 White Rook 0 0; put 2 Black King 0 3; fly 0 0 0 5 0 5000 1; fly 0 3 0 4 3000 4000 2;
     collides 3000 4000; kingIsCaptured true];
  (* 191 *) [put 1 White Rook 0 0; put 2 White Rook 0 3; fly 0 0 0 5 0 5000 1; fly 0 3 0 4 3000 4000 2;
     collides 3000 4000; capturedCount 0%nat; flights 2%nat];
  (* 211 *) [put 1 White Rook 0 0; put 2 Black Rook 0 1; fly 0 0 0 1 0 1000 1; fly 0 1 0 0 0 1000 2;
     collides 0 1000; kingIsCaptured false; vacant 0 1; capturedCount 1%nat; nthCaptured 0%nat 2; flights 1%nat;
     nthPiece 0%nat 1];
  (* 235 *) [put 1 White Rook 0 0; put 2 Black Rook 0 4; fly 0 0 0 4 0 4000 1; fly 0 4 0 1 1500 4500 2;
     collides 2500 3500; kingIsCaptured false; vacant 0 4; capturedCount 1%nat; nthCaptured 0%nat 2; flights 1%nat;
     nthPiece 0%nat 1];
  (* 261 *) [put 1 White Knight 0 0; put 2 Black Knight 2 1; fly 0 0 2 1 0 2000 1; fly 2 1 0 0 0 2000 2;
     collides 0 2000; capturedCount 0%nat; flights 2%nat];
  (* 283 *) [put 1 White Rook 0 0; put 2 White Rook 0 6; fly 0 0 0 5 0 5000 1; fly 0 6 0 3 2500 5500 2;
     yields 4000 4500; flights 2%nat; nthPiece 0%nat 1; nthTo 0%nat 0 5; nthPiece 1%nat 2; nthTo 1%nat 0 5;
     nthArrival 1%nat 3500];
  (* 306 *) [put 1 White Rook 0 0; put 2 White Rook 0 1; turn 0 1 Moving; fly 0 0 0 1 0 1000 1; fly 0 1 0 0 0 1000 2;
     yields 0 1000; flights 1%nat; nthPiece 0%nat 1; stateIs 0 1 LongRest; coolsUntil 2 2000];
  (* 328 *) [put 1 White Rook 0 0; put 2 White Rook 5 0; fly 0 0 0 3 0 3000 1; fly 5 0 5 3 0 3000 2;
     yields 0 3000; flights 2%nat; nthTo 0%nat 0 3; nthTo 1%nat 5 3];
  (* 348 *) [put 1 White Knight 0 0; put 2 White Rook 2 1; fly 0 0 2 1 0 2000 1; fly 2 1 0 0 0 2000 2;
     yields 0 2000; flights 2%nat; nthTo 0%nat 2 1; nthTo 1%nat 0 0];
  (* 370 *) [put 1 White Rook 0 0; put 2 Black Pawn 0 3; fly 0 0 0 5 0 5000 1; stops 0 3000; flights 1%nat;
     nthTo 0%nat 0 3; nthArrival 0%nat 3000];
  (* 388 *) [put 1 White Rook 0 0; put 2 White Pawn 0 3; fly 0 0 0 5 0 5000 1; stops 0 3000; flights 1%nat;
     nthTo 0%nat 0 2; nthArrival 0%nat 2000];
  (* 406 *) [put 1 White Queen 0 0; turn 0 0 Moving; put 2 White Pawn 0 1; fly 0 0 0 5 0 5000 1;
     stops 0 1000; flights 0%nat; stateIs 0 0 LongRest; coolsUntil 1 2000];
  (* 425 *) [put 1 White Queen 0 0; put 2 Black Knight 0 3; turn 0 3 Jump; fly 0 0 0 5 0 5000 1; fly 0 3 0 3 500 1500 2;
     stops 0 3000; flights 2%nat; nthTo 0%nat 0 3; nthArrival 0%nat 3000];
  (* 445 *) [put 1 White Queen 0 0; put 2 White Knight 0 3; turn 0 3 Jump; fly 0 0 0 5 0 5000 1; fly 0 3 0 3 500 1500 2;
     stops 0 3000; flights 2%nat; nthTo 0%nat 0 3; nthArrival 0%nat 3000];
  (* 465 *) [put 1 White Knight 0 0; put 2 Black Pawn 0 1; fly 0 0 2 1 0 2000 1; stops 0 2000; flights 1%nat;
     nthTo 0%nat 2 1; kindIs 0 1 Pawn]].

(** [test/test_ArrivalResolver.cpp] *)
Definition arrivalTests : list (list TestLine) := [
  (* 35 *) [put 1 White Rook 3 3; turn 3 3 Moving; resolving 3 3 3 4 0 1000 1; arrives false 1000; kingIsCaptured false;
     noticeCount 0%nat; moveCount 1%nat; nthMover 0%nat 1; nthTook 0%nat false; kindIs 3 4 Rook; vacant 3 3; coolsUntil 1 2000];
  (* 66 *) [put 1 White Rook 3 3; turn 3 3 Moving; put 2 Black Pawn 3 4; resolving 3 3 3 4 0 1000 1; arrives false 1000;
     noticeCount 1%nat; nthNotice 0%nat 2; moveCount 1%nat; nthTook 0%nat true; kindIs 3 4 Rook; noticeCount 1%nat; nthCapturer 0%nat 1;
     nthCell 0%nat 3 4; nthProgress 0%nat 10 10];
  (* 103 *) [put 1 White Rook 3 3; turn 3 3 Moving; put 2 Black King 3 4; resolving 3 3 3 4 0 1000 1; arrives false 1000;
     kingIsCaptured true];
  (* 124 *) [put 1 White Rook 3 3; turn 3 3 Moving; put 2 White Pawn 3 4; resolving 3 3 3 4 0 1000 1; arrives true 1000;
     noticeCount 0%nat; moveCount 0%nat; kindIs 3 3 Rook; kindIs 3 4 Pawn; stateIs 3 3 LongRest];
  (* 153 *) [put 1 White Rook 3 3; turn 3 3 Jump; resolving 3 3 3 3 0 1000 1; arrives false 1000; noticeCount 0%nat; moveCount 0%nat;
     stateIs 3 3 ShortRest; coolsUntil 1 1500];
  (* 180 *) [put 1 White Pawn 1 3; turn 1 3 Moving; resolving 1 3 0 3 0 1000 1; arrives false 1000; kindIs 0 3 Queen];
  (* 200 *) [put 1 White Rook 3 3; turn 3 3 Moving; put 2 Black Knight 3 4; turn 3 4 Jump; fly 3 4 3 4 0 1000 2;
     resolving 3 3 3 4 0 1000 1; arrives false 1000; noticeCount 1%nat; nthNotice 0%nat 1; vacant 3 3];
  (* 228 *) [put 1 White Rook 3 3; turn 3 3 Moving; put 2 Black Knight 3 4; turn 3 4 Jump; turn 3 4 ShortRest;
     resolving 3 3 3 4 0 1000 1; arrives false 1000; noticeCount 1%nat; nthNotice 0%nat 1; kindIs 3 4 Knight];
  (* 255 *) [put 1 White Rook 3 3; turn 3 3 Moving; put 2 White Knight 3 4; turn 3 4 Jump; fly 3 4 3 4 0 1000 2;
     resolving 3 3 3 4 0 1000 1; arrives false 1000; noticeCount 1%nat; nthNotice 0%nat 1; kindIs 3 4 Knight]].

(** [test/test_GameEngine.cpp]: the size of the board, and the case *)
Definition engineTests : list (Z * Z * list EngineLine) := [
  (* 26 *) (8, 8, [place 1 White Rook 0 0; place 2 Black King 0 1; asks false 0 0 0 1; accepted true; because "ok";
     wait_ false 1000; over true; asks false 0 1 0 2; accepted false; because "game_over"; shown 0 1 true;
     shown 0 2 false]);
  (* 50 *) (8, 8, [place 1 White Rook 3 3; asks false 3 3 3 6; accepted true; asks false 3 3 3 5; accepted false;
     because "motion_in_progress"]);
  (* 63 *) (8, 8, [place 1 White Rook 0 0; place 2 White Rook 5 6; asks false 0 0 0 6; accepted true; asks false 5 6 0 6;
     accepted false; because "motion_in_progress"]);
  (* 79 *) (8, 8, [place 1 White Rook 0 0; place 2 White Rook 5 5; asks false 0 0 0 6; accepted true; asks false 5 5 5 6;
     accepted true]);
  (* 93 *) (8, 8, [place 1 White Rook 3 3; asks false 3 3 3 4; accepted true; wait_ false 1000; asks false 3 4 3 5; accepted true]);
  (* 107 *) (8, 8, [place 1 White Rook 0 0; place 2 White Rook 5 5; asks true 0 0 0 6; accepted true; asks true 5 5 5 6; accepted true]);
  (* 120 *) (8, 8, [place 1 White Rook 3 3; asks true 3 3 3 6; accepted true; asks true 3 3 3 5; accepted false;
     because "motion_in_progress"]);
  (* 133 *) (8, 8, [place 1 White Rook 3 3; asks true 3 3 3 4; accepted true; wait_ true 1000; asks true 3 4 3 5; accepted true;
     because "queued"; shown 3 4 true]);
  (* 151 *) (8, 8, [place 1 White Rook 3 3; asks true 3 3 3 6; accepted true; asks true 3 3 3 5; accepted false;
     because "motion_in_progress"]);
  (* 166 *) (8, 8, [place 1 White Rook 3 3; asks true 3 3 3 4; wait_ true 1000; asks true 3 4 3 5; because "queued"; shown 3 4 true;
     wait_ true 999; shown 3 4 true; wait_ true 1; shown 3 4 true; wait_ true 1000; shown 3 4 false; shown 3 5 true]);
  (* 189 *) (8, 8, [place 1 White Rook 3 3; place 2 White Pawn 4 3; asks true 3 3 3 4; wait_ true 1000; asks true 3 4 3 6;
     because "queued"; asks true 3 4 4 3; accepted false; because "illegal_piece_move"; wait_ true 2000; shown 3 4 true]);
  (* 209 *) (8, 8, [place 1 White Rook 3 3; asks true 3 3 3 4; wait_ true 1000; asks true 3 4 3 6; because "queued";
     place 2 White Bishop 3 6; wait_ true 1000; shown 3 4 true; over false]);
  (* 230 *) (8, 8, [place 1 White Rook 3 3; place 2 White Pawn 3 5; asks true 3 3 3 6; accepted true; because "ok"]);
  (* 241 *) (8, 8, [place 1 White Rook 3 3; place 2 White Pawn 3 5; asks false 3 3 3 6; accepted false; because "illegal_piece_move"]);
  (* 254 *) (8, 8, [place 1 White Rook 3 3; asks false 3 3 8 3; accepted false; because "outside_board"; asks false 0 0 0 1;
     accepted false; because "empty_source"; asks false 3 3 5 5; accepted false; because "illegal_piece_move";
     wait_ false 5000; shown 3 3 true]);
  (* 276 *) (8, 8, [place 1 White Rook 3 3; place 2 White Pawn 3 4; asks false 3 3 3 4; accepted false; because "friendly_destination"]);
  (* 289 *) (8, 8, [place 1 White Rook 3 3; asks false 3 3 3 6; accepted true; because "ok"; shown 3 3 true; shown 3 6 false]);
  (* 304 *) (8, 8, [place 1 White Rook 3 3; asks false 3 3 3 4; wait_ false 999; shown 3 3 true; shown 3 4 false; wait_ false 1;
     shown 3 3 false; shown 3 4 true]);
  (* 319 *) (8, 8, [place 1 White Rook 3 3; asks false 3 3 3 5; wait_ false 1000; shown 3 3 true; wait_ false 1000; shown 3 3 false;
     shown 3 5 true]);
  (* 333 *) (8, 8, [place 1 White Bishop 0 0; asks false 0 0 3 3; wait_ false 2999; shown 0 0 true; wait_ false 1; shown 3 3 true]);
  (* 348 *) (8, 8, [place 1 White Rook 3 3; place 2 Black Pawn 3 6; asks false 3 3 3 6; wait_ false 3000; shown 3 6 true;
     shownColor 3 6 White; shownKind 3 6 Rook; shown 3 3 false; over false]);
  (* 366 *) (8, 8, [place 1 White Rook 3 3; place 2 Black King 3 6; over false; asks false 3 3 3 6; wait_ false 3000; over true;
     shownOver true]);
  (* 382 *) (8, 8, [place 1 White Pawn 4 3; place 2 Black Rook 4 6; asks true 4 6 4 3; jump 4 3; accepted true; because "ok"]);
  (* 395 *) (8, 8, [place 1 White Pawn 4 3; asks true 4 3 3 3; jump 4 3; accepted false; because "motion_in_progress"]);
  (* 409 *) (8, 8, [place 1 White Rook 3 3; mayGo false 3 3 3 6; destinations false 3 3 14%nat]);
  (* 423 *) (8, 8, [destinations false 3 3 0%nat]);
  (* 433 *) (5, 4, [place 1 White King 1 1; place 2 Black Pawn 2 2; shownWidth 5; shownHeight 4; shownOver false; shownPieces 2%nat;
     shown 1 1 true; shownKind 1 1 King; shownColor 1 1 White])].

(** [test/test_PieceRules.cpp] *)
Definition pieceRulesTests : list (list (Z * Color * Kind * (Z * Z)) * list Query) := [
  (* 31 *) ([(1, White, Rook, (3, 3))],
     [rookGoes false 3 3 (counts 14%nat)]);
  (* 39 *) ([(1, White, Rook, (3, 3)); (1, White, Pawn, (3, 5))],
     [rookGoes false 3 3 (misses 3 5); rookGoes false 3 3 (misses 3 6); rookGoes false 3 3 (reaches 3 4)]);
  (* 51 *) ([(1, White, Rook, (3, 3)); (1, Black, Pawn, (3, 5))],
     [rookGoes false 3 3 (reaches 3 5); rookGoes false 3 3 (misses 3 6)]);
  (* 62 *) ([(1, White, Rook, (0, 0))],
     [rookGoes false 0 0 (counts 14%nat)]);
  (* 70 *) ([(1, White, Rook, (3, 3)); (1, White, Pawn, (3, 4)); (1, White, Pawn, (3, 2)); (1, White, Pawn, (2, 3));
     (1, White, Pawn, (4, 3))],
     [rookGoes false 3 3 (counts 0%nat)]);
  (* 84 *) ([(1, White, Bishop, (3, 3))],
     [bishopGoes false 3 3 (counts 13%nat)]);
  (* 92 *) ([(1, White, Bishop, (3, 3)); (1, White, Pawn, (5, 5))],
     [bishopGoes false 3 3 (reaches 4 4); bishopGoes false 3 3 (misses 5 5); bishopGoes false 3 3 (misses 6 6)]);
  (* 104 *) ([(1, White, Bishop, (3, 3)); (1, Black, Pawn, (5, 5))],
     [bishopGoes false 3 3 (reaches 5 5); bishopGoes false 3 3 (misses 6 6)]);
  (* 115 *) ([(1, White, Bishop, (0, 0))],
     [bishopGoes false 0 0 (counts 7%nat)]);
  (* 125 *) ([(1, White, Queen, (3, 3))],
     [queenGoes false 3 3 (counts 27%nat)]);
  (* 133 *) ([(1, White, Queen, (3, 3)); (1, White, Pawn, (2, 2)); (1, White, Pawn, (2, 3)); (1, White, Pawn, (2, 4));
     (1, White, Pawn, (3, 2)); (1, White, Pawn, (3, 4)); (1, White, Pawn, (4, 2)); (1, White, Pawn, (4, 3));
     (1, White, Pawn, (4, 4))],
     [queenGoes false 3 3 (counts 0%nat)]);
  (* 146 *) ([(1, White, Queen, (3, 3)); (1, Black, Pawn, (2, 2)); (1, Black, Pawn, (2, 3)); (1, Black, Pawn, (2, 4));
     (1, Black, Pawn, (3, 2)); (1, Black, Pawn, (3, 4)); (1, Black, Pawn, (4, 2)); (1, Black, Pawn, (4, 3));
     (1, Black, Pawn, (4, 4))],
     [queenGoes false 3 3 (counts 8%nat)]);
  (* 161 *) ([(1, White, Knight, (3, 3))],
     [hopsKnight 3 3 (counts 8%nat)]);
  (* 169 *) ([(1, White, Knight, (0, 0))],
     [hopsKnight 0 0 (counts 2%nat); hopsKnight 0 0 (reaches 1 2); hopsKnight 0 0 (reaches 2 1)]);
  (* 179 *) ([(1, White, Knight, (3, 3)); (1, White, Pawn, (2, 2)); (1, White, Pawn, (2, 3)); (1, White, Pawn, (2, 4));
     (1, White, Pawn, (3, 2)); (1, White, Pawn, (3, 4)); (1, White, Pawn, (4, 2)); (1, White, Pawn, (4, 3));
     (1, White, Pawn, (4, 4))],
     [hopsKnight 3 3 (counts 8%nat)]);
  (* 192 *) ([(1, White, Knight, (3, 3)); (1, White, Pawn, (1, 2))],
     [hopsKnight 3 3 (reaches 1 2)]);
  (* 202 *) ([(1, White, Knight, (3, 3)); (1, Black, Pawn, (1, 2))],
     [hopsKnight 3 3 (reaches 1 2)]);
  (* 214 *) ([(1, White, King, (3, 3))],
     [kingGoes false 3 3 (counts 8%nat)]);
  (* 222 *) ([(1, White, King, (0, 0))],
     [kingGoes false 0 0 (counts 3%nat)]);
  (* 230 *) ([(1, White, King, (3, 3)); (1, White, Pawn, (3, 4))],
     [kingGoes false 3 3 (misses 3 4)]);
  (* 239 *) ([(1, White, King, (3, 3)); (1, White, Pawn, (3, 4))],
     [kingGoes true 3 3 (reaches 3 4)]);
  (* 248 *) ([(1, White, King, (3, 3)); (1, Black, Pawn, (3, 4))],
     [kingGoes false 3 3 (reaches 3 4)]);
  (* 260 *) ([(1, White, Pawn, (4, 3))],
     [hopsPawn 4 3 (reaches 3 3)]);
  (* 268 *) ([(1, White, Pawn, (6, 3))],
     [hopsPawn 6 3 (reaches 5 3); hopsPawn 6 3 (reaches 4 3)]);
  (* 277 *) ([(1, White, Pawn, (4, 3))],
     [hopsPawn 4 3 (misses 2 3)]);
  (* 285 *) ([(1, White, Pawn, (4, 3)); (1, Black, Pawn, (3, 3))],
     [hopsPawn 4 3 (misses 3 3)]);
  (* 295 *) ([(1, White, Pawn, (4, 3)); (1, Black, Pawn, (3, 4))],
     [hopsPawn 4 3 (reaches 3 4)]);
  (* 305 *) ([(1, White, Pawn, (4, 3)); (1, Black, Pawn, (3, 3))],
     [hopsPawn 4 3 (misses 3 3)]);
  (* 315 *) ([(1, White, Pawn, (4, 3)); (1, White, Pawn, (3, 4))],
     [hopsPawn 4 3 (misses 3 4)]);
  (* 325 *) ([(1, Black, Pawn, (3, 3))],
     [hopsPawn 3 3 (reaches 4 3)]);
  (* 333 *) ([(1, Black, Pawn, (1, 3))],
     [hopsPawn 1 3 (reaches 2 3); hopsPawn 1 3 (reaches 3 3)]);
  (* 344 *) ([(1, White, Rook, (3, 3)); (1, White, Pawn, (3, 5))],
     [rookGoes true 3 3 (reaches 3 4); rookGoes true 3 3 (reaches 3 5); rookGoes true 3 3 (reaches 3 6); rookGoes true 3 3 (reaches 3 7)]);
  (* 358 *) ([(1, White, Rook, (3, 3)); (1, Black, Pawn, (3, 5))],
     [rookGoes true 3 3 (reaches 3 5); rookGoes true 3 3 (reaches 3 6); rookGoes true 3 3 (reaches 3 7)]);
  (* 371 *) ([(1, White, Rook, (3, 3)); (1, White, Pawn, (3, 5))],
     [rookGoes false 3 3 (misses 3 5); rookGoes false 3 3 (misses 3 6)]);
  (* 383 *) ([(1, White, Bishop, (3, 3)); (1, White, Pawn, (5, 5))],
     [bishopGoes true 3 3 (reaches 5 5); bishopGoes true 3 3 (reaches 6 6)]);
  (* 395 *) ([(1, White, Queen, (3, 3)); (1, White, Pawn, (3, 5))],
     [queenGoes true 3 3 (reaches 3 5); queenGoes true 3 3 (reaches 3 6)]);
  (* 407 *) ([(1, White, Rook, (3, 3)); (1, White, Pawn, (3, 5))],
     [goes true 3 3 (reaches 3 6)]);
  (* 418 *) ([(1, White, Knight, (3, 3))],
     [goes true 3 3 (counts 8%nat); goes false 3 3 (counts 8%nat)]);
  (* 430 *) ([(1, White, Rook, (3, 3))],
     [goes false 3 3 (counts 14%nat)]);
  (* 438 *) ([(1, White, Knight, (3, 3))],
     [goes false 3 3 (counts 8%nat)]);
  (* 446 *) ([],
     [goesNowhere 3 3 (counts 0%nat)])].

(** [test/test_SlidingPieceRules.cpp] *)
Definition slidingTests : list (list (Z * Color * Kind * (Z * Z)) * list Query) := [
  (* 22 *) ([(1, White, Rook, (0, 0))],
     [slides [(0, 1)] false 0 0 (counts 7%nat); slides [(0, 1)] false 0 0 (reaches 0 7)]);
  (* 33 *) ([(1, White, Rook, (0, 0)); (2, White, Pawn, (0, 3))],
     [slides [(0, 1)] false 0 0 (counts 2%nat); slides [(0, 1)] false 0 0 (reaches 0 1);
     slides [(0, 1)] false 0 0 (reaches 0 2); slides [(0, 1)] false 0 0 (misses 0 3)]);
  (* 47 *) ([(1, White, Rook, (0, 0)); (2, Black, Pawn, (0, 3))],
     [slides [(0, 1)] false 0 0 (counts 3%nat); slides [(0, 1)] false 0 0 (reaches 0 3);
     slides [(0, 1)] false 0 0 (misses 0 4)]);
  (* 60 *) ([(1, White, Rook, (0, 0)); (2, Black, Pawn, (0, 3)); (3, White, Pawn, (0, 5))],
     [slides [(0, 1)] true 0 0 (counts 7%nat); slides [(0, 1)] true 0 0 (reaches 0 3); slides [(0, 1)] true 0 0 (reaches 0 5);
     slides [(0, 1)] true 0 0 (reaches 0 7)]);
  (* 75 *) ([(1, White, Queen, (4, 4))],
     [slides [(1, 0); (0, 1)] false 4 4 (reaches 5 4); slides [(1, 0); (0, 1)] false 4 4 (reaches 4 5);
     slides [(1, 0); (0, 1)] false 4 4 (misses 3 4)])].

(** [test/test_rule_engine.cpp] *)
Definition ruleEngineTests : list (list (Z * Color * Kind * (Z * Z)) * list Query) := [
  (* 19 *) ([],
     [judged false (-1) 0 3 3 false "outside_board"]);
  (* 26 *) ([(1, White, Rook, (3, 3))],
     [judged false 3 3 8 3 false "outside_board"]);
  (* 34 *) ([],
     [judged false (-1) (-1) 9 9 false "outside_board"]);
  (* 43 *) ([],
     [judged false 3 3 3 4 false "empty_source"]);
  (* 50 *) ([],
     [judged false 0 0 0 1 false "empty_source"]);
  (* 60 *) ([(1, White, Rook, (3, 3)); (1, White, Pawn, (3, 4))],
     [judged false 3 3 3 4 false "friendly_destination"]);
  (* 69 *) ([(1, Black, Queen, (4, 4)); (1, Black, Pawn, (4, 5))],
     [judged false 4 4 4 5 false "friendly_destination"]);
  (* 78 *) ([(1, White, Knight, (3, 3)); (1, White, Pawn, (1, 2))],
     [judged false 3 3 1 2 true "ok"]);
  (* 89 *) ([(1, White, Rook, (3, 3))],
     [judged false 3 3 5 5 false "illegal_piece_move"]);
  (* 97 *) ([(1, White, Bishop, (3, 3))],
     [judged false 3 3 3 5 false "illegal_piece_move"]);
  (* 105 *) ([(1, White, Pawn, (4, 3))],
     [judged false 4 3 5 3 false "illegal_piece_move"]);
  (* 113 *) ([(1, White, Pawn, (4, 3)); (1, Black, Pawn, (3, 3))],
     [judged false 4 3 3 3 false "illegal_piece_move"]);
  (* 122 *) ([(1, White, King, (3, 3))],
     [judged false 3 3 3 5 false "illegal_piece_move"]);
  (* 130 *) ([(1, White, Rook, (3, 3)); (1, White, Pawn, (3, 5))],
     [judged false 3 3 3 6 false "illegal_piece_move"]);
  (* 141 *) ([(1, White, Rook, (3, 3))],
     [judged false 3 3 3 6 true "ok"]);
  (* 149 *) ([(1, White, Bishop, (3, 3))],
     [judged false 3 3 5 5 true "ok"]);
  (* 157 *) ([(1, White, Knight, (3, 3)); (1, White, Pawn, (3, 4)); (1, White, Pawn, (4, 3))],
     [judged false 3 3 1 2 true "ok"]);
  (* 167 *) ([(1, White, Rook, (3, 3)); (1, Black, Pawn, (3, 6))],
     [judged false 3 3 3 6 true "ok"]);
  (* 176 *) ([(1, White, Pawn, (4, 3))],
     [judged false 4 3 3 3 true "ok"]);
  (* 184 *) ([(1, White, Pawn, (4, 3)); (1, Black, Pawn, (3, 4))],
     [judged false 4 3 3 4 true "ok"]);
  (* 193 *) ([(1, White, King, (3, 3))],
     [judged false 3 3 3 4 true "ok"]);
  (* 201 *) ([(1, White, Queen, (3, 3))],
     [judged false 3 3 3 7 true "ok"; judged false 3 3 7 7 true "ok"]);
  (* 210 *) ([(1, White, Rook, (3, 3)); (1, White, Pawn, (3, 5))],
     [judged true 3 3 3 6 true "ok"]);
  (* 220 *) ([(1, White, Rook, (3, 3)); (1, White, Pawn, (3, 4))],
     [judged true 3 3 3 4 true "ok"]);
  (* 230 *) ([(1, White, Rook, (3, 3)); (1, White, Pawn, (3, 4))],
     [judged false 3 3 3 4 false "friendly_destination"]);
  (* 240 *) ([(1, White, King, (3, 3)); (1, White, Pawn, (3, 4))],
     [judged true 3 3 3 4 true "ok"]);
  (* 250 *) ([(1, White, Rook, (3, 3)); (1, White, Pawn, (3, 5))],
     [judged false 3 3 3 6 false "illegal_piece_move"])].

(** ** They pass *)
Example arbiterTests_pass : forallb (λ t, passes t newBench) arbiterTests = true.
Proof. by vm_compute. Qed.

Example collisionTests_pass : forallb (λ t, passes t newBench) collisionTests = true.
Proof. by vm_compute. Qed.

Example arrivalTests_pass : forallb (λ t, passes t newBench) arrivalTests = true.
Proof. by vm_compute. Qed.

Example engineTests_pass : forallb (λ t, passesEngine t.2 (newEngineBench t.1.1 t.1.2)) engineTests = true.
Proof. by vm_compute. Qed.

Example pieceRulesTests_pass : forallb (λ t, holdsOn t.1 t.2) pieceRulesTests = true.
Proof. by vm_compute. Qed.

Example slidingTests_pass : forallb (λ t, holdsOn t.1 t.2) slidingTests = true.
Proof. by vm_compute. Qed.

Example ruleEngineTests_pass : forallb (λ t, holdsOn t.1 t.2) ruleEngineTests = true.
Proof. by vm_compute. Qed.
