(* ===== verification/DrawingDemos.v ===== *)
(** * A drawn game

    The interface of images answered by decoder and matrices of known size, and
    the pictures of the starting position, at rest and with a pawn on its way. *)
From S2P Require Import Prelude Model Text Double DoubleBounds Rules Motion Arbiter ArbiterSteps Lifecycle Engine EngineSpec EngineTheorems Observers BoardIO ClientInput Window Img Sprites SpriteTheorems Drawing DrawingTheorems.
#[local] Open Scope Z_scope.
#[local] Existing Instance sorted_iter.

(** A decoder that finds a picture of 64 by 64 at every path. *)
#[local] Instance testCV : OpenCV := {
  Picture := string;
  imread := λ path, Some (64, 64, 4, path);
  resize := λ w h p, p;
  resizes := λ w h, (0 <? w) && (0 <? h);
  hasRegion := λ rows cols x y w h, (0 <=? x) && (0 <=? y) && (0 <=? w) && (0 <=? h) && (x + w <=? cols) && (y + h <=? rows);
  hasCircle := λ r, 0 <=? r
}.

#[local] Instance testLaws : OpenCVLaws.
Proof.
  split.
  - intros w h Hw Hh. simpl. apply andb_true_iff. rewrite !Z.ltb_lt. done.
  - intros rows cols x y w h. simpl. intros. rewrite !andb_true_iff, !Z.leb_le. lia.
  - intros r Hr. simpl. by apply Z.leb_le.
Defined.

Lemma test_images : images_found.
Proof. intros path Hp. simpl. eauto. Defined.

Definition startBoard : Board := placedBoard startingToken 8 8 1.
Definition gameStart : GameEngine := newEngine startBoard.
Definition pawnOnItsWay : GameEngine := play true gameStart [CMove (mkPos 6 4) (mkPos 4 4); CWait 500].

Lemma startBoard_ok : board_ok startBoard.
Proof.
  assert (engine_ok gameStart) as He by (apply placedBoard_playable; [lia..|exact startingToken_valid]).
  exact (lc_board _ _ _ _ (ok_life _ _ (eng_arbiter _ He))).
Qed.

Definition someView : View := mkView "room7" "dana (1200)" "noam (1216)" (false, "") (0, 0) ([], []) 3.

(** A pawn on its way; and a knight that rests after a move jumps, which breaks
    the engine's invariant. *)
Definition knightJumps : list Command :=
  [CMove (mkPos 7 6) (mkPos 5 5); CWait 2500; CJump (mkPos 5 5); CMove (mkPos 6 4) (mkPos 4 4); CWait 300].

Lemma game_drawn_witness :
  succeeds (render imgFiles imgRoot 100 someView (snapshot (play true (newEngine startBoard) knightJumps))) newScreen (λ _ s',
    screen_ok imgFiles imgRoot s' ∧ ∃ picture, shown s' = [picture] ∧ length (blits (strokes picture)) = 33%nat).
Proof.
  refine (game_drawn 100 someView (snapshot (play true (newEngine startBoard) knightJumps)) true startBoard knightJumps newScreen
    test_images _ startBoard_ok eq_refl eq_refl _ _ _ _ eq_refl (newScreen_ok _ _)).
  - lia.
  - repeat constructor; simpl; lia.
  - vm_compute. discriminate.
  - vm_compute. reflexivity.
  - vm_compute. reflexivity.
Defined.

Lemma render_draws_witness :
  ∃ picture, rows picture = 540 ∧ cols picture = 1040 ∧
    succeeds (render imgFiles imgRoot 60 someView (snapshot gameStart)) newScreen (λ _ s', shown s' = [picture]).
Proof.
  destruct (render_draws 60 someView (snapshot gameStart) test_images ltac:(lia)) as (mb & mc & picture & _ & _ & Hr & Hw & _ & Hrun).
  - left. split; vm_compute; reflexivity.
  - apply (snapshot_drawable true startBoard []); [apply startBoard_ok|reflexivity..|constructor|vm_compute; discriminate].
  - exists picture. split; [exact Hr|]. split; [exact Hw|].
    destruct (Hrun newScreen (newScreen_ok _ _)) as (a & s' & Hrun' & _ & Hs). exists a, s'. split; [exact Hrun'|exact Hs].
Defined.

Lemma getSprite_uncached_witness :
  succeeds (getSprite imgFiles imgRoot 60 Rook White Idle 250) (sprites newScreen) (λ img s',
    matOf img (buffers s') = Some (mkMat 60 60 4 "client/view/img/wR/states/idle/sprites/2.png" []) ∧ NoDup (asked s')).
Proof.
  pose proof (getSprite_uncached imgFiles imgRoot 60 Rook White Idle 250 (sprites newScreen) (sc_sprites _ _ _ (newScreen_ok _ _))) as H.
  assert (spriteMat imgFiles imgRoot 60 Rook White Idle 250 = Ok (mkMat 60 60 4 "client/view/img/wR/states/idle/sprites/2.png" [])) as Hm
    by (vm_compute; reflexivity).
  rewrite Hm in H. destruct H as (img & s' & Hrun & Hi & Hs & _). exists img, s'. split; [exact Hrun|]. split; [exact Hi|].
  exact (so_once _ _ _ Hs).
Defined.

(** A sprite asked for twice is loaded once. *)
Example loaded_once :
  match (getSprite imgFiles imgRoot 60 Rook White Idle 250 ;; getSprite imgFiles imgRoot 60 Rook White Idle 1500) (sprites newScreen) with
  | Ok (_, s) => asked s = [("client/view/img/wR/states/idle/sprites/2.png", (60, 60))]
  | Throw _ => False
  end.
Proof. vm_compute. reflexivity. Qed.

Lemma selectAnimationFrame_spec_witness :
  ∃ i, selectAnimationFrame (-1700) 6 false 5 = Some i ∧ 0 ≤ i < 5.
Proof.
  destruct (selectAnimationFrame_spec (-1700) 6 false 5 ltac:(lia) ltac:(lia)) as (i & Hi & Hr & _).
  - unfold int_range, INT_MIN, INT_MAX. lia.
  - exists i. split; [exact Hi|exact Hr].
Defined.

Lemma spritePath_inj_witness : ∀ path,
  spritePath imgRoot Pawn White Idle 2 = Ok path → spritePath imgRoot Pawn White Idle 2 = Ok path → Pawn = Pawn ∧ (2 = 2)%Z.
Proof.
  intros path H1 H2. destruct (spritePath_inj imgRoot Pawn White Idle 2 Pawn White Idle 2 path H1 H2) as (Hk & _ & _ & Hf).
  split; [exact Hk|exact Hf].
Defined.

(** The move list of a panel: twenty lines are shown where eighteen fit above the
    panel's lower edge, and the last is drawn over the number of spectators. *)
Definition manyMoves : list MoveEntry := replicate 20 (mkEntry "00:00:01.000" "e4").
Definition textRows (l : list Stroke) : list (string * Z) :=
  omap (λ s, match s with Text txt _ y _ _ _ => Some (txt, y) | _ => None end) l.

Example rows_below_panel :
  match (reload imgRoot 60 (snapshot gameStart) ;; c ← asks canvas; f ← onImages (clone c);
         onImages (drawPlayerPanel f 10 "Black" "noam" 0 manyMoves) ;; asks (λ s, matOf f (buffers (sprites s)))) newScreen with
  | Ok (Some m, _) => filter (λ ty : string * Z, PANEL_Y + PANEL_TOTAL_H < ty.2) (textRows (strokes m)) =
      [("00:00:01.000", 442); ("00:00:01.000", 442); ("e4", 442); ("e4", 442);
       ("00:00:01.000", 460); ("00:00:01.000", 460); ("e4", 460); ("e4", 460)]
  | _ => False
  end.
Proof. vm_compute. reflexivity. Qed.

(** A board that is not eight by eight, after frames without a board, is drawn on
    the backdrop sized for eight: it does not fit, and [render] throws. *)
Example wide_board_throws :
  match (render imgFiles imgRoot 60 someView (mkSnapshot 0 0 [] false false (mkPos 0 0) []) ;;
         render imgFiles imgRoot 60 someView (mkSnapshot 12 8 [] false false (mkPos 0 0) [])) newScreen with
  | Throw what => what = "cv::Mat"
  | Ok _ => False
  end.
Proof. vm_compute. reflexivity. Qed.
