(* ===== verification/Wire.v ===== *)
(** * The services at work

    A concrete text format for JSON values, which satisfies what the code
    relies on, and runs of a shard with it: the theorems of the services are
    applied to them, and some show what happens in the corners. *)
From S2P Require Import Prelude Model Text Double Rules Motion Arbiter ArbiterSteps Lifecycle Engine EngineSpec EngineTheorems Json Observers Codecs Session SessionTheorems Registry RegistryTheorems Reconnect Stores BoardIO Server ServerTheorems Scenarios.
From Stdlib Require Import SpecFloat Ascii.
From stdpp Require Import countable list.

#[global] Open Scope Z_scope.
#[local] Existing Instance sorted_iter.

(** ** A text format

    A value is written as the number the finite trees are enumerated by. *)
Notation leaf := (unit + bool + Z + (nat * bool * positive * Z) + string)%type.

Definition dCode (d : double) : nat * bool * positive * Z :=
  match d with
  | S754_zero s => (0%nat, s, xH, 0) | S754_infinity s => (1%nat, s, xH, 0)
  | S754_nan => (2%nat, false, xH, 0) | S754_finite s m e => (3%nat, s, m, e)
  end.
Definition dDecode (c : nat * bool * positive * Z) : double :=
  let '(n, s, m, e) := c in
  match n with 0%nat => S754_zero s | 1%nat => S754_infinity s | 2%nat => S754_nan | _ => S754_finite s m e end.

Fixpoint jTree (j : json) : gen_tree leaf :=
  match j with
  | JNull => GenLeaf (inl (inl (inl (inl tt))))
  | JBool b => GenLeaf (inl (inl (inl (inr b))))
  | JInt z => GenLeaf (inl (inl (inr z)))
  | JDouble d => GenLeaf (inl (inr (dCode d)))
  | JString s => GenLeaf (inr s)
  | JArray l => GenNode 0 (map jTree l)
  | JObject fs => GenNode 1 (map (λ kv, GenNode 2 [GenLeaf (inr kv.1); jTree kv.2]) fs)
  end.

Definition leafString (t : gen_tree leaf) : string := match t with GenLeaf (inr s) => s | _ => "" end.

Fixpoint jUntree (t : gen_tree leaf) : json :=
  match t with
  | GenLeaf (inl (inl (inl (inl _)))) => JNull
  | GenLeaf (inl (inl (inl (inr b)))) => JBool b
  | GenLeaf (inl (inl (inr z))) => JInt z
  | GenLeaf (inl (inr c)) => JDouble (dDecode c)
  | GenLeaf (inr s) => JString s
  | GenNode 0 l => JArray (map jUntree l)
  | GenNode _ l => JObject (map (λ t, match t with
      | GenNode _ [k; v] => (leafString k, jUntree v) | _ => ("", JNull) end) l)
  end.

Fixpoint jUntree_jTree (j : json) : jUntree (jTree j) = j.
Proof.
  destruct j as [| | |d| |l|fs]; simpl; try done.
  - by destruct d.
  - f_equal. induction l as [|x l IH]; simpl; [done|]. by rewrite jUntree_jTree, IH.
  - f_equal. induction fs as [|[k v] fs IH]; simpl; [done|]. by rewrite jUntree_jTree, IH.
Qed.

Fixpoint bits (p : positive) : string :=
  match p with xH => "1" | xO p => String "0" (bits p) | xI p => String "i" (bits p) end.
Fixpoint unbits (s : string) : option positive :=
  match s with
  | EmptyString => None
  | String c s => if Ascii.eqb c "1" then Some xH
                  else if Ascii.eqb c "0" then xO <$> unbits s
                  else if Ascii.eqb c "i" then xI <$> unbits s else None
  end.

Lemma unbits_bits p : unbits (bits p) = Some p.
Proof. induction p as [p IH|p IH|]; simpl; [by rewrite IH|by rewrite IH|done]. Qed.

Definition wireDump (j : json) : string := bits (encode (jTree j)).
Definition wireParse (s : string) : result json :=
  match unbits s ≫= decode with
  | Some t => Ok (jUntree t)
  | None => Throw ("[json.exception.parse_error.101] syntax error; last read: '" +:+ s +:+ "'")
  end.

Lemma wireParse_dump j : jsonText ascii7 j = true → wireParse (wireDump j) = Ok j.
Proof.
  intros _. unfold wireParse, wireDump. rewrite unbits_bits. simpl. rewrite decode_encode.
  by rewrite jUntree_jTree.
Qed.

Lemma wireDump_c_str j : c_str (wireDump j) = wireDump j.
Proof. unfold wireDump. induction (encode (jTree j)) as [p IH|p IH|]; simpl; by rewrite ?IH. Qed.

#[export] Instance wireText : JsonText :=
  {| dump := wireDump; parse := wireParse; utf8 := ascii7;
     utf8_ascii7 := λ s Hs, Hs; parse_dump := wireParse_dump; dump_c_str := wireDump_c_str |}.

(** Sessions in a table. *)
Definition tableStore : ClientSessionStore (gmap string (string * Z)).
Proof.
  refine {| sessPut := λ t u e m, <[c_str t := (u, e)]> m; sessGet := λ t m, m !! c_str t |}.
  - intros t u e m _ _. apply lookup_insert_eq.
  - intros t t' u e m Ht. by apply lookup_insert_ne.
Defined.

(** ** Messages *)

Ltac ints :=
  unfold snapshotPiece_int, position_int, int_range, INT_MIN, INT_MAX; simpl; lia.

Lemma snapshot_roundtrip_witness : ∃ j, SnapshotCodec.encode (mkSnapshot 2 1
    [mkSnapshotPiece 1 King White (mkPos 0 0) Moving 5 (mkPos 0 1) d1 d0] false false (mkPos 0 0) []) = Ok j.
Proof.
  destruct (snapshot_roundtrip (mkSnapshot 2 1
    [mkSnapshotPiece 1 King White (mkPos 0 0) Moving 5 (mkPos 0 1) d1 d0] false false (mkPos 0 0) [])) as (j & Hj & _).
  - refine (conj _ (conj _ (conj _ (conj _ _)))); [ints|ints| |ints|].
    + intros p [->|Hp]%elem_of_cons; [ints|by apply elem_of_nil in Hp].
    + intros p Hp. by apply elem_of_nil in Hp.
  - exists j. exact Hj.
Defined.

Lemma captureEvent_roundtrip_witness :
  ∃ j, CaptureCodec.encode (mkCaptureEvent Pawn White (mkPos 1 1) 3 4 (mkPos 1 2) d1) = Ok j.
Proof.
  destruct (captureEvent_roundtrip (mkCaptureEvent Pawn White (mkPos 1 1) 3 4 (mkPos 1 2) d1)
    ltac:(ints) ltac:(ints) ltac:(ints) ltac:(ints)) as (j & Hj & _).
  exists j. exact Hj.
Defined.

Lemma message_roundtrip_witness :
  ∃ text, MessageCodec.encode (mkMessage FindGame jEmpty) = Ok text ∧
    MessageCodec.decode text = Ok (mkMessage FindGame jEmpty).
Proof. exact (message_roundtrip (mkMessage FindGame jEmpty) eq_refl). Defined.

(** ** A room's game *)

Definition duelSession : GameSession := newSession duel "r" true.
Definition duelOps : list SessionOp :=
  [OpMove (mkPos 0 0) (mkPos 0 3); OpCompute 300; OpMove (mkPos 0 4) (mkPos 0 1); OpPublish jEmpty; OpCompute 3000].

Lemma duelOps_run : ∃ s outs, runOps duelOps duelSession = Ok (s, outs) ∧ length (pending_ s) = 2%nat.
Proof.
  assert (match runOps duelOps duelSession with Ok (s, _) => Nat.eqb (length (pending_ s)) 2 | Throw _ => false end = true)
    as Hb by (vm_compute; reflexivity).
  destruct (runOps duelOps duelSession) as [[s outs]|]; [|done]. exists s, outs. split; [done|]. by apply Nat.eqb_eq.
Qed.

Lemma notifications_exact_witness : ∃ s outs, runOps duelOps duelSession = Ok (s, outs) ∧
  scoreObserver_ s = score (events (arbiter (engine_ s))).
Proof.
  destruct duelOps_run as (s & outs & Hr & _). exists s, outs. split; [exact Hr|].
  exact (proj1 (proj2 (notifications_exact duel "r" true duelOps s outs duel_ok Hr))).
Defined.

Lemma result_published_once_witness : ∃ s outs, runOps duelOps duelSession = Ok (s, outs) ∧
  (endedCount "r" outs ≤ 1)%nat.
Proof.
  destruct duelOps_run as (s & outs & Hr & _). exists s, outs. split; [exact Hr|].
  exact (proj1 (result_published_once duel "r" true duelOps s outs duel_ok Hr)).
Defined.

(** A king is captured. *)
Definition huntOver : GameSession :=
  mkSession (play true (newEngine kingHunt) [CMove (mkPos 0 0) (mkPos 0 2); CWait 2000]) true "r"
    newScore (newLog 1) noDisconnect (mkIdentity "ada" 1200 "bob" 1300 0) false None [] false.

Lemma publishStep_result_witness :
  let '(s', outs, exn) := publishStep jEmpty huntOver in
  exn = None ∧ ∃ data res, last outs = Some (Publish "game-ended:r" data) ∧
    ResultCodec.decode data = Ok res ∧ gr_winner res = White ∧ winnerUsername res = "ada".
Proof.
  assert (survivingKingColor (snapshot (engine_ huntOver)) = White) as Hc by (vm_compute; reflexivity).
  pose proof (publishStep_result jEmpty huntOver eq_refl ltac:(vm_compute; reflexivity) ltac:(ints) ltac:(ints)) as Hr.
  destruct (publishStep jEmpty huntOver) as [[s' outs] exn]. destruct Hr as [_ Hr]. cbv zeta in Hr. rewrite Hc in Hr.
  rewrite decide_False in Hr by discriminate. destruct Hr as (He & data & res & Hl & Hd & Hw & _ & Hu & _).
  split; [exact He|]. exists data, res. split; [exact Hl|]. split; [exact Hd|]. split; [exact Hw|exact Hu].
Defined.

(** ** The rooms of a shard *)

Definition oneRoom : SessionRegistry := (createRoom false "s" "r" duel true newRegistry).1.1.
Definition seated : SessionRegistry := (joinRoom "r" 1 "" oneRoom).1.

Lemma one_room : rooms_ oneRoom = {["r" := mkRoom duelSession ∅ 0 ∅ false ∅]}.
Proof. reflexivity. Qed.

Lemma seated_reachable u : rtc (reg_step false "s" false u) newRegistry seated.
Proof.
  eapply rtc_l; [apply (step_create false "s" false u newRegistry "r" duel true)|].
  eapply rtc_l; [|apply rtc_refl]. apply (step_join false "s" false u oneRoom "r" 1 "").
  - reflexivity.
  - intros rm Hrm. rewrite one_room, lookup_singleton_eq in Hrm. injection Hrm as <-. split; [reflexivity|intros _; left; reflexivity].
Qed.

Lemma registry_consistent_witness : 1 ∈ connectionsInRoom "r" seated.
Proof.
  destruct (registry_consistent false "s" false true seated (seated_reachable true)) as (Ha & _).
  apply (proj2 (Ha "r" 1)). vm_compute. reflexivity.
Defined.

Definition seatedRoom : Room := mkRoom duelSession {[1 := White]} 1 ∅ false ∅.

Lemma seated_room : rooms_ seated !! "r" = Some seatedRoom.
Proof. unfold seated, joinRoom. rewrite one_room, lookup_singleton_eq. cbv zeta. cbn [fst rooms_]. by rewrite lookup_insert_eq. Qed.

Lemma seats_given_once_witness : roleOf 2 (joinRoom "r" 2 "" seated).1 = Black.
Proof.
  exact (proj2 (seats_given_once false "s" false seated "r" seatedRoom (seated_reachable true) seated_room)
    2 ltac:(reflexivity) eq_refl).
Defined.

(** Ada leaves a game; two seconds pass, another room is created and joined and
    its player leaves too; she comes back on another connection. *)
Definition gameOn : list RegOp := [OpCreate "r" duel true; OpJoin "r" 1 ""; OpJoin "r" 2 ""; OpLeave 1].
Definition twoSeconds : list RegOp :=
  [OpExpire 0; OpFire 0; OpCreate "q" duel true; OpJoin "q" 5 "eve"; OpExpire 0; OpLeave 5; OpStart "q" White "eve" 900; OpExpire 1; OpFire 0; OpFire 1].

Lemma reconnect_in_time_witness :
  let r2 := regOps false "s" true twoSeconds (startDisconnectCountdown "r" White "ada" 1200 (regOps false "s" true gameOn newRegistry)) in
  let '(r4, cancelled, outs) := cancelDisconnectCountdown true "r" White "ada" (joinRoom "r" 9 "ada" r2).1 in
  roleOf 9 r4 = White ∧ cancelled = true ∧ ∀ later,
    timerFire true 0 (regOps false "s" true later r4) = (regOps false "s" true later r4, [], None).
Proof.
  pose proof (reconnect_in_time false "s" true gameOn "r" White "ada" 1200 twoSeconds 9
    ltac:(reflexivity) ltac:(discriminate)) as Hr.
  assert (timers (regOps false "s" true gameOn newRegistry) = ∅) as Ht by reflexivity.
  rewrite Ht in Hr. specialize (Hr ltac:(intros i cd; rewrite lookup_empty; discriminate)).
  specialize (Hr ltac:(repeat split; try (vm_compute; eexists; reflexivity); intros; done) ltac:(vm_compute; lia)).
  change (nextTimer (regOps false "s" true gameOn newRegistry)) with 0 in Hr.
  cbv zeta. destruct (cancelDisconnectCountdown _ _ _ _ _) as [[r4 k] o]. destruct Hr as (_ & Hrole & Hk & _ & _ & Hlater).
  split; [exact Hrole|]. split; [exact Hk|]. intros later. apply Hlater. reflexivity.
Defined.

(** Finding: a player who comes back while the handler is queued is resigned all
    the same: the handler runs without an error, waits again and counts on. *)
Lemma cancel_too_late :
  let r := startDisconnectCountdown "r" White "ada" 1200 (regOps false "s" true gameOn newRegistry) in
  let r := timerExpire 0 (fires true 7 0 r) in
  let '(r, cancelled, _) := cancelDisconnectCountdown true "r" White "ada" (joinRoom "r" 9 "ada" r).1 in
  let r := (timerFire true 0 r).1.1 in
  let r := fires true 13 0 r in
  cancelled = true ∧ roleOf 9 r = White ∧ gameResultPublished_ <$> room "r" r = Some true.
Proof. by vm_compute. Qed.

Lemma countdown_expires_witness :
  let '(r', outs, exn) := timerFire false 0 (timerExpire 0 (fires false 20 0 (startDisconnectCountdown "r" White "ada" 1200 seated))) in
  exn = None.
Proof.
  pose proof (countdown_expires false "r" White "ada" 1200 seatedRoom seated seated_room ltac:(discriminate)
    ltac:(ints) eq_refl ltac:(ints) ltac:(ints)) as Hr. cbv zeta in Hr.
  change (nextTimer seated) with 0 in Hr.
  destruct (timerFire false 0 _) as [[r' outs] exn]. exact (proj1 Hr).
Defined.

(** ** A shard *)

#[local] Instance noUsers : UserStore unit :=
  {| login := λ _ _ u, (u, mkLogin false "" 0); updateElo := λ _ _ u, u |}.

Definition anyPow (x : double) : double := d1.
Definition textOf' (m : Message) : string :=
  match MessageCodec.encode m with Ok t => t | Throw _ => "" end.
Definition say (h : hdl) (m : Message) (v : Server unit) : Server unit :=
  (process false None false h (textOf' m) v).1.1.
Definition allocated (v : Server unit) : Server unit :=
  (doAllocate false "s" (jObj [("roomName", JString "r")]) v).1.1.

Definition shard1 : Server unit := allocated (newServer "s" tt).
Definition shard2 : Server unit := say 1 (mkMessage JoinRoom (jObj [("name", JString "r")])) shard1.

Lemma shard2_reachable : rtc (loop_step anyPow false "s" false None false false false) (newServer "s" tt) shard2.
Proof.
  refine (rtc_l _ _ shard1 _ _ (rtc_l _ _ shard2 _ _ (rtc_refl _ _))).
  - exact (loop_allocate anyPow false "s" false None false false false (newServer "s" tt)
      (jObj [("roomName", JString "r")])).
  - exact (loop_message anyPow false "s" false None false false false shard1 1
      (textOf' (mkMessage JoinRoom (jObj [("name", JString "r")])))).
Qed.

Lemma broadcasts_stay_in_room_witness : ∃ v' outs r text,
  finishTick anyPow false false false "r" jEmpty shard2 = Some (v', outs, r) ∧
  Push 1 text ∈ outs ∧ 1 ∈ connectionsInRoom "r" (registry shard2).
Proof.
  assert (match finishTick anyPow false false false "r" jEmpty shard2 with
    | Some (_, [Push h _], _) => h =? 1 | _ => false end = true) as Hb by (vm_compute; reflexivity).
  destruct (finishTick anyPow false false false "r" jEmpty shard2) as [[[v' outs] r]|] eqn:Hf; [|discriminate Hb].
  destruct outs as [|[h text| | | | |] [|]]; try discriminate Hb. apply Z.eqb_eq in Hb. subst h.
  exists v', [Push 1 text], r, text.
  assert (Push 1 text ∈ [Push 1 text]) as Hin by (by left).
  split; [reflexivity|]. split; [exact Hin|].
  exact (broadcasts_stay_in_room anyPow false "s" false None false false false tt shard2 "r" jEmpty v' _ r 1 text
    shard2_reachable Hf Hin).
Defined.

(** Half of a two-byte character, quoted by the parser. *)
Definition halfCharacter : string := String (ascii_of_nat 195) "".

(** Finding: such a text makes [process] throw into the event loop. *)
Lemma process_unreadable_witness :
  process false None false 1 halfCharacter shard2 =
    (shard2, [], Throw "[json.exception.type_error.316] invalid UTF-8 byte").
Proof.
  assert (parse halfCharacter =
    Throw ("[json.exception.parse_error.101] syntax error; last read: '" +:+ halfCharacter +:+ "'")) as Hp
    by (vm_compute; reflexivity).
  exact (process_unreadable false None false 1 halfCharacter shard2 _ Hp).
Defined.

(** ** Corners

    A room that waits to be removed does not come back to life when somebody
    joins it: the next reap erases it with the connection inside. *)
Lemma join_pending_room_reaped :
  let r := onRoom "r" (withSession (setTickInFlight true)) seated in
  let r := (leave false 1 r).1.1 in
  let r := (joinRoom "r" 2 "" r).1 in
  let r := (reapIfSafe false "r" (onRoom "r" (withSession endTick) r)).1 in
  roomOf 2 r = Some "r" ∧ roomExists "r" r = false.
Proof. by vm_compute. Qed.

(** A connection that joins a second room stays in the first for ever. *)
Lemma join_two_rooms_leaks :
  let r := (createRoom false "s" "q" duel true seated).1.1 in
  let r := (joinRoom "q" 1 "" r).1 in
  let r := (leave false 1 r).1.1 in
  roomOf 1 r = None ∧ connectionsInRoom "r" r = [1] ∧ roomExists "q" r = false.
Proof. by vm_compute. Qed.

(** A countdown outlives its room: it resigns a player of the next room of the
    same name, who never disconnected. *)
Lemma stale_countdown_resigns :
  let r := (joinRoom "r" 2 "bob" seated).1 in
  let r := startDisconnectCountdown "r" White "ada" 1200 (leave false 1 r).1.1 in
  let r := (leave false 2 r).1.1 in
  let r := (createRoom false "s" "r" duel true r).1.1 in
  let r := (joinRoom "r" 3 "cat" r).1 in
  let r := fires false 21 0 r in
  roomOf 3 r = Some "r" ∧ roleOf 3 r = White ∧ gameResultPublished_ <$> room "r" r = Some true.
Proof. by vm_compute. Qed.

(** A room name used again: the bus still calls the broadcasters of the old
    room, which are destroyed; and a result is recorded twice. *)
Definition shard3 : Server unit := allocated (onClose false false 1 shard2).1.

Lemma reused_room_dangling :
  publish anyPow false false (moveLogTopic "r") jEmpty shard2 ≠ None ∧
  publish anyPow false false (moveLogTopic "r") jEmpty shard3 = None.
Proof. by vm_compute. Qed.

Definition aResult : json :=
  match ResultCodec.encode (mkGameResult White KingCapture "ada" 1200 "bob" 1200 jEmpty) with
  | Ok j => j | Throw _ => JNull end.

Lemma reused_room_records_twice :
  (λ x, length x.1.2) <$> publish anyPow true false (gameEndedTopic "r") aResult shard2 = Some 1%nat ∧
  (λ x, length x.1.2) <$> publish anyPow true false (gameEndedTopic "r") aResult shard3 = Some 2%nat.
Proof. by vm_compute. Qed.

(** Both kings fall in one tick: no result is published, and the delivery step
    throws. *)
Definition bothKings : Board :=
  boardOf 3 2 [(1, White, Rook, mkPos 0 0); (2, Black, King, mkPos 0 2);
               (3, Black, Rook, mkPos 1 0); (4, White, King, mkPos 1 2)].

Lemma both_kings_no_result :
  match runOps [OpMove (mkPos 0 0) (mkPos 0 2); OpMove (mkPos 1 0) (mkPos 1 2); OpCompute 2000]
          (newSession bothKings "r" true) with
  | Ok (s, _) => gs_over (snapshot (engine_ s)) = true ∧
      endedCount "r" (publishStep jEmpty s).1.2 = 0%nat ∧ is_Some (publishStep jEmpty s).2 ∧
      gameResultPublished_ (publishStep jEmpty s).1.1 = true
  | Throw _ => False
  end.
Proof. vm_compute. split_and!; [done|done|by eexists|done]. Qed.
