(* ===== verification/ServiceDemos.v ===== *)
(** * The bus, the databases and the fleet at work

    The theorems of [Nats], [Postgres] and [Process] applied to concrete
    services, tables and shards. *)
From S2P Require Import Prelude Model Text Scan Double Json Redis Nats Matchmaking Allocator Observers Codecs Session Registry Stores BoardIO Server Users Postgres WsGateway ApiGateway Process Tokens History WsClient Scenarios Wire.
From stdpp Require Import sorting.
#[local] Open Scope Z_scope.

(** ** A service on the bus *)

(** A counter: a message adds one, a request is told the count. *)
Definition onCount : MessageHandler (S := Z) := λ _ n, (n + 1, None).
Definition onAsk : RequestHandler (S := Z) := λ _ n, (n, Ok (JInt n)).
Definition counter : NatsClient (S := Z) := subscribeRequest "ask" onAsk (Nats.subscribe "tick" onCount (mkNats [] [])).

Lemma publish_handled_witness : ∃ body,
  (foldl (deliver (subs_ counter) None body) (7, []) [0%nat]).1 = 8.
Proof.
  destruct (publish_handled "tick" (JInt 1) counter (mkNats (subs_ counter) [("tick", dump (JInt 1))]) [0%nat] 7)
    as (body & _ & H & _).
  - reflexivity.
  - reflexivity.
  - reflexivity.
  - split.
    + apply NoDup_singleton.
    + intros i ->%list_elem_of_singleton. eexists. split; reflexivity.
    + intros [|[|i]] sub Hi Hs _; [by left| |done]. injection Hi as <-. done.
    + intros q ([|[|i]] & sub & Hi & _ & Hq); [injection Hi as <-|injection Hi as <-|]; done.
  - exists body. exact H.
Defined.

(** It refuses what is not a question. *)
Definition onAskText : RequestHandler (S := Z) := λ j n,
  match j with JString _ => (n + 1, Ok (JInt n)) | _ => (n, Throw "no question") end.
Definition asked2 : list Subscription := [mkSub "ask" None (OnRequest onAskText)].

Lemma request_answered_witness :
  (∃ body, request (JString "how many") (λ text, if String.eqb text (dump (JString "how many")) then Some body else None)
    = Ok (Some (JInt 7))) ∧
  (∃ body, request JNull (λ text, if String.eqb text (dump JNull) then Some body else None)
    = Ok (Some (JObject [("message", JString "no question"); ("success", JBool false)]))).
Proof.
  split.
  - destruct (proj2 (request_answered (H := wireText) asked2 0 "ask" None onAskText "inbox" (JString "how many") 7 eq_refl) ltac:(reflexivity) ltac:(reflexivity)) as (body & _ & H).
    exists body. apply H. reflexivity.
  - destruct (proj2 (request_answered (H := wireText) asked2 0 "ask" None onAskText "inbox" JNull 7 eq_refl) ltac:(reflexivity) ltac:(reflexivity)) as (body & _ & H).
    exists body. apply H. reflexivity.
Defined.

(** The parser's message quotes the byte that is not UTF-8. *)
Lemma request_malformed_witness :
  deliver (subs_ counter) (Some "inbox") (String (Ascii.ascii_of_nat 200) "") (7, []) 1
    = (7, [Escaped "[json.exception.type_error.316] invalid UTF-8 byte"]).
Proof.
  exact (request_malformed (subs_ counter) 1 "ask" None onAsk "inbox" (String (Ascii.ascii_of_nat 200) "") _ 7
    eq_refl eq_refl).
Defined.

(** ** The databases *)
Definition len (s : string) : Z := Z.of_nat (String.length s).
Definition accounts : UserTable := {["ann" := mkUser (hashPassword len "secret") 1500]}.

Lemma accounts_int : ratings_int accounts.
Proof. intros name row Hr. unfold accounts in Hr. apply lookup_singleton_Some in Hr as [_ <-]. ints. Qed.

Lemma postgres_users_agree_witness :
  pgLogin len true true "ann" "secret" accounts = Ok (userLogin len (λ _, true) "ann" "secret" accounts).
Proof. exact (proj1 (postgres_users_agree len (λ _, true) "ann" "secret" 1600 accounts accounts_int)). Defined.

Lemma postgres_login_safe_witness : ∃ t r, pgLogin len false true "ann" "thief" accounts = Ok (t, r) ∧
  t !! "ann" = Some (mkUser (hashPassword len "secret") 1500).
Proof.
  destruct (postgres_login_safe len false true "ann" "thief" accounts accounts_int) as (t & r & Hr & Hk & _).
  exists t, r. split; [exact Hr|]. apply Hk. reflexivity.
Defined.

(** A table that keeps the text of a document and sorts by merging. *)
Definition newer (a b : GameRow) : Prop := played_at b ≤ played_at a.
#[local] Instance newer_dec a b : Decision (newer a b) := Z_le_dec (played_at b) (played_at a).
#[local] Instance newer_total : Total newer.
Proof. intros a b. unfold newer. lia. Qed.
#[local] Instance textGames : GamesTable :=
  {| jsonb := Some; newestFirst := merge_sort newer;
     newestFirst_perm := merge_sort_Permutation newer; newestFirst_sorted := Sorted_merge_sort newer |}.

Definition game (room winner loser : string) (elo : Z) : GameRecord :=
  mkRecord room winner elo loser (3000 - elo) "king captured" (JArray [JString "e2e4"]).
Definition season : list (Z * GameRecord) :=
  [(10, game "r1" "ann" "bob" 1510); (20, game "r2" "bob" "ann" 1500); (30, game "r3" "ann" "bob" 1511)].

Lemma game_storable room winner loser elo :
  c_str room = room → c_str winner = winner → c_str loser = loser → 0 ≤ elo ≤ 3000 → storable (game room winner loser elo).
Proof.
  intros H1 H2 H3 He. split; [by split_and!|unfold int_range, INT_MIN, INT_MAX; simpl; lia|done|].
  exists (dump (JArray [JString "e2e4"])). split; [done|by apply parse_dump].
Qed.

Lemma history_roundtrip_witness : ∃ t, recordAll season [] = Ok t ∧
  listGames true 2 t = Ok [game "r3" "ann" "bob" 1511; game "r2" "bob" "ann" 1500].
Proof.
  destruct (history_roundtrip season 2) as (t & Hr & Hl).
  - repeat constructor; apply game_storable; reflexivity || lia.
  - repeat constructor; simpl; lia.
  - lia.
  - exists t. split; [exact Hr|exact Hl].
Defined.

(** Two games with both players, one whose black seat stayed empty. *)
Definition endings : list Ended :=
  [mkEnded 10 "r1" (mkGameResult White KingCapture "ann" 1510 "bob" 1490 (JArray [JString "e2e4"]));
   mkEnded 20 "r2" (mkGameResult White Disconnect "ann" 1510 "" 0 jEmpty);
   mkEnded 30 "r3" (mkGameResult Black Disconnect "bob" 1505 "ann" 1495 jEmpty)].

Lemma ending_endable e :
  gr_winner (en_result e) ≠ NoColor → ascii7 (en_room e) = true → ascii7 (winnerUsername (en_result e)) = true →
  ascii7 (loserUsername (en_result e)) = true → plainText (en_room e) → plainText (winnerUsername (en_result e)) →
  plainText (loserUsername (en_result e)) → int_range (winnerElo (en_result e)) → int_range (loserElo (en_result e)) →
  jsonText ascii7 (gr_moveLog (en_result e)) = true → jsonStrings ascii7 (gr_moveLog (en_result e)) = true → endable e.
Proof.
  intros. split; [done| |done]. split; simpl; [|done..|].
  - split_and!; [done..|]. by destruct (gr_reason _).
  - exists (dump (gr_moveLog (en_result e))). split; [done|]. by apply wireParse_dump.
Qed.

Lemma endings_endable : Forall endable endings.
Proof. repeat apply Forall_cons_2; try apply Forall_nil_2; apply ending_endable; done || ints. Qed.

#[local] Existing Instance tableStore.
Definition noSessions : gmap string (string * Z) := ∅.
Definition quietPage (rs : list GameRecord) : ApiEnv := mkEnv [] (λ _, None) "t" (λ _, "") [] (Some rs).

Lemma history_page_witness :
  httpHandler 1 "GET" "/history" "" (quietPage (map recordOf (reverse (filter bothNamed endings)))) (newApi noSessions) =
    (newApi noSessions, [Respond 1 200 (dump (historyPage (map recordOf (reverse (filter bothNamed endings)))))], Ok tt).
Proof.
  destruct (history_page (newServer "s" tt) endings 1 (quietPage (map recordOf (reverse (filter bothNamed endings))))
    (newApi noSessions)) as (t & rs & _ & _ & Hrs & Hpage).
  - exact endings_endable.
  - repeat constructor.
  - assert (rs = map recordOf (reverse (filter bothNamed endings))) as E by (rewrite Hrs; reflexivity).
    rewrite E in Hpage. exact (Hpage eq_refl).
Defined.

(** ** Tokens *)
Example token_255 : makeToken 255 4096 = "00000000000000ff0000000000001000".
Proof. reflexivity. Qed.

(** ** The fleet *)
#[local] Existing Instance mapRedis.
#[local] Existing Instance sorted_iter.

(** One shard has a room, the other, idle, is not heard after the first second. *)
Definition busy : SessionRegistry := (createRoom false "ws://busy" "r" duel true newRegistry).1.1.
Definition heartbeats : list Beat :=
  [mkBeat 1000 "ws://idle" newRegistry; mkBeat 2000 "ws://busy" busy; mkBeat 7000 "ws://busy" busy; mkBeat 12000 "ws://busy" busy;
   mkBeat 17000 "ws://busy" busy].
Definition loads (m : gmap string Z) : list (string * Z) := map_to_list m.

Lemma beats_counted : counted heartbeats.
Proof. repeat constructor. Qed.

Lemma fleet_view_witness : "ws://busy" ∈ (liveShards 20000 (fleet heartbeats).2).2.
Proof.
  refine (proj2 (proj1 (fleet_view loads heartbeats 20000 (λ l, Permutation_refl _) beats_counted eq_refl) "ws://busy") _).
  exists (mkBeat 17000 "ws://busy" busy). split; reflexivity.
Defined.

Definition matchEvent : json := jObj [("usernameA", JString "ann"); ("usernameB", JString "bob")].

Lemma dead_shard_starves_witness :
  (onMatched loads (λ _ _, None) matchEvent (fleet heartbeats).1 (∅ : @rdb mapRedis)).2 = [].
Proof.
  refine (proj2 (dead_shard_starves loads (λ _ _, None) matchEvent heartbeats "ws://idle" (mkBeat 1000 "ws://idle" newRegistry) 17000 (∅ : @rdb mapRedis)
    (λ l, Permutation_refl _) beats_counted eq_refl _ ltac:(simpl; lia) (λ _, eq_refl))).
  intros s' b' Hne Hb'. unfold lastBeat in Hb'. apply last_Some_elem_of, list_elem_of_filter in Hb' as [Hs Hb'].
  unfold heartbeats in Hb'. rewrite !elem_of_cons, elem_of_nil in Hb'.
  destruct Hb' as [->|[->|[->|[->|[->|[]]]]]]; [by destruct Hne|vm_compute; reflexivity..].
Defined.

(** ** The connection of a client *)

(** What is posted before the connection opens is lost; what follows is sent. *)
Example posted_early :
  (sent (steps [SSend "LOGIN"; SPosted true; SOpen 5; SSend "MOVE"; SPosted true] (newWsClient (Handler := unit)))) = [(5, "MOVE")].
Proof. reflexivity. Qed.
