(* ===== verification/ClientDemos.v ===== *)
(** * The client at work

    Runs of a client beside the session it joined, clicks on a board, and the
    corner in which an opponent's piece is selected. *)
From S2P Require Import Prelude Model Text Double Rules Motion Arbiter ArbiterSteps Lifecycle Engine EngineSpec EngineTheorems Json Observers Codecs Session SessionTheorems ClientNet Registry BoardIO Server ClientInput Scenarios Wire.
#[local] Open Scope Z_scope.
#[local] Existing Instance sorted_iter.

(** ** A client beside the duel *)

(** One simulation step of the duel, after white's rook has left. *)
Definition duelMoved : GameSession :=
  match runOps [OpMove (mkPos 0 0) (mkPos 0 3)] duelSession with Ok (s, _) => s | Throw _ => duelSession end.

#[local] Instance all_in_dec {A} (P : A → Prop) `{∀ x, Decision (P x)} (l : list A) :
  Decision (∀ x, x ∈ l → P x).
Proof. refine (cast_if (decide (Forall P l))); by rewrite <-Forall_forall. Defined.
#[local] Instance position_int_dec p : Decision (position_int p).
Proof. unfold position_int. apply _. Defined.
#[local] Instance snapshotPiece_int_dec p : Decision (snapshotPiece_int p).
Proof. unfold snapshotPiece_int. apply _. Defined.
#[local] Instance snapshot_int_dec s : Decision (snapshot_int s).
Proof. unfold snapshot_int. apply _. Defined.
#[local] Instance session_int_dec s : Decision (session_int s).
Proof. unfold session_int. apply _. Defined.

Definition stepFits (s : GameSession) (payload : json) : bool :=
  bool_decide (session_int s) && jsonText ascii7 payload.

Lemma client_shows_game_witness : ∃ s' payload, computeStep 300 duelMoved = Ok (s', payload) ∧
  ns_snapshot (state_ (onMessage (dump payload) newHandler)) = snapshot (engine_ s').
Proof.
  assert (match computeStep 300 duelMoved with Ok (s', payload) => stepFits s' payload | Throw _ => false end = true) as Hb
    by (vm_compute; reflexivity).
  destruct (computeStep 300 duelMoved) as [[s' payload]|] eqn:Hc; [|discriminate Hb].
  exists s', payload. split; [reflexivity|]. apply andb_true_iff in Hb as [Hi Ht]. apply bool_decide_eq_true in Hi.
  rewrite (client_shows_game 300 duelMoved s' payload newHandler Hc Hi Ht). reflexivity.
Defined.

Definition pushFits (p : Observers.Push) : bool :=
  match p with
  | PushMove _ e => ascii7 (timestamp e) && ascii7 (notation e)
  | PushCapture e => finite (ce_impactProgress e) && bool_decide (position_int (ce_cell e)) &&
      bool_decide (position_int (ce_collisionCell e)) && bool_decide (int_range (ce_capturedPieceId e)) &&
      bool_decide (int_range (ce_capturingPieceId e))
  end.

Lemma pushFits_spec p : pushFits p = true → push_text p ∧ push_int p.
Proof. destruct p; simpl; rewrite !andb_true_iff, ?bool_decide_eq_true; unfold push_text; simpl; tauto. Qed.

Definition noSnapshot (o : SessionOut) : bool := match o with SendSnapshot _ _ => false | Publish _ _ => true end.

(** The duel, and the delivery of what happened in it. *)
Definition followOps : list SessionOp := duelOps ++ [OpPublish jEmpty].

Lemma client_follows_server_witness : ∃ s outs waiting, runOps followOps duelSession = Ok (s, outs) ∧
  movesOf White (listen "r" outs (joined duelSession)) ++ pushedMoves White waiting = getMoves White (moveLogObserver_ s).
Proof.
  assert (match runOps followOps duelSession with
    | Ok (s, outs) => forallb noSnapshot outs && forallb pushFits (pushes (newLog (height duel)) (events (arbiter (engine_ s))))
    | Throw _ => false end = true) as Hb by (vm_compute; reflexivity).
  destruct (runOps followOps duelSession) as [[s outs]|] eqn:Hr; [|discriminate Hb].
  apply andb_true_iff in Hb as [Hs Hp]. rewrite forallb_elem in Hs. rewrite forallb_elem in Hp.
  destruct (client_follows_server duel "r" true [] duelSession [] followOps s outs duel_ok eq_refl eq_refl Hr
    (λ room text Hin, match diff_false_true (Hs (SendSnapshot room text) Hin) with end)
    (λ p Hin, pushFits_spec p (Hp p Hin))) as (waiting & _ & Hm & _).
  exists s, outs, waiting. split; [reflexivity|]. exact (Hm White ltac:(discriminate)).
Defined.

(** ** Clicks *)

Lemma click_on_one_square_witness : mapToPosition 359 60 (setCellSize 100000) = mkPos 0 2.
Proof.
  apply (click_on_one_square 359 60 100000 8 8 (mkPos 0 2)); unfold boardPixelWidth, boardPixelHeight; vm_compute;
    repeat split; discriminate.
Defined.

(** White has selected its rook and clicks on the file's end. *)
Definition rookSelected : Controller := mkController (Some (mkPos 0 0)) (snapshot duel0) 100 (Some White).

Lemma click_reaches_server_witness :
  ∃ c' o msgs, handleMouseClick 350 50 rookSelected = Ok (c', o, msgs) ∧ clickEffect 350 50 rookSelected c' o msgs.
Proof.
  apply (click_reaches_server 350 50 rookSelected); [reflexivity|ints|ints|].
  intros p [= <-]. split; ints.
Defined.

(** The selection is not revisited when the picture changes: black's rook takes
    the selected piece, and the next click selects a piece of black. *)
Definition rookTaken : Board :=
  boardOf 5 4 [(2, Black, Rook, mkPos 0 0); (3, Black, King, mkPos 3 4); (4, White, King, mkPos 3 0)].

Lemma opponent_selected :
  (λ r, (r.1.2, selectedPos r.1.1)) <$>
    handleMouseClick 450 350 (mkController (Some (mkPos 0 0)) (snapshot (newEngine rookTaken)) 100 (Some White)) =
  Ok (Selected, Some (mkPos 3 4)) ∧ sp_color <$> findAt (snapshot (newEngine rookTaken)) (mkPos 3 4) = Some Black.
Proof. by vm_compute. Qed.
