(* ===== verification/GatewayDemos.v ===== *)
(** * The gateways at work

    Runs of the REST gateway over a table of sessions, and of a shard whose
    registry writes to a Redis that keeps its values in a map. *)
From S2P Require Import Prelude Model Text Scan Double Rules Motion Arbiter ArbiterSteps Lifecycle Engine EngineSpec EngineTheorems Json Redis Observers Codecs Session SessionTheorems Registry RegistryTheorems Stores BoardIO Server WsGateway ApiGateway Tokens Scenarios Wire.
#[local] Open Scope Z_scope.
#[local] Existing Instance sorted_iter.

#[local] Existing Instance tableStore.

Definition quietEnv : ApiEnv := mkEnv ["ws://a"] (λ _, Some 50) "cafe" (λ _, "") [] None.

Definition laterEnv : ApiEnv := mkEnv ["ws://a"] (λ _, Some 51) "beef" (λ _, "") [] None.

(** A player with a session asks to play and nobody comes. *)
Definition ada : gmap string (string * Z) := {["t" := ("ada", 1200)]}.
Definition playBody : string := wireDump (jObj [("token", JString "t")]).
Definition timeoutEvent : json := jObj [("ticketId", JString "cafe")].
Definition apiEvents : list ApiEvent :=
  [AHttp 1 "POST" "/play" playBody quietEnv; AHttp 2 "GET" "/health" "" laterEnv; ATimeout timeoutEvent].

Definition after (e : ApiEvent) (g : ApiGateway (gmap string (string * Z))) := (apiStep e g).1.1.
Definition api1 := after (AHttp 1 "POST" "/play" playBody quietEnv) (newApi ada).
Definition api2 := after (AHttp 2 "GET" "/health" "" laterEnv) api1.
Definition api3 := after (ATimeout timeoutEvent) api2.
Definition sent (e : ApiEvent) (g : ApiGateway (gmap string (string * Z))) := (apiStep e g).1.2.

Lemma apiStep_ok e g : (match (apiStep e g).2 with Ok _ => true | Throw _ => false end) = true →
  apiStep e g = (after e g, sent e g, Ok tt).
Proof. unfold after, sent. by destruct (apiStep e g) as [[g' out] [[]|]]. Qed.

Lemma api_events_run : ∃ outs, api_run ada apiEvents api3 outs.
Proof.
  eexists. change apiEvents with ((([] ++ [AHttp 1 "POST" "/play" playBody quietEnv]) ++ [AHttp 2 "GET" "/health" "" laterEnv]) ++
    [ATimeout timeoutEvent]).
  eapply api_snoc; [eapply api_snoc; [eapply api_snoc; [apply api_nil| |]| |]| |].
  - by split.
  - apply apiStep_ok. vm_compute. reflexivity.
  - split; [vm_compute; reflexivity|]. intros uri h _. vm_compute. reflexivity.
  - apply apiStep_ok. vm_compute. reflexivity.
  - exact I.
  - apply apiStep_ok. vm_compute. reflexivity.
Qed.

(** The player is answered, once. *)
Lemma requests_answered_once_witness : ∃ outs, api_run ada apiEvents api3 outs ∧ answers 1 outs = 1%nat.
Proof.
  destruct api_events_run as [outs Hr]. exists outs. split; [exact Hr|].
  pose proof (proj1 (requests_answered_once ada apiEvents api3 outs 1 Hr)) as H.
  assert (waiting 1 api3 = 0%nat) as Hw by (vm_compute; reflexivity). rewrite Hw in H. simpl in H. lia.
Defined.

(** Two requests to play draw two tickets. *)
Definition drawEnv (a b : Z) : ApiEnv := mkEnv ["ws://a"] (λ _, None) (makeToken a b) (λ _, "") [] None.
Definition play1 : ApiEvent := AHttp 1 "POST" "/play" playBody (drawEnv 7 8).
Definition play2 : ApiEvent := AHttp 2 "POST" "/play" playBody (drawEnv 7 9).

Lemma draws_suffice_witness : ∃ g outs, api_run ada [play1; play2] g outs ∧ tickets_drawn [(7, 9); (7, 8)] g.
Proof.
  eexists _, _. refine (draws_suffice ada [(7, 9); (7, 8)] ([] ++ [play1] ++ [play2]) (after play2 (after play1 (newApi ada))) _ _).
  change ([] ++ [play1] ++ [play2]) with (([] ++ [play1]) ++ [play2]).
  refine (drawn_http ada [(7, 8)] _ (after play1 (newApi ada)) _ 2 "POST" "/play" playBody (drawEnv 7 9) 7 9 _ _
    (drawn_http ada [] _ (newApi ada) _ 1 "POST" "/play" playBody (drawEnv 7 8) 7 8 _ _ (drawn_nil ada) _ _ _ _ _ (apiStep_ok _ _ _)) _ _ _ _ _
    (apiStep_ok _ _ _)); try (split; discriminate || reflexivity); try reflexivity; try (intros uri h Hh; discriminate Hh).
  - apply not_elem_of_nil.
  - set_solver.
Defined.

Lemma extractJoinRoomName_spec_witness : extractJoinRoomName "/rooms/a/b/join" = "a/b".
Proof. apply (extractJoinRoomName_spec "/rooms/a/b/join" "a/b"); [discriminate|reflexivity]. Defined.

Lemma token_required_witness :
  httpHandler 1 "POST" "/play" playBody quietEnv (newApi (∅ : gmap string (string * Z))) =
    respond 1 401 (answer false "invalid or expired token") (newApi ∅).
Proof.
  refine (token_required 1 "/play" playBody quietEnv (newApi ∅) (jObj [("token", JString "t")]) "t" _ _ _ _ _).
  - vm_compute. reflexivity.
  - right. left. reflexivity.
  - reflexivity.
  - exists "". reflexivity.
  - reflexivity.
Defined.

(** Everybody may log in. *)
#[local] Instance openUsers : UserStore unit :=
  {| login := λ _ _ u, (u, mkLogin true "login successful" 1200); updateElo := λ _ _ u, u |}.

Lemma login_end_to_end_witness : ∃ env v' text,
  MessageCodec.encode (mkMessage Login (loginPayload "ada" "secret")) = Ok env ∧
  process false None false 1 env (newServer "s" tt) = (v', [], Ok text).
Proof.
  destruct (login_end_to_end (JT := wireText) (US := openUsers) false None false 1 "ada" "secret" (newServer "s" tt) tt (mkLogin true "login successful" 1200)
    2 3 "cafe" (newApi (∅ : gmap string (string * Z))) eq_refl eq_refl eq_refl eq_refl ltac:(ints) eq_refl)
    as (env & v' & text & He & Hp & _).
  exists env, v', text. split; [exact He|exact Hp].
Defined.

(** ** A shard's room in the directory *)
#[local] Existing Instance mapRedis.

(** Another shard has a room there already, and removes it. *)
Definition otherRoom : @rdb mapRedis := directorySet "q" "ws://b" (∅ : @rdb mapRedis).
Definition bothRooms : SessionRegistry * @rdb mapRedis :=
  let '(r', _, out) := createRoom true "ws://a" "r" duel true newRegistry in (r', writeOuts out otherRoom).

Lemma directory_mirrors_rooms_witness : ∃ d,
  directoryGet "q" d = "" ∧ directoryGet "r" d = "ws://a" ∧ "r" ∈ directoryList d.
Proof.
  exists (directoryErase "q" bothRooms.2).
  assert (∀ n, directoryGet n otherRoom ≠ "ws://a") as Hnone.
  { intros n. unfold directoryGet, otherRoom, directorySet. rewrite strAt_SET. case_decide; [discriminate|].
    unfold strAt. change (value (∅ : @rdb mapRedis) (roomKey n)) with ((∅ : gmap string RedisValue) !! roomKey n).
    rewrite lookup_empty. discriminate. }
  assert (rtc (stores_step "ws://a") (newRegistry, otherRoom) (bothRooms.1, directoryErase "q" bothRooms.2)) as Hr.
  { eapply rtc_l; [exact (st_create "ws://a" newRegistry otherRoom "r" duel true eq_refl)|].
    eapply rtc_l; [|apply rtc_refl]. apply (st_other "ws://a" bothRooms.1 bothRooms.2). split.
    - intros n Hn Hex. unfold directoryErase. rewrite value_DEL, decide_False; [done|].
      unfold roomKey. rewrite Hn. intros ->%prefix_inj. vm_compute in Hex. discriminate.
    - intros n. unfold strAt, directoryErase. rewrite value_DEL. case_decide; [discriminate|done]. }
  split; [reflexivity|].
  destruct (directory_mirrors_rooms "ws://a" otherRoom _ _ ltac:(discriminate) eq_refl Hnone Hr "r" eq_refl) as [Hget Hlist].
  split; [apply Hget; reflexivity|apply Hlist; [reflexivity|discriminate]].
Defined.
