(* ===== verification/ClientJoin.v ===== *)
(** * From the Room button to the board

    The client composed with the REST gateway and the shard: the room that is
    typed, the shard that is named, the token that is presented, the seat that is
    given, and the game that is then shown.  Concrete runs follow, with what is
    lost between the grant and the game's own handler. *)
From S2P Require Import Prelude Model Text Scan Double Rules Motion Arbiter ArbiterSteps Lifecycle Engine EngineSpec EngineTheorems Json Redis Observers Codecs Session SessionTheorems ClientNet Registry RegistryTheorems Stores BoardIO Server ServerTheorems ClientInput WsGateway ApiGateway Desk HomeView Window.
#[local] Open Scope Z_scope.

(** ** What the shard answers *)
Section Shard.
Context `{HI : HashIter} `{JT : JsonText} {U : Type} `{US : UserStore U}.
Variable reconnectStore : bool.
Variable store : string → option (string * Z).
Variable nats : bool.
Notation shard := (process reconnectStore (Some store) nats).

Definition authReply : json :=
  JObject [("message", JString "authenticated"); ("success", JBool true); ("type", JString "AUTH")].

Definition enterReply (role : Color) (name : string) (log : json) (i : RoomIdentity) : json :=
  JObject [("blackElo", JInt (id_blackElo i)); ("blackName", JString (id_blackUsername i));
    ("message", JString "entered room"); ("moveLog", log); ("role", JString (roleName role));
    ("roomName", JString name); ("success", JBool true); ("type", JString "ENTER_ROOM");
    ("whiteElo", JInt (id_whiteElo i)); ("whiteName", JString (id_whiteUsername i))].

Lemma shard_auth h token u e (v : Server U) :
  utf8 token = true → store token = Some (u, e) →
  ∃ text, MessageCodec.encode (authRequest token) = Ok text ∧
    shard h text v = (setClients (onLogin h u e (clients v)) v, [], Ok (dump authReply)).
Proof.
  intros Ht Hs. destruct (message_decodes (authRequest token)) as (text & He & Hd).
  { apply jsonText_obj. cbn [forallb fst snd jsonText]. by rewrite Ht, utf8_ascii7. }
  exists text. split; [done|]. unfold process, processJson. rewrite Hd. cbn [authRequest msg_type payload].
  change (findHandler Auth (router (Some store))) with (Some HAuth). cbn [Server.handle]. unfold handleAuth. jfields.
  cbn [getString default from_option id]. rewrite Hs. cbn [jContains].
  change (jContains "type" (reply3 true "authenticated")) with false. cbn iota.
  change (n ← MessageCodec.typeName Auth; jSet "type" (JString n) (reply3 true "authenticated")) with (Ok authReply).
  unfold dumpR, authReply. cbn [jsonStrings forallb fst snd]. by rewrite !utf8_ascii7.
Qed.

(** A seat that is taken leaves the room where it was. *)
Lemma enter_room name h u c (r : SessionRegistry) rm :
  rooms_ r !! name = Some rm →
  ∃ s, room name (cancelDisconnectCountdown reconnectStore name c u (joinRoom name h u r).1).1.1 = Some s ∧
    (s = session rm ∨ s = setDisconnectStatus noDisconnect (session rm)).
Proof.
  intros Hrm. unfold joinRoom. rewrite Hrm. cbn [fst]. unfold cancelDisconnectCountdown. cbn [rooms_ pendingDisconnects].
  rewrite lookup_insert_eq. unfold room. cbn [pendingDisconnects].
  destruct (pendingDisconnects rm !! c) as [pd|]; [destruct (negb _)|]; cbn [fst rooms_]; rewrite lookup_insert_eq; eauto.
Qed.

Lemma shard_enter h token name u e (v : Server U) rm :
  utf8 token = true → utf8 name = true → store token = Some (u, e) → rooms_ (registry v) !! name = Some rm →
  ∃ text v' out s, MessageCodec.encode (enterRequest token name) = Ok text ∧
    room name (registry v') = Some s ∧ (s = session rm ∨ s = setDisconnectStatus noDisconnect (session rm)) ∧
    roleOf h (registry v') = roleOf h (cancelDisconnectCountdown reconnectStore name
      (roleOf h (joinRoom name h u (registry v)).1) u (joinRoom name h u (registry v)).1).1.1 ∧
    let j := enterReply (roleOf h (registry v')) name (fullMoveLog s) (resolveIdentity (registry v') (clients v') name) in
    shard h text v = (v', out, dumpR j).
Proof.
  intros Ht Hn Hs Hrm. destruct (message_decodes (enterRequest token name)) as (text & He & Hd).
  { apply jsonText_obj. cbn [forallb fst snd jsonText]. by rewrite Ht, Hn, !utf8_ascii7. }
  set (role := roleOf h (joinRoom name h u (registry v)).1).
  destruct (enter_room name h u role (registry v) rm Hrm) as (s & Hroom & Hses).
  destruct (cancelDisconnectCountdown reconnectStore name role u (joinRoom name h u (registry v)).1) as [[r b] out] eqn:Hc.
  set (v' := setRegistry r (setRegistry (joinRoom name h u (registry v)).1 (setClients (onLogin h u e (clients v)) v))).
  exists text, v', (map Store out), s. cbn [fst] in *. split_and!; [done..|].
  unfold process, processJson. rewrite Hd. cbn [enterRequest msg_type payload].
  change (findHandler EnterRoom (router (Some store))) with (Some HEnterRoom). cbn [Server.handle]. unfold handleEnterRoom. jfields.
  cbn [getString default from_option id]. rewrite !result_bind_Ok, Hs. cbn zeta.
  change (registry (setClients (onLogin h u e (clients v)) v)) with (registry v).
  assert (roomExists name (registry v) = true) as -> by (apply bool_decide_eq_true; by rewrite Hrm).
  cbn [negb]. change (registry (setRegistry (joinRoom name h u (registry v)).1 (setClients (onLogin h u e (clients v)) v)))
    with (joinRoom name h u (registry v)).1. fold role. rewrite Hc. fold v'. unfold seatedReply. change (registry v') with r.
  rewrite Hroom. cbn [of_option]. rewrite result_bind_Ok. done.
Qed.
End Shard.

(** ** What the client makes of it *)
Section Join.
Context `{HI : HashIter} `{JT : JsonText} {U : Type} `{US : UserStore U} {S : Type} `{SS : !ClientSessionStore S}.
Variable reconnectStore : bool.
Variable store : string → option (string * Z).
Variable nats : bool.
Notation shard := (process reconnectStore (Some store) nats).

Definition identity_int (i : RoomIdentity) : Prop := int_range (id_whiteElo i) ∧ int_range (id_blackElo i).

(** The seat of [h] in the room [name] of the shard [v], whose session is [s]. *)
Definition seatOf (h : hdl) (name : string) (s : GameSession) (v : Server U) : RoomJoinOutcome :=
  let i := resolveIdentity (registry v) (clients v) name in
  mkJoin name (fullMoveLog s) (id_whiteUsername i) (id_whiteElo i) (id_blackUsername i) (id_blackElo i)
    (roleOf h (registry v)).
Definition seatReply (h : hdl) (name : string) (s : GameSession) (v : Server U) : json :=
  enterReply (roleOf h (registry v)) name (fullMoveLog s) (resolveIdentity (registry v) (clients v) name).

(** A message of the room that is no reply. *)
Lemma typed_passed name t j : jsonText utf8 j = true → jAt "type" j = Ok (JString t) → t ≠ name → passedOver name (dump j).
Proof.
  intros Hj Ht Hne. unfold passedOver. rewrite parse_dump by done. exists t. split; [|done].
  by rewrite (jValue_jAt getString "type" "" j (JString t)).
Qed.

Lemma text_strings f j : jsonText f j = true → jsonStrings f j = true.
Proof.
  revert j. fix IH 1. intros [|b|z|x|s|l|fields]; cbn [jsonText jsonStrings]; try done.
  - induction l as [|x l IHl]; [done|]. cbn [forallb]. intros [Hx Hl]%andb_true_iff. by rewrite (IH x), IHl.
  - induction fields as [|[k x] fields IHl]; [done|]. cbn [forallb fst snd].
    intros [[Hk Hx]%andb_true_iff Hl]%andb_true_iff. by rewrite Hk, (IH x), IHl.
Qed.

Lemma readJoin_seat h name s v :
  identity_int (resolveIdentity (registry v) (clients v) name) → readJoin name (seatReply h name s v) = Ok (seatOf h name s v).
Proof.
  intros [Hw Hb]. unfold readJoin, seatReply, enterReply, seatOf.
  cbn [jValue findField String.eqb Ascii.eqb Bool.eqb getString getJson mbind result_bind].
  rewrite !getInt_JInt by done. cbn [mbind result_bind]. by rewrite colorFromRole_roleName.
Qed.

Lemma enter_seated token a name (v' : Server U) h s ta te before1 after1 before2 after2 rest l d :
  MessageCodec.encode (authRequest token) = Ok ta → MessageCodec.encode (enterRequest token name) = Ok te →
  jsonText utf8 (seatReply h name s v') = true → identity_int (resolveIdentity (registry v') (clients v') name) →
  Forall (passedOver "AUTH") before1 → Forall (passedOver "ENTER_ROOM") before2 →
  connections d = Some ((before1 ++ dump authReply :: after1) :: (before2 ++ dump (seatReply h name s v') :: after2) :: rest) :: l →
  ∃ d', enterRoomOnShard token a name d = (d', Returned (seatOf h name s v')) ∧
    trace d' = trace d ++ [Connected a; Sent ta; Sent te] ∧ handlers d' = rest ∧ connections d' = l.
Proof.
  intros Ha He Ht Hi H1 H2 Hc. unfold enterRoomOnShard. set (b1 := before1 ++ dump authReply :: after1).
  set (b2 := before2 ++ dump (seatReply h name s v') :: after2).
  set (d1 := setConnections l (b1 :: b2 :: rest) (record (Connected a) d)).
  rewrite (bind_Returned _ _ d d1 tt).
  2: { unfold connect, emit, mbind, act_bind, modify, gets. cbn. by rewrite Hc. }
  set (d2 := record (Sent ta) (setHandlers (b2 :: rest) d1)).
  assert (jsonText utf8 authReply = true) as Hta by (unfold authReply; cbn [jsonText forallb fst snd]; by rewrite !utf8_ascii7).
  rewrite (bind_Returned _ _ d1 d2 true).
  2: { unfold authenticateConnection. rewrite (bind_Returned _ _ d1 d2 authReply); [done|].
       eapply request_returns; [reflexivity|exact Ha|reflexivity|reflexivity|exact H1|by apply parse_dump|reflexivity]. }
  cbn [negb]. set (d3 := record (Sent te) (setHandlers rest d2)).
  rewrite (bind_Returned _ _ d2 d3 (seatReply h name s v')).
  2: { eapply request_returns; [reflexivity|exact He|reflexivity|reflexivity|exact H2|by apply parse_dump|reflexivity]. }
  rewrite (bind_Returned _ _ d3 d3 true) by done. cbn [negb]. rewrite readJoin_seat by done.
  exists d3. split; [done|]. split_and!; [|done..]. unfold d3, d2, d1. cbn [trace record setHandlers setConnections].
  by rewrite <-!app_assoc.
Qed.

(** ** The gateway *)
Lemma valid_nonempty name : isValidRoomName name = true → name ≠ "".
Proof. unfold isValidRoomName. by destruct (String.eqb_spec name ""). Qed.

Lemma valid_name name : isValidRoomName name = true → name ≠ "" ∧ utf8 name = true.
Proof.
  unfold isValidRoomName. destruct (String.eqb_spec name ""); [done|]. intros Ha. split; [done|]. apply utf8_ascii7.
  clear -Ha. unfold ascii7. induction name as [|c name IH]; [done|]. cbn [allChars] in *. apply andb_true_iff in Ha as [Hc Hn].
  rewrite (IH Hn), andb_true_r. apply Nat.ltb_lt. unfold isalnum in Hc. cbn zeta in Hc.
  repeat match goal with H : _ || _ = true |- _ => apply orb_true_iff in H as [H|H] end;
    apply andb_true_iff in Hc as [_ Hc%Nat.leb_le]; lia.
Qed.

Definition foundReply (name a : string) : json :=
  JObject [("message", JString "room found"); ("roomName", JString name); ("shard", JString a); ("success", JBool true)].

Lemma gateway_finds con token name a user env (g : ApiGateway S) :
  utf8 token = true → isValidRoomName name = true → utf8 a = true → a ≠ "" →
  dump (roomBody Join token name) ≠ "" →
  sessGet token (sessions g) = Some user → directoryAddress env name = a →
  httpHandler con "POST" (roomPath Join name) (dump (roomBody Join token name)) env g =
    (g, [Respond con 200 (dump (foundReply name a))], Ok tt).
Proof.
  intros Ht Hn Ha Hne Hd Hs Hdir. apply valid_name in Hn as [Hn Hu].
  assert (jsonText utf8 (roomBody Join token name) = true) as Hb
    by (apply jsonText_obj; cbn [forallb fst snd jsonText]; by rewrite Ht, utf8_ascii7).
  unfold httpHandler. rewrite (proj2 (String.eqb_neq _ "") Hd), parse_dump by done. cbn zeta.
  rewrite (proj2 (extractJoinRoomName_spec (roomPath Join name) name Hn)) by done.
  rewrite (proj2 (String.eqb_neq name "") Hn). unfold roomPath.
  change (String.eqb ("/rooms/" +:+ name +:+ "/join") "/login") with false.
  change (String.eqb ("/rooms/" +:+ name +:+ "/join") "/rooms") with false.
  change (String.eqb ("/rooms/" +:+ name +:+ "/join") "/play") with false.
  cbn [andb negb String.eqb Ascii.eqb Bool.eqb]. unfold postJoin, roomBody. jfields. cbn [getString].
  rewrite Hs, Hdir. cbn zeta. rewrite (proj2 (String.eqb_neq a "") Hne). unfold respond.
  change (roomAnswer "room found" (JString name) (JString a)) with (foundReply name a).
  unfold dumpR, foundReply. cbn [jsonStrings forallb fst snd]. by rewrite Hu, Ha, !utf8_ascii7.
Qed.

Lemma dialog_join name boxes' d :
  isValidRoomName name = true → quitPosted d = false → boxes d = [Command BN_CLICKED kJoinId name] :: boxes' →
  showRoomDialog d = (setQuit true (setBoxes boxes' d), Returned (mkDialog Join name)).
Proof.
  intros Hn Hq Hb. unfold showRoomDialog, messageLoop, mbind, act_bind, gets, modify. rewrite Hq, Hb.
  cbn [head tail default from_option id dialogLoop dialogButton]. change (negb (BN_CLICKED =? BN_CLICKED)) with false.
  change (kJoinId =? kCreateId) with false. change (kJoinId =? kJoinId) with true. cbn iota. unfold finish.
  rewrite (proj2 (String.eqb_neq name "") (valid_nonempty name Hn)), Hn. done.
Qed.

(** What the outside supplies when the player joins: the name typed in the
    dialog, the gateway's answer, and the connection to the shard, on which any
    other messages may come before the two replies and after them. *)
Record JoinSupplies (name text t1 t2 : string) (rest : list (list string)) (d : Desk) : Prop := {
  sup_quit : quitPosted d = false;
  sup_dialog : head (boxes d) = Some [Command BN_CLICKED kJoinId name];
  sup_answer : head (httpAnswers d) = Some (Body text);
  sup_connection : ∃ before1 after1 before2 after2,
    head (connections d) = Some (Some ((before1 ++ t1 :: after1) :: (before2 ++ t2 :: after2) :: rest)) ∧
    Forall (passedOver "AUTH") before1 ∧ Forall (passedOver "ENTER_ROOM") before2
}.

Lemma room_request_joins token name a (v' : Server U) h s ta te rest d :
  utf8 token = true → isValidRoomName name = true → utf8 a = true →
  MessageCodec.encode (authRequest token) = Ok ta → MessageCodec.encode (enterRequest token name) = Ok te →
  jsonText utf8 (seatReply h name s v') = true → identity_int (resolveIdentity (registry v') (clients v') name) →
  JoinSupplies name (dump (foundReply name a)) (dump authReply) (dump (seatReply h name s v')) rest d →
  ∃ d', roomFrame token d = (d', Returned (Leave (joinedResult (seatOf h name s v')))) ∧ handlers d' = rest ∧
    trace d' = trace d ++ [Posted (roomPath Join name) (dump (roomBody Join token name)); Connected a; Sent ta; Sent te].
Proof.
  intros Ht Hn Ha Hta Hte Hj Hi [Hq Hbox Hans (b1 & a1 & b2 & a2 & Hc & H1 & H2)].
  destruct (boxes d) as [|x boxes'] eqn:Hb; [done|]. injection Hbox as ->.
  destruct (httpAnswers d) as [|x as'] eqn:Has; [done|]. injection Hans as ->.
  destruct (connections d) as [|x l] eqn:Hl; [done|]. injection Hc as ->.
  pose proof (valid_name name Hn) as [Hne Hu]. unfold roomFrame, clearChoice.
  rewrite (bind_Returned _ _ d (setChoice NoChoice d) tt) by done.
  rewrite (bind_Returned _ _ _ _ _ (dialog_join name boxes' (setChoice NoChoice d) Hn Hq Hb)).
  cbn [action dialogName]. rewrite (proj2 (String.eqb_neq name "") Hne). cbn [bool_decide orb].
  change (bool_decide (Join = Cancel)) with false. cbn [orb].
  set (d1 := setQuit true _). set (d2 := setAnswers as' (record (Posted (roomPath Join name) (dump (roomBody Join token name))) d1)).
  destruct (enter_seated token a name v' h s ta te b1 a1 b2 a2 rest l d2 Hta Hte Hj Hi H1 H2 Hl) as (d' & Hent & Htr & Hh & _).
  assert (sendRoomRequest token Join name d1 = (d', Returned (seatOf h name s v'))) as Hreq.
  { unfold sendRoomRequest. rewrite (bind_Returned _ _ d1 d2 (foundReply name a)).
    2: { apply post_returns with (a := Body (dump (foundReply name a))) (l := as'); [|exact Has|].
         - apply text_strings, jsonText_obj. cbn [forallb fst snd jsonText]. by rewrite Ht, utf8_ascii7.
         - cbn [doRequest]. rewrite parse_dump; [done|].
           unfold foundReply. cbn [jsonText forallb fst snd]. by rewrite Hu, Ha, !utf8_ascii7. }
    rewrite (bind_Returned _ _ d2 d2 true) by done. cbn [negb].
    rewrite (bind_Returned _ _ d2 d2 a), (bind_Returned _ _ d2 d2 name) by done. exact Hent. }
  rewrite (bind_Returned _ _ d1 d' _ Hreq). cbn [jo_roomName seatOf]. rewrite (proj2 (String.eqb_neq name "") Hne). cbn [negb].
  exists d'. split_and!; [done..|]. rewrite Htr. unfold d2, d1. cbn [trace record setAnswers setQuit setBoxes setChoice].
  by rewrite <-app_assoc.
Qed.

(** What a panel calls a player. *)
Definition shownAs (username : string) (elo : Z) : string :=
  if String.eqb username "" then "Waiting for player..." else username +:+ " (" +:+ showInt elo +:+ ")".

(** The window that opens on the seat: nothing selected, no picture yet, squares
    of the initial size, the selection limited to [role], the moves of the log,
    the players of the room each on their own side. *)
Definition openedOn (name : string) (role : Color) (i : RoomIdentity) (whiteMoves blackMoves : list MoveEntry) : Window :=
  mkWindow (mkController None emptySnapshot CELL_SIZE (Some role)) false 0 0 0
    (seedMoveLog whiteMoves blackMoves newHandler) false
    (mkView name (shownAs (id_whiteUsername i) (id_whiteElo i)) (shownAs (id_blackUsername i) (id_blackElo i))
       (false, "") (0, 0) ([], []) 0) [] [].

Lemma seat_window h name s (v : Server U) :
  startWindow (joinedResult (seatOf h name s v)) =
    Ok (Some (openedOn name (roleOf h (registry v)) (resolveIdentity (registry v) (clients v) name)
      (getMoves White (moveLogObserver_ s)) (getMoves Black (moveLogObserver_ s)))).
Proof.
  unfold startWindow. cbn [joinedResult joinedRoom joinedAs negb seatOf jo_moveLog]. unfold fullMoveLog.
  destruct (moveLog_roundtrip White (mkEntry "" "") (getMoves White (moveLogObserver_ s)) (getMoves Black (moveLogObserver_ s)))
    as [_ ->]; [done|]. rewrite result_bind_Ok. reflexivity.
Qed.

(** C17 Joining a room, from the button to the board: for a name the dialog lets
    through, the gateway finds the room's shard, and that shard accepts the token
    and gives a seat; whatever other messages come between the replies, the home
    screen is left with that seat, having sent nothing else, and the window that
    opens is determined in every field: the room's name, White's and Black's names
    and ratings as the shard knows them each on their own panel, the moves so far
    of each side, the selection restricted to the colour the shard seated this
    connection with, nothing selected and nothing drawn yet. *)
Theorem client_joins_room con token name a u e env (g : ApiGateway S) (v v1 : Server U) rm h :
  utf8 token = true → isValidRoomName name = true → utf8 a = true → a ≠ "" → dump (roomBody Join token name) ≠ "" →
  sessGet token (sessions g) = Some (u, e) → store token = Some (u, e) → directoryAddress env name = a →
  rooms_ (registry v1) !! name = Some rm →
  ∃ text ta t1 te v' out s,
    MessageCodec.encode (authRequest token) = Ok ta ∧ MessageCodec.encode (enterRequest token name) = Ok te ∧
    httpHandler con "POST" (roomPath Join name) (dump (roomBody Join token name)) env g = (g, [Respond con 200 text], Ok tt) ∧
    shard h ta v = (setClients (onLogin h u e (clients v)) v, [], Ok t1) ∧
    shard h te v1 = (v', out, dumpR (seatReply h name s v')) ∧ room name (registry v') = Some s ∧
    ∀ rest d, jsonText utf8 (seatReply h name s v') = true →
      identity_int (resolveIdentity (registry v') (clients v') name) →
      JoinSupplies name text t1 (dump (seatReply h name s v')) rest d →
      ∃ d' w, roomFrame token d = (d', Returned (Leave (joinedResult (seatOf h name s v')))) ∧ handlers d' = rest ∧
        trace d' = trace d ++ [Posted (roomPath Join name) (dump (roomBody Join token name)); Connected a; Sent ta; Sent te] ∧
        startWindow (joinedResult (seatOf h name s v')) = Ok (Some w) ∧
        w = openedOn name (roleOf h (registry v')) (resolveIdentity (registry v') (clients v') name)
              (getMoves White (moveLogObserver_ (session rm))) (getMoves Black (moveLogObserver_ (session rm))).
Proof.
  intros Ht Hn Ha Hne Hd Hg Hs Hdir Hrm. pose proof (valid_name name Hn) as [_ Hu].
  destruct (shard_auth reconnectStore store nats h token u e v Ht Hs) as (ta & Hta & Hp1).
  destruct (shard_enter reconnectStore store nats h token name u e v1 rm Ht Hu Hs Hrm)
    as (te & v' & out & s & Hte & Hroom & Hses & _ & Hp2).
  exists (dump (foundReply name a)), ta, (dump authReply), te, v', out, s.
  split; [done|]. split; [done|]. split; [by apply (gateway_finds con token name a (u, e))|]. split; [done|]. split; [done|]. split; [done|].
  assert (moveLogObserver_ s = moveLogObserver_ (session rm)) as Hlog by (by destruct Hses as [->| ->]).
  intros rest d Hj Hi Hsup. pose proof (seat_window h name s v') as Hw. rewrite Hlog in Hw.
  destruct (room_request_joins token name a v' h s ta te rest d) as (d' & Hr & Hh & Htr); [done..|].
  exists d'. eexists. by split_and!.
Qed.
End Join.
