(* ===== verification/WindowGame.v ===== *)
(** * The game that the window shows

    The render loop composed with the room: what is heard between and within the
    frames of any length and with any clicks, what each frame then hands to the
    view, and what the panels write from it. *)
From S2P Require Import Prelude Model Text Double Rules Motion Arbiter ArbiterSteps Lifecycle Engine EngineSpec EngineTheorems Json Observers Codecs Session SessionTheorems ClientNet Registry RegistryTheorems Server ClientInput Desk HomeView Window Img Sprites SpriteTheorems Drawing DrawingTheorems ClientJoin.
#[local] Open Scope Z_scope.

(** ** What is heard *)
Section Heard.
Context `{HI : HashIter} `{JT : JsonText}.

Definition heardText (e : WindowEvent) : option string := match e with Heard text => Some text | Mouse _ _ _ => None end.
(** The messages that come in during a frame, in order. *)
Definition frameTexts (f : GameFrame) : list string := gf_between f ++ omap heardText (gf_waiting f).

(** A message that lists [l] under [c], whoever hears it. *)
Definition lists (c : Color) (text : string) (l : list MoveEntry) : Prop :=
  ∀ h, movesOf c (onMessage text h) = movesOf c h ++ l.

Lemma listed_texts c texts ls h :
  Forall2 (lists c) texts ls → movesOf c (foldl (λ h text, onMessage text h) h texts) = movesOf c h ++ concat ls.
Proof.
  intros Hl. revert h. induction Hl as [|text l texts ls Ht _ IH]; intros h; simpl; [by rewrite app_nil_r|].
  by rewrite IH, Ht, app_assoc.
Qed.

(** The messages of a room list what its session pushes. *)
Lemma room_lists r outs ps c :
  c ≠ NoColor → (∀ room text, SendSnapshot room text ∈ outs → snapshotText text) →
  (∀ p, p ∈ ps → push_text p ∧ push_int p) → mapR (enqueue r) ps = Ok (delivered r outs) →
  ∃ ls, Forall2 (lists c) (omap (heard r) outs) ls ∧ concat ls = pushedMoves c ps.
Proof.
  intros Hc. revert ps. induction outs as [|o outs IH]; intros ps Hsnap Hps Hq.
  - simpl in Hq. destruct ps as [|p ps]; [by exists []|]. simpl in Hq.
    apply result_bind_inv in Hq as (? & _ & (? & _ & Hx)%result_bind_inv). done.
  - assert (∀ room text, SendSnapshot room text ∈ outs → snapshotText text) as Hsnap'
      by (intros room text Hin; apply (Hsnap room); by right).
    rewrite delivered_cons in Hq. csimpl. destruct o as [topic data|room text]; cbn [heard].
    + destruct (String.eqb topic (gameEndedTopic r)); [by apply IH|].
      destruct ps as [|p ps]; [done|]. simpl in Hq.
      apply result_bind_inv in Hq as (q & Hp & (qs & Hqs & [= -> ->])%result_bind_inv).
      destruct (Hps p) as [Htp Hip]; [left|].
      destruct (IH ps) as (ls & Hls & Hcat); [done|intros; apply Hps; by right|done|].
      exists (pushedMoves c [p] :: ls). split.
      * constructor; [|done]. intros h. by destruct (push_heard r p _ h c Hc Htp Hip Hp).
      * cbn [concat]. rewrite Hcat. unfold pushedMoves. by rewrite <-omap_app.
    + destruct (IH ps) as (ls & Hls & Hcat); [done..|]. exists ([] :: ls). split; [|done].
      constructor; [|done]. intros h. rewrite app_nil_r.
      by destruct (snapshot_text_quiet text h) as (Q1 & _); [apply (Hsnap room); left|].
Qed.

(** ** The loop *)
Lemma frame_lists c texts ls w :
  Forall2 (lists c) texts ls → movesOf c (networkHandler (drawFrame texts w)) = movesOf c (networkHandler w) ++ concat ls.
Proof.
  intros Hl. unfold drawFrame. cbv zeta. cbn [networkHandler].
  transitivity (movesOf c (foldl (λ h text, onMessage text h) (checkPendingCaptureSounds (networkHandler w)) texts)); [by destruct (_ && _)|].
  by rewrite (listed_texts c texts ls).
Qed.

(** What a frame shows is what the handler has. *)
Lemma frame_shows texts w :
  vw_moves (view (drawFrame texts w)) = (movesOf White (networkHandler (drawFrame texts w)), movesOf Black (networkHandler (drawFrame texts w))).
Proof. unfold drawFrame. cbv zeta. cbn [networkHandler view vw_moves]. by destruct (_ && _). Qed.

Lemma mouse_lists c event x y w w' :
  onMouseEvent event x y w = Ok w' → movesOf c (networkHandler w') = movesOf c (networkHandler w).
Proof.
  unfold onMouseEvent. cbn zeta. destruct (event =? EVENT_LBUTTONDOWN).
  - destruct (isInHandle _ _ _ _ _); [by intros [= <-]|]. unfold onMouseClick.
    by intros ([[k o] texts] & _ & [= <-])%result_bind_inv.
  - repeat case_match; by intros [= <-].
Qed.

Lemma events_list c es ls w w' :
  Forall2 (lists c) (omap heardText es) ls → windowEvents es w = Ok w' →
  movesOf c (networkHandler w') = movesOf c (networkHandler w) ++ concat ls.
Proof.
  revert ls w. induction es as [|e es IH]; intros ls w Hl; cbn [windowEvents].
  - intros [= <-]. inversion Hl. by rewrite app_nil_r.
  - intros (w1 & He & Hes)%result_bind_inv. destruct e as [text|event x y]; cbn [windowEvent] in He; csimpl in Hl.
    + injection He as <-. apply Forall2_cons_inv_l in Hl as (l & ls' & Ht & Hl & ->).
      rewrite (IH ls' _ Hl Hes). cbn [networkHandler setNet]. by rewrite Ht, <-app_assoc.
    + rewrite (IH ls _ Hl Hes). by rewrite (mouse_lists c _ _ _ _ _ He).
Qed.

Lemma loop_lists c frames ls w w' :
  Forall2 (lists c) (flat_map frameTexts frames) ls → renderLoop frames w = Ok (w', false) →
  movesOf c (networkHandler w') = movesOf c (networkHandler w) ++ concat ls.
Proof.
  revert ls w. induction frames as [|f frames IH]; intros ls w Hl; cbn [renderLoop flat_map] in *.
  - intros [= <-]. inversion Hl. by rewrite app_nil_r.
  - cbv zeta. destruct (gf_renderThrows f); [done|]. intros (w1 & He & Hr)%result_bind_inv.
    destruct (gf_key f =? 27); [done|]. destruct (negb (gf_visible f)); [done|].
    unfold frameTexts in Hl. rewrite <-app_assoc in Hl. apply Forall2_app_inv_l in Hl as (l1 & l23 & H1 & H23 & ->).
    apply Forall2_app_inv_l in H23 as (l2 & l3 & H2 & H3 & ->).
    rewrite (IH l3 _ H3 Hr), (events_list c _ l2 _ _ H2 He), (frame_lists c _ l1 _ H1).
    by rewrite !concat_app, !app_assoc.
Qed.
End Heard.

(** ** What the panels write *)
Section Panels.
#[local] Set Default Proof Using "Type*".
Context `{CV : OpenCV} `{Laws : !OpenCVLaws}.

Definition textsOf (l : list Stroke) : list string :=
  omap (λ s, match s with Text txt _ _ _ _ _ => Some txt | _ => None end) l.
(** Every text is written twice: its outline first. *)
Definition outlined (ts : list string) : list string := flat_map (λ t, [t; t]) ts.

(** On a frame of this size [m] writes exactly [ts]. *)
Definition writes (H W : Z) (m : Z → Run Buffers unit) (ts : list string) : Prop :=
  ∃ l, paints H W m l ∧ textsOf l = outlined ts.

Context {H W : Z}.

Lemma writes_ret : writes H W (λ _, mret tt) [].
Proof. exists []. split; [|done]. intros f b M Hb Hf _ _. apply succeeds_ret. by split_and!. Qed.

Lemma writes_seq m1 m2 t1 t2 : writes H W m1 t1 → writes H W m2 t2 → writes H W (λ f, m1 f ;; m2 f) (t1 ++ t2).
Proof.
  intros (l1 & H1 & Hl1) (l2 & H2 & Hl2). exists (l1 ++ l2). split; [by apply paints_seq|].
  unfold textsOf, outlined in *. by rewrite omap_app, flat_map_app, Hl1, Hl2.
Qed.

Lemma writes_each {A} (g : Z → A → Run Buffers unit) (ts : A → list string) l :
  (∀ x, x ∈ l → writes H W (λ f, g f x) (ts x)) → writes H W (λ f, eachOf (g f) l) (flat_map ts l).
Proof.
  induction l as [|x l IH]; intros Hg; simpl; [apply writes_ret|].
  apply writes_seq; [apply Hg; by left|]. apply IH. intros y Hy. apply Hg. by right.
Qed.

Lemma writes_when (c : bool) m ts : writes H W m ts → writes H W (λ f, unless (negb c) (m f)) (if c then ts else []).
Proof. destruct c; simpl; [done|]. intros _. apply writes_ret. Qed.

Lemma writes_fill x y w h color alpha :
  0 ≤ x → 0 ≤ y → 0 ≤ w → 0 ≤ h → x + w ≤ W → y + h ≤ H → writes H W (λ f, fill_rect (Some f) x y w h color alpha) [].
Proof.
  intros. exists [Fill x y w h color alpha]. split; [|done]. intros f b M Hb Hf Hr Hc.
  apply succeeds_bind. eexists _, _. split; [by apply loaded_some|].
  rewrite hasRegion_inside by lia. by apply (paints_stroke (H := H) (W := W) _ f b M).
Qed.

Lemma paints_loaded (m : Z → Run Buffers unit) l : paints H W m l → paints H W (λ f, loaded (Some f) ;; m f) l.
Proof.
  intros Hm f b M Hb Hf Hr Hc. apply succeeds_bind. eexists _, _. split; [by apply loaded_some|]. by apply (Hm f b M).
Qed.

Lemma writes_text txt x y size color thickness : writes H W (λ f, put_text (Some f) txt x y size color thickness) [txt].
Proof. eexists. split; [apply paints_loaded, paints_seq; apply paints_stroke|done]. Qed.

Lemma writes_line x1 y1 x2 y2 color thickness : writes H W (λ f, line (Some f) x1 y1 x2 y2 color thickness) [].
Proof. eexists. split; [apply paints_loaded, paints_stroke|done]. Qed.
End Panels.

(** The head of a panel, and the last twenty moves. *)
Definition panelTexts (title playerName : string) (score : Z) (moves : list MoveEntry) : list string :=
  [title; "Name: " +:+ playerName; "Score: " +:+ showInt score; "Time"; "Move"] ++
  flat_map (λ e, [timestamp e; notation e]) (drop (length moves - 20) moves).

Definition panelsTexts (v : View) (snapshot : GameSnapshot) : list string :=
  panelTexts "Black" (vw_black v) (snd (vw_score v)) (snd (vw_moves v)) ++
  panelTexts "White" (vw_white v) (fst (vw_score v)) (fst (vw_moves v)) ++
  (if gs_over snapshot then [gameOverMessage snapshot] else []) ++
  ["Spectators: " +:+ showInt (vw_spectators v)] ++
  (if fst (vw_disconnect v) then [snd (vw_disconnect v)] else []).

Section Written.
#[local] Set Default Proof Using "Type*".
Context `{CV : OpenCV} `{Laws : !OpenCVLaws}.

Ltac sizes := unfold totalW, totalH, PANEL_WIDTH, BOARD_MARGIN, PLAYER_PANEL_WIDTH, PLAYER_PANEL_GAP_PX, PANEL_Y, PANEL_TOTAL_H,
  PANEL_HEADER_H, PANEL_INFO_H, PANEL_MAX_LINES, PANEL_LINE_H in *.

Lemma indexed_flat {A B} (g : A → list B) l : flat_map (λ im : nat * A, g im.2) (indexed l) = flat_map g l.
Proof.
  unfold indexed. assert (∀ h : nat → nat, flat_map (λ im : nat * A, g im.2) (imap (λ i x, (h i, x)) l) = flat_map g l) as Hg; [|exact (Hg id)].
  induction l as [|x l IH]; intros h; [done|]. cbn [imap flat_map snd]. f_equal. exact (IH (h ∘ S)).
Qed.

Lemma panel_written cell x title name score moves :
  60 ≤ cell → 0 ≤ x → x + PLAYER_PANEL_WIDTH ≤ totalW cell →
  writes (totalH cell) (totalW cell) (λ f, drawPlayerPanel (Some f) x title name score moves) (panelTexts title name score moves).
Proof.
  intros Hc Hx Hw. unfold drawPlayerPanel, panelTexts. cbv zeta. sizes. cbn [app].
  repeat (eapply (writes_seq _ _ []); [apply writes_fill; lia|]).
  eapply (writes_seq _ _ [_]); [apply writes_text|]. eapply (writes_seq _ _ [_]); [apply writes_text|].
  eapply (writes_seq _ _ [_]); [apply writes_text|]. eapply (writes_seq _ _ [_]); [apply writes_text|].
  eapply (writes_seq _ _ [_]); [apply writes_text|]. eapply (writes_seq _ _ []); [apply writes_fill; lia|].
  replace (Z.to_nat (Z.max 0 (Z.of_nat (length moves) - 20))) with (length moves - 20)%nat by lia.
  rewrite <-(indexed_flat (λ e, [timestamp e; notation e])). apply writes_each. intros [i e] _.
  apply (writes_seq _ _ [_] [_]); apply writes_text.
Qed.

Lemma handle_written cell s H W : writes H W (λ f, drawHandle (Some f) cell s) [].
Proof.
  unfold drawHandle, handleTopLeft. apply (writes_each _ (λ _, [])). intros offset _.
  apply (writes_seq _ _ [] []); apply writes_line.
Qed.

Variable files : string → option string.
Variable root : string.

(** An image operation on the frame of a screen. *)
Lemma screen_written {H W} m ts f s M :
  writes H W m ts → frameOn files root f M s → rows M = H → cols M = W →
  succeeds (onImages (m f)) s (λ _ s', ∃ l, frameOn files root f (drawAll l M) s' ∧ textsOf l = outlined ts).
Proof.
  intros (l & Hm & Hl) [Hs Hf Hoff] Hr Hc.
  destruct (Hm f (buffers (sprites s)) M (so_fresh _ _ _ Hs) Hf Hr Hc) as (a & b & Hrun & Hf' & Hb & Hk).
  exists a, (setSprites (setBuffers b (sprites s)) s). split; [unfold onImages, inside; by rewrite Hrun|].
  exists l. split; [|done]. split; [by eapply sprites_ok_keeps|done|done].
Qed.

(** The panels of a frame say exactly what the view holds: the names, the scores,
    the last twenty moves of each side on its own panel, the end of the game, the
    spectators, the notice of a disconnect. *)
Lemma panels_written cell v snapshot f s M :
  60 ≤ cell ≤ 120 → boardSize snapshot → frameOn files root f M s → rows M = totalH cell → cols M = totalW cell →
  succeeds (drawPanels (Some f) cell v snapshot) s (λ _ s', ∃ l, frameOn files root f (drawAll l M) s' ∧
    textsOf l = outlined (panelsTexts v snapshot)).
Proof.
  intros Hc Hs Hf Hr Hw. unfold drawPanels. cbv zeta. assert (0 ≤ board_width snapshot ≤ 8) as Hbw by (destruct Hs; lia).
  set (H := totalH cell) in *. set (W := totalW cell) in *.
  assert (∀ x title name score moves, 0 ≤ x → x + PLAYER_PANEL_WIDTH ≤ W →
    writes H W (λ f, drawPlayerPanel (Some f) x title name score moves) (panelTexts title name score moves)) as Hpanel
    by (intros; apply panel_written; [lia|done..]).
  eassert (writes H W (λ f, drawPlayerPanel (Some f) 10 "Black" (vw_black v) (snd (vw_score v)) (snd (vw_moves v)) ;;
    drawPlayerPanel (Some f) (PANEL_WIDTH + board_width snapshot * cell + BOARD_MARGIN + PLAYER_PANEL_GAP_PX) "White" (vw_white v)
      (fst (vw_score v)) (fst (vw_moves v)) ;;
    unless (negb (gs_over snapshot)) (put_text (Some f) (gameOverMessage snapshot)
      (PANEL_WIDTH + Z.quot (board_width snapshot * cell) 2 - 180) (BOARD_MARGIN + Z.quot (board_height snapshot * cell) 2) d1 defaultColor 1)) _) as W1.
  { eapply writes_seq; [apply Hpanel; subst W; sizes; nia|]. eapply writes_seq; [apply Hpanel; subst W; sizes; nia|].
    apply (writes_when _ (λ f, put_text (Some f) _ _ _ _ _ _)), writes_text. }
  eassert (writes H W (λ f, put_text (Some f) ("Spectators: " +:+ showInt (vw_spectators v)) 10 (PANEL_Y + PANEL_TOTAL_H + 20)
      (dRatio 6 10) (bgr 255 255 255) 1 ;;
    unless (negb (fst (vw_disconnect v)))
      (put_text (Some f) (snd (vw_disconnect v)) (PANEL_WIDTH + Z.quot (board_width snapshot * cell) 2 - 200)
         (BOARD_MARGIN + board_height snapshot * cell + BOARD_MARGIN - 8) (dRatio 8 10) (bgr 0 0 255) 1) ;;
    drawHandle (Some f) cell snapshot) _) as W2.
  { eapply writes_seq; [apply writes_text|]. eapply writes_seq; [|apply handle_written].
    apply (writes_when _ (λ f, put_text (Some f) _ _ _ _ _ _)), writes_text. }
  apply succeeds_bind. eapply succeeds_mono; [exact (screen_written _ _ f s M W1 Hf Hr Hw)|].
  intros _ s1 (l1 & Hf1 & Hl1). apply succeeds_bind. eexists _, s1. split; [done|].
  destruct (drawAll_size l1 M) as (Hr1 & Hw1 & _).
  apply succeeds_bind. set (c := _ || _).
  assert (succeeds (unless c (changes (setTitle (vw_roomName v)))) s1 (λ _ s2, frameOn files root f (drawAll l1 M) s2)) as Ht.
  { destruct c; [by apply succeeds_ret|]. eexists _, _. split; [done|]. by destruct Hf1. }
  eapply succeeds_mono; [exact Ht|]. intros a s2 Hf2. eapply succeeds_mono.
  { exact (screen_written _ _ f s2 _ W2 Hf2 (eq_trans Hr1 Hr) (eq_trans Hw1 Hw)). }
  intros _ s3 (l2 & Hf3 & Hl2). exists (l1 ++ l2). split; [unfold drawAll in *; by rewrite foldl_app|].
  unfold textsOf, outlined, panelsTexts in *. rewrite omap_app, Hl1, Hl2, !flat_map_app, !app_nil_r, <-!app_assoc. done.
Qed.
End Written.

(** ** The room in the window *)
Section Follow.
#[local] Set Default Proof Using "Type*".
Context `{HI : HashIter} `{JT : JsonText} `{CV : OpenCV} `{Laws : !OpenCVLaws} {U : Type}.

(** C18 The board follows the room from the seat on.  A window opened on a seat in a
    session with nothing left to deliver runs its loop: frames of any number, in
    and between which the messages of the room (texts in UTF-8, numbers that fit)
    come in order, however delayed,
    with any clicks and drags among them.  The next frame then hands the view
    exactly the moves of the session, those from before the seat, which came with
    the reply, and all after it, less the ones whose message is on its way or
    still queued; and the panels drawn from that view list the last twenty of
    them, White's on White's panel and Black's on Black's. *)
Theorem window_follows_room (v : Server U) h b r sim os1 s1 outs1 os2 s2 outs late w frames w1 f :
  board_ok b → runOps os1 (newSession b r sim) = Ok (s1, outs1) → pending_ s1 = [] →
  runOps os2 s1 = Ok (s2, outs ++ late) →
  (∀ room text, SendSnapshot room text ∈ outs → snapshotText text) →
  (∀ p, p ∈ pushes (newLog (height b)) (events (arbiter (engine_ s2))) → push_text p ∧ push_int p) →
  startWindow (joinedResult (seatOf h r s1 v)) = Ok (Some w) →
  renderLoop frames w = Ok (w1, false) →
  flat_map frameTexts frames ++ gf_between f = omap (heard r) outs →
  ∃ coming waiting, mapR (enqueue r) coming = Ok (delivered r late) ∧ mapR (enqueue r) waiting = Ok (pending_ s2) ∧
    let shown := view (drawFrame (gf_between f) w1) in
    (vw_moves shown).1 ++ pushedMoves White (coming ++ waiting) = getMoves White (moveLogObserver_ s2) ∧
    (vw_moves shown).2 ++ pushedMoves Black (coming ++ waiting) = getMoves Black (moveLogObserver_ s2) ∧
    ∀ files root cell snapshot fr scr M,
      60 ≤ cell ≤ 120 → boardSize snapshot → frameOn files root fr M scr → rows M = totalH cell → cols M = totalW cell →
      succeeds (drawPanels (Some fr) cell shown snapshot) scr (λ _ scr', ∃ l, frameOn files root fr (drawAll l M) scr' ∧
        textsOf l = outlined (panelsTexts shown snapshot)).
Proof.
  intros Hb H1 Hp1 H2 Hs Ht Hw Hloop Htexts.
  destruct (session_pushes b r sim os1 s1 outs1 os2 s2 (outs ++ late) Hb H1 Hp1 H2 Ht)
    as (es & ps & waiting & _ & Hlog & Hps & Hd & Hq & Hok).
  rewrite delivered_app in Hd. apply mapR_app_inv in Hd as (heardPs & coming & -> & Hd & Hcoming).
  exists coming, waiting. split; [done|]. split; [done|]. cbv zeta.
  rewrite seat_window in Hw. injection Hw as <-.
  assert (∀ c, c ≠ NoColor → movesOf c (networkHandler (drawFrame (gf_between f) w1)) ++ pushedMoves c (coming ++ waiting) =
    getMoves c (moveLogObserver_ s2)) as Hall.
  { intros c Hc. destruct (room_lists r outs heardPs c Hc Hs) as (ls & Hls & Hcat); [intros; apply Hok; set_solver|done|].
    rewrite <-Htexts in Hls. apply Forall2_app_inv_l in Hls as (l1 & l2 & Hl1 & Hl2 & ->).
    rewrite (frame_lists c _ l2 _ Hl2), (loop_lists c _ l1 _ _ Hl1 Hloop), <-(app_assoc _ (concat l1)), <-concat_app, Hcat.
    destruct (moveLog_pushes c es (moveLogObserver_ s1) Hc) as (_ & Hm & _). rewrite Hlog, Hm, Hps, <-app_assoc.
    unfold pushedMoves. rewrite !omap_app, !app_assoc. by destruct c. }
  rewrite frame_shows. split; [by apply (Hall White)|]. split; [by apply (Hall Black)|].
  intros. by apply panels_written.
Qed.
End Follow.
