(* ===== verification/DeskDemos.v ===== *)
(** * The client's desk at work

    Runs of the client application: a login, a search, a room joined through
    the gateway and the shard, the game window; and what goes wrong when the
    window is closed during a search, when a shard cannot be reached, when an error
    follows the dialog, and when a move is announced between the reply and the
    window. *)
From S2P Require Import Prelude Model Text Scan Double Rules Motion Arbiter ArbiterSteps Lifecycle Engine EngineSpec EngineTheorems Json Redis Observers Codecs Session SessionTheorems ClientNet Registry RegistryTheorems Stores BoardIO Server ServerTheorems ClientInput WsGateway ApiGateway Desk HomeView Window Img Sprites SpriteTheorems Drawing DrawingTheorems Scenarios DrawingDemos Wire ClientDemos GatewayDemos ClientJoin WindowGame.
#[local] Open Scope Z_scope.
#[local] Existing Instances sorted_iter tableStore.

(** A desk on which nothing has happened. *)
Definition deskOf (words : list string) (answers : list HttpAnswer) (conns : list (option (list (list string))))
    (dialogs : list (list WinEvent)) : Desk :=
  mkDesk words answers conns [] dialogs NoChoice (-1, -1) None 0 false [].

(** ** Logging in at the second attempt *)
Definition refusedText : string := wireDump (jObj [("success", JBool false); ("message", JString "wrong password")]).
Definition acceptedText : string :=
  wireDump (jObj [("success", JBool true); ("message", JString "welcome"); ("elo", JInt 1200); ("token", JString "t")]).
Definition loginDesk : Desk := deskOf ["ada"; "bad"; "ada"; "good"] [Body refusedText; Body acceptedText] [] [].
Definition adaLogin : LoginResult := mkLoginResult true "welcome" 1200 "t".

Lemma loginDesk_run : runLoginFlow loginDesk = ((runLoginFlow loginDesk).1, Returned adaLogin).
Proof. vm_compute. reflexivity. Qed.

Lemma login_three_attempts_witness : ∃ k x, (0 < k ≤ 3)%nat ∧ attempted k x loginDesk (runLoginFlow loginDesk).1 ∧ x = adaLogin.
Proof.
  destruct (login_three_attempts loginDesk (runLoginFlow loginDesk).1 adaLogin loginDesk_run) as (k & x & Hk & Ha & Hx).
  exists k, x. split; [exact Hk|]. split; [exact Ha|]. destruct (success x); [by symmetry|]. by destruct Hx.
Defined.

(** ** The home screen *)
Definition quietFrame : HomeFrame := mkFrame [] (-1) true None.
Definition clickAt (x y : Z) : HomeFrame := mkFrame [(EVENT_LBUTTONDOWN, x, y)] (-1) true None.
Definition escape : HomeFrame := mkFrame [] 27 true None.

Definition searchFrames : list HomeFrame := [quietFrame; clickAt 350 170; clickAt 350 170; quietFrame].
Definition searchDesk : Desk := deskOf [] [] [] [].

(** A second click on Play is ignored. *)
Lemma one_search_at_a_time_witness :
  (inFlight (playsOf (runHomeScreen "t" searchFrames searchDesk).1) ≤ 1)%nat ∧
  playsPosted (playsOf (runHomeScreen "t" searchFrames searchDesk).1) = 1%nat.
Proof.
  destruct (one_search_at_a_time "t" searchFrames searchDesk eq_refl eq_refl eq_refl) as [_ Hi].
  split; [exact Hi|vm_compute; reflexivity].
Defined.

(** The home screen is closed and the thread of [POST /play] runs on, with a
    reference to the [HttpClient] of an application that is about to be destroyed. *)
Lemma escape_leaves_thread :
  let r := runHomeScreen "t" [clickAt 350 170; escape] searchDesk in
  r.2 = Returned notJoined ∧ playThreads r.1 = 1%nat.
Proof. vm_compute. split; reflexivity. Qed.

(** A shard that cannot be reached: [connect] waits for an [open] that never
    comes. *)
Definition foundText : string :=
  wireDump (jObj [("success", JBool true); ("shard", JString "ws://gone"); ("roomName", JString "r")]).
Definition foundFrame : HomeFrame := mkFrame [] (-1) true (Some (Body foundText)).

Lemma unreachable_shard_hangs frames :
  (runHomeScreen "t" (clickAt 350 170 :: foundFrame :: frames) (deskOf [] [] [None] [])).2 = Blocked.
Proof. vm_compute. reflexivity. Qed.

(** A click on Room in the very frame in which a match is found and the seat is
    then refused is not ignored: it is pending when the search has ended. *)
Definition foundAndClick : HomeFrame := mkFrame [(EVENT_LBUTTONDOWN, 350, 280)] (-1) true (Some (Body foundText)).
Definition authRefused : string :=
  wireDump (jObj [("type", JString "AUTH"); ("success", JBool false); ("message", JString "expired")]).

Lemma click_while_searching_acts :
  let d := deskOf [] [] [Some [[authRefused]]] [[CloseBox]] in
  let d1 := (homeFrame "t" false (clickAt 350 170) d).1 in
  let r := homeFrame "t" true foundAndClick d1 in
  r.2 = Returned (Stay false) ∧ g_pendingChoice r.1 = RoomChoice.
Proof. vm_compute. split; reflexivity. Qed.

(** The error after the Room dialog is not waited for: the dialog's [WM_QUIT]
    ends the loop of the error box before any event; the same error after a search
    waits for its button. *)
Definition joinClick : list WinEvent := [Command BN_CLICKED kJoinId "r"].
Definition errorDesk : Desk := deskOf [] [Body refusedText] [] [joinClick].

Lemma error_not_waited :
  (roomFrame "t" errorDesk).2 = Returned (Stay false) ∧ quitPosted (showRoomDialog errorDesk).1 = true ∧
  ∀ message, (showRoomError message (deskOf [] [] [] [])).2 = Blocked.
Proof. split; [vm_compute; reflexivity|]. split; [vm_compute; reflexivity|done]. Qed.

(** ** A room joined *)
Definition adaStore (t : string) : option (string * Z) := if String.eqb t "t" then Some ("ada", 1200) else None.
Definition joinEnv : ApiEnv := mkEnv ["ws://a"] (λ _, None) "cafe" (λ _, "ws://a") [] None.
Definition enterText : string := textOf' (enterRequest "t" "r").
#[local] Instance nobody : UserStore unit :=
  {| login := λ _ _ u, (u, Server.mkLogin false "" 0); updateElo := λ _ _ u, u |}.
Definition entered : Server unit := (process false (Some adaStore) false 1 enterText shard1).1.1.
Definition roomSession : GameSession := default duelSession (room "r" (registry entered)).
Definition enteredText : string := dump (seatReply 1 "r" roomSession entered).
Definition joinDesk : Desk :=
  deskOf [] [Body (wireDump (foundReply "r" "ws://a"))] [Some [[wireDump authReply]; [refusedText; enteredText; foundText]]] [joinClick].

Lemma refused_passed : passedOver "ENTER_ROOM" refusedText.
Proof. apply handler_passes. vm_compute. reflexivity. Qed.

Lemma joinDesk_supplies : JoinSupplies "r" (wireDump (foundReply "r" "ws://a")) (wireDump authReply)
  (dump (seatReply 1 "r" roomSession entered)) [] joinDesk.
Proof.
  apply Build_JoinSupplies; [reflexivity..|].
  exists [], [], [refusedText], [foundText]. split; [reflexivity|]. split; [constructor|].
  constructor; [exact refused_passed|constructor].
Qed.

Lemma client_joins_room_witness : ∃ d' s (v' : Server unit) w,
  roomFrame "t" joinDesk = (d', Returned (Leave (joinedResult (seatOf 1 "r" s v')))) ∧ roleOf 1 (registry v') = White ∧
  startWindow (joinedResult (seatOf 1 "r" s v')) = Ok (Some w) ∧
  vw_white (view w) = "ada (1200)" ∧ vw_black (view w) = "Waiting for player...".
Proof.
  destruct (rooms_ (registry shard1) !! "r") as [rm|] eqn:Hrm;
    [|exfalso; assert (bool_decide (is_Some (rooms_ (registry shard1) !! "r")) = true) as Hx by (vm_compute; reflexivity);
      rewrite Hrm in Hx; discriminate Hx].
  destruct (client_joins_room (JT := wireText) (US := nobody) (SS := tableStore) false adaStore false 1 "t" "r" "ws://a" "ada" 1200 joinEnv (newApi ada) shard1 shard1 rm 1
    eq_refl eq_refl eq_refl ltac:(discriminate) ltac:(vm_compute; discriminate) eq_refl eq_refl eq_refl Hrm)
    as (text & ta & t1 & te & v' & out & s & Hta & Hte & Hg & Ha & He & Hroom & Hall).
  assert (te = enterText) as -> by (unfold enterText, textOf'; by rewrite Hte).
  assert (v' = entered) as -> by (unfold entered; by rewrite He).
  assert (s = roomSession) as -> by (unfold roomSession; by rewrite Hroom).
  assert (text = wireDump (foundReply "r" "ws://a")) as ->.
  { assert (httpHandler 1 "POST" (roomPath Join "r") (dump (roomBody Join "t" "r")) joinEnv (newApi ada) =
      (newApi ada, [Respond 1 200 (wireDump (foundReply "r" "ws://a"))], Ok tt)) as Hg' by (vm_compute; reflexivity).
    rewrite Hg in Hg'. by injection Hg'. }
  assert (t1 = wireDump authReply) as ->.
  { destruct (shard_auth (JT := wireText) (US := nobody) false adaStore false 1 "t" "ada" 1200 shard1 eq_refl eq_refl) as (ta' & Hta' & Hp).
    rewrite Hta in Hta'. injection Hta' as <-. pose proof (f_equal snd (eq_trans (eq_sym Hp) Ha)) as E. cbn [snd] in E.
    injection E as E. symmetry. exact E. }
  destruct (Hall [] joinDesk) as (d' & w & Hr & _ & _ & Hw & Heq).
  - vm_compute. reflexivity.
  - split; apply (bool_decide_unpack _); vm_compute; exact I.
  - exact joinDesk_supplies.
  - exists d', roomSession, entered, w. split; [exact Hr|]. split; [vm_compute; reflexivity|]. split; [exact Hw|].
    assert (resolveIdentity (registry entered) (clients entered) "r" = mkIdentity "ada" 1200 "" 0 0) as Hi by (vm_compute; reflexivity).
    rewrite Hi in Heq. rewrite Heq. split; reflexivity.
Defined.

(** A whole evening: the button is clicked in the second frame. *)
Definition joinFrames : list HomeFrame := [quietFrame; clickAt 350 280].

Lemma home_leaves_seated_witness : ∃ shard name d1 d' r,
  runHomeScreen "t" joinFrames joinDesk = (d', Returned r) ∧ joinedRoom r = true ∧ Seated "t" shard name d1 d' (joinedAs r).
Proof.
  assert (match (runHomeScreen "t" joinFrames joinDesk).2 with Returned r => joinedRoom r | _ => false end = true) as Hb
    by (vm_compute; reflexivity).
  destruct (runHomeScreen "t" joinFrames joinDesk) as [d' o] eqn:Hr. cbn [snd fst] in *.
  destruct o as [r| | |]; [|discriminate Hb..].
  destruct (home_leaves_seated "t" joinFrames joinDesk d' r Hr) as [->|(_ & Hj & shard & name & d1 & Hs)]; [discriminate Hb|].
  exists shard, name, d1, d', r. split; [reflexivity|]. split; [exact Hj|exact Hs].
Defined.

(** ** The window *)
Definition duelWindow : Window :=
  mkWindow (mkController (Some (mkPos 0 0)) (snapshot duel0) 100 (Some White)) false 0 0 0 newHandler false
    (mkView "r" "ada (1200)" "Waiting for player..." (false, "") (0, 0) ([], []) 0) [] [].

Lemma duelWindow_ok : window_ok duelWindow.
Proof. split; [split; discriminate|]. intros p [= <-]. split; ints. Qed.

(** White's rook is selected, and the player clicks on the file's end. *)
Lemma press_effect_witness : ∃ w', onMouseEvent EVENT_LBUTTONDOWN 630 80 duelWindow = Ok w' ∧ length (client w') = 1%nat.
Proof.
  destruct (press_effect 630 80 duelWindow duelWindow_ok ltac:(split; apply (bool_decide_unpack _); vm_compute; exact I)) as (w' & Hr & _ & He).
  exists w'. split; [exact Hr|].
  assert (isInHandle (cellSize (controller duelWindow)) (board_width (latestSnapshot duelWindow))
    (board_height (latestSnapshot duelWindow)) 630 80 = false) as Hh by (vm_compute; reflexivity).
  rewrite Hh in He. destruct He as (o & texts & He & Hc & _). rewrite Hc.
  assert (match onMouseEvent EVENT_LBUTTONDOWN 630 80 duelWindow with Ok w => length (client w) | Throw _ => 0%nat end = 1%nat) as Hl
    by (vm_compute; reflexivity). rewrite Hr in Hl. by rewrite <-Hc.
Defined.

(** The handle is dragged 80 pixels to the right and down: the 5 columns grow by
    16 pixels each; dragged far out, they stop at the largest size. *)
Lemma drag_resizes_witness : ∃ w',
  (w1 ← onMouseEvent EVENT_LBUTTONDOWN 770 420 duelWindow; w2 ← moves ([(2000, 2000)] ++ [(850, 500)]) w1;
   onMouseEvent EVENT_LBUTTONUP 850 500 w2) = Ok w' ∧ cellSize (controller w') = 116.
Proof.
  destruct (drag_resizes 770 420 [(2000, 2000)] (850, 500) duelWindow duelWindow_ok ltac:(reflexivity) ltac:(reflexivity))
    as (w' & Hr & Hc & _).
  exists w'. split; [exact Hr|]. rewrite Hc. reflexivity.
Defined.

(** The king falls, and the picture stays. *)
Definition overText : string := match snapshotPayload huntOver with Ok j => wireDump j | Throw _ => "" end.
Definition plainFrame (heard : list string) : GameFrame := mkGameFrame heard false [] (-1) true.
Definition overFrames : list GameFrame := [plainFrame []; plainFrame [overText]; plainFrame []; plainFrame [overText]].
Definition startHome : HomeScreenResult := joinedResult (mkJoin "r" emptyMoveLog "ada" 1200 "bob" 1300 White).

Lemma game_over_heard_witness : ∃ w0 w,
  startWindow startHome = Ok (Some w0) ∧ renderLoop overFrames w0 = Ok (w, false) ∧
  gameOverSounds (networkHandler w) = 1%nat.
Proof.
  assert (match startWindow startHome with
    | Ok (Some w0) => match renderLoop overFrames w0 with Ok (w, false) => bool_decide (overs w = [false; true; true; true]) | _ => false end
    | _ => false end = true) as Hb by (vm_compute; reflexivity).
  destruct (startWindow startHome) as [[w0|]|] eqn:Hs; [|discriminate Hb..].
  destruct (renderLoop overFrames w0) as [[w []]|] eqn:Hl; [discriminate Hb| |discriminate Hb].
  apply bool_decide_eq_true in Hb. exists w0, w. split; [reflexivity|]. split; [exact Hl|].
  destruct (game_over_heard startHome w0 overFrames w false Hs Hl) as [Hc _]. rewrite Hc, Hb. reflexivity.
Defined.

Lemma renderLoop_total_witness : ∃ w' ended, renderLoop overFrames duelWindow = Ok (w', ended) ∧ window_ok w'.
Proof.
  destruct (renderLoop_total overFrames duelWindow duelWindow_ok) as (w' & b & Hr & Hw & _).
  - repeat constructor.
  - exists w', b. split; [exact Hr|exact Hw].
Defined.

(** ** The game that is shown *)
Definition followTexts : list string :=
  match runOps followOps duelSession with Ok (s, outs) => omap (heard "r") outs | Throw _ => [] end.
(** The first message comes between two frames, then a click, then the rest. *)
Definition followFrames : list GameFrame :=
  [mkGameFrame [] false [] 0 true; mkGameFrame (take 1 followTexts) false (Mouse EVENT_LBUTTONDOWN 300 60 :: map Heard (drop 1 followTexts)) 0 true].
Definition lastFrame : GameFrame := mkGameFrame [] false [] 0 true.
Definition roomWindow : Window :=
  match startWindow (joinedResult (seatOf 1 "r" duelSession shard1)) with Ok (Some w) => w | _ => duelWindow end.

Lemma window_follows_room_witness : ∃ w1 waiting s, renderLoop followFrames roomWindow = Ok (w1, false) ∧
  (vw_moves (view (drawFrame [] w1))).1 ++ pushedMoves White waiting = getMoves White (moveLogObserver_ s) ∧
  length (vw_moves (view (drawFrame [] w1))).1 = 1%nat.
Proof.
  assert (match runOps followOps duelSession with
    | Ok (s, outs) => forallb noSnapshot outs && forallb pushFits (pushes (newLog (height duel)) (events (arbiter (engine_ s))))
    | Throw _ => false end = true) as Hb by (vm_compute; reflexivity).
  assert (match renderLoop followFrames roomWindow with
    | Ok (w1, false) => Nat.eqb (length (vw_moves (view (drawFrame [] w1))).1) 1 | _ => false end = true) as Hl by (vm_compute; reflexivity).
  destruct (renderLoop followFrames roomWindow) as [[w1 [|]]|] eqn:Hloop; [discriminate Hl| |discriminate Hl].
  apply Nat.eqb_eq in Hl.
  assert (flat_map frameTexts followFrames = followTexts) as Htexts by (vm_compute; reflexivity).
  assert (startWindow (joinedResult (seatOf 1 "r" duelSession shard1)) = Ok (Some roomWindow)) as Hw
    by (unfold roomWindow; by rewrite seat_window).
  unfold followTexts in Htexts.
  destruct (runOps followOps duelSession) as [[s outs]|] eqn:Hr; [|discriminate Hb].
  apply andb_true_iff in Hb as [Hs Hp]. rewrite forallb_elem in Hs. rewrite forallb_elem in Hp.
  destruct (window_follows_room (CV := testCV) (Laws := testLaws) shard1 1 duel "r" true [] duelSession [] followOps s outs [] roomWindow followFrames w1 lastFrame
    duel_ok eq_refl eq_refl (eq_trans Hr (f_equal (λ o, Ok (s, o)) (eq_sym (app_nil_r outs))))
    (λ room text Hin, match diff_false_true (Hs (SendSnapshot room text) Hin) with end)
    (λ p Hin, pushFits_spec p (Hp p Hin)) Hw Hloop (eq_trans (app_nil_r _) Htexts)) as (coming & waiting & _ & _ & Hm & _).
  exists w1, (coming ++ waiting), s. split; [reflexivity|]. split; [exact Hm|exact Hl].
Defined.

(** What is announced after the reply and before the window has its handler is
    dropped by the handler that waited for the reply: a move announced then is
    never listed by this client. *)
Lemma gap_loses_move :
  match runOps followOps duelSession with
  | Ok (s, outs) =>
    let texts := omap (heard "r") outs in
    deliver "ENTER_ROOM" (enteredText :: take 2 texts) None = deliver "ENTER_ROOM" [enteredText] None ∧
    length (movesOf White (foldl (λ h text, onMessage text h) (joined duelSession) texts)) = 1%nat ∧
    length (movesOf White (foldl (λ h text, onMessage text h) (joined duelSession) (drop 2 texts))) = 0%nat
  | Throw _ => False
  end.
Proof. vm_compute. split_and!; reflexivity. Qed.
