(* ===== verification/Seating.v ===== *)
(** * From a match to two seats

    The matchmaker's message, the allocator and the shard's own handler put
    together, and concrete runs of the matchmaking services. *)
From S2P Require Import Prelude Model Text Scan Double Rules Motion Arbiter ArbiterSteps Lifecycle Engine EngineSpec EngineTheorems Json Redis Matchmaking MatchmakingTheorems Allocator Observers Codecs Session Registry BoardIO Server ServerTheorems Wire.
From stdpp Require Import relations.
#[local] Open Scope Z_scope.

Section Seating.
Context `{HashIter} `{JsonText} `{Redis} {U : Type} `{UserStore U}.
Variable directory : bool.
Variable shardAddress : string.
Variable order : gmap string Z → list (string * Z).

(** ** The shard *)

(** [name] keeps the seats of the two players, whoever comes. *)
Definition seatsKept (name white black : string) (r : SessionRegistry) : Prop :=
  ∃ rm, rooms_ r !! name = Some rm ∧ seatReservations rm !! white = Some White ∧
    seatReservations rm !! black = Some Black.

Lemma join_keeps name white black n h u r :
  seatsKept name white black r → seatsKept name white black (joinRoom n h u r).1.
Proof.
  intros (rm & Hrm & Hw & Hb). unfold joinRoom. destruct (rooms_ r !! n) as [rm'|] eqn:E; [|by exists rm].
  unfold seatsKept. cbn [fst rooms_]. destruct (decide (n = name)) as [->|Hne].
  - rewrite lookup_insert_eq. simplify_eq. by eexists.
  - rewrite lookup_insert_ne by done. by eexists.
Qed.

Lemma join_role name h u c r rm :
  rooms_ r !! name = Some rm → u ≠ "" → seatReservations rm !! u = Some c → roleOf h (joinRoom name h u r).1 = c.
Proof.
  intros Hrm Hu Hc. unfold joinRoom. rewrite Hrm. unfold roleOf. cbn [fst rooms_ connectionRoom_].
  rewrite lookup_insert_eq. cbn. rewrite lookup_insert_eq. cbn [rooms_ roles]. rewrite lookup_insert_eq.
  cbn. unfold joinRole. cbn [seatReservations]. by rewrite (proj2 (String.eqb_neq u "") Hu), Hc.
Qed.

Lemma onRoom_lookup name f r rm : rooms_ r !! name = Some rm → rooms_ (onRoom name f r) !! name = Some (f rm).
Proof. intros E. unfold onRoom, setRooms. cbn [rooms_]. by rewrite lookup_alter_eq, E. Qed.

Lemma allocate_seats name white black (v : Server U) :
  roomExists name (registry v) = false → white ≠ "" → black ≠ "" → white ≠ black →
  ∃ v' out reply, doAllocate directory shardAddress (allocateJson name white black) v = (v', out, Ok reply) ∧
    succeeded reply = Ok true ∧ seatsKept name white black (registry v').
Proof.
  intros Hn Hw Hb Hwb. pose proof (makeStartingBoard_placed (idCounter v)) as Hb0.
  unfold roomExists in Hn. b2p. apply eq_None_not_Some in Hn.
  unfold doAllocate.
  change (n ← jStr "roomName" (allocateJson name white black); _) with (Ok (name, white, black)). cbv iota beta.
  rewrite Hb0. unfold createRoom. rewrite Hn. cbn [negb].
  rewrite (proj2 (String.eqb_neq white "") Hw), (proj2 (String.eqb_neq black "") Hb). cbn [negb andb].
  do 3 eexists. split; [reflexivity|]. split; [reflexivity|].
  unfold attach, attachBroadcasters, setRegistry. cbn [registry]. eexists. split.
  - unfold reserveSeats. apply onRoom_lookup. apply onRoom_lookup. apply lookup_insert_eq.
  - cbn [seatReservations]. split; [|by rewrite lookup_insert_eq].
    by rewrite lookup_insert_ne, lookup_insert_eq by done.
Qed.

(** ** The whole way *)

(** Everyone who comes to the room, by connection and name. *)
Definition arrivals (name : string) (js : list (hdl * string)) (r : SessionRegistry) : SessionRegistry :=
  foldl (λ r j, (joinRoom name j.1 j.2 r).1) r js.

Lemma arrivals_keep name white black js r :
  seatsKept name white black r → seatsKept name white black (arrivals name js r).
Proof. intros Hr. unfold arrivals. apply foldl_ind; [done|]. intros r' j _. apply join_keeps. Qed.

(** The shard as the allocator sees it: its reply to the NATS request. *)
Definition askShard (v : Server U) (subject : string) (request : json) : option json :=
  match (allocateHandle directory shardAddress request v).2 with Allocated reply => Some reply | LoopEnds _ => None end.

(** A player knows its opponent: [data] names both tickets, seats and players. *)
Definition assigned_to (p q : MatchCandidate) (name shard : string) (data : json) : Prop :=
  jAt "ticketA" data = Ok (JString (mc_ticketId p)) ∧ jAt "roleA" data = Ok (JString "White") ∧
  jAt "ticketB" data = Ok (JString (mc_ticketId q)) ∧ jAt "roleB" data = Ok (JString "Black") ∧
  jAt "roomName" data = Ok (JString name) ∧ jAt "shard" data = Ok (JString shard) ∧
  jAt "whiteName" data = Ok (JString (mc_username p)) ∧ jAt "whiteElo" data = Ok (JInt (mc_elo p)) ∧
  jAt "blackName" data = Ok (JString (mc_username q)) ∧ jAt "blackElo" data = Ok (JInt (mc_elo q)).

Lemma matched_pair_seated_aux p q a d n (v : Server U) :
  let shard := pickLeastLoadedShard (order (shardLoad a)) in
  let name := "match-" +:+ showInt (n + 1) in
  counterAt n d → 0 ≤ n < LLONG_MAX → shard ≠ "" → roomExists name (registry v) = false →
  mc_username p ≠ "" → mc_username q ≠ "" → mc_username p ≠ mc_username q →
  let '(_, _, out) := onMatched order (askShard v) (matchedJson p q) a d in
  let v' := (doAllocate directory shardAddress (allocateJson name (mc_username p) (mc_username q)) v).1.1 in
  (∃ data, out = [("matchmaking.assigned", data)] ∧ assigned_to p q name shard data) ∧
  ∀ js h, let r := arrivals name js (registry v') in
    roleOf h (joinRoom name h (mc_username p) r).1 = White ∧
    roleOf h (joinRoom name h (mc_username q) r).1 = Black.
Proof.
  intros shard name Hc Hn Hs Hr Hp Hq Hpq.
  destruct (allocate_seats name _ _ v Hr Hp Hq Hpq) as (v' & out & reply & Ha & Hok & Hseats).
  unfold onMatched. fold shard. rewrite (proj2 (String.eqb_neq shard "") Hs).
  destruct (next_counter n d Hc Hn) as [Hk _]. destruct (next kRoomCounter d) as [d' k]. simpl in Hk. subst k.
  fold name. change (w ← jStr "usernameA" (matchedJson p q); _) with (Ok (mc_username p, mc_username q)).
  cbv iota beta. unfold askShard, allocateHandle at 1. rewrite Ha. cbn [snd]. rewrite Hok. cbv iota beta zeta. split.
  - eexists. split; [reflexivity|]. unfold assigned_to. split_and!; reflexivity.
  - intros js h. cbn [fst]. destruct (arrivals_keep name _ _ js _ Hseats) as (rm & Hrm & Hw & Hb).
    split; by eapply join_role.
Qed.

(** C22 A match leads both players to the same board: when the least loaded shard
    can open the room, the allocator tells both tickets the same fresh room with
    White for the one who waited and Black for the other, and on that shard, however
    many others have entered the room before, each player who enters by name gets
    that colour. *)
Theorem matched_pair_seated p q a d n (v : Server U) :
  let shard := pickLeastLoadedShard (order (shardLoad a)) in
  let name := "match-" +:+ showInt (n + 1) in
  counterAt n d → 0 ≤ n < LLONG_MAX → shard ≠ "" → roomExists name (registry v) = false →
  mc_username p ≠ "" → mc_username q ≠ "" → mc_username p ≠ mc_username q →
  let '(_, _, out) := onMatched order (askShard v) (matchedJson p q) a d in
  let v' := (doAllocate directory shardAddress (allocateJson name (mc_username p) (mc_username q)) v).1.1 in
  (∃ data, out = [("matchmaking.assigned", data)] ∧ assigned_to p q name shard data) ∧
  ∀ js h, let r := arrivals name js (registry v') in
    roleOf h (joinRoom name h (mc_username p) r).1 = White ∧
    roleOf h (joinRoom name h (mc_username q) r).1 = Black.
Proof. exact (matched_pair_seated_aux p q a d n v). Qed.

(** The seats are not kept from strangers: the first connection to enter a
    reserved room under another name is White as well. *)
Lemma stranger_takes_white name h u r rm :
  rooms_ r !! name = Some rm → connectionCount rm = 0 → seatReservations rm !! u = None →
  roleOf h (joinRoom name h u r).1 = White.
Proof.
  intros Hrm Hc Hn. unfold joinRoom. rewrite Hrm. unfold roleOf. cbn [fst rooms_ connectionRoom_].
  rewrite lookup_insert_eq. cbn. rewrite lookup_insert_eq. cbn [rooms_ roles]. rewrite lookup_insert_eq.
  cbn. unfold joinRole. cbn [seatReservations connectionCount]. rewrite Hc, Hn. by destruct (String.eqb u "").
Qed.
End Seating.

(** ** The matchmaker at work, on a Redis that keeps a map *)
#[local] Existing Instance mapRedis.

Definition ann : MatchCandidate := mkCandidate "t1" "ann" 1200.
Definition bob : MatchCandidate := mkCandidate "t2" "bob" 1250.
Definition eve : MatchCandidate := mkCandidate "t3" "eve" 1900.

Definition emptyDb : rdb := (∅ : gmap string RedisValue).

Lemma emptyRedis k : value emptyDb k = None.
Proof. change (value emptyDb k) with ((∅ : gmap string RedisValue) !! k). apply lookup_empty. Qed.

Definition freshWorld : World := newWorld emptyDb.

(** Ann waits, Bob comes and is matched with her, Eve waits. *)
Definition matchOps : list MmOp :=
  [OpRequest 0 ann; OpThread 0; OpThread 0; OpRequest 1 bob; OpThread 1; OpRequest 0 eve; OpThread 2; OpThread 2].
Definition matchWorld : World := default freshWorld (mmOps matchOps freshWorld).

Lemma matchWorld_reachable : rtc mm_step freshWorld matchWorld.
Proof. apply (mmOps_run matchOps). vm_compute. reflexivity. Qed.

Lemma pairs_fair_witness : NoDup ["t1"; "t2"] ∧ (ann, bob) ∈ matches matchWorld ∧ Z.abs (1200 - 1250) ≤ kEloRange.
Proof.
  destruct (pairs_fair emptyDb matchWorld emptyRedis matchWorld_reachable) as (H1 & _ & H3).
  assert (matches matchWorld = [(ann, bob)]) as E by (vm_compute; reflexivity).
  rewrite E in H1 |- *. split; [exact H1|]. split; [left|].
  apply (H3 ann bob). rewrite E. left.
Defined.

Lemma tickets_kept_witness : Timer "t3" ∈ threads matchWorld.
Proof.
  destruct (tickets_kept emptyDb matchWorld eve emptyRedis matchWorld_reachable) as [Ha|[Hm|(_ & Ht & _)]].
  - apply (bool_decide_unpack _). vm_compute. exact I.
  - apply (bool_decide_unpack _). vm_compute. exact I.
  - exfalso. revert Ha. apply (bool_decide_unpack _). vm_compute. exact I.
  - exfalso. revert Hm. apply (bool_decide_unpack _). vm_compute. exact I.
  - exact Ht.
Defined.

Definition dan : MatchCandidate := mkCandidate "t4" "dan" 1850.

Lemma request_outcome_witness : matches (onRequest 0 (requestJson dan) (recordRequest dan matchWorld)) = [(ann, bob); (eve, dan)].
Proof.
  destruct (request_outcome emptyDb matchWorld 0 dan emptyRedis matchWorld_reachable) as [(_ & _ & Hno)|(o & _ & Ho & Hm & _)].
  - apply (bool_decide_unpack _). vm_compute. exact I.
  - exfalso. destruct (Hno eve) as (o' & Hw & _).
    + apply (bool_decide_unpack _). vm_compute. exact I.
    + apply (bool_decide_unpack _). vm_compute. exact I.
    + apply (bool_decide_unpack _). vm_compute. exact I.
    + vm_compute. discriminate.
    + revert Hw. replace (withdrawn matchWorld) with (∅ : gset string) by (vm_compute; reflexivity).
      apply not_elem_of_empty.
  - vm_compute. reflexivity.
Defined.

(** Two requests in range handled at the same time by two replicas find nobody
    and both go to wait: compatible players sit in the pool together. *)
Definition bothWaitOps : list MmOp :=
  [OpRequest 0 ann; OpRequest 1 bob; OpThread 0; OpThread 1; OpThread 0; OpThread 1].

Lemma both_wait :
  ∃ w, rtc mm_step freshWorld w ∧ matches w = [] ∧ threads w = [Timer "t1"; Timer "t2"] ∧
    poolOf (redis w) !! "t1" = Some 1200 ∧ poolOf (redis w) !! "t2" = Some 1250.
Proof.
  exists (default freshWorld (mmOps bothWaitOps freshWorld)). split; [apply mmOps_run; vm_compute; reflexivity|].
  split_and!; vm_compute; reflexivity.
Qed.

(** A timer that finds its ticket still waiting and a request that takes it from
    the pool right then: the ticket is matched and timed out. *)
Definition lateTimerOps : list MmOp :=
  [OpRequest 0 ann; OpThread 0; OpThread 0; OpThread 0; OpRequest 1 bob; OpThread 0; OpThread 0; OpThread 0].

Lemma matched_and_timed_out :
  ∃ w, rtc mm_step freshWorld w ∧ matches w = [(ann, bob)] ∧
    ("matchmaking.timeout", timeoutJson "t1") ∈ published w.
Proof.
  exists (default freshWorld (mmOps lateTimerOps freshWorld)). split; [apply mmOps_run; vm_compute; reflexivity|].
  split; [vm_compute; reflexivity|].
  assert (published (default freshWorld (mmOps lateTimerOps freshWorld)) =
    [("matchmaking.matched", matchedJson ann bob); ("matchmaking.timeout", timeoutJson "t1")]) as -> by (vm_compute; reflexivity).
  right. left.
Qed.

(** Three events, two replicas, one shard that refuses the second. *)
Definition oneShard (ok : bool) (e : json) : AllocTurn :=
  mkTurn map_to_list (λ _ _, Some (jObj [("success", JBool ok)])) (mkAllocator {["ws://a" := 2]} 0) e.

Lemma rooms_unique_witness :
  roomNamesOf (turns [oneShard true (matchedJson ann bob); oneShard false (matchedJson ann bob);
    oneShard true (matchedJson eve dan)] emptyDb).2 = [JString "match-1"; JString "match-3"] ∧
  ∃ ks, roomNamesOf (turns [oneShard true (matchedJson ann bob); oneShard false (matchedJson ann bob);
    oneShard true (matchedJson eve dan)] emptyDb).2 = map (λ k, JString ("match-" +:+ showInt k)) ks ∧ NoDup ks.
Proof.
  split; [vm_compute; reflexivity|].
  refine (rooms_unique _ emptyDb (emptyRedis _) _). vm_compute. discriminate.
Defined.

(** A shard without rooms, an allocator that knows it, and the match above. *)
#[local] Existing Instance sorted_iter.
#[local] Instance nobody : UserStore unit :=
  {| login := λ _ _ u, (u, mkLogin false "" 0); updateElo := λ _ _ u, u |}.
Definition idleShard : Server unit := newServer "ws://a" tt.
Definition oneShardKnown : Allocator := mkAllocator {["ws://a" := 0]} 0.

Definition idlePick : string := pickLeastLoadedShard (map_to_list (shardLoad oneShardKnown)).
Definition firstRoom : string := "match-" +:+ showInt (0 + 1).

Lemma matched_pair_seated_witness :
  firstRoom = "match-1" ∧ idlePick = "ws://a" ∧
  let '(_, _, out) := onMatched map_to_list (askShard true "ws://a" idleShard) (matchedJson ann bob) oneShardKnown emptyDb in
  let v' := (doAllocate true "ws://a" (allocateJson firstRoom (mc_username ann) (mc_username bob)) idleShard).1.1 in
  (∃ data, out = [("matchmaking.assigned", data)] ∧ assigned_to ann bob firstRoom idlePick data) ∧
  ∀ js h, let r := arrivals firstRoom js (registry v') in
    roleOf h (joinRoom firstRoom h (mc_username ann) r).1 = White ∧
    roleOf h (joinRoom firstRoom h (mc_username bob) r).1 = Black.
Proof.
  assert (counterAt 0 emptyDb) as Hc by (exact (emptyRedis kRoomCounter)).
  assert (0 ≤ 0 < LLONG_MAX) as Hn by (split; [reflexivity|vm_compute; reflexivity]).
  assert (idlePick ≠ "") as Hs by (vm_compute; discriminate).
  assert (roomExists firstRoom (registry idleShard) = false) as Hr by (vm_compute; reflexivity).
  assert (mc_username ann ≠ "") as Ha by discriminate.
  assert (mc_username bob ≠ "") as Hb by discriminate.
  assert (mc_username ann ≠ mc_username bob) as Hab by discriminate.
  split; [vm_compute; reflexivity|]. split; [vm_compute; reflexivity|].
  exact (matched_pair_seated true "ws://a" map_to_list ann bob oneShardKnown emptyDb 0 idleShard Hc Hn Hs Hr Ha Hb Hab).
Defined.

(** A request without a name ends the shard's event loop, and the callback that
    carried it waits for ever; a handler's exception elsewhere is a refusal. *)
Example unreadable_request_ends_loop :
  ∃ what, (allocateHandle true "ws://a" (jObj []) idleShard).2 = LoopEnds what.
Proof. eexists. vm_compute. reflexivity. Qed.
